(** * The xv6 buffer cache with hashed buckets (kernel/bio.c)

    A shallow embedding of [kernel/bio.c]: the buffer pool, the thirteen
    bucket chains threaded through the [next] fields, the spinlocks and
    sleeplocks, and the functions [hash], [binit], [bget], [bread],
    [bwrite], [brelse], [bpin] and [bunpin].

    Pointers into [bcache.buf] are indices into the pool; the null pointer
    is [None].  A C function becomes a function from machine states to
    outcomes: it returns, panics, is left waiting on a lock, dereferences a
    pointer that designates no object, or never leaves a loop.

    The first two parts run each call from beginning to end.  The last
    part cuts the calls into their critical sections and lets the sections
    of different processes interleave. *)

From Stdlib Require Import ZArith String Lia.
From stdpp Require Import base list relations.

Local Open Scope Z_scope.

(** ** Machine integers *)

(** [uint] values are integers in [0, 2^32); arithmetic wraps around. *)
Definition wrap (z : Z) : Z := z mod 2 ^ 32.

Definition is_uint (z : Z) : Prop := 0 <= z < 2 ^ 32.

(** ** Constants *)

Definition NBUCKET : Z := 13.

(** ** Data *)

(** Modelled from the spec: [buf.h] is absent.  A slot has an identity
    ([dev], [blockno]), a validity flag, a reference count, a recency
    stamp, a chain link and a blocking lock; the payload bytes are opaque
    to the cache and left out.  The blocking lock (sleeplock.h is absent
    too) records its holder: [None] when free, [Some pid] when held. *)
Record buf := mkbuf {
  valid : Z;
  dev : Z;
  blockno : Z;
  lock : option nat;
  refcnt : Z;
  next : option nat;
  timestamp : Z
}.

(** [struct bucket]: a spinlock ([true] when held) and the sentinel [head],
    a whole [buf] of which only [next] is ever used. *)
Record bucket := mkbucket {
  bk_lock : bool;
  head : buf
}.

(** A [struct buf *] that is not null: a slot of the pool or the sentinel
    of a bucket ([prev_replace_buf] may be either). *)
Inductive ptr :=
| PBuf (i : nat)
| PHead (k : nat).

Inductive lockid :=
| EvictLock
| BucketLock (k : nat).

Inductive field := Fvalid | Fdev | Fblockno | Frefcnt | Fnext | Ftimestamp.

(** What a call does that other threads or the device can observe, in
    program order. *)
Inductive event :=
| EAcquire (l : lockid)
| ERelease (l : lockid)
| EAcquireSleep (b : nat)
| EReleaseSleep (b : nat)
| EStore (p : ptr) (f : field)
| EDiskRW (b : nat) (write : bool).

(** The global [bcache], the global [ticks] and the event log. *)
Record state := mkstate {
  evict_lock : bool;
  bufs : list buf;
  hashtable : list bucket;
  ticks : Z;
  trace : list event
}.

#[global] Instance ptr_eq_dec : EqDecision ptr.
Proof. solve_decision. Defined.
#[global] Instance lockid_eq_dec : EqDecision lockid.
Proof. solve_decision. Defined.
#[global] Instance field_eq_dec : EqDecision field.
Proof. solve_decision. Defined.
#[global] Instance event_eq_dec : EqDecision event.
Proof. solve_decision. Defined.

(** Field updates. *)
Definition set_valid (v : Z) (b : buf) : buf :=
  mkbuf v (dev b) (blockno b) (lock b) (refcnt b) (next b) (timestamp b).
Definition set_dev (v : Z) (b : buf) : buf :=
  mkbuf (valid b) v (blockno b) (lock b) (refcnt b) (next b) (timestamp b).
Definition set_blockno (v : Z) (b : buf) : buf :=
  mkbuf (valid b) (dev b) v (lock b) (refcnt b) (next b) (timestamp b).
Definition set_lock (v : option nat) (b : buf) : buf :=
  mkbuf (valid b) (dev b) (blockno b) v (refcnt b) (next b) (timestamp b).
Definition set_refcnt (v : Z) (b : buf) : buf :=
  mkbuf (valid b) (dev b) (blockno b) (lock b) v (next b) (timestamp b).
Definition set_next (v : option nat) (b : buf) : buf :=
  mkbuf (valid b) (dev b) (blockno b) (lock b) (refcnt b) v (timestamp b).
Definition set_timestamp (v : Z) (b : buf) : buf :=
  mkbuf (valid b) (dev b) (blockno b) (lock b) (refcnt b) (next b) v.

Definition set_bk_lock (v : bool) (bk : bucket) : bucket :=
  mkbucket v (head bk).
Definition set_head (f : buf -> buf) (bk : bucket) : bucket :=
  mkbucket (bk_lock bk) (f (head bk)).

Definition with_evict_lock (v : bool) (s : state) : state :=
  mkstate v (bufs s) (hashtable s) (ticks s) (trace s).
Definition with_bufs (v : list buf) (s : state) : state :=
  mkstate (evict_lock s) v (hashtable s) (ticks s) (trace s).
Definition with_hashtable (v : list bucket) (s : state) : state :=
  mkstate (evict_lock s) (bufs s) v (ticks s) (trace s).
Definition with_ticks (v : Z) (s : state) : state :=
  mkstate (evict_lock s) (bufs s) (hashtable s) v (trace s).
Definition emit (e : event) (s : state) : state :=
  mkstate (evict_lock s) (bufs s) (hashtable s) (ticks s) (trace s ++ [e]).

(** ** Outcomes and the state monad of kernel code *)

Inductive outcome (A : Type) :=
| Ret (a : A) (s : state)        (* returned [a] *)
| Panic (msg : string) (s : state) (* called [panic] *)
| Blocked (s : state)            (* waits for a lock someone holds *)
| Fault                          (* dereferenced null or a wild pointer *)
| Diverge.                       (* out of fuel: the loop does not end *)
Arguments Ret {A} a s.
Arguments Panic {A} msg s.
Arguments Blocked {A} s.
Arguments Fault {A}.
Arguments Diverge {A}.

Definition M (A : Type) : Type := state -> outcome A.

Definition ret {A} (a : A) : M A := fun s => Ret a s.

Definition bind {A B} (m : M A) (k : A -> M B) : M B :=
  fun s =>
    match m s with
    | Ret a s' => k a s'
    | Panic msg s' => Panic msg s'
    | Blocked s' => Blocked s'
    | Fault => Fault
    | Diverge => Diverge
    end.

Declare Scope kernel_scope.
Delimit Scope kernel_scope with K.
Notation "'let*' x ':=' m 'in' k" := (bind m (fun x => k))
  (at level 10, x name, m at level 100, k at level 200) : kernel_scope.
Notation "'let*' ' p ':=' m 'in' k" := (bind m (fun x => match x with p => k end))
  (at level 10, p pattern, m at level 100, k at level 200) : kernel_scope.
Notation "m >> k" := (bind m (fun _ => k))
  (at level 100, k at level 200, right associativity) : kernel_scope.
Local Open Scope kernel_scope.

Definition panic {A} (msg : string) : M A := fun s => Panic msg s.
Definition fault {A} : M A := fun _ => Fault.
Definition diverge {A} : M A := fun _ => Diverge.

(** ** Memory accesses *)

Definition deref (p : ptr) (s : state) : option buf :=
  match p with
  | PBuf i => bufs s !! i
  | PHead k => head <$> hashtable s !! k
  end.

(** Read the object [p] points to. *)
Definition load (p : ptr) : M buf :=
  fun s => match deref p s with Some b => Ret b s | None => Fault end.

(** Read through a pointer that may be null. *)
Definition load_buf (b : option nat) : M buf :=
  match b with
  | Some i => load (PBuf i)
  | None => fault
  end.

Definition poke (p : ptr) (upd : buf -> buf) (s : state) : state :=
  match p with
  | PBuf i => with_bufs (alter upd i (bufs s)) s
  | PHead k => with_hashtable (alter (set_head upd) k (hashtable s)) s
  end.

(** Write one field of the object [p] points to. *)
Definition store (p : ptr) (f : field) (upd : buf -> buf) : M unit :=
  fun s =>
    match deref p s with
    | Some _ => Ret tt (emit (EStore p f) (poke p upd s))
    | None => Fault
    end.

(** ** Locks *)

Definition held (l : lockid) (s : state) : option bool :=
  match l with
  | EvictLock => Some (evict_lock s)
  | BucketLock k => bk_lock <$> hashtable s !! k
  end.

Definition set_held (l : lockid) (v : bool) (s : state) : state :=
  match l with
  | EvictLock => with_evict_lock v s
  | BucketLock k => with_hashtable (alter (set_bk_lock v) k (hashtable s)) s
  end.

(** Modelled from the spec: [spinlock.c] is absent.  A short exclusion
    lock: taking a held one does not proceed. *)
Definition acquire (l : lockid) : M unit :=
  fun s =>
    match held l s with
    | Some false => Ret tt (emit (EAcquire l) (set_held l true s))
    | Some true => Blocked s
    | None => Fault
    end.

(** Modelled from the spec: [spinlock.c] is absent.  Releasing a lock
    that is not held is a contract fault. *)
Definition release (l : lockid) : M unit :=
  fun s =>
    match held l s with
    | Some true => Ret tt (emit (ERelease l) (set_held l false s))
    | Some false => Panic "release" s
    | None => Fault
    end.

Definition initlock (l : lockid) : M unit :=
  fun s =>
    match held l s with
    | Some _ => Ret tt (set_held l false s)
    | None => Fault
    end.

(** Modelled from the spec: [sleeplock.c] is absent.  A blocking lock with
    at most one holder, which it records; [me] is the calling process. *)
Definition initsleeplock (i : nat) : M unit :=
  fun s =>
    match bufs s !! i with
    | Some _ => Ret tt (with_bufs (alter (set_lock None) i (bufs s)) s)
    | None => Fault
    end.

Definition acquiresleep (me : nat) (i : nat) : M unit :=
  fun s =>
    match bufs s !! i with
    | Some b =>
        match lock b with
        | None => Ret tt (emit (EAcquireSleep i)
                            (with_bufs (alter (set_lock (Some me)) i (bufs s)) s))
        | Some _ => Blocked s
        end
    | None => Fault
    end.

Definition releasesleep (i : nat) : M unit :=
  fun s =>
    match bufs s !! i with
    | Some b => Ret tt (emit (EReleaseSleep i)
                          (with_bufs (alter (set_lock None) i (bufs s)) s))
    | None => Fault
    end.

Definition holdingsleep (me : nat) (i : nat) : M bool :=
  let* b := load (PBuf i) in
  ret (bool_decide (lock b = Some me)).

(** Modelled from the spec: the device driver is absent.  The transfer is
    synchronous and its only effect seen by the cache is that it took
    place. *)
Definition virtio_disk_rw (i : nat) (write : bool) : M unit :=
  fun s =>
    match bufs s !! i with
    | Some _ => Ret tt (emit (EDiskRW i write) s)
    | None => Fault
    end.

(** Read the global [ticks]. *)
Definition read_ticks : M Z := fun s => Ret (ticks s) s.

(** ** The cache *)

(** [int hash(uint dev, uint blockno)]: the sum is a [uint] sum. *)
Definition hash (dev blockno : Z) : Z := wrap (dev + blockno) mod NBUCKET.

(** A slot whose fields are all zero, as static storage is before
    [binit]. *)
Definition buf0 : buf := mkbuf 0 0 0 None 0 None 0.

Definition incr_refcnt (b : buf) : buf := set_refcnt (wrap (refcnt b + 1)) b.
Definition decr_refcnt (b : buf) : buf := set_refcnt (wrap (refcnt b - 1)) b.

Section Bio.

(** [param.h] is absent: the number of slots is a parameter. *)
Variable NBUF : nat.

(** The static storage of [bcache] and [ticks] before [binit] runs. *)
Definition zero_state : state :=
  mkstate false (replicate NBUF buf0)
          (replicate (Z.to_nat NBUCKET) (mkbucket false buf0)) 0 [].

(** [for (int i = 0; i < NBUCKET; i++) initlock(&bcache.hashtable[i].lock, name);]
    with [n] iterations left. *)
Fixpoint binit_locks (n i : nat) : M unit :=
  match n with
  | O => ret tt
  | S n' => initlock (BucketLock i) >> binit_locks n' (S i)
  end.

(** [for (int i = 0; i < NBUF; i++) { ...; b++; }] with [n] iterations
    left; [b] is [&bcache.buf[i]] throughout. *)
Fixpoint binit_bufs (n i : nat) : M unit :=
  match n with
  | O => ret tt
  | S n' =>
      initsleeplock i >>
      let bucket := (i mod Z.to_nat NBUCKET)%nat in
      let* hd := load (PHead bucket) in
      store (PBuf i) Fnext (set_next (next hd)) >>
      store (PHead bucket) Fnext (set_next (Some i)) >>
      binit_bufs n' (S i)
  end.

(** [binit]; the names given to the locks ([snprintf]) play no part in
    what the cache does and are left out. *)
Definition binit : M unit :=
  initlock EvictLock >>
  binit_locks (Z.to_nat NBUCKET) 0 >>
  binit_bufs NBUF 0.

(** [for (b = bucket->head.next; b; b = b->next)
       if (b->dev == dev && b->blockno == blockno) ...]:
    the slot the loop stops at, or null when it runs off the chain. *)
Fixpoint bget_lookup (fuel : nat) (d bn : Z) (b : option nat) : M (option nat) :=
  match b with
  | None => ret None
  | Some i =>
      match fuel with
      | O => diverge
      | S fuel' =>
          let* bb := load (PBuf i) in
          if (dev bb =? d) && (blockno bb =? bn) then ret (Some i)
          else bget_lookup fuel' d bn (next bb)
      end
  end.

(** [b->next->refcnt == 0 &&
     (!prev_replace_buf || b->next->timestamp < prev_replace_buf->next->timestamp)] *)
Definition bget_better (nb : buf) (prev_replace_buf : option ptr) : M bool :=
  if refcnt nb =? 0 then
    match prev_replace_buf with
    | None => ret true
    | Some p =>
        let* pb := load p in
        let* cb := load_buf (next pb) in
        ret (timestamp nb <? timestamp cb)
    end
  else ret false.

(** [for (b = &cur_bucket->head; b->next; b = b->next) { ... }]: the
    values of [found] and [prev_replace_buf] after the loop. *)
Fixpoint bget_scan_chain (fuel : nat) (b : ptr) (found : bool)
    (prev_replace_buf : option ptr) : M (bool * option ptr) :=
  let* bb := load b in
  match next bb with
  | None => ret (found, prev_replace_buf)
  | Some n =>
      match fuel with
      | O => diverge
      | S fuel' =>
          let* nb := load (PBuf n) in
          let* c := bget_better nb prev_replace_buf in
          if c then bget_scan_chain fuel' (PBuf n) true (Some b)
          else bget_scan_chain fuel' (PBuf n) found prev_replace_buf
      end
  end.

(** [for (cur_bucket = bcache.hashtable;
          cur_bucket < bcache.hashtable + NBUCKET; cur_bucket++) { ... }]
    with [n] iterations left: the values of [prev_replace_buf] and
    [prev_bucket] after the loop. *)
Fixpoint bget_scan (n : nat) (cur_bucket : nat)
    (prev_replace_buf : option ptr) (prev_bucket : option nat)
    : M (option ptr * option nat) :=
  match n with
  | O => ret (prev_replace_buf, prev_bucket)
  | S n' =>
      acquire (BucketLock cur_bucket) >>
      let* '(found, prev_replace_buf) :=
        bget_scan_chain NBUF (PHead cur_bucket) false prev_replace_buf in
      if negb found then
        release (BucketLock cur_bucket) >>
        bget_scan n' (S cur_bucket) prev_replace_buf prev_bucket
      else
        match prev_bucket with
        | Some pb => release (BucketLock pb)
        | None => ret tt
        end >>
        bget_scan n' (S cur_bucket) prev_replace_buf (Some cur_bucket)
  end.

(** [release(&prev_bucket->lock)] through a pointer that may be null. *)
Definition release_bucket (b : option nat) : M unit :=
  match b with
  | Some k => release (BucketLock k)
  | None => fault
  end.

(** Lines 149 to 173 of [bget]: from the panic check to the return. *)
Definition bget_recycle (me : nat) (d bn : Z) (index : nat)
    (prev_replace_buf : option ptr) (prev_bucket : option nat) : M nat :=
  match prev_replace_buf with
  | None => panic "bget: no buffers"
  | Some p =>
      let* pb := load p in
      match next pb with
      | None => fault
      | Some b =>
          (if bool_decide (prev_bucket <> Some index) then
             let* bb := load (PBuf b) in
             store p Fnext (set_next (next bb)) >>
             release_bucket prev_bucket >>
             acquire (BucketLock index) >>
             let* hd := load (PHead index) in
             store (PBuf b) Fnext (set_next (next hd)) >>
             store (PHead index) Fnext (set_next (Some b))
           else ret tt) >>
          store (PBuf b) Fdev (set_dev d) >>
          store (PBuf b) Fblockno (set_blockno bn) >>
          store (PBuf b) Frefcnt (set_refcnt 1) >>
          store (PBuf b) Fvalid (set_valid 0) >>
          release (BucketLock index) >>
          release EvictLock >>
          acquiresleep me b >>
          ret b
      end
  end.

Definition bget (me : nat) (d bn : Z) : M nat :=
  let index := Z.to_nat (hash d bn) in
  acquire (BucketLock index) >>
  let* hd := load (PHead index) in
  let* r := bget_lookup NBUF d bn (next hd) in
  match r with
  | Some b =>
      store (PBuf b) Frefcnt incr_refcnt >>
      release (BucketLock index) >>
      acquiresleep me b >>
      ret b
  | None =>
      release (BucketLock index) >>
      acquire EvictLock >>
      acquire (BucketLock index) >>
      let* hd := load (PHead index) in
      let* r := bget_lookup NBUF d bn (next hd) in
      match r with
      | Some b =>
          store (PBuf b) Frefcnt incr_refcnt >>
          release (BucketLock index) >>
          release EvictLock >>
          acquiresleep me b >>
          ret b
      | None =>
          release (BucketLock index) >>
          let* '(prev_replace_buf, prev_bucket) :=
            bget_scan (Z.to_nat NBUCKET) 0 None None in
          bget_recycle me d bn index prev_replace_buf prev_bucket
      end
  end.

(** Lines 184 to 188 of [bread]: load the payload unless it is valid. *)
Definition bread_fill (b : nat) : M nat :=
  let* bb := load (PBuf b) in
  (if valid bb =? 0 then
     virtio_disk_rw b false >>
     store (PBuf b) Fvalid (set_valid 1)
   else ret tt) >>
  ret b.

Definition bread (me : nat) (d bn : Z) : M nat :=
  let* b := bget me d bn in
  bread_fill b.

Definition bwrite (me : nat) (b : nat) : M unit :=
  let* h := holdingsleep me b in
  if negb h then panic "bwrite"
  else virtio_disk_rw b true.

Definition brelse (me : nat) (b : nat) : M unit :=
  let* h := holdingsleep me b in
  if negb h then panic "brelse"
  else
    releasesleep b >>
    let* bb := load (PBuf b) in
    let index := Z.to_nat (hash (dev bb) (blockno bb)) in
    acquire (BucketLock index) >>
    store (PBuf b) Frefcnt decr_refcnt >>
    let* bb := load (PBuf b) in
    (if refcnt bb =? 0 then
       let* t := read_ticks in
       store (PBuf b) Ftimestamp (set_timestamp t)
     else ret tt) >>
    release (BucketLock index).

Definition bpin (b : nat) : M unit :=
  let* bb := load (PBuf b) in
  let index := Z.to_nat (hash (dev bb) (blockno bb)) in
  acquire (BucketLock index) >>
  store (PBuf b) Frefcnt incr_refcnt >>
  release (BucketLock index).

Definition bunpin (b : nat) : M unit :=
  let* bb := load (PBuf b) in
  let index := Z.to_nat (hash (dev bb) (blockno bb)) in
  acquire (BucketLock index) >>
  store (PBuf b) Frefcnt decr_refcnt >>
  release (BucketLock index).

End Bio.

(** ** The abstract view: chains as lists of slots *)

(** [chain bs p l]: following [next] from [p] visits exactly the slots
    [l], in this order, and then reaches null. *)
Inductive chain (bs : list buf) : option nat -> list nat -> Prop :=
| chain_nil : chain bs None []
| chain_cons i b l :
    bs !! i = Some b -> chain bs (next b) l -> chain bs (Some i) (i :: l).

(** [cs] lists, bucket by bucket, the chain hanging off each sentinel. *)
Definition chains_of (s : state) (cs : list (list nat)) : Prop :=
  Forall2 (fun bk l => chain (bufs s) (next (head bk)) l) (hashtable s) cs.

(** Every slot of the pool is on exactly one chain. *)
Definition wf (NBUF : nat) (s : state) (cs : list (list nat)) : Prop :=
  length (bufs s) = NBUF /\
  length (hashtable s) = Z.to_nat NBUCKET /\
  chains_of s cs /\
  concat cs ≡ₚ seq 0 NBUF.

(** No spinlock is held: no call is inside [bget], [brelse], [bpin] or
    [bunpin]. *)
Definition quiescent (s : state) : Prop :=
  evict_lock s = false /\ Forall (fun bk => bk_lock bk = false) (hashtable s).

Definition has_id (bs : list buf) (d bn : Z) (i : nat) : bool :=
  match bs !! i with
  | Some b => (dev b =? d) && (blockno b =? bn)
  | None => false
  end.

(** The first slot of [l] that carries the identity [(d, bn)]. *)
Fixpoint find_id (bs : list buf) (d bn : Z) (l : list nat) : option nat :=
  match l with
  | [] => None
  | i :: l' => if has_id bs d bn i then Some i else find_id bs d bn l'
  end.

Definition refcnt_of (bs : list buf) (i : nat) : Z :=
  match bs !! i with Some b => refcnt b | None => 0 end.
Definition timestamp_of (bs : list buf) (i : nat) : Z :=
  match bs !! i with Some b => timestamp b | None => 0 end.

(** One step of the running champion: slot [n] displaces the champion
    when it is free and strictly older, or when there is none yet. *)
Definition pick (bs : list buf) (acc : option nat) (n : nat) : option nat :=
  if (refcnt_of bs n =? 0) &&
     match acc with
     | None => true
     | Some c => timestamp_of bs n <? timestamp_of bs c
     end
  then Some n else acc.

(** The champion after the scan has visited the slots [l] in order. *)
Definition champion (bs : list buf) (l : list nat) (acc : option nat) : option nat :=
  fold_left (pick bs) l acc.

(** The pointer the inner loop of the scan holds after it has walked over
    [l1] in bucket [k]: the sentinel, or the last slot of [l1]. *)
Definition last_ptr (k : nat) (l1 : list nat) : ptr :=
  match last l1 with
  | Some x => PBuf x
  | None => PHead k
  end.

(** ** Basic facts *)

Lemma bind_ret {A B} (m : M A) (k : A -> M B) s a s' :
  m s = Ret a s' -> bind m k s = k a s'.
Proof. intros H. unfold bind. now rewrite H. Qed.

Lemma wrap_small z : is_uint z -> wrap z = z.
Proof. unfold wrap, is_uint. intros H. now apply Z.mod_small. Qed.

Lemma hash_range d bn : 0 <= hash d bn < NBUCKET.
Proof. unfold hash, NBUCKET. apply Z.mod_pos_bound. lia. Qed.

Lemma hash_lt d bn : (Z.to_nat (hash d bn) < Z.to_nat NBUCKET)%nat.
Proof. pose proof (hash_range d bn). unfold NBUCKET in *. lia. Qed.

Lemma chain_det bs p l1 l2 : chain bs p l1 -> chain bs p l2 -> l1 = l2.
Proof.
  intros H. revert l2. induction H as [|i b l Hb _ IH]; intros l2 H2.
  - now inversion H2.
  - inversion H2 as [|i' b' l' Hb' Hc']; subst.
    rewrite Hb in Hb'. injection Hb' as <-. f_equal. now apply IH.
Qed.

Lemma chain_lookup bs p l i :
  chain bs p l -> i ∈ l -> is_Some (bs !! i).
Proof.
  induction 1 as [|j b l Hb _ IH]; intros Hi.
  - now apply elem_of_nil in Hi.
  - apply elem_of_cons in Hi as [->|Hi]; eauto.
Qed.

(** A chain only depends on the [next] fields of its own slots. *)
Lemma chain_ext bs bs' p l :
  chain bs p l ->
  (forall i, i ∈ l -> next <$> bs' !! i = next <$> bs !! i) ->
  chain bs' p l.
Proof.
  induction 1 as [|i b l Hb _ IH]; intros Hext.
  - constructor.
  - pose proof (Hext i ltac:(left)) as Hi. rewrite Hb in Hi. simpl in Hi.
    destruct (bs' !! i) as [b'|] eqn:Hb'; [|discriminate].
    simpl in Hi. injection Hi as Hi.
    apply chain_cons with b'; [assumption|]. rewrite Hi. apply IH.
    intros j Hj. apply Hext. now right.
Qed.

Lemma chain_alter_other bs f p l x :
  chain bs p l -> x ∉ l -> chain (alter f x bs) p l.
Proof.
  intros Hc Hx. apply (chain_ext _ _ _ _ Hc). intros i Hi.
  rewrite list_lookup_alter_ne; [reflexivity|]. intros ->. contradiction.
Qed.

Lemma chain_alter_same_next bs f p l x :
  chain bs p l -> (forall b, next (f b) = next b) -> chain (alter f x bs) p l.
Proof.
  intros Hc Hf. apply (chain_ext _ _ _ _ Hc). intros i _.
  destruct (decide (x = i)) as [->|Hne].
  - rewrite list_lookup_alter_eq. destruct (bs !! i); simpl; [|reflexivity].
    now rewrite Hf.
  - now rewrite list_lookup_alter_ne.
Qed.

(** The part of a chain after a prefix is the chain of the prefix's last
    link. *)
Lemma chain_app_inv bs p l1 l2 :
  chain bs p (l1 ++ l2) ->
  match last l1 with
  | None => chain bs p l2
  | Some x => exists xb, bs !! x = Some xb /\ chain bs (next xb) l2
  end.
Proof.
  revert p. induction l1 as [|a l1 IH]; intros p Hc; simpl in *.
  - assumption.
  - inversion Hc as [|i b l Hb Hc']; subst.
    specialize (IH _ Hc'). destruct l1 as [|a' l1]; simpl in *.
    + eauto.
    + destruct (last (a' :: l1)) eqn:E; [assumption|].
      apply last_None in E. discriminate.
Qed.

Lemma last_ptr_nil k : last_ptr k [] = PHead k.
Proof. reflexivity. Qed.

Lemma last_ptr_snoc k l x : last_ptr k (l ++ [x]) = PBuf x.
Proof. unfold last_ptr. now rewrite last_snoc. Qed.

(** The predecessor of a slot on a chain points to it. *)
Lemma pred_next s k bk l1 c l2 :
  hashtable s !! k = Some bk ->
  chain (bufs s) (next (head bk)) (l1 ++ c :: l2) ->
  exists pb cb, deref (last_ptr k l1) s = Some pb /\ next pb = Some c /\
    bufs s !! c = Some cb /\ chain (bufs s) (next cb) l2.
Proof.
  intros Hk Hc. apply chain_app_inv in Hc. unfold last_ptr.
  destruct (last l1) as [x|].
  - destruct Hc as (xb & Hx & Hc). inversion Hc as [|i b l Hb Hc' Hn]; subst.
    exists xb, b. simpl. auto.
  - inversion Hc as [|i b l Hb Hc' Hn]; subst.
    exists (head bk), b. simpl. rewrite Hk. auto.
Qed.

(** ** What the primitive actions do to the state *)

Definition heads (s : state) : list buf := head <$> hashtable s.

Lemma deref_emit p e s : deref p (emit e s) = deref p s.
Proof. now destruct p. Qed.

Lemma held_emit l e s : held l (emit e s) = held l s.
Proof. now destruct l. Qed.

Lemma deref_set_held p l v s : deref p (set_held l v s) = deref p s.
Proof.
  destruct p as [i|k], l as [|k']; simpl; try reflexivity.
  destruct (decide (k' = k)) as [->|Hne].
  - rewrite list_lookup_alter_eq. now destruct (hashtable s !! k).
  - now rewrite list_lookup_alter_ne.
Qed.

Lemma held_set_held_eq l v s :
  is_Some (held l s) -> held l (set_held l v s) = Some v.
Proof.
  destruct l as [|k]; simpl; [reflexivity|]. intros [x Hx].
  rewrite list_lookup_alter_eq. now destruct (hashtable s !! k).
Qed.

Lemma held_poke l p upd s : held l (poke p upd s) = held l s.
Proof.
  destruct l as [|k], p as [i|k']; simpl; try reflexivity.
  destruct (decide (k' = k)) as [->|Hne].
  - rewrite list_lookup_alter_eq. now destruct (hashtable s !! k).
  - now rewrite list_lookup_alter_ne.
Qed.

Lemma deref_poke_eq p upd s : deref p (poke p upd s) = upd <$> deref p s.
Proof.
  destruct p as [i|k]; simpl; rewrite list_lookup_alter_eq.
  - reflexivity.
  - now destruct (hashtable s !! k).
Qed.

Lemma deref_poke_ne p p' upd s : p <> p' -> deref p' (poke p upd s) = deref p' s.
Proof.
  destruct p as [i|k], p' as [i'|k']; simpl; try reflexivity; intros Hne;
    (rewrite list_lookup_alter_ne; [reflexivity|congruence]).
Qed.

Lemma heads_emit e s : heads (emit e s) = heads s.
Proof. reflexivity. Qed.

Lemma heads_set_held l v s : heads (set_held l v s) = heads s.
Proof.
  destruct l as [|k]; [reflexivity|]. unfold heads. simpl.
  apply list_eq. intros j. rewrite !list_lookup_fmap.
  destruct (decide (k = j)) as [->|Hne].
  - rewrite list_lookup_alter_eq. now destruct (hashtable s !! j).
  - now rewrite list_lookup_alter_ne.
Qed.

Lemma bufs_emit e s : bufs (emit e s) = bufs s.
Proof. reflexivity. Qed.

Lemma bufs_poke_buf i upd s : bufs (poke (PBuf i) upd s) = alter upd i (bufs s).
Proof. reflexivity. Qed.

Lemma bufs_poke_head k upd s : bufs (poke (PHead k) upd s) = bufs s.
Proof. reflexivity. Qed.

Lemma hashtable_emit e s : hashtable (emit e s) = hashtable s.
Proof. reflexivity. Qed.

Lemma ticks_emit e s : ticks (emit e s) = ticks s.
Proof. reflexivity. Qed.

Lemma ticks_set_held l v s : ticks (set_held l v s) = ticks s.
Proof. now destruct l. Qed.

Lemma ticks_poke p upd s : ticks (poke p upd s) = ticks s.
Proof. now destruct p. Qed.

Lemma bufs_set_held l v s : bufs (set_held l v s) = bufs s.
Proof. now destruct l. Qed.

Lemma evict_lock_poke p upd s : evict_lock (poke p upd s) = evict_lock s.
Proof. now destruct p. Qed.

Lemma length_hashtable_set_held l v s :
  length (hashtable (set_held l v s)) = length (hashtable s).
Proof. destruct l; simpl; [reflexivity|apply length_alter]. Qed.

Lemma length_hashtable_poke p upd s :
  length (hashtable (poke p upd s)) = length (hashtable s).
Proof. destruct p; simpl; [reflexivity|apply length_alter]. Qed.

Lemma length_bufs_poke p upd s :
  length (bufs (poke p upd s)) = length (bufs s).
Proof. destruct p; simpl; [apply length_alter|reflexivity]. Qed.

Lemma acquire_ok l s :
  held l s = Some false ->
  acquire l s = Ret tt (emit (EAcquire l) (set_held l true s)).
Proof. intros H. unfold acquire. now rewrite H. Qed.

Lemma release_ok l s :
  held l s = Some true ->
  release l s = Ret tt (emit (ERelease l) (set_held l false s)).
Proof. intros H. unfold release. now rewrite H. Qed.

Lemma load_ok p s b : deref p s = Some b -> load p s = Ret b s.
Proof. intros H. unfold load. now rewrite H. Qed.

Lemma store_ok p f upd s :
  is_Some (deref p s) ->
  store p f upd s = Ret tt (emit (EStore p f) (poke p upd s)).
Proof. intros [b H]. unfold store. now rewrite H. Qed.

(** [locks_are s f]: bucket [k]'s lock is held exactly when [f k]. *)
Definition locks_are (s : state) (f : nat -> bool) : Prop :=
  forall k bk, hashtable s !! k = Some bk -> bk_lock bk = f k.

(** Of the bucket locks, exactly the one of bucket [o] is held, or none
    when [o] is null. *)
Definition only_held (s : state) (o : option nat) : Prop :=
  locks_are s (fun k => bool_decide (o = Some k)).

Lemma quiescent_only_held s :
  quiescent s <-> evict_lock s = false /\ only_held s None.
Proof.
  unfold quiescent, only_held, locks_are. rewrite Forall_lookup. split.
  - intros [He Hf]. split; [assumption|]. intros k bk Hk.
    rewrite (Hf _ _ Hk). reflexivity.
  - intros [He Hf]. split; [assumption|]. intros k bk Hk.
    rewrite (Hf _ _ Hk). reflexivity.
Qed.

Lemma locks_are_held s f k :
  locks_are s f -> (k < length (hashtable s))%nat ->
  held (BucketLock k) s = Some (f k).
Proof.
  intros Ho Hk. simpl. destruct (lookup_lt_is_Some_2 _ _ Hk) as [bk Hbk].
  rewrite Hbk. simpl. now rewrite (Ho _ _ Hbk).
Qed.

Lemma locks_are_set s f k v g :
  locks_are s f ->
  (forall j, j <> k -> g j = f j) -> g k = v ->
  locks_are (set_held (BucketLock k) v s) g.
Proof.
  intros Ho Hj Hk j bk. simpl. destruct (decide (k = j)) as [->|Hne].
  - rewrite list_lookup_alter_eq. destruct (hashtable s !! j); simpl; [|discriminate].
    intros [= <-]. simpl. now rewrite Hk.
  - rewrite list_lookup_alter_ne by assumption. intros Hb.
    rewrite (Ho _ _ Hb). symmetry. apply Hj. congruence.
Qed.

Lemma locks_are_set_evict s f v :
  locks_are s f -> locks_are (set_held EvictLock v s) f.
Proof. intros Ho. exact Ho. Qed.

Lemma locks_are_emit s f e : locks_are s f -> locks_are (emit e s) f.
Proof. intros Ho. exact Ho. Qed.

Lemma locks_are_poke s f p upd : locks_are s f -> locks_are (poke p upd s) f.
Proof.
  intros Ho k bk. destruct p as [i|k']; simpl; [apply Ho|].
  destruct (decide (k' = k)) as [->|Hne].
  - rewrite list_lookup_alter_eq. destruct (hashtable s !! k) eqn:E; simpl; [|discriminate].
    intros [= <-]. simpl. now apply Ho.
  - rewrite list_lookup_alter_ne by assumption. apply Ho.
Qed.

Lemma chains_of_ext s s' cs :
  chains_of s cs -> bufs s' = bufs s -> heads s' = heads s -> chains_of s' cs.
Proof.
  unfold chains_of, heads. intros Hc Hb Hh. rewrite Hb.
  apply Forall2_same_length_lookup. split.
  - rewrite <- (Forall2_length _ _ _ Hc).
    rewrite <- (length_fmap head (hashtable s')), Hh. apply length_fmap.
  - intros i bk' l Hi Hl.
    assert (Hhd : (head <$> hashtable s) !! i = Some (head bk')).
    { rewrite <- Hh, list_lookup_fmap, Hi. reflexivity. }
    rewrite list_lookup_fmap in Hhd.
    destruct (hashtable s !! i) as [bk|] eqn:Hbk; [|discriminate].
    simpl in Hhd. injection Hhd as Hhd. rewrite <- Hhd.
    destruct (Forall2_lookup_l _ _ _ _ _ Hc Hbk) as (l' & Hl' & Hch).
    congruence.
Qed.

Lemma chains_of_lookup s cs k bk :
  chains_of s cs -> hashtable s !! k = Some bk ->
  exists l, cs !! k = Some l /\ chain (bufs s) (next (head bk)) l.
Proof. intros Hc Hk. apply (Forall2_lookup_l _ _ _ _ _ Hc Hk). Qed.

(** ** The loops of [bget] *)

(** The lookup loop returns the first slot of the chain that carries the
    identity. *)
Lemma bget_lookup_spec s d bn p l :
  chain (bufs s) p l ->
  forall fuel, (length l <= fuel)%nat ->
  bget_lookup fuel d bn p s = Ret (find_id (bufs s) d bn l) s.
Proof.
  induction 1 as [|i b l Hb _ IH]; intros fuel Hfuel.
  - now destruct fuel.
  - destruct fuel as [|fuel]; simpl in Hfuel; [lia|].
    simpl. rewrite (bind_ret _ _ _ _ _ (load_ok (PBuf i) s b Hb)).
    unfold has_id. rewrite Hb.
    destruct ((dev b =? d) && (blockno b =? bn)); [reflexivity|].
    apply IH. lia.
Qed.

(** [prev_replace_buf] designates the champion [acc]: both are null, or
    the pointer is the champion's predecessor. *)
Definition champ_ok (s : state) (prb : option ptr) (acc : option nat) : Prop :=
  match prb, acc with
  | None, None => True
  | Some p, Some c =>
      (exists pb, deref p s = Some pb /\ next pb = Some c) /\ is_Some (bufs s !! c)
  | _, _ => False
  end.

Lemma bget_better_spec s prb acc n nb :
  champ_ok s prb acc -> bufs s !! n = Some nb ->
  exists c, bget_better nb prb s = Ret c s /\
    pick (bufs s) acc n = if c then Some n else acc.
Proof.
  intros Hok Hn. unfold bget_better, pick, refcnt_of, timestamp_of. rewrite Hn.
  destruct (refcnt nb =? 0); simpl; [|now exists false].
  destruct prb as [p|], acc as [c|]; simpl in Hok; try contradiction.
  - destruct Hok as [(pb & Hp & Hnext) [cb Hc]].
    rewrite (bind_ret _ _ _ _ _ (load_ok p s pb Hp)). rewrite Hnext. simpl.
    rewrite (bind_ret _ _ _ _ _ (load_ok (PBuf c) s cb Hc)). rewrite Hc.
    now exists (timestamp nb <? timestamp cb).
  - now exists true.
Qed.

Lemma champion_cons bs n l acc :
  champion bs (n :: l) acc = champion bs l (pick bs acc n).
Proof. reflexivity. Qed.

Lemma champion_app bs l1 l2 acc :
  champion bs (l1 ++ l2) acc = champion bs l2 (champion bs l1 acc).
Proof. apply fold_left_app. Qed.

(** The inner loop of the scan, started after the prefix [l1] of the
    chain [l] of bucket [k]: it computes the champion over the rest of the
    chain, and when it raises [found] it leaves in [prev_replace_buf] the
    predecessor of the new champion. *)
Lemma bget_scan_chain_spec s k bk l :
  hashtable s !! k = Some bk ->
  chain (bufs s) (next (head bk)) l ->
  forall l2 l1 fuel found prb acc,
  l = l1 ++ l2 -> (length l2 <= fuel)%nat -> champ_ok s prb acc ->
  exists found' prb',
    bget_scan_chain fuel (last_ptr k l1) found prb s = Ret (found', prb') s /\
    champ_ok s prb' (champion (bufs s) l2 acc) /\
    ((found' = found /\ prb' = prb /\ champion (bufs s) l2 acc = acc) \/
     (found' = true /\ exists la c lb,
        l = la ++ c :: lb /\ prb' = Some (last_ptr k la) /\
        champion (bufs s) l2 acc = Some c)).
Proof.
  intros Hk Hchain. induction l2 as [|n l2 IH]; intros l1 fuel found prb acc Hl Hfuel Hok.
  - subst l. pose proof (chain_app_inv _ _ _ _ Hchain) as Hend.
    assert (Hp : exists pb, deref (last_ptr k l1) s = Some pb /\ next pb = None).
    { unfold last_ptr. destruct (last l1) as [x|].
      - destruct Hend as (xb & Hx & Hc). inversion Hc. now exists xb.
      - inversion Hend. exists (head bk). simpl. now rewrite Hk. }
    destruct Hp as (pb & Hp & Hnone).
    exists found, prb. split; [|split; [exact Hok|left; auto]].
    destruct fuel; simpl;
      rewrite (bind_ret _ _ _ _ _ (load_ok _ s pb Hp)), Hnone; reflexivity.
  - subst l. destruct (pred_next _ _ _ _ _ _ Hk Hchain) as (pb & nb & Hp & Hnext & Hn & _).
    destruct fuel as [|fuel]; simpl in Hfuel; [lia|].
    destruct (bget_better_spec s prb acc n nb Hok Hn) as (c & Hbetter & Hpick).
    simpl bget_scan_chain.
    rewrite (bind_ret _ _ _ _ _ (load_ok _ s pb Hp)), Hnext.
    rewrite (bind_ret _ _ _ _ _ (load_ok (PBuf n) s nb Hn)).
    rewrite (bind_ret _ _ _ _ _ Hbetter).
    rewrite champion_cons, Hpick.
    assert (Hl' : l1 ++ n :: l2 = (l1 ++ [n]) ++ l2) by now rewrite <- app_assoc.
    rewrite <- (last_ptr_snoc k l1 n).
    destruct c.
    + destruct (IH (l1 ++ [n]) fuel true (Some (last_ptr k l1)) (Some n) Hl' ltac:(lia))
        as (found' & prb' & Hrun & Hok' & Hres).
      { simpl. split; [now exists pb|now exists nb]. }
      exists found', prb'. split; [exact Hrun|]. split; [exact Hok'|]. right.
      destruct Hres as [(-> & -> & Hch)|(-> & la & c & lb & Hla & -> & Hch)].
      * split; [reflexivity|]. exists l1, n, l2. auto.
      * split; [reflexivity|]. exists la, c, lb. auto.
    + destruct (IH (l1 ++ [n]) fuel found prb acc Hl' ltac:(lia) Hok)
        as (found' & prb' & Hrun & Hok' & Hres).
      exists found', prb'. split; [exact Hrun|]. split; [exact Hok'|].
      destruct Hres as [?|(-> & la & c & lb & Hla & -> & Hch)]; [now left|right].
      split; [reflexivity|]. exists la, c, lb. auto.
Qed.

(** What the outer loop of the scan maintains when it is about to visit
    bucket [j]: the champion over the chains of the buckets before [j],
    its predecessor in [prev_replace_buf], its bucket in [prev_bucket],
    and that bucket's lock as the only bucket lock held. *)
Definition scan_inv (s : state) (cs : list (list nat)) (j : nat)
    (prb : option ptr) (pbk : option nat) : Prop :=
  only_held s pbk /\
  match champion (bufs s) (concat (take j cs)) None with
  | None => prb = None /\ pbk = None
  | Some c => exists k la lb,
      pbk = Some k /\ (k < j)%nat /\ cs !! k = Some (la ++ c :: lb) /\
      prb = Some (last_ptr k la)
  end.

Lemma scan_inv_champ_ok s cs j prb pbk :
  chains_of s cs -> scan_inv s cs j prb pbk ->
  champ_ok s prb (champion (bufs s) (concat (take j cs)) None).
Proof.
  intros Hcs [_ Hinv]. destruct (champion _ _ _) as [c|].
  - destruct Hinv as (k & la & lb & -> & _ & Hk & ->).
    destruct (Forall2_lookup_r _ _ _ _ _ Hcs Hk) as (bk & Hbk & Hchain).
    destruct (pred_next _ _ _ _ _ _ Hbk Hchain) as (pb & cb & Hp & Hn & Hc & _).
    simpl. split; [now exists pb|now exists cb].
  - destruct Hinv as [-> ->]. exact I.
Qed.

Lemma concat_take_S (cs : list (list nat)) j l :
  cs !! j = Some l -> concat (take (S j) cs) = concat (take j cs) ++ l.
Proof.
  intros Hj. rewrite (take_S_r _ _ _ Hj), concat_app. simpl.
  now rewrite app_nil_r.
Qed.

Section Scan.

Variable NBUF : nat.

(** The scan over the buckets [j], [j+1], ... leaves memory alone, ends
    with the champion over all chains, and holds the lock of the
    champion's bucket alone. *)
Lemma bget_scan_spec cs :
  (forall k l, cs !! k = Some l -> (length l <= NBUF)%nat) ->
  forall n j prb pbk s,
  (n + j = Z.to_nat NBUCKET)%nat ->
  length (hashtable s) = Z.to_nat NBUCKET ->
  chains_of s cs ->
  scan_inv s cs j prb pbk ->
  exists prb' pbk' s',
    bget_scan NBUF n j prb pbk s = Ret (prb', pbk') s' /\
    bufs s' = bufs s /\ heads s' = heads s /\
    evict_lock s' = evict_lock s /\ ticks s' = ticks s /\
    length (hashtable s') = Z.to_nat NBUCKET /\
    scan_inv s' cs (Z.to_nat NBUCKET) prb' pbk'.
Proof.
  intros Hlen. induction n as [|n IH]; intros j prb pbk s Hnj Hht Hcs Hinv.
  - simpl in Hnj. subst j. exists prb, pbk, s. simpl. auto 10.
  - pose proof (scan_inv_champ_ok _ _ _ _ _ Hcs Hinv) as Hok.
    destruct Hinv as [Hlocks Hinv].
    remember (champion (bufs s) (concat (take j cs)) None) as acc eqn:Hacc.
    assert (Hj : (j < length (hashtable s))%nat) by lia.
    assert (Hpbk : bool_decide (pbk = Some j) = false).
    { apply bool_decide_eq_false. intros ->. destruct acc.
      - destruct Hinv as (k & la & lb & [= <-] & Hlt & _). lia.
      - now destruct Hinv. }
    (* acquire(&cur_bucket->lock) *)
    assert (Hacq : held (BucketLock j) s = Some false).
    { rewrite (locks_are_held _ _ _ Hlocks Hj). now rewrite Hpbk. }
    set (s1 := emit (EAcquire (BucketLock j)) (set_held (BucketLock j) true s)).
    assert (Hb1 : bufs s1 = bufs s) by reflexivity.
    assert (Hh1 : heads s1 = heads s) by apply heads_set_held.
    assert (Hcs1 : chains_of s1 cs) by now apply (chains_of_ext s).
    assert (Hht1 : length (hashtable s1) = Z.to_nat NBUCKET).
    { unfold s1. simpl. now rewrite length_alter. }
    assert (Hlocks1 : locks_are s1
              (fun x => if decide (x = j) then true else bool_decide (pbk = Some x))).
    { apply locks_are_emit. eapply locks_are_set; [exact Hlocks| |].
      - intros x Hx. cbv beta. destruct (decide (x = j)); [contradiction|reflexivity].
      - cbv beta. destruct (decide (j = j)); [reflexivity|contradiction]. }
    destruct (lookup_lt_is_Some_2 (hashtable s1) j ltac:(lia)) as [bk Hbk].
    destruct (chains_of_lookup _ _ _ _ Hcs1 Hbk) as (l & Hl & Hchain).
    assert (Hok1 : champ_ok s1 prb acc).
    { unfold champ_ok in *. destruct prb as [p|], acc as [c|]; try exact Hok.
      unfold s1. rewrite deref_emit, deref_set_held. exact Hok. }
    destruct (bget_scan_chain_spec s1 j bk l Hbk Hchain l [] NBUF false prb acc
                eq_refl (Hlen _ _ Hl) Hok1)
      as (found' & prb' & Hrun & Hok' & Hres).
    rewrite last_ptr_nil in Hrun.
    simpl bget_scan.
    rewrite (bind_ret _ _ _ _ _ (acquire_ok _ _ Hacq)). fold s1.
    rewrite (bind_ret _ _ _ _ _ Hrun).
    assert (Hchamp : champion (bufs s) (concat (take (S j) cs)) None
                     = champion (bufs s) l acc).
    { now rewrite (concat_take_S _ _ _ Hl), champion_app, <- Hacc. }
    destruct Hres as [(-> & -> & Hsame)|(-> & la & c & lb & Hla & -> & Hnew)];
      unfold negb; cbv iota.
    + (* nothing better in this bucket: release(&cur_bucket->lock) *)
      assert (Hrel : held (BucketLock j) s1 = Some true).
      { rewrite (locks_are_held _ _ _ Hlocks1) by lia.
        destruct (decide (j = j)); [reflexivity|contradiction]. }
      rewrite (bind_ret _ _ _ _ _ (release_ok _ _ Hrel)).
      set (s2 := emit (ERelease (BucketLock j)) (set_held (BucketLock j) false s1)).
      assert (Hb2 : bufs s2 = bufs s) by reflexivity.
      assert (He2 : evict_lock s2 = evict_lock s) by reflexivity.
      assert (Ht2 : ticks s2 = ticks s) by reflexivity.
      assert (Hh2 : heads s2 = heads s).
      { unfold s2. now rewrite heads_emit, heads_set_held. }
      destruct (IH (S j) prb pbk s2) as (prb'' & pbk'' & s' & Hrun' & Hb' & Hh' & He' & Ht' & Hht' & Hinv').
      * lia.
      * unfold s2. simpl. now rewrite length_alter.
      * now apply (chains_of_ext s).
      * split.
        -- apply locks_are_emit. eapply locks_are_set; [exact Hlocks1| |].
           ++ intros x Hx. cbv beta. destruct (decide (x = j)); [contradiction|reflexivity].
           ++ exact Hpbk.
        -- rewrite Hb2, Hchamp. rewrite Hb1 in Hsame. rewrite Hsame.
           destruct acc; [|exact Hinv].
           destruct Hinv as (k & la & lb & ? & ? & ? & ?).
           exists k, la, lb. repeat split; try assumption. lia.
      * exists prb'', pbk'', s'. split; [exact Hrun'|].
        repeat (split; [congruence|]). exact Hinv'.
    + (* a better slot in this bucket: release the lock held before *)
      set (m := match pbk with Some pb => release (BucketLock pb) | None => ret tt end).
      assert (Hm : exists s2, m s1 = Ret tt s2 /\ bufs s2 = bufs s /\ heads s2 = heads s /\
                   evict_lock s2 = evict_lock s /\ ticks s2 = ticks s /\
                   length (hashtable s2) = Z.to_nat NBUCKET /\
                   only_held s2 (Some j)).
      { unfold m. destruct pbk as [pb|].
        - assert (Hpb : (pb < j)%nat).
          { destruct acc; [|now destruct Hinv].
            destruct Hinv as (k & ? & ? & [= <-] & ? & _). assumption. }
          assert (Hrel : held (BucketLock pb) s1 = Some true).
          { rewrite (locks_are_held _ _ _ Hlocks1) by lia.
            destruct (decide (pb = j)); [reflexivity|].
            now rewrite bool_decide_eq_true_2. }
          rewrite (release_ok _ _ Hrel). eexists. split; [reflexivity|].
          rewrite heads_emit, heads_set_held. simpl. rewrite length_alter.
          repeat split; try assumption.
          apply locks_are_emit. eapply locks_are_set; [exact Hlocks1| |].
          + intros x Hx. cbv beta. destruct (decide (x = j)) as [->|Hxj].
            * now rewrite bool_decide_eq_true_2.
            * rewrite !bool_decide_eq_false_2 by congruence. reflexivity.
          + apply bool_decide_eq_false_2. intros [= ->]. lia.
        - exists s1. repeat split; try assumption.
          intros x bx Hx. rewrite (Hlocks1 _ _ Hx).
          destruct (decide (x = j)) as [->|Hxj].
          + now rewrite bool_decide_eq_true_2.
          + rewrite !bool_decide_eq_false_2 by congruence. reflexivity. }
      destruct Hm as (s2 & Hm & Hb2 & Hh2 & He2 & Ht2 & Hht2 & Hlocks2).
      rewrite (bind_ret _ _ _ _ _ Hm).
      destruct (IH (S j) (Some (last_ptr j la)) (Some j) s2)
        as (prb'' & pbk'' & s' & Hrun' & Hb' & Hh' & He' & Ht' & Hht' & Hinv').
      * lia.
      * exact Hht2.
      * now apply (chains_of_ext s).
      * split; [exact Hlocks2|].
        rewrite Hb2, Hchamp. rewrite Hb1 in Hnew. rewrite Hnew.
        exists j, la, lb. repeat split; [lia|congruence].
      * exists prb'', pbk'', s'. split; [exact Hrun'|].
        repeat (split; [congruence|]). exact Hinv'.
Qed.

End Scan.

(** ** Relinking a slot *)

(** [chain_at s k l]: the chain of bucket [k] is [l]. *)
Definition chain_at (s : state) (k : nat) (l : list nat) : Prop :=
  exists hd, deref (PHead k) s = Some hd /\ chain (bufs s) (next hd) l.

Lemma chains_of_chain_at s cs :
  chains_of s cs <->
  length (hashtable s) = length cs /\
  forall k l, cs !! k = Some l -> chain_at s k l.
Proof.
  unfold chains_of, chain_at. rewrite Forall2_same_length_lookup. simpl.
  split; intros [Hlen H]; (split; [exact Hlen|]).
  - intros k l Hl.
    destruct (lookup_lt_is_Some_2 (hashtable s) k) as [bk Hbk].
    { rewrite Hlen. now apply lookup_lt_Some in Hl. }
    exists (head bk). rewrite Hbk. split; [reflexivity|]. now apply (H k).
  - intros k bk l Hbk Hl. destruct (H k l Hl) as (hd & Hhd & Hc).
    rewrite Hbk in Hhd. simpl in Hhd. now injection Hhd as <-.
Qed.

(** A store that leaves [next] alone leaves every chain alone. *)
Lemma chain_at_poke_same_next s k l p upd :
  (forall b, next (upd b) = next b) ->
  chain_at s k l -> chain_at (poke p upd s) k l.
Proof.
  intros Hupd (hd & Hhd & Hc). destruct (decide (p = PHead k)) as [->|Hne].
  - exists (upd hd). rewrite deref_poke_eq, Hhd. split; [reflexivity|].
    now rewrite Hupd.
  - exists hd. rewrite deref_poke_ne by assumption. split; [assumption|].
    destruct p as [i|k']; [|exact Hc]. simpl. now apply chain_alter_same_next.
Qed.

(** A store outside bucket [k] leaves the chain of [k] alone. *)
Lemma chain_at_poke_frame s k l p upd :
  chain_at s k l -> p <> PHead k -> (forall x, p = PBuf x -> x ∉ l) ->
  chain_at (poke p upd s) k l.
Proof.
  intros (hd & Hhd & Hc) Hne Hnotin. exists hd.
  rewrite deref_poke_ne by assumption. split; [assumption|].
  destruct p as [i|k']; [|exact Hc]. simpl. apply chain_alter_other; auto.
Qed.

Lemma chain_unlink bs q la x c lb cb :
  chain bs q (la ++ x :: c :: lb) -> NoDup (la ++ x :: c :: lb) ->
  bs !! c = Some cb ->
  chain (alter (set_next (next cb)) x bs) q (la ++ x :: lb).
Proof.
  revert q. induction la as [|a la IH]; intros q Hc Hnd Hcb; simpl in *.
  - inversion Hc as [|i xb l Hx Hc1]; subst.
    inversion Hc1 as [|i cb' l Hcb' Hc2 Hnext]; subst.
    rewrite Hcb in Hcb'. injection Hcb' as <-.
    apply NoDup_cons in Hnd as [Hx1 Hnd].
    apply chain_cons with (set_next (next cb) xb).
    + now rewrite list_lookup_alter_eq, Hx.
    + simpl. apply chain_alter_other; [assumption|]. intros Hin. apply Hx1. now right.
  - inversion Hc as [|i ab l Ha Hc1]; subst.
    apply NoDup_cons in Hnd as [Ha1 Hnd].
    apply chain_cons with ab.
    + rewrite list_lookup_alter_ne; [assumption|]. intros ->. apply Ha1.
      apply elem_of_app. right. left.
    + now apply IH.
Qed.

(** [prev_replace_buf->next = b->next] takes the champion [c] off its
    chain. *)
Lemma chain_at_unlink s k la c lb cb :
  chain_at s k (la ++ c :: lb) -> NoDup (la ++ c :: lb) ->
  bufs s !! c = Some cb ->
  chain_at (poke (last_ptr k la) (set_next (next cb)) s) k (la ++ lb).
Proof.
  intros (hd & Hhd & Hc) Hnd Hcb.
  destruct la as [|a la _] using rev_ind.
  - rewrite last_ptr_nil. exists (set_next (next cb) hd).
    rewrite deref_poke_eq, Hhd. split; [reflexivity|]. simpl in *.
    inversion Hc as [|i cb' l Hcb' Hc2]; subst.
    rewrite Hcb in Hcb'. now injection Hcb' as <-.
  - rewrite last_ptr_snoc. exists hd.
    rewrite deref_poke_ne by discriminate. split; [assumption|]. simpl.
    rewrite <- app_assoc in *. simpl in *. now apply chain_unlink with c.
Qed.

(** [bucket->head.next = b], after [b->next] was pointed at the old first
    slot, puts [b] at the head of the chain. *)
Lemma chain_at_push s h lh c cb :
  is_Some (deref (PHead h) s) ->
  bufs s !! c = Some cb -> chain (bufs s) (next cb) lh ->
  chain_at (poke (PHead h) (set_next (Some c)) s) h (c :: lh).
Proof.
  intros [hd Hhd] Hcb Hc. exists (set_next (Some c) hd).
  rewrite deref_poke_eq, Hhd. split; [reflexivity|]. simpl.
  now apply chain_cons with cb.
Qed.

(** ** The slots apart from their links *)

Definition strip (b : buf) : buf := set_next None b.

(** The pool with the links blanked: what the chains do not say. *)
Definition data (s : state) : list buf := strip <$> bufs s.

Lemma data_emit e s : data (emit e s) = data s.
Proof. reflexivity. Qed.

Lemma data_set_held l v s : data (set_held l v s) = data s.
Proof. unfold data. now rewrite bufs_set_held. Qed.

Lemma list_fmap_alter_comm {A B} (f : A -> B) (g : A -> A) (g' : B -> B) i (l : list A) :
  (forall x, f (g x) = g' (f x)) -> f <$> alter g i l = alter g' i (f <$> l).
Proof.
  intros H. apply list_eq. intros j. rewrite list_lookup_fmap.
  destruct (decide (i = j)) as [->|Hne].
  - rewrite !list_lookup_alter_eq, list_lookup_fmap.
    destruct (l !! j); simpl; [|reflexivity]. now rewrite H.
  - rewrite !list_lookup_alter_ne by assumption. now rewrite list_lookup_fmap.
Qed.

Lemma data_poke_next p v s : data (poke p (set_next v) s) = data s.
Proof.
  destruct p as [i|k]; [|reflexivity]. unfold data. simpl.
  rewrite (list_fmap_alter_comm strip (set_next v) id).
  - now apply list_alter_id.
  - now intros [].
Qed.

Lemma data_poke_buf i upd s :
  (forall b, strip (upd b) = upd (strip b)) ->
  data (poke (PBuf i) upd s) = alter upd i (data s).
Proof. intros H. unfold data. simpl. now apply list_fmap_alter_comm. Qed.

Lemma has_id_data s d bn i : has_id (data s) d bn i = has_id (bufs s) d bn i.
Proof.
  unfold has_id, data. rewrite list_lookup_fmap. now destruct (bufs s !! i).
Qed.

Lemma find_id_data s d bn l : find_id (data s) d bn l = find_id (bufs s) d bn l.
Proof. induction l as [|i l IH]; simpl; [reflexivity|]. now rewrite has_id_data, IH. Qed.

(** ** Every slot on exactly one chain *)

Lemma elem_of_concat (cs : list (list nat)) x :
  x ∈ concat cs <-> exists k l, cs !! k = Some l /\ x ∈ l.
Proof.
  induction cs as [|l0 cs IH]; simpl.
  - split; [intros H; now apply elem_of_nil in H|intros (k & l & Hk & _); discriminate].
  - rewrite elem_of_app, IH. split.
    + intros [H|(k & l & Hk & Hx)]; [now exists 0%nat, l0|now exists (S k), l].
    + intros ([|k] & l & Hk & Hx); simpl in Hk.
      * injection Hk as <-. now left.
      * right. now exists k, l.
Qed.

Lemma NoDup_concat (cs : list (list nat)) :
  NoDup (concat cs) <->
  (forall k l, cs !! k = Some l -> NoDup l) /\
  (forall i j li lj x, cs !! i = Some li -> cs !! j = Some lj ->
     x ∈ li -> x ∈ lj -> i = j).
Proof.
  induction cs as [|l0 cs IH]; simpl.
  - split; [|intros; constructor]. intros _. split; intros; discriminate.
  - rewrite NoDup_app, IH. split.
    + intros (Hnd0 & Hdisj & Hnd & Huniq). split.
      * intros [|k] l Hk; simpl in Hk; [now injection Hk as <-|now apply (Hnd k)].
      * intros [|i] [|j] li lj x Hi Hj Hxi Hxj; simpl in *.
        -- reflexivity.
        -- injection Hi as <-. exfalso. apply (Hdisj x Hxi).
           apply elem_of_concat. now exists j, lj.
        -- injection Hj as <-. exfalso. apply (Hdisj x Hxj).
           apply elem_of_concat. now exists i, li.
        -- f_equal. now apply (Huniq i j li lj x).
    + intros [Hnd Huniq]. split; [|split; [|split]].
      * now apply (Hnd 0%nat).
      * intros x Hx0 Hx. apply elem_of_concat in Hx as (k & l & Hk & Hx).
        now pose proof (Huniq 0%nat (S k) l0 l x eq_refl Hk Hx0 Hx).
      * intros k l Hk. now apply (Hnd (S k)).
      * intros i j li lj x Hi Hj Hxi Hxj.
        pose proof (Huniq (S i) (S j) li lj x Hi Hj Hxi Hxj). lia.
Qed.

Lemma concat_seq_iff (cs : list (list nat)) n :
  concat cs ≡ₚ seq 0 n <->
  NoDup (concat cs) /\ forall x, x ∈ concat cs <-> (x < n)%nat.
Proof.
  split.
  - intros Hp. split.
    + rewrite Hp. apply NoDup_seq.
    + intros x. rewrite Hp, elem_of_seq. lia.
  - intros [Hnd Hx]. apply NoDup_Permutation; [assumption|apply NoDup_seq|].
    intros x. rewrite Hx, elem_of_seq. lia.
Qed.

(** ** Relinking, chain by chain *)

Lemma chains_of_emit s cs e : chains_of s cs -> chains_of (emit e s) cs.
Proof. intros H. exact H. Qed.

Lemma chains_of_set_held s cs l v :
  chains_of s cs -> chains_of (set_held l v s) cs.
Proof.
  intros H. apply (chains_of_ext s); [assumption|apply bufs_set_held|apply heads_set_held].
Qed.

Lemma chains_of_poke_same_next s cs p upd :
  (forall b, next (upd b) = next b) ->
  chains_of s cs -> chains_of (poke p upd s) cs.
Proof.
  rewrite !chains_of_chain_at. intros Hupd [Hlen H]. split.
  - now rewrite length_hashtable_poke.
  - intros k l Hl. apply chain_at_poke_same_next; auto.
Qed.

(** A store into a slot that is on no chain. *)
Lemma chains_of_poke_detached s cs c upd :
  chains_of s cs -> c ∉ concat cs -> chains_of (poke (PBuf c) upd s) cs.
Proof.
  rewrite !chains_of_chain_at. intros [Hlen H] Hc. split; [exact Hlen|].
  intros k l Hl. apply chain_at_poke_frame; [now apply H|discriminate|].
  intros x [= <-] Hx. apply Hc, elem_of_concat. now exists k, l.
Qed.

Lemma chains_of_unlink s cs k la c lb cb :
  chains_of s cs -> NoDup (concat cs) ->
  cs !! k = Some (la ++ c :: lb) -> bufs s !! c = Some cb ->
  chains_of (poke (last_ptr k la) (set_next (next cb)) s) (<[k := la ++ lb]> cs).
Proof.
  rewrite !chains_of_chain_at. intros [Hlen H] Hnd Hk Hcb.
  apply NoDup_concat in Hnd as [Hnd Huniq]. split.
  - now rewrite length_hashtable_poke, length_insert.
  - intros i l Hi. destruct (decide (k = i)) as [<-|Hne].
    + rewrite list_lookup_insert_eq in Hi by (now apply lookup_lt_Some in Hk).
      injection Hi as <-.
      apply (chain_at_unlink s k la c lb cb); [now apply H|now apply (Hnd k)|assumption].
    + rewrite list_lookup_insert_ne in Hi by assumption.
      apply chain_at_poke_frame; [now apply H| |].
      * unfold last_ptr. destruct (last la); [discriminate|congruence].
      * intros x Hx Hxl. unfold last_ptr in Hx.
        destruct (last la) as [y|] eqn:Hlast; [|discriminate].
        injection Hx as ->. apply Hne.
        apply (Huniq k i (la ++ c :: lb) l x Hk Hi); [|assumption].
        apply elem_of_app. left. apply last_Some in Hlast as [l' ->].
        apply elem_of_app. right. left.
Qed.

Lemma chains_of_push s cs h lh c cb hd :
  chains_of s cs -> cs !! h = Some lh ->
  deref (PHead h) s = Some hd -> bufs s !! c = Some cb -> next cb = next hd ->
  chains_of (poke (PHead h) (set_next (Some c)) s) (<[h := c :: lh]> cs).
Proof.
  rewrite !chains_of_chain_at. intros [Hlen H] Hh Hhd Hcb Hnext. split.
  - now rewrite length_hashtable_poke, length_insert.
  - intros i l Hi. destruct (decide (h = i)) as [<-|Hne].
    + rewrite list_lookup_insert_eq in Hi by (now apply lookup_lt_Some in Hh).
      injection Hi as <-. apply chain_at_push with cb; [now exists hd|assumption|].
      destruct (H h lh Hh) as (hd' & Hhd' & Hc). rewrite Hnext. congruence.
    + rewrite list_lookup_insert_ne in Hi by assumption.
      apply chain_at_poke_frame; [now apply H|congruence|discriminate].
Qed.

(** ** Recycling the champion *)

(** The identity and counters a recycled slot gets (lines 165 to 168). *)
Definition rebind (d bn : Z) (b : buf) : buf :=
  set_valid 0 (set_refcnt 1 (set_blockno bn (set_dev d b))).

Lemma next_fmap_alter_same (f : buf -> buf) i (bs : list buf) :
  (forall b, next (f b) = next b) -> next <$> alter f i bs = next <$> bs.
Proof.
  intros H. rewrite (list_fmap_alter_comm next f id) by (intros; now rewrite H).
  now apply list_alter_id.
Qed.

(** Lines 165 to 172: rebind the slot, drop the bucket lock and the
    eviction lock, and go for the slot's blocking lock. *)
Lemma bget_rebind_spec me d bn h c s cs :
  is_Some (bufs s !! c) -> (h < length (hashtable s))%nat ->
  evict_lock s = true -> only_held s (Some h) -> chains_of s cs ->
  exists s',
    (store (PBuf c) Fdev (set_dev d) >>
     store (PBuf c) Fblockno (set_blockno bn) >>
     store (PBuf c) Frefcnt (set_refcnt 1) >>
     store (PBuf c) Fvalid (set_valid 0) >>
     release (BucketLock h) >>
     release EvictLock >>
     acquiresleep me c >>
     ret c) s = (acquiresleep me c >> ret c) s' /\
    quiescent s' /\ ticks s' = ticks s /\
    length (hashtable s') = length (hashtable s) /\
    length (bufs s') = length (bufs s) /\
    data s' = alter (rebind d bn) c (data s) /\
    chains_of s' cs /\
    next <$> bufs s' = next <$> bufs s /\ heads s' = heads s.
Proof.
  intros Hc Hh He Hlocks Hcs.
  set (s1 := emit (EStore (PBuf c) Fdev) (poke (PBuf c) (set_dev d) s)).
  set (s2 := emit (EStore (PBuf c) Fblockno) (poke (PBuf c) (set_blockno bn) s1)).
  set (s3 := emit (EStore (PBuf c) Frefcnt) (poke (PBuf c) (set_refcnt 1) s2)).
  set (s4 := emit (EStore (PBuf c) Fvalid) (poke (PBuf c) (set_valid 0) s3)).
  set (s5 := emit (ERelease (BucketLock h)) (set_held (BucketLock h) false s4)).
  set (s6 := emit (ERelease EvictLock) (set_held EvictLock false s5)).
  assert (H1 : store (PBuf c) Fdev (set_dev d) s = Ret tt s1).
  { apply store_ok. exact Hc. }
  assert (H2 : store (PBuf c) Fblockno (set_blockno bn) s1 = Ret tt s2).
  { apply store_ok. simpl. rewrite list_lookup_alter_eq. now apply fmap_is_Some. }
  assert (H3 : store (PBuf c) Frefcnt (set_refcnt 1) s2 = Ret tt s3).
  { apply store_ok. simpl. rewrite !list_lookup_alter_eq. now rewrite !fmap_is_Some. }
  assert (H4 : store (PBuf c) Fvalid (set_valid 0) s3 = Ret tt s4).
  { apply store_ok. simpl. rewrite !list_lookup_alter_eq. now rewrite !fmap_is_Some. }
  assert (Hl4 : only_held s4 (Some h)) by exact Hlocks.
  assert (H5 : release (BucketLock h) s4 = Ret tt s5).
  { apply release_ok. rewrite (locks_are_held _ _ _ Hl4) by exact Hh.
    now rewrite bool_decide_eq_true_2. }
  assert (H6 : release EvictLock s5 = Ret tt s6).
  { apply release_ok. simpl. now rewrite He. }
  exists s6.
  rewrite (bind_ret _ _ _ _ _ H1), (bind_ret _ _ _ _ _ H2), (bind_ret _ _ _ _ _ H3),
    (bind_ret _ _ _ _ _ H4), (bind_ret _ _ _ _ _ H5), (bind_ret _ _ _ _ _ H6).
  split; [reflexivity|]. split; [|split; [reflexivity|]].
  { apply quiescent_only_held. split; [reflexivity|].
    unfold s6, s5. apply locks_are_emit, locks_are_set_evict, locks_are_emit.
    eapply locks_are_set; [exact Hl4| |].
    - intros j Hj. cbv beta. rewrite !bool_decide_eq_false_2 by congruence. reflexivity.
    - reflexivity. }
  split; [simpl; now rewrite length_alter|].
  split; [simpl; now rewrite !length_alter|].
  split.
  { unfold data. simpl. rewrite !list_alter_alter_eq.
    now apply list_fmap_alter_comm. }
  split.
  { unfold s6, s5, s4, s3, s2, s1.
    apply chains_of_emit, (chains_of_set_held _ _ EvictLock), chains_of_emit,
      chains_of_set_held, chains_of_emit.
    apply chains_of_poke_same_next; [reflexivity|]. apply chains_of_emit.
    apply chains_of_poke_same_next; [reflexivity|]. apply chains_of_emit.
    apply chains_of_poke_same_next; [reflexivity|]. apply chains_of_emit.
    apply chains_of_poke_same_next; [reflexivity|]. exact Hcs. }
  split.
  { simpl. rewrite !list_alter_alter_eq. now apply next_fmap_alter_same. }
  unfold s6, s5. now rewrite heads_emit, (heads_set_held EvictLock), heads_emit, heads_set_held.
Qed.

(** Lines 149 to 173 when the scan found the champion [c], with
    predecessor [last_ptr k la] in bucket [k], and left that bucket's lock
    held. *)
Lemma bget_recycle_spec me d bn h s cs k la c lb :
  length (hashtable s) = Z.to_nat NBUCKET ->
  chains_of s cs -> NoDup (concat cs) ->
  evict_lock s = true -> only_held s (Some k) ->
  cs !! k = Some (la ++ c :: lb) -> (h < Z.to_nat NBUCKET)%nat ->
  exists s',
    bget_recycle me d bn h (Some (last_ptr k la)) (Some k) s
      = (acquiresleep me c >> ret c) s' /\
    quiescent s' /\ ticks s' = ticks s /\
    length (hashtable s') = Z.to_nat NBUCKET /\
    length (bufs s') = length (bufs s) /\
    data s' = alter (rebind d bn) c (data s) /\
    (k = h ->
       chains_of s' cs /\ next <$> bufs s' = next <$> bufs s /\
       heads s' = heads s) /\
    (k <> h -> forall lh, cs !! h = Some lh ->
       chains_of s' (<[h := c :: lh]> (<[k := la ++ lb]> cs))).
Proof.
  intros Hht Hcs Hnd He Hlocks Hk Hh.
  destruct (Forall2_lookup_r _ _ _ _ _ Hcs Hk) as (bk & Hbk & Hchain).
  destruct (pred_next _ _ _ _ _ _ Hbk Hchain) as (pb & cb & Hp & Hnext & Hc & Hclb).
  unfold bget_recycle.
  rewrite (bind_ret _ _ _ _ _ (load_ok _ _ _ Hp)), Hnext.
  destruct (decide (k = h)) as [->|Hne].
  - rewrite bool_decide_eq_false_2 by (intros H; now apply H).
    rewrite (bind_ret _ _ s tt s eq_refl).
    destruct (bget_rebind_spec me d bn h c s cs) as (s' & Hrun & Hq & Ht & Hl1 & Hl2 & Hd & Hcs' & Hn & Hhd);
      try assumption; [now exists cb|lia|].
    exists s'. split; [exact Hrun|]. repeat (split; [congruence|]).
    split; [auto|]. intros H. contradiction.
  - rewrite bool_decide_eq_true_2 by congruence.
    assert (Hndk : NoDup (la ++ c :: lb)).
    { apply NoDup_concat in Hnd as [Hnd _]. now apply (Hnd k). }
    assert (Hcla : c ∉ la ++ lb).
    { apply NoDup_app in Hndk as (_ & Hd & Hndc). apply NoDup_cons in Hndc as [Hclb' _].
      intros [Hin|Hin]%elem_of_app; [|contradiction]. apply (Hd c Hin). left. }
    assert (Hpc : last_ptr k la <> PBuf c).
    { unfold last_ptr. destruct (last la) as [x|] eqn:Hlast; [|discriminate].
      intros [= ->]. apply Hcla, elem_of_app. left.
      apply last_Some in Hlast as [l' ->]. apply elem_of_app. right. left. }
    assert (Hph : last_ptr k la <> PHead h).
    { unfold last_ptr. destruct (last la); [discriminate|congruence]. }
    destruct (lookup_lt_is_Some_2 cs h) as [lh Hlh].
    { rewrite <- (Forall2_length _ _ _ Hcs). lia. }
    destruct (lookup_lt_is_Some_2 (hashtable s) h ltac:(lia)) as [bh Hbh].
    set (p := last_ptr k la) in *.
    set (s1 := emit (EStore p Fnext) (poke p (set_next (next cb)) s)).
    set (s2 := emit (ERelease (BucketLock k)) (set_held (BucketLock k) false s1)).
    set (s3 := emit (EAcquire (BucketLock h)) (set_held (BucketLock h) true s2)).
    set (s4 := emit (EStore (PBuf c) Fnext) (poke (PBuf c) (set_next (next (head bh))) s3)).
    set (s5 := emit (EStore (PHead h) Fnext) (poke (PHead h) (set_next (Some c)) s4)).
    assert (Hkl : (k < length (hashtable s))%nat) by now apply lookup_lt_Some in Hbk.
    assert (H1 : store p Fnext (set_next (next cb)) s = Ret tt s1).
    { apply store_ok. now exists pb. }
    assert (Hl1 : only_held s1 (Some k)).
    { apply locks_are_emit, locks_are_poke. exact Hlocks. }
    assert (Hlen1 : length (hashtable s1) = length (hashtable s)).
    { apply length_hashtable_poke. }
    assert (H2 : release_bucket (Some k) s1 = Ret tt s2).
    { apply release_ok. rewrite (locks_are_held _ _ _ Hl1) by lia.
      now rewrite bool_decide_eq_true_2. }
    assert (Hl2 : only_held s2 None).
    { apply locks_are_emit. eapply locks_are_set; [exact Hl1| |].
      - intros j Hj. cbv beta. rewrite !bool_decide_eq_false_2 by congruence. reflexivity.
      - reflexivity. }
    assert (Hlen2 : length (hashtable s2) = length (hashtable s)).
    { unfold s2. simpl hashtable. now rewrite length_alter. }
    assert (H3 : acquire (BucketLock h) s2 = Ret tt s3).
    { apply acquire_ok. rewrite (locks_are_held _ _ _ Hl2) by lia. reflexivity. }
    assert (Hl3 : only_held s3 (Some h)).
    { apply locks_are_emit. eapply locks_are_set; [exact Hl2| |].
      - intros j Hj. cbv beta. rewrite !bool_decide_eq_false_2 by congruence. reflexivity.
      - cbv beta. now rewrite bool_decide_eq_true_2. }
    assert (Hhd3 : deref (PHead h) s3 = Some (head bh)).
    { unfold s3, s2, s1. rewrite deref_emit, deref_set_held, deref_emit, deref_set_held,
        deref_emit, deref_poke_ne by assumption. simpl. now rewrite Hbh. }
    assert (Hc3 : bufs s3 !! c = Some cb).
    { change (deref (PBuf c) s3 = Some cb). unfold s3, s2, s1.
      rewrite deref_emit, deref_set_held, deref_emit, deref_set_held,
        deref_emit, deref_poke_ne by assumption. exact Hc. }
    assert (H4 : store (PBuf c) Fnext (set_next (next (head bh))) s3 = Ret tt s4).
    { apply store_ok. now exists cb. }
    assert (H5 : store (PHead h) Fnext (set_next (Some c)) s4 = Ret tt s5).
    { apply store_ok. unfold s4. rewrite deref_emit, deref_poke_ne by discriminate.
      now exists (head bh). }
    assert (Hcs3 : chains_of s3 (<[k := la ++ lb]> cs)).
    { unfold s3, s2, s1. apply chains_of_emit, chains_of_set_held, chains_of_emit,
        chains_of_set_held, chains_of_emit. now apply chains_of_unlink with c. }
    assert (Hc3' : c ∉ concat (<[k := la ++ lb]> cs)).
    { intros (i & l & Hi & Hx)%elem_of_concat.
      destruct (decide (k = i)) as [<-|Hki].
      - rewrite list_lookup_insert_eq in Hi by (now apply lookup_lt_Some in Hk).
        injection Hi as <-. contradiction.
      - rewrite list_lookup_insert_ne in Hi by assumption.
        apply NoDup_concat in Hnd as [_ Huniq]. apply Hki.
        apply (Huniq k i _ _ c Hk Hi); [|assumption].
        apply elem_of_app. right. left. }
    assert (Hcs5 : chains_of s5 (<[h := c :: lh]> (<[k := la ++ lb]> cs))).
    { unfold s5. apply chains_of_emit.
      apply chains_of_push with (set_next (next (head bh)) cb) (head bh).
      - unfold s4. apply chains_of_emit. now apply chains_of_poke_detached.
      - now rewrite list_lookup_insert_ne.
      - unfold s4. now rewrite deref_emit, deref_poke_ne by discriminate.
      - unfold s4. now rewrite bufs_emit, bufs_poke_buf, list_lookup_alter_eq, Hc3.
      - reflexivity. }
    destruct (bget_rebind_spec me d bn h c s5 (<[h := c :: lh]> (<[k := la ++ lb]> cs)))
      as (s' & Hrun & Hq & Ht & Hlen1' & Hlen2' & Hd & Hcs' & _ & _).
    { unfold s5, s4.
      rewrite bufs_emit, bufs_poke_head, bufs_emit, bufs_poke_buf, list_lookup_alter_eq, Hc3.
      now eexists. }
    { unfold s5, s4, s3. rewrite hashtable_emit, length_hashtable_poke, hashtable_emit,
        length_hashtable_poke, hashtable_emit, length_hashtable_set_held. lia. }
    { unfold s5, s4, s3, s2, s1. simpl. now rewrite evict_lock_poke. }
    { unfold s5, s4. apply locks_are_emit, locks_are_poke, locks_are_emit, locks_are_poke.
      exact Hl3. }
    { exact Hcs5. }
    exists s'.
    rewrite (bind_ret _ _ _ tt s5).
    2:{ rewrite (bind_ret _ _ _ _ _ (load_ok (PBuf c) _ _ Hc)).
        rewrite (bind_ret _ _ _ _ _ H1), (bind_ret _ _ _ _ _ H2), (bind_ret _ _ _ _ _ H3),
          (bind_ret _ _ _ _ _ (load_ok _ _ _ Hhd3)), (bind_ret _ _ _ _ _ H4).
        exact H5. }
    split; [exact Hrun|]. split; [exact Hq|].
    split.
    { rewrite Ht. unfold s5, s4, s3, s2, s1.
      now rewrite ticks_emit, ticks_poke, ticks_emit, ticks_poke, ticks_emit,
        ticks_set_held, ticks_emit, ticks_set_held, ticks_emit, ticks_poke. }
    split.
    { rewrite Hlen1'. unfold s5, s4, s3.
      rewrite hashtable_emit, length_hashtable_poke, hashtable_emit,
        length_hashtable_poke, hashtable_emit, length_hashtable_set_held. lia. }
    split.
    { rewrite Hlen2'. unfold s5, s4, s3, s2, s1.
      rewrite bufs_emit, length_bufs_poke, bufs_emit, length_bufs_poke, bufs_emit,
        bufs_set_held, bufs_emit, bufs_set_held, bufs_emit, length_bufs_poke.
      reflexivity. }
    split.
    { rewrite Hd. f_equal. unfold s5. rewrite data_emit, data_poke_next.
      unfold s4. rewrite data_emit, data_poke_next.
      unfold s3, s2, s1. now rewrite data_emit, data_set_held, data_emit, data_set_held,
        data_emit, data_poke_next. }
    split; [intros; contradiction|].
    intros _ lh' Hlh'. rewrite Hlh in Hlh'. now injection Hlh' as <-.
Qed.

(** Moving [c] from the chain of [k] to the head of the chain of [h]
    keeps every slot on exactly one chain. *)
Lemma relink_elem_of (cs : list (list nat)) k h la c lb lh i l' x :
  k <> h -> NoDup (concat cs) ->
  cs !! k = Some (la ++ c :: lb) -> cs !! h = Some lh ->
  <[h := c :: lh]> (<[k := la ++ lb]> cs) !! i = Some l' ->
  x ∈ l' <-> (x = c /\ i = h) \/ (x <> c /\ exists l, cs !! i = Some l /\ x ∈ l).
Proof.
  intros Hne Hnd Hk Hh Hi. apply NoDup_concat in Hnd as [Hnd Huniq].
  assert (Hck : forall j l, cs !! j = Some l -> c ∈ l -> j = k).
  { intros j l Hj Hc. apply (Huniq j k l _ c Hj Hk Hc). apply elem_of_app. right. left. }
  assert (Hklen : (k < length cs)%nat) by now apply lookup_lt_Some in Hk.
  assert (Hhlen : (h < length cs)%nat) by now apply lookup_lt_Some in Hh.
  destruct (decide (h = i)) as [<-|Hhi].
  - rewrite list_lookup_insert_eq in Hi by now rewrite length_insert.
    injection Hi as <-. rewrite elem_of_cons. split.
    + intros [->|Hx]; [now left|]. right. split; [|now exists lh].
      intros ->. apply Hne. symmetry. now apply (Hck h lh).
    + intros [[-> _]|(Hxc & l & Hl & Hx)]; [now left|]. right. congruence.
  - rewrite list_lookup_insert_ne in Hi by assumption.
    destruct (decide (k = i)) as [<-|Hki].
    + rewrite list_lookup_insert_eq in Hi by assumption. injection Hi as <-.
      pose proof (Hnd _ _ Hk) as Hndk.
      apply NoDup_app in Hndk as (_ & Hd & Hndc). apply NoDup_cons in Hndc as [Hclb _].
      rewrite elem_of_app. split.
      * intros Hx. right. split.
        -- intros ->. destruct Hx as [Hx|Hx]; [|contradiction]. apply (Hd c Hx). left.
        -- exists (la ++ c :: lb). split; [assumption|].
           rewrite elem_of_app, elem_of_cons. tauto.
      * intros [[_ ?]|(Hxc & l & Hl & Hx)]; [congruence|].
        rewrite Hk in Hl. injection Hl as <-.
        rewrite elem_of_app, elem_of_cons in Hx. tauto.
    + rewrite list_lookup_insert_ne in Hi by assumption. split.
      * intros Hx. right. split; [|now exists l'].
        intros ->. apply Hki. symmetry. now apply (Hck i l').
      * intros [[_ ?]|(Hxc & l & Hl & Hx)]; congruence.
Qed.

Lemma relink_partition (cs : list (list nat)) k h la c lb lh n :
  k <> h -> cs !! k = Some (la ++ c :: lb) -> cs !! h = Some lh ->
  concat cs ≡ₚ seq 0 n ->
  concat (<[h := c :: lh]> (<[k := la ++ lb]> cs)) ≡ₚ seq 0 n.
Proof.
  intros Hne Hk Hh Hp. apply concat_seq_iff in Hp as [Hnd Hmem].
  pose proof (fun i l' x => relink_elem_of cs k h la c lb lh i l' x Hne Hnd Hk Hh) as Hel.
  pose proof Hnd as Hnd'. apply NoDup_concat in Hnd' as [Hnd1 Huniq].
  assert (Hck : forall j l, cs !! j = Some l -> c ∈ l -> j = k).
  { intros j l Hj Hc. apply (Huniq j k l _ c Hj Hk Hc). apply elem_of_app. right. left. }
  assert (Hklen : (k < length cs)%nat) by now apply lookup_lt_Some in Hk.
  assert (Hhlen : (h < length cs)%nat) by now apply lookup_lt_Some in Hh.
  apply concat_seq_iff. split.
  - apply NoDup_concat. split.
    + intros i l' Hi. destruct (decide (h = i)) as [<-|Hhi].
      * rewrite list_lookup_insert_eq in Hi by now rewrite length_insert.
        injection Hi as <-. apply NoDup_cons. split; [|now apply (Hnd1 h)].
        intros Hc. apply Hne. symmetry. now apply (Hck h lh).
      * rewrite list_lookup_insert_ne in Hi by assumption.
        destruct (decide (k = i)) as [<-|Hki].
        -- rewrite list_lookup_insert_eq in Hi by assumption. injection Hi as <-.
           pose proof (Hnd1 _ _ Hk) as Hndk.
           apply NoDup_app in Hndk as (Hla & Hd & Hndc).
           apply NoDup_cons in Hndc as [Hclb Hlb].
           apply NoDup_app. split; [assumption|]. split; [|assumption].
           intros x Hx Hx'. apply (Hd x Hx). now right.
        -- rewrite list_lookup_insert_ne in Hi by assumption. now apply (Hnd1 i).
    + intros i j li lj x Hi Hj Hxi Hxj.
      apply (Hel _ _ _ Hi) in Hxi. apply (Hel _ _ _ Hj) in Hxj.
      destruct Hxi as [[-> ->]|(Hxc & l1 & Hl1 & Hx1)],
               Hxj as [[? ->]|(Hxc' & l2 & Hl2 & Hx2)]; try congruence.
      now apply (Huniq i j l1 l2 x).
  - intros x. rewrite <- Hmem, !elem_of_concat. split.
    + intros (i & l' & Hi & Hx). apply (Hel _ _ _ Hi) in Hx.
      destruct Hx as [[-> ->]|(_ & l & Hl & Hx)].
      * exists k, (la ++ c :: lb). split; [assumption|]. apply elem_of_app. right. left.
      * now exists i, l.
    + intros (i & l & Hi & Hx). destruct (decide (x = c)) as [->|Hxc].
      * exists h, (c :: lh). split; [|left].
        apply list_lookup_insert_eq. now rewrite length_insert.
      * destruct (lookup_lt_is_Some_2 (<[h := c :: lh]> (<[k := la ++ lb]> cs)) i) as [l' Hl'].
        { rewrite !length_insert. now apply lookup_lt_Some in Hi. }
        exists i, l'. split; [assumption|]. apply (Hel _ _ _ Hl'). right.
        split; [assumption|]. now exists l.
Qed.

(** ** [bget] as a whole *)

Lemma wf_chain_length NBUF s cs k l :
  wf NBUF s cs -> cs !! k = Some l -> (length l <= NBUF)%nat.
Proof.
  intros (_ & _ & _ & Hp) Hk. apply concat_seq_iff in Hp as [Hnd Hmem].
  apply NoDup_concat in Hnd as [Hnd _].
  assert (Hsub : l ⊆+ seq 0 NBUF); [|apply submseteq_length in Hsub;
    now rewrite length_seq in Hsub].
  apply NoDup_submseteq; [now apply (Hnd k)|].
  intros x Hx. apply elem_of_seq. split; [lia|]. simpl. apply Hmem.
  apply elem_of_concat. now exists k, l.
Qed.

Lemma find_id_Some bs d bn l b :
  find_id bs d bn l = Some b ->
  b ∈ l /\ exists bb, bs !! b = Some bb /\ dev bb = d /\ blockno bb = bn.
Proof.
  induction l as [|i l IH]; simpl; [discriminate|].
  destruct (has_id bs d bn i) eqn:Hid.
  - intros [= ->]. split; [left|]. unfold has_id in Hid.
    destruct (bs !! b) as [bb|]; [|discriminate]. exists bb.
    apply andb_prop in Hid as [H1 H2]. apply Z.eqb_eq in H1, H2. auto.
  - intros H. destruct (IH H) as [Hin Hbb]. split; [now right|assumption].
Qed.

Lemma alter_lock_roundtrip (ht : list bucket) k :
  (forall bk, ht !! k = Some bk -> bk_lock bk = false) ->
  alter (set_bk_lock false) k (alter (set_bk_lock true) k ht) = ht.
Proof.
  intros H. rewrite list_alter_alter_eq. apply list_eq. intros j.
  destruct (decide (k = j)) as [->|Hne].
  - rewrite list_lookup_alter_eq. destruct (ht !! j) as [[lk hd]|] eqn:E; [|reflexivity].
    simpl. specialize (H _ eq_refl). simpl in H. now subst lk.
  - now rewrite list_lookup_alter_ne.
Qed.

Section Bget.

Variable NBUF : nat.

(** Lines 93 to 95, and again 111 to 113: take the bucket lock and look
    the identity up in the chain. *)
Lemma bget_lookup_phase {A} (K : option nat -> M A) s cs h lh d bn :
  chains_of s cs -> cs !! h = Some lh -> (length lh <= NBUF)%nat ->
  held (BucketLock h) s = Some false ->
  (acquire (BucketLock h) >>
   let* hd := load (PHead h) in
   let* r := bget_lookup NBUF d bn (next hd) in
   K r) s
  = K (find_id (bufs s) d bn lh)
      (emit (EAcquire (BucketLock h)) (set_held (BucketLock h) true s)).
Proof.
  intros Hcs Hlh Hlen Hfree.
  rewrite (bind_ret _ _ _ _ _ (acquire_ok _ _ Hfree)).
  set (s1 := emit _ _).
  assert (Hcs1 : chains_of s1 cs).
  { unfold s1. now apply chains_of_emit, chains_of_set_held. }
  apply chains_of_chain_at in Hcs1 as [_ Hcs1].
  destruct (Hcs1 h lh Hlh) as (hd & Hhd & Hchain).
  rewrite (bind_ret _ _ _ _ _ (load_ok _ _ _ Hhd)).
  rewrite (bind_ret _ _ _ _ _ (bget_lookup_spec s1 d bn _ _ Hchain NBUF Hlen)).
  reflexivity.
Qed.

(** A hit: the first slot of the chain with the identity gets one more
    reference; nothing else changes. *)
Lemma bget_hit me d bn s cs lh b :
  wf NBUF s cs -> quiescent s ->
  cs !! Z.to_nat (hash d bn) = Some lh ->
  find_id (bufs s) d bn lh = Some b ->
  exists s',
    bget NBUF me d bn s = (acquiresleep me b >> ret b) s' /\
    evict_lock s' = false /\ ticks s' = ticks s /\
    bufs s' = alter incr_refcnt b (bufs s) /\
    hashtable s' = hashtable s.
Proof.
  intros Hwf Hq Hlh Hfind. pose proof (wf_chain_length _ _ _ _ _ Hwf Hlh) as Hlen.
  destruct Hwf as (Hnb & Hnh & Hcs & Hp).
  apply quiescent_only_held in Hq as [He Hlocks].
  pose proof (hash_lt d bn) as Hh. set (h := Z.to_nat (hash d bn)) in *.
  assert (Hfree : held (BucketLock h) s = Some false).
  { rewrite (locks_are_held _ _ _ Hlocks) by lia. reflexivity. }
  unfold bget. fold h.
  rewrite (bget_lookup_phase _ s cs h lh d bn Hcs Hlh Hlen Hfree), Hfind.
  set (s1 := emit (EAcquire (BucketLock h)) (set_held (BucketLock h) true s)).
  destruct (find_id_Some _ _ _ _ _ Hfind) as (_ & bb & Hbb & _).
  assert (H1 : store (PBuf b) Frefcnt incr_refcnt s1
               = Ret tt (emit (EStore (PBuf b) Frefcnt) (poke (PBuf b) incr_refcnt s1))).
  { apply store_ok. now exists bb. }
  rewrite (bind_ret _ _ _ _ _ H1).
  set (s2 := emit (EStore (PBuf b) Frefcnt) (poke (PBuf b) incr_refcnt s1)).
  assert (H2 : release (BucketLock h) s2
               = Ret tt (emit (ERelease (BucketLock h)) (set_held (BucketLock h) false s2))).
  { apply release_ok. unfold s2, s1. simpl.
    rewrite list_lookup_alter_eq.
    destruct (lookup_lt_is_Some_2 (hashtable s) h ltac:(lia)) as [bh ->]. reflexivity. }
  rewrite (bind_ret _ _ _ _ _ H2).
  eexists. split; [reflexivity|]. simpl.
  split; [assumption|]. split; [reflexivity|]. split; [reflexivity|].
  apply alter_lock_roundtrip. intros bk Hbk. now rewrite (Hlocks _ _ Hbk).
Qed.

(** A miss with no reclaimable slot: [panic("bget: no buffers")], with
    memory as it was. *)
Lemma bget_miss me d bn s cs lh :
  wf NBUF s cs -> quiescent s ->
  cs !! Z.to_nat (hash d bn) = Some lh ->
  find_id (bufs s) d bn lh = None ->
  match champion (bufs s) (concat cs) None with
  | None =>
      exists s', bget NBUF me d bn s = Panic "bget: no buffers" s' /\
        bufs s' = bufs s /\ heads s' = heads s
  | Some c =>
      exists k la lb s',
        cs !! k = Some (la ++ c :: lb) /\
        bget NBUF me d bn s = (acquiresleep me c >> ret c) s' /\
        quiescent s' /\ ticks s' = ticks s /\
        data s' = alter (rebind d bn) c (data s) /\
        wf NBUF s' (if decide (k = Z.to_nat (hash d bn)) then cs
                    else <[Z.to_nat (hash d bn) := c :: lh]> (<[k := la ++ lb]> cs)) /\
        (k = Z.to_nat (hash d bn) ->
           next <$> bufs s' = next <$> bufs s /\ heads s' = heads s)
  end.
Proof.
  intros Hwf Hq Hlh Hfind. pose proof (wf_chain_length _ _ _ _ _ Hwf Hlh) as Hlen.
  pose proof (fun k l => wf_chain_length NBUF s cs k l Hwf) as Hlens.
  destruct Hwf as (Hnb & Hnh & Hcs & Hp).
  apply quiescent_only_held in Hq as [He Hlocks].
  pose proof (hash_lt d bn) as Hh. set (h := Z.to_nat (hash d bn)) in *.
  assert (Hfree : held (BucketLock h) s = Some false).
  { rewrite (locks_are_held _ _ _ Hlocks) by lia. reflexivity. }
  assert (Hrt : alter (set_bk_lock false) h (alter (set_bk_lock true) h (hashtable s))
                = hashtable s).
  { apply alter_lock_roundtrip. intros bk Hbk. now rewrite (Hlocks _ _ Hbk). }
  destruct (lookup_lt_is_Some_2 (hashtable s) h ltac:(lia)) as [bh Hbh].
  set (s1 := emit (EAcquire (BucketLock h)) (set_held (BucketLock h) true s)).
  set (s2 := emit (ERelease (BucketLock h)) (set_held (BucketLock h) false s1)).
  set (s3 := emit (EAcquire EvictLock) (set_held EvictLock true s2)).
  set (s4 := emit (EAcquire (BucketLock h)) (set_held (BucketLock h) true s3)).
  set (s5 := emit (ERelease (BucketLock h)) (set_held (BucketLock h) false s4)).
  assert (Hht2 : hashtable s2 = hashtable s) by exact Hrt.
  assert (Hht5 : hashtable s5 = hashtable s).
  { simpl. now rewrite !Hrt. }
  assert (H2 : release (BucketLock h) s1 = Ret tt s2).
  { apply release_ok. unfold s1. simpl. now rewrite list_lookup_alter_eq, Hbh. }
  assert (H3 : acquire EvictLock s2 = Ret tt s3).
  { apply acquire_ok. simpl. now rewrite He. }
  assert (Hcs3 : chains_of s3 cs).
  { apply (chains_of_ext s); [assumption|reflexivity|].
    unfold heads. simpl hashtable. now rewrite Hrt. }
  assert (Hfree3 : held (BucketLock h) s3 = Some false).
  { simpl. rewrite Hrt. exact Hfree. }
  assert (H5 : release (BucketLock h) s4 = Ret tt s5).
  { apply release_ok. unfold s4. simpl. rewrite Hrt.
    now rewrite list_lookup_alter_eq, Hbh. }
  assert (Hcs5 : chains_of s5 cs).
  { apply (chains_of_ext s); [assumption|reflexivity|]. unfold heads. now rewrite Hht5. }
  assert (Hinv5 : scan_inv s5 cs 0 None None).
  { split; [|simpl; auto]. intros k bk. rewrite Hht5. apply Hlocks. }
  destruct (bget_scan_spec NBUF cs Hlens (Z.to_nat NBUCKET) 0 None None s5)
    as (prb & pbk & s6 & Hscan & Hb6 & Hh6 & He6 & Ht6 & Hht6 & [Hlocks6 Hinv6]);
    [lia|now rewrite Hht5|assumption|assumption|].
  assert (Hrun : forall o, bget_recycle me d bn h prb pbk s6 = o ->
                 bget NBUF me d bn s = o).
  { intros o <-. unfold bget. fold h.
    rewrite (bget_lookup_phase _ s cs h lh d bn Hcs Hlh Hlen Hfree), Hfind. fold s1.
    rewrite (bind_ret _ _ _ _ _ H2), (bind_ret _ _ _ _ _ H3).
    rewrite (bget_lookup_phase _ s3 cs h lh d bn Hcs3 Hlh Hlen Hfree3).
    change (bufs s3) with (bufs s). rewrite Hfind. fold s4.
    rewrite (bind_ret _ _ _ _ _ H5), (bind_ret _ _ _ _ _ Hscan). reflexivity. }
  rewrite take_ge in Hinv6 by (rewrite <- (Forall2_length _ _ _ Hcs); lia).
  rewrite Hb6 in Hinv6. change (bufs s5) with (bufs s) in Hinv6.
  destruct (champion (bufs s) (concat cs) None) as [c|].
  - destruct Hinv6 as (k & la & lb & -> & Hk13 & Hk & ->).
    assert (Hcs6 : chains_of s6 cs) by now apply (chains_of_ext s5).
    assert (Hnd : NoDup (concat cs)) by now apply concat_seq_iff in Hp as [Hnd _].
    destruct (bget_recycle_spec me d bn h s6 cs k la c lb Hht6 Hcs6 Hnd)
      as (s' & Hrec & Hq' & Ht' & Hht' & Hnb' & Hd' & Hsame & Hdiff);
      [now rewrite He6|assumption|assumption|assumption|].
    exists k, la, lb, s'. split; [assumption|]. split; [now apply Hrun|].
    split; [assumption|]. split; [now rewrite Ht', Ht6|].
    split; [rewrite Hd'; unfold data; now rewrite Hb6|].
    split.
    + split; [now rewrite Hnb', Hb6|]. split; [assumption|].
      destruct (decide (k = h)) as [Hkh|Hkh].
      * split; [now apply Hsame|assumption].
      * split; [now apply Hdiff|]. now apply relink_partition.
    + intros Hkh. destruct (Hsame Hkh) as (_ & Hn & Hhd).
      split; [now rewrite Hn, Hb6|]. rewrite Hhd, Hh6. unfold heads. now rewrite Hht5.
  - destruct Hinv6 as [-> ->]. exists s6. split; [now apply Hrun|].
    split; [assumption|]. rewrite Hh6. unfold heads. now rewrite Hht5.
Qed.

End Bget.

(** ** The champion *)

(** The champion over [l] is free, strictly older than every free slot
    scanned before it, and at least as old as every free slot scanned
    after it; there is none exactly when no slot of [l] is free. *)
Lemma champion_spec bs l :
  match champion bs l None with
  | None => forall i, i ∈ l -> refcnt_of bs i <> 0
  | Some c =>
      refcnt_of bs c = 0 /\
      exists la lb, l = la ++ c :: lb /\
        (forall i, i ∈ la -> refcnt_of bs i = 0 ->
           timestamp_of bs c < timestamp_of bs i) /\
        (forall i, i ∈ lb -> refcnt_of bs i = 0 ->
           timestamp_of bs c <= timestamp_of bs i)
  end.
Proof.
  induction l as [|n l IH] using rev_ind.
  - simpl. intros i Hi. now apply elem_of_nil in Hi.
  - rewrite champion_app. simpl. unfold pick at 1.
    destruct (champion bs l None) as [c|].
    + destruct IH as (Hc & la & lb & -> & Hla & Hlb).
      destruct (refcnt_of bs n =? 0) eqn:Hn; simpl.
      * destruct (timestamp_of bs n <? timestamp_of bs c) eqn:Hlt.
        -- apply Z.eqb_eq in Hn. apply Z.ltb_lt in Hlt. split; [assumption|].
           exists (la ++ c :: lb), []. split; [reflexivity|]. split.
           ++ intros i Hi Hfree. apply elem_of_app in Hi as [Hi|Hi].
              ** specialize (Hla i Hi Hfree). lia.
              ** apply elem_of_cons in Hi as [->|Hi]; [assumption|].
                 specialize (Hlb i Hi Hfree). lia.
           ++ intros i Hi. now apply elem_of_nil in Hi.
        -- apply Z.ltb_ge in Hlt. split; [assumption|].
           exists la, (lb ++ [n]). split; [now rewrite <- app_assoc|].
           split; [assumption|]. intros i Hi Hfree.
           apply elem_of_app in Hi as [Hi|Hi]; [now apply Hlb|].
           apply list_elem_of_singleton in Hi as ->. assumption.
      * split; [assumption|]. exists la, (lb ++ [n]).
        split; [now rewrite <- app_assoc|]. split; [assumption|].
        intros i Hi Hfree. apply elem_of_app in Hi as [Hi|Hi]; [now apply Hlb|].
        apply list_elem_of_singleton in Hi as ->. apply Z.eqb_neq in Hn. contradiction.
    + destruct (refcnt_of bs n =? 0) eqn:Hn; simpl.
      * apply Z.eqb_eq in Hn. split; [assumption|]. exists l, [].
        split; [reflexivity|]. split.
        -- intros i Hi Hfree. now destruct (IH i Hi).
        -- intros i Hi. now apply elem_of_nil in Hi.
      * apply Z.eqb_neq in Hn. intros i Hi.
        apply elem_of_app in Hi as [Hi|Hi]; [now apply IH|].
        now apply list_elem_of_singleton in Hi as ->.
Qed.

(** ** The short operations, run on a state *)

(** What [brelse] leaves in the slot it releases, [t] being the value of
    [ticks]. *)
Definition brelse_buf (t : Z) (x : buf) : buf :=
  let x' := decr_refcnt (set_lock None x) in
  if refcnt x' =? 0 then set_timestamp t x' else x'.

Lemma state_eq s1 s2 :
  evict_lock s1 = evict_lock s2 -> bufs s1 = bufs s2 ->
  hashtable s1 = hashtable s2 -> ticks s1 = ticks s2 -> trace s1 = trace s2 ->
  s1 = s2.
Proof. destruct s1, s2; simpl; intros; subst; reflexivity. Qed.

Lemma held_free_roundtrip s h :
  held (BucketLock h) s = Some false ->
  alter (set_bk_lock false) h (alter (set_bk_lock true) h (hashtable s)) = hashtable s.
Proof.
  simpl. intros H. apply alter_lock_roundtrip. intros bk Hbk.
  rewrite Hbk in H. simpl in H. congruence.
Qed.

Lemma held_after_acquire s h :
  held (BucketLock h) s = Some false ->
  bk_lock <$> alter (set_bk_lock true) h (hashtable s) !! h = Some true.
Proof.
  simpl. intros H. rewrite list_lookup_alter_eq.
  destruct (hashtable s !! h); [reflexivity|discriminate].
Qed.

Lemma bpin_run b s bb :
  bufs s !! b = Some bb ->
  let h := Z.to_nat (hash (dev bb) (blockno bb)) in
  held (BucketLock h) s = Some false ->
  bpin b s = Ret tt
    (mkstate (evict_lock s) (alter incr_refcnt b (bufs s)) (hashtable s) (ticks s)
       (trace s ++ [EAcquire (BucketLock h); EStore (PBuf b) Frefcnt;
                    ERelease (BucketLock h)])).
Proof.
  intros Hb h Hfree. unfold bpin.
  rewrite (bind_ret _ _ _ _ _ (load_ok (PBuf b) s bb Hb)). fold h.
  rewrite (bind_ret _ _ _ _ _ (acquire_ok _ _ Hfree)).
  rewrite (bind_ret _ _ _ tt
             (emit (EStore (PBuf b) Frefcnt)
                (poke (PBuf b) incr_refcnt
                   (emit (EAcquire (BucketLock h)) (set_held (BucketLock h) true s)))))
    by (apply store_ok; now exists bb).
  rewrite release_ok by (simpl; now apply held_after_acquire).
  f_equal. apply state_eq; simpl; try reflexivity.
  - now apply held_free_roundtrip.
  - now rewrite <- !app_assoc.
Qed.

Lemma bunpin_run b s bb :
  bufs s !! b = Some bb ->
  let h := Z.to_nat (hash (dev bb) (blockno bb)) in
  held (BucketLock h) s = Some false ->
  bunpin b s = Ret tt
    (mkstate (evict_lock s) (alter decr_refcnt b (bufs s)) (hashtable s) (ticks s)
       (trace s ++ [EAcquire (BucketLock h); EStore (PBuf b) Frefcnt;
                    ERelease (BucketLock h)])).
Proof.
  intros Hb h Hfree. unfold bunpin.
  rewrite (bind_ret _ _ _ _ _ (load_ok (PBuf b) s bb Hb)). fold h.
  rewrite (bind_ret _ _ _ _ _ (acquire_ok _ _ Hfree)).
  rewrite (bind_ret _ _ _ tt
             (emit (EStore (PBuf b) Frefcnt)
                (poke (PBuf b) decr_refcnt
                   (emit (EAcquire (BucketLock h)) (set_held (BucketLock h) true s)))))
    by (apply store_ok; now exists bb).
  rewrite release_ok by (simpl; now apply held_after_acquire).
  f_equal. apply state_eq; simpl; try reflexivity.
  - now apply held_free_roundtrip.
  - now rewrite <- !app_assoc.
Qed.

Lemma brelse_run me b s bb :
  bufs s !! b = Some bb ->
  let h := Z.to_nat (hash (dev bb) (blockno bb)) in
  held (BucketLock h) s = Some false ->
  brelse me b s =
    if bool_decide (lock bb = Some me) then
      Ret tt
        (mkstate (evict_lock s) (alter (brelse_buf (ticks s)) b (bufs s))
           (hashtable s) (ticks s)
           (trace s ++
              EReleaseSleep b :: EAcquire (BucketLock h) :: EStore (PBuf b) Frefcnt ::
              (if wrap (refcnt bb - 1) =? 0 then [EStore (PBuf b) Ftimestamp] else []) ++
              [ERelease (BucketLock h)]))
    else Panic "brelse" s.
Proof.
  intros Hb h Hfree. unfold brelse, holdingsleep.
  rewrite (bind_ret _ _ s (bool_decide (lock bb = Some me)) s)
    by now rewrite (bind_ret _ _ _ _ _ (load_ok (PBuf b) s bb Hb)).
  destruct (bool_decide (lock bb = Some me)); [|reflexivity]. unfold negb. cbv iota.
  set (s1 := emit (EReleaseSleep b) (with_bufs (alter (set_lock None) b (bufs s)) s)).
  assert (H1 : releasesleep b s = Ret tt s1).
  { unfold releasesleep. now rewrite Hb. }
  rewrite (bind_ret _ _ _ _ _ H1).
  assert (Hb1 : bufs s1 !! b = Some (set_lock None bb)).
  { unfold s1. simpl. now rewrite list_lookup_alter_eq, Hb. }
  rewrite (bind_ret _ _ _ _ _ (load_ok (PBuf b) s1 _ Hb1)).
  change (Z.to_nat (hash (dev (set_lock None bb)) (blockno (set_lock None bb)))) with h.
  assert (Hfree1 : held (BucketLock h) s1 = Some false) by exact Hfree.
  rewrite (bind_ret _ _ _ _ _ (acquire_ok _ _ Hfree1)).
  set (s2 := emit (EAcquire (BucketLock h)) (set_held (BucketLock h) true s1)).
  set (s3 := emit (EStore (PBuf b) Frefcnt) (poke (PBuf b) decr_refcnt s2)).
  assert (H3 : store (PBuf b) Frefcnt decr_refcnt s2 = Ret tt s3).
  { apply store_ok. now exists (set_lock None bb). }
  rewrite (bind_ret _ _ _ _ _ H3).
  assert (Hb3 : bufs s3 !! b = Some (decr_refcnt (set_lock None bb))).
  { unfold s3. rewrite bufs_emit, bufs_poke_buf, list_lookup_alter_eq.
    change (bufs s2) with (bufs s1). now rewrite Hb1. }
  rewrite (bind_ret _ _ _ _ _ (load_ok (PBuf b) s3 _ Hb3)).
  assert (Hheld3 : held (BucketLock h) s3 = Some true).
  { unfold s3, s2. rewrite held_emit, held_poke, held_emit.
    apply held_set_held_eq. rewrite Hfree1. now eexists. }
  assert (Hbuf : alter (brelse_buf (ticks s)) b (bufs s) =
                 alter (fun x => if wrap (refcnt bb - 1) =? 0
                                 then set_timestamp (ticks s) (decr_refcnt (set_lock None x))
                                 else decr_refcnt (set_lock None x)) b (bufs s)).
  { apply list_alter_ext; [|reflexivity]. intros x Hx. rewrite Hb in Hx.
    injection Hx as <-. reflexivity. }
  change (refcnt (decr_refcnt (set_lock None bb))) with (wrap (refcnt bb - 1)).
  destruct (wrap (refcnt bb - 1) =? 0) eqn:Hz.
  - set (s4 := emit (EStore (PBuf b) Ftimestamp) (poke (PBuf b) (set_timestamp (ticks s)) s3)).
    rewrite (bind_ret _ _ s3 tt s4).
    2:{ rewrite (bind_ret read_ticks _ s3 (ticks s) s3 eq_refl). apply store_ok.
        rewrite (Hb3 : deref (PBuf b) s3 = _). now eexists. }
    rewrite release_ok by (unfold s4; now rewrite held_emit, held_poke).
    f_equal. apply state_eq; simpl; try reflexivity.
    + rewrite Hbuf, !list_alter_alter_eq. reflexivity.
    + now apply held_free_roundtrip.
    + now rewrite <- !app_assoc.
  - rewrite (bind_ret (ret tt) _ s3 tt s3 eq_refl).
    rewrite release_ok by assumption.
    f_equal. apply state_eq; simpl; try reflexivity.
    + rewrite Hbuf, !list_alter_alter_eq. reflexivity.
    + now apply held_free_roundtrip.
    + now rewrite <- !app_assoc.
Qed.

(** Going for the blocking lock of slot [b]: the call returns once the
    lock is taken, and waits while someone holds it. *)
Lemma finish_run me b s bb :
  bufs s !! b = Some bb ->
  (acquiresleep me b >> ret b) s =
    match lock bb with
    | None =>
        Ret b (mkstate (evict_lock s) (alter (set_lock (Some me)) b (bufs s))
                 (hashtable s) (ticks s) (trace s ++ [EAcquireSleep b]))
    | Some _ => Blocked s
    end.
Proof.
  intros Hb. unfold bind, acquiresleep. rewrite Hb. now destruct (lock bb).
Qed.

Lemma bread_fill_run b s bb :
  bufs s !! b = Some bb ->
  bread_fill b s =
    Ret b (if valid bb =? 0 then
             mkstate (evict_lock s) (alter (set_valid 1) b (bufs s)) (hashtable s)
               (ticks s) (trace s ++ [EDiskRW b false; EStore (PBuf b) Fvalid])
           else s).
Proof.
  intros Hb. unfold bread_fill.
  rewrite (bind_ret _ _ _ _ _ (load_ok (PBuf b) s bb Hb)).
  destruct (valid bb =? 0).
  - unfold bind, virtio_disk_rw, store, ret. simpl. rewrite Hb. simpl.
    rewrite Hb. f_equal. apply state_eq; simpl; try reflexivity.
    now rewrite <- !app_assoc.
  - reflexivity.
Qed.

(** ** [binit] *)

Lemma concat_insert_cons (cs : list (list nat)) k l x :
  cs !! k = Some l -> concat (<[k := x :: l]> cs) ≡ₚ x :: concat cs.
Proof.
  revert k. induction cs as [|l0 cs IH]; intros [|k] Hk; simpl in *; try discriminate.
  - now injection Hk as ->.
  - rewrite (IH k Hk). symmetry. apply Permutation_middle.
Qed.

Lemma quiescent_poke s p upd : quiescent s -> quiescent (poke p upd s).
Proof.
  rewrite !quiescent_only_held. intros [He Hl].
  split; [now rewrite evict_lock_poke|now apply locks_are_poke].
Qed.

Section Binit.

Variable NBUF : nat.

Lemma binit_bufs_spec n : forall i s cs,
  (n + i = NBUF)%nat ->
  length (bufs s) = NBUF -> length (hashtable s) = Z.to_nat NBUCKET ->
  chains_of s cs -> concat cs ≡ₚ seq 0 i -> quiescent s ->
  data s = replicate NBUF buf0 -> ticks s = 0 ->
  exists s' cs',
    binit_bufs n i s = Ret tt s' /\ wf NBUF s' cs' /\ quiescent s' /\
    data s' = replicate NBUF buf0 /\ ticks s' = 0.
Proof.
  induction n as [|n IH]; intros i s cs Hni Hnb Hnh Hcs Hp Hq Hd Ht.
  - simpl in Hni. subst i. exists s, cs. split; [reflexivity|].
    split; [unfold wf; auto|]. auto.
  - set (k := (i mod Z.to_nat NBUCKET)%nat).
    assert (Hk : (k < Z.to_nat NBUCKET)%nat) by (apply Nat.mod_upper_bound; discriminate).
    destruct (lookup_lt_is_Some_2 (bufs s) i ltac:(lia)) as [bi Hbi].
    destruct (lookup_lt_is_Some_2 (hashtable s) k ltac:(lia)) as [bk Hbk].
    destruct (chains_of_lookup _ _ _ _ Hcs Hbk) as (lk & Hlk & Hchain).
    set (s1 := poke (PBuf i) (set_lock None) s).
    set (s2 := emit (EStore (PBuf i) Fnext) (poke (PBuf i) (set_next (next (head bk))) s1)).
    set (s3 := emit (EStore (PHead k) Fnext) (poke (PHead k) (set_next (Some i)) s2)).
    assert (Hfresh : i ∉ concat cs).
    { rewrite Hp, elem_of_seq. lia. }
    assert (Hcs2 : chains_of s2 cs).
    { unfold s2, s1. apply chains_of_emit. apply chains_of_poke_detached; [|assumption].
      now apply chains_of_poke_same_next. }
    assert (Hhd2 : deref (PHead k) s2 = Some (head bk)).
    { simpl. now rewrite Hbk. }
    assert (Hb2 : bufs s2 !! i = Some (set_next (next (head bk)) (set_lock None bi))).
    { simpl. now rewrite !list_lookup_alter_eq, Hbi. }
    destruct (IH (S i) s3 (<[k := i :: lk]> cs)) as (s' & cs' & Hrun & Hrest).
    + lia.
    + simpl. now rewrite !length_alter.
    + simpl. now rewrite length_alter.
    + unfold s3. apply chains_of_emit.
      now apply chains_of_push with (set_next (next (head bk)) (set_lock None bi)) (head bk).
    + rewrite (concat_insert_cons _ _ _ _ Hlk), Hp.
      rewrite seq_S. simpl. apply Permutation_cons_append.
    + unfold s3, s2, s1. now apply quiescent_poke, quiescent_poke, quiescent_poke.
    + unfold s3. rewrite data_emit, data_poke_next. unfold s2.
      rewrite data_emit, data_poke_next. unfold s1.
      rewrite data_poke_buf by reflexivity. rewrite Hd.
      apply list_eq. intros j. destruct (decide (i = j)) as [->|Hne].
      * rewrite list_lookup_alter_eq.
        destruct (replicate NBUF buf0 !! j) as [x|] eqn:E; [|reflexivity].
        apply lookup_replicate in E as [-> _]. reflexivity.
      * now rewrite list_lookup_alter_ne.
    + exact Ht.
    + exists s', cs'. split; [|exact Hrest].
      simpl binit_bufs. fold k.
      rewrite (bind_ret _ _ s tt s1) by (unfold initsleeplock; now rewrite Hbi).
      rewrite (bind_ret _ _ _ _ _ (load_ok (PHead k) s1 (head bk)
                 ltac:(simpl; now rewrite Hbk))).
      rewrite (bind_ret _ _ s1 tt s2) by (apply store_ok; simpl;
        rewrite list_lookup_alter_eq, Hbi; now eexists).
      rewrite (bind_ret _ _ s2 tt s3) by (apply store_ok; now exists (head bk)).
      exact Hrun.
Qed.

(** [binit] leaves every slot on the chain of bucket [i % NBUCKET], all
    locks free and every slot zeroed. *)
Lemma binit_spec :
  exists s cs,
    binit NBUF (zero_state NBUF) = Ret tt s /\ wf NBUF s cs /\ quiescent s /\
    data s = replicate NBUF buf0 /\ ticks s = 0.
Proof.
  destruct (binit_bufs_spec NBUF 0 (zero_state NBUF)
              (replicate (Z.to_nat NBUCKET) [])) as (s & cs & Hrun & Hrest).
  - lia.
  - apply length_replicate.
  - reflexivity.
  - unfold chains_of. simpl. repeat constructor.
  - reflexivity.
  - split; [reflexivity|]. simpl. repeat constructor.
  - unfold data. simpl. now rewrite fmap_replicate.
  - reflexivity.
  - exists s, cs. split; [|exact Hrest]. unfold binit.
    rewrite (bind_ret (initlock EvictLock) _ (zero_state NBUF) tt (zero_state NBUF) eq_refl).
    rewrite (bind_ret (binit_locks (Z.to_nat NBUCKET) 0) _
               (zero_state NBUF) tt (zero_state NBUF) eq_refl).
    exact Hrun.
Qed.

End Binit.

(** ** The invariant of the cache *)

(** A slot is bound when someone holds a reference to it or when its
    identity is not the all-zero one that static storage starts with. *)
Definition bound (b : buf) : Prop := 0 < refcnt b \/ dev b <> 0 \/ blockno b <> 0.

(** Every bound slot is the first slot with its identity on the chain its
    identity hashes to. *)
Definition home (bs : list buf) (cs : list (list nat)) : Prop :=
  forall i b, bs !! i = Some b -> bound b ->
    exists l, cs !! Z.to_nat (hash (dev b) (blockno b)) = Some l /\
      find_id bs (dev b) (blockno b) l = Some i.

Definition Inv_at (NBUF : nat) (s : state) (cs : list (list nat)) : Prop :=
  wf NBUF s cs /\ quiescent s /\ home (bufs s) cs.

Definition Inv (NBUF : nat) (s : state) : Prop := exists cs, Inv_at NBUF s cs.

Lemma find_id_ext bs bs' d bn l :
  (forall j, j ∈ l -> has_id bs' d bn j = has_id bs d bn j) ->
  find_id bs' d bn l = find_id bs d bn l.
Proof.
  induction l as [|i l IH]; intros H; simpl; [reflexivity|].
  rewrite (H i) by left. rewrite IH; [reflexivity|]. intros j Hj. apply H. now right.
Qed.

Lemma has_id_alter_keep bs f b d bn j :
  (forall x, dev (f x) = dev x) -> (forall x, blockno (f x) = blockno x) ->
  has_id (alter f b bs) d bn j = has_id bs d bn j.
Proof.
  intros Hd Hb. unfold has_id. destruct (decide (b = j)) as [->|Hne].
  - rewrite list_lookup_alter_eq. destruct (bs !! j); simpl; [|reflexivity].
    now rewrite Hd, Hb.
  - now rewrite list_lookup_alter_ne.
Qed.

Lemma home_data s cs : home (data s) cs <-> home (bufs s) cs.
Proof.
  unfold home, data. split; intros H i b Hb Hbound.
  - destruct (H i (strip b)) as (l & Hl & Hf).
    { now rewrite list_lookup_fmap, Hb. }
    { exact Hbound. }
    exists l. split; [exact Hl|]. simpl in Hf. now rewrite <- find_id_data.
  - rewrite list_lookup_fmap in Hb. destruct (bufs s !! i) as [x|] eqn:Hx; [|discriminate].
    injection Hb as <-. destruct (H i x Hx Hbound) as (l & Hl & Hf).
    exists l. split; [exact Hl|]. simpl. now rewrite (find_id_data s).
Qed.

(** Changing a slot without touching its identity keeps every bound slot
    at home, provided the slot does not become bound away from home. *)
Lemma home_alter_keep bs cs f b :
  home bs cs ->
  (forall x, dev (f x) = dev x) -> (forall x, blockno (f x) = blockno x) ->
  (forall x, bs !! b = Some x -> bound (f x) ->
     bound x \/
     exists l, cs !! Z.to_nat (hash (dev x) (blockno x)) = Some l /\
       find_id bs (dev x) (blockno x) l = Some b) ->
  home (alter f b bs) cs.
Proof.
  intros Hhome Hd Hb Hbound i y Hy Hby.
  assert (Hfind : forall d bn l, find_id (alter f b bs) d bn l = find_id bs d bn l).
  { intros. apply find_id_ext. intros. now apply has_id_alter_keep. }
  setoid_rewrite Hfind. destruct (decide (b = i)) as [->|Hne].
  - rewrite list_lookup_alter_eq in Hy. destruct (bs !! i) as [x|] eqn:Hx; [|discriminate].
    injection Hy as <-. rewrite Hd, Hb.
    destruct (Hbound x eq_refl Hby) as [Hbx|Hfound]; [|exact Hfound].
    now apply (Hhome i x).
  - rewrite list_lookup_alter_ne in Hy by assumption. now apply (Hhome i y).
Qed.

Lemma find_id_app bs d bn l1 l2 :
  find_id bs d bn (l1 ++ l2) =
  match find_id bs d bn l1 with Some i => Some i | None => find_id bs d bn l2 end.
Proof.
  induction l1 as [|i l1 IH]; simpl; [reflexivity|].
  now destruct (has_id bs d bn i).
Qed.

Lemma find_id_skip bs d bn la c lb :
  has_id bs d bn c = false ->
  find_id bs d bn (la ++ c :: lb) = find_id bs d bn (la ++ lb).
Proof. intros H. rewrite !find_id_app. simpl. now rewrite H. Qed.

(** When only slot [c] changes and it does not carry the identity
    afterwards, the first slot found stays the first slot found. *)
Lemma find_id_change bs bs' d bn c l i :
  (forall j, j <> c -> has_id bs' d bn j = has_id bs d bn j) ->
  has_id bs' d bn c = false ->
  find_id bs d bn l = Some i -> i <> c ->
  find_id bs' d bn l = Some i.
Proof.
  intros Hsame Hc. induction l as [|j l IH]; simpl; [discriminate|]. intros Hf Hic.
  destruct (decide (j = c)) as [->|Hjc].
  - rewrite Hc. destruct (has_id bs d bn c); [congruence|auto].
  - rewrite (Hsame j Hjc). destruct (has_id bs d bn j); auto.
Qed.

Lemma has_id_true bs d bn i :
  has_id bs d bn i = true <-> exists b, bs !! i = Some b /\ dev b = d /\ blockno b = bn.
Proof.
  unfold has_id. destruct (bs !! i) as [b|]; split.
  - intros [H1 H2]%andb_prop. apply Z.eqb_eq in H1, H2. now exists b.
  - intros (b' & [= <-] & <- & <-). now rewrite !Z.eqb_refl.
  - discriminate.
  - intros (b' & ? & _). discriminate.
Qed.

(** Recycling the free slot [c] for an identity that misses in its home
    chain, and moving it there, keeps every bound slot at home. *)
Lemma home_rebind bs cs d bn k la c lb lh cb :
  let h := Z.to_nat (hash d bn) in
  home bs cs -> NoDup (concat cs) ->
  cs !! k = Some (la ++ c :: lb) -> cs !! h = Some lh ->
  find_id bs d bn lh = None ->
  bs !! c = Some cb ->
  home (alter (rebind d bn) c bs)
       (if decide (k = h) then cs else <[h := c :: lh]> (<[k := la ++ lb]> cs)).
Proof.
  intros h Hhome Hnd Hk Hh Hmiss Hc i y Hy Hby.
  set (bs' := alter (rebind d bn) c bs) in *.
  set (cs' := if decide (k = h) then cs else <[h := c :: lh]> (<[k := la ++ lb]> cs)).
  assert (Hklen : (k < length cs)%nat) by now apply lookup_lt_Some in Hk.
  assert (Hhlen : (h < length cs)%nat) by now apply lookup_lt_Some in Hh.
  assert (Hc' : bs' !! c = Some (rebind d bn cb)).
  { unfold bs'. now rewrite list_lookup_alter_eq, Hc. }
  assert (Hidc : has_id bs' d bn c = true).
  { apply has_id_true. exists (rebind d bn cb). auto. }
  assert (Hother : forall x y j, j <> c -> has_id bs' x y j = has_id bs x y j).
  { intros x y' j Hj. unfold has_id, bs'. now rewrite list_lookup_alter_ne. }
  destruct (decide (i = c)) as [->|Hic].
  - (* the recycled slot itself *)
    rewrite Hc' in Hy. injection Hy as <-.
    change (dev (rebind d bn cb)) with d. change (blockno (rebind d bn cb)) with bn.
    fold h. unfold cs'. destruct (decide (k = h)) as [Hkh|Hkh].
    + exists lh. split; [assumption|]. rewrite <- Hkh, Hk in Hh. injection Hh as <-.
      rewrite find_id_app. simpl. rewrite Hidc.
      replace (find_id bs' d bn la) with (@None nat); [reflexivity|]. symmetry.
      rewrite (find_id_ext bs).
      * rewrite find_id_app in Hmiss. now destruct (find_id bs d bn la).
      * intros j Hj. apply Hother. intros ->.
        apply NoDup_concat in Hnd as [Hnd _]. specialize (Hnd _ _ Hk).
        apply NoDup_app in Hnd as (_ & Hd & _). apply (Hd c Hj). left.
    + exists (c :: lh). split.
      * apply list_lookup_insert_eq. now rewrite length_insert.
      * simpl. now rewrite Hidc.
  - (* another bound slot *)
    unfold bs' in Hy. rewrite list_lookup_alter_ne in Hy by congruence.
    destruct (Hhome i y Hy Hby) as (l & Hl & Hfind).
    set (hy := Z.to_nat (hash (dev y) (blockno y))) in *.
    assert (Hidy : has_id bs' (dev y) (blockno y) c = false).
    { destruct (has_id bs' (dev y) (blockno y) c) eqn:E; [|reflexivity].
      apply has_id_true in E as (x & Hx & Hdx & Hbx). rewrite Hc' in Hx.
      injection Hx as <-. simpl in Hdx, Hbx. subst d bn.
      fold hy in h. subst h. rewrite Hh in Hl. injection Hl as <-. congruence. }
    assert (Hfind' : find_id bs' (dev y) (blockno y) l = Some i).
    { apply (find_id_change bs bs' _ _ c); auto. }
    unfold cs'. destruct (decide (k = h)) as [Hkh|Hkh]; [now exists l|].
    destruct (decide (hy = h)) as [Hyh|Hyh].
    + exists (c :: lh). split.
      * rewrite Hyh. apply list_lookup_insert_eq. now rewrite length_insert.
      * simpl. rewrite Hidy. rewrite Hyh, Hh in Hl. now injection Hl as <-.
    + rewrite list_lookup_insert_ne by congruence.
      destruct (decide (hy = k)) as [Hyk|Hyk].
      * exists (la ++ lb). split.
        -- rewrite Hyk. now apply list_lookup_insert_eq.
        -- rewrite Hyk, Hk in Hl. injection Hl as <-.
           now rewrite <- (find_id_skip bs' _ _ la c lb).
      * exists l. split; [|assumption]. now rewrite list_lookup_insert_ne by congruence.
Qed.

(** A change to one slot that keeps its link and its identity, with the
    locks as they were. *)
Lemma Inv_touch NBUF s s' cs b f :
  Inv_at NBUF s cs ->
  evict_lock s' = evict_lock s -> hashtable s' = hashtable s ->
  bufs s' = alter f b (bufs s) ->
  (forall x, next (f x) = next x) ->
  (forall x, dev (f x) = dev x) -> (forall x, blockno (f x) = blockno x) ->
  (forall x, bufs s !! b = Some x -> bound (f x) ->
     bound x \/
     exists l, cs !! Z.to_nat (hash (dev x) (blockno x)) = Some l /\
       find_id (bufs s) (dev x) (blockno x) l = Some b) ->
  Inv_at NBUF s' cs.
Proof.
  intros ((Hnb & Hnh & Hcs & Hp) & [Hqe Hql] & Hhome) He Hht Hb Hn Hd Hbn Hbound.
  split; [|split].
  - split; [now rewrite Hb, length_alter|]. split; [now rewrite Hht|].
    split; [|assumption]. unfold chains_of in *. rewrite Hht, Hb.
    eapply Forall2_impl; [exact Hcs|]. intros bk l Hc.
    now apply chain_alter_same_next.
  - split; [now rewrite He|now rewrite Hht].
  - rewrite Hb. now apply home_alter_keep.
Qed.

(** A change to the log or to [ticks] only. *)
Lemma Inv_same NBUF s s' cs :
  Inv_at NBUF s cs ->
  evict_lock s' = evict_lock s -> hashtable s' = hashtable s ->
  bufs s' = bufs s ->
  Inv_at NBUF s' cs.
Proof.
  intros ((Hnb & Hnh & Hcs & Hp) & [Hqe Hql] & Hhome) He Hht Hb.
  unfold Inv_at, wf, quiescent, chains_of in *. rewrite He, Hht, Hb. auto 10.
Qed.

(** Going for the blocking lock, whether the call gets it or is left
    waiting, keeps the invariant. *)
Lemma Inv_finish NBUF me b s cs :
  Inv_at NBUF s cs -> is_Some (bufs s !! b) ->
  match (acquiresleep me b >> ret b) s with
  | Ret b' s' => b' = b /\ Inv_at NBUF s' cs /\ is_Some (bufs s' !! b)
  | Blocked s' => Inv_at NBUF s' cs
  | _ => False
  end.
Proof.
  intros Hinv [bb Hb]. rewrite (finish_run me b s bb Hb).
  destruct (lock bb); [assumption|]. split; [reflexivity|]. split.
  - apply (Inv_touch NBUF s _ cs b (set_lock (Some me))); auto.
  - simpl. rewrite list_lookup_alter_eq, Hb. now eexists.
Qed.

Lemma Inv_bread_fill NBUF b s cs :
  Inv_at NBUF s cs -> is_Some (bufs s !! b) ->
  exists s', bread_fill b s = Ret b s' /\ Inv_at NBUF s' cs /\
    exists bb, bufs s' !! b = Some bb /\ valid bb <> 0.
Proof.
  intros Hinv [bb Hb]. rewrite (bread_fill_run b s bb Hb).
  eexists. split; [reflexivity|]. destruct (valid bb =? 0) eqn:Hv.
  - split.
    + apply (Inv_touch NBUF s _ cs b (set_valid 1)); auto.
    + exists (set_valid 1 bb). simpl. rewrite list_lookup_alter_eq, Hb. split; [reflexivity|].
      discriminate.
  - split; [assumption|]. exists bb. split; [assumption|]. now apply Z.eqb_neq.
Qed.

(** Up to the blocking lock, [bget] either panics or keeps the invariant
    and comes out with a slot that carries the identity asked for and is
    on the chain the identity hashes to. *)
Lemma bget_Inv NBUF me d bn s cs :
  Inv_at NBUF s cs ->
  (exists s1 cs1 b,
     bget NBUF me d bn s = (acquiresleep me b >> ret b) s1 /\
     Inv_at NBUF s1 cs1 /\
     (exists bb, bufs s1 !! b = Some bb /\ dev bb = d /\ blockno bb = bn) /\
     (exists l, cs1 !! Z.to_nat (hash d bn) = Some l /\ b ∈ l)) \/
  (exists s', bget NBUF me d bn s = Panic "bget: no buffers" s').
Proof.
  intros Hinv. pose proof Hinv as (Hwf & Hq & Hhome).
  pose proof Hwf as (Hnb & Hnh & Hcs & Hp).
  destruct (lookup_lt_is_Some_2 cs (Z.to_nat (hash d bn))) as [lh Hlh].
  { rewrite <- (Forall2_length _ _ _ Hcs), Hnh. apply hash_lt. }
  destruct (find_id (bufs s) d bn lh) as [b|] eqn:Hfind.
  - (* hit *)
    destruct (bget_hit NBUF me d bn s cs lh b Hwf Hq Hlh Hfind)
      as (s1 & Hrun & He & Ht & Hb & Hht).
    destruct (find_id_Some _ _ _ _ _ Hfind) as (Hin & bb & Hbb & Hd & Hbn).
    left. exists s1, cs, b. split; [assumption|]. split; [|split].
    + apply (Inv_touch NBUF s s1 cs b incr_refcnt); auto.
      * destruct Hq as [Hqe _]. congruence.
      * intros x Hx _. right. rewrite Hbb in Hx. injection Hx as <-.
        exists lh. subst d bn. auto.
    + exists (incr_refcnt bb). rewrite Hb, list_lookup_alter_eq, Hbb. auto.
    + now exists lh.
  - (* miss *)
    pose proof (bget_miss NBUF me d bn s cs lh Hwf Hq Hlh Hfind) as Hmiss.
    destruct (champion (bufs s) (concat cs) None) as [c|].
    + destruct Hmiss as (k & la & lb & s1 & Hk & Hrun & Hq1 & Ht & Hd & Hwf1 & Hsame).
      assert (Hc : is_Some (bufs s !! c)).
      { destruct (Forall2_lookup_r _ _ _ _ _ Hcs Hk) as (bk & _ & Hchain).
        apply (chain_lookup _ _ _ _ Hchain). apply elem_of_app. right. left. }
      destruct Hc as [cb Hc].
      assert (Hnd : NoDup (concat cs)) by now apply concat_seq_iff in Hp as [Hnd _].
      left. eexists s1, _, c. split; [exact Hrun|]. split; [|split].
      * split; [exact Hwf1|]. split; [exact Hq1|].
        apply home_data. rewrite Hd.
        apply (home_rebind (data s) cs d bn k la c lb lh (strip cb)); auto.
        -- now apply home_data.
        -- now rewrite find_id_data.
        -- unfold data. now rewrite list_lookup_fmap, Hc.
      * assert (Hdc : data s1 !! c = Some (rebind d bn (strip cb))).
        { rewrite Hd, list_lookup_alter_eq. unfold data.
          now rewrite list_lookup_fmap, Hc. }
        unfold data in Hdc. rewrite list_lookup_fmap in Hdc.
        destruct (bufs s1 !! c) as [x|]; [|discriminate].
        exists x. split; [reflexivity|]. destruct x. simpl in Hdc |- *.
        injection Hdc. auto.
      * destruct (decide (k = Z.to_nat (hash d bn))) as [Hkh|Hkh].
        -- exists (la ++ c :: lb). split; [congruence|]. apply elem_of_app. right. left.
        -- exists (c :: lh). split; [|left]. apply list_lookup_insert_eq.
           rewrite length_insert. now apply lookup_lt_Some in Hlh.
    + destruct Hmiss as (s' & Hrun & _). right. now exists s'.
Qed.

(** Likewise for [bread]: on return the slot is valid as well. *)
Lemma bread_Inv NBUF me d bn s cs :
  Inv_at NBUF s cs ->
  match bread NBUF me d bn s with
  | Ret b s' =>
      exists cs', Inv_at NBUF s' cs' /\
        (exists bb, bufs s' !! b = Some bb /\ valid bb <> 0) /\
        (exists l, cs' !! Z.to_nat (hash d bn) = Some l /\ b ∈ l)
  | Blocked s' => Inv NBUF s'
  | Panic msg _ => msg = "bget: no buffers"%string
  | _ => False
  end.
Proof.
  intros Hinv. unfold bread.
  destruct (bget_Inv NBUF me d bn s cs Hinv)
    as [(s1 & cs1 & b & Hrun & Hinv1 & (bb & Hbb & _) & Hin)|(s' & Hrun)].
  - pose proof (Inv_finish NBUF me b s1 cs1 Hinv1 ltac:(now exists bb)) as Hfin.
    unfold bind at 1. rewrite Hrun.
    destruct ((acquiresleep me b >> ret b) s1) as [b' s2|msg s2|s2| |]; try contradiction.
    + destruct Hfin as (-> & Hinv2 & Hb2).
      destruct (Inv_bread_fill NBUF b s2 cs1 Hinv2 Hb2) as (s3 & -> & Hinv3 & Hv).
      now exists cs1.
    + now exists cs1.
  - unfold bind. now rewrite Hrun.
Qed.

(** ** The cache in use *)

(** One move of some process [me] on the shared cache: a call into the
    cache that comes back or is left waiting for a blocking lock, a waiting
    [bread] that is woken up and finishes, or a clock tick.  Callers of
    [brelse], [bpin] and [bunpin] hold a reference to the slot they pass. *)
Inductive step (NBUF : nat) : state -> state -> Prop :=
| step_bread me d bn b s s' :
    is_uint d -> is_uint bn ->
    bread NBUF me d bn s = Ret b s' -> step NBUF s s'
| step_bread_wait me d bn s s' :
    is_uint d -> is_uint bn ->
    bread NBUF me d bn s = Blocked s' -> step NBUF s s'
| step_wakeup me b s s' :
    (acquiresleep me b >> bread_fill b) s = Ret b s' -> step NBUF s s'
| step_bwrite me b s s' :
    bwrite me b s = Ret tt s' -> step NBUF s s'
| step_brelse me b s s' :
    0 < refcnt_of (bufs s) b ->
    brelse me b s = Ret tt s' -> step NBUF s s'
| step_bpin b s s' :
    0 < refcnt_of (bufs s) b ->
    bpin b s = Ret tt s' -> step NBUF s s'
| step_bunpin b s s' :
    0 < refcnt_of (bufs s) b ->
    bunpin b s = Ret tt s' -> step NBUF s s'
| step_tick s :
    step NBUF s (with_ticks (wrap (ticks s + 1)) s).

(** The states the cache goes through after [binit]. *)
Definition reachable (NBUF : nat) (s : state) : Prop :=
  exists s0, binit NBUF (zero_state NBUF) = Ret tt s0 /\ rtc (step NBUF) s0 s.

Lemma refcnt_of_pos bs b :
  0 < refcnt_of bs b -> exists bb, bs !! b = Some bb /\ 0 < refcnt bb.
Proof.
  unfold refcnt_of. destruct (bs !! b) as [bb|]; [|lia]. intros H. now exists bb.
Qed.

Lemma Inv_held NBUF s cs b bb :
  Inv_at NBUF s cs -> bufs s !! b = Some bb ->
  held (BucketLock (Z.to_nat (hash (dev bb) (blockno bb)))) s = Some false.
Proof.
  intros ((_ & Hnh & _) & Hq & _) _. apply quiescent_only_held in Hq as [_ Hl].
  rewrite (locks_are_held _ _ _ Hl); [reflexivity|]. rewrite Hnh. apply hash_lt.
Qed.

Lemma Inv_step NBUF s s' : Inv NBUF s -> step NBUF s s' -> Inv NBUF s'.
Proof.
  intros [cs Hinv] Hstep. destruct Hstep as
    [me d bn b s s' _ _ Hrun|me d bn s s' _ _ Hrun|me b s s' Hrun|me b s s' Hrun
    |me b s s' Hpos Hrun|b s s' Hpos Hrun|b s s' Hpos Hrun|s].
  - pose proof (bread_Inv NBUF me d bn s cs Hinv) as H. rewrite Hrun in H.
    destruct H as (cs' & H & _). now exists cs'.
  - pose proof (bread_Inv NBUF me d bn s cs Hinv) as H. now rewrite Hrun in H.
  - unfold bind in Hrun. unfold acquiresleep in Hrun at 1.
    destruct (bufs s !! b) as [bb|] eqn:Hb; [|discriminate].
    destruct (lock bb); [discriminate|].
    set (s1 := emit _ _) in Hrun.
    assert (Hinv1 : Inv_at NBUF s1 cs).
    { apply (Inv_touch NBUF s s1 cs b (set_lock (Some me))); auto. }
    destruct (Inv_bread_fill NBUF b s1 cs Hinv1) as (s2 & Hfill & Hinv2 & _).
    { unfold s1. simpl. rewrite list_lookup_alter_eq, Hb. now eexists. }
    rewrite Hfill in Hrun. injection Hrun as <-. now exists cs.
  - exists cs. unfold bwrite, holdingsleep, bind, load, virtio_disk_rw in Hrun.
    simpl in Hrun. destruct (bufs s !! b) as [bb|] eqn:Hb; [|discriminate]. simpl in Hrun.
    destruct (bool_decide (lock bb = Some me)); [|discriminate]. simpl in Hrun.
    rewrite Hb in Hrun. injection Hrun as <-. now apply (Inv_same NBUF s).
  - exists cs. apply refcnt_of_pos in Hpos as (bb & Hb & Hpos).
    rewrite (brelse_run me b s bb Hb (Inv_held _ _ _ _ _ Hinv Hb)) in Hrun.
    destruct (bool_decide (lock bb = Some me)); [|discriminate]. injection Hrun as <-.
    apply (Inv_touch NBUF s _ cs b (brelse_buf (ticks s))); auto;
      try (intros x; unfold brelse_buf; simpl;
           now destruct (wrap (refcnt x - 1) =? 0)).
    intros x Hx _. left. left. congruence.
  - exists cs. apply refcnt_of_pos in Hpos as (bb & Hb & Hpos).
    rewrite (bpin_run b s bb Hb (Inv_held _ _ _ _ _ Hinv Hb)) in Hrun.
    injection Hrun as <-.
    apply (Inv_touch NBUF s _ cs b incr_refcnt); auto.
    intros x Hx _. left. left. congruence.
  - exists cs. apply refcnt_of_pos in Hpos as (bb & Hb & Hpos).
    rewrite (bunpin_run b s bb Hb (Inv_held _ _ _ _ _ Hinv Hb)) in Hrun.
    injection Hrun as <-.
    apply (Inv_touch NBUF s _ cs b decr_refcnt); auto.
    intros x Hx _. left. left. congruence.
  - exists cs. now apply (Inv_same NBUF s).
Qed.

Lemma Inv_binit NBUF s0 : binit NBUF (zero_state NBUF) = Ret tt s0 -> Inv NBUF s0.
Proof.
  intros Hrun. destruct (binit_spec NBUF) as (s & cs & Hrun' & Hwf & Hq & Hd & _).
  rewrite Hrun in Hrun'. injection Hrun' as <-. exists cs.
  split; [assumption|]. split; [assumption|]. apply home_data. rewrite Hd.
  intros i b Hb Hbound. apply lookup_replicate in Hb as [-> _].
  unfold bound in Hbound. simpl in Hbound. lia.
Qed.

Lemma Inv_reachable NBUF s : reachable NBUF s -> Inv NBUF s.
Proof.
  intros (s0 & Hinit & Hsteps). revert s Hsteps. apply rtc_ind_r.
  - now apply Inv_binit.
  - intros s1 s2 _ Hstep IH. now apply (Inv_step NBUF s1).
Qed.

(** ** Scenarios *)

(** The state an outcome carries; [dflt] when it carries none. *)
Definition state_of {A} (o : outcome A) (dflt : state) : state :=
  match o with
  | Ret _ s => s
  | Panic _ s => s
  | Blocked s => s
  | _ => dflt
  end.

(** The cache after [binit]. *)
Definition boot (NBUF : nat) : state :=
  state_of (binit NBUF (zero_state NBUF)) (zero_state NBUF).

(** The calls a scenario is made of. *)
Inductive op :=
| OpBread (me : nat) (d bn : Z)
| OpBrelse (me b : nat)
| OpBpin (b : nat)
| OpBunpin (b : nat)
| OpTick.

#[global] Instance is_uint_dec z : Decision (is_uint z).
Proof. unfold is_uint. apply _. Defined.

(** Run one call that comes back; [None] when the scenario is not one the
    cache can go through. *)
Definition run_op (NBUF : nat) (o : op) (s : state) : option state :=
  match o with
  | OpBread me d bn =>
      if decide (is_uint d /\ is_uint bn) then
        match bread NBUF me d bn s with Ret _ s' => Some s' | _ => None end
      else None
  | OpBrelse me b =>
      if decide (0 < refcnt_of (bufs s) b) then
        match brelse me b s with Ret _ s' => Some s' | _ => None end
      else None
  | OpBpin b =>
      if decide (0 < refcnt_of (bufs s) b) then
        match bpin b s with Ret _ s' => Some s' | _ => None end
      else None
  | OpBunpin b =>
      if decide (0 < refcnt_of (bufs s) b) then
        match bunpin b s with Ret _ s' => Some s' | _ => None end
      else None
  | OpTick => Some (with_ticks (wrap (ticks s + 1)) s)
  end.

Fixpoint run_ops (NBUF : nat) (ops : list op) (s : state) : option state :=
  match ops with
  | [] => Some s
  | o :: ops' =>
      match run_op NBUF o s with
      | Some s' => run_ops NBUF ops' s'
      | None => None
      end
  end.

(** The cache after [binit] and the calls [ops]. *)
Definition scenario (NBUF : nat) (ops : list op) : state :=
  match run_ops NBUF ops (boot NBUF) with
  | Some s => s
  | None => boot NBUF
  end.

Lemma run_op_step NBUF o s s' : run_op NBUF o s = Some s' -> step NBUF s s'.
Proof.
  destruct o as [me d bn|me b|b|b|]; simpl.
  - destruct (decide (is_uint d /\ is_uint bn)) as [[Hd Hbn]|]; [|discriminate].
    destruct (bread NBUF me d bn s) as [b s1| | | |] eqn:Hrun; try discriminate.
    intros [= <-]. now apply (step_bread NBUF me d bn b).
  - destruct (decide (0 < refcnt_of (bufs s) b)) as [Hpos|]; [|discriminate].
    destruct (brelse me b s) as [[] s1| | | |] eqn:Hrun; try discriminate.
    intros [= <-]. now apply (step_brelse NBUF me b).
  - destruct (decide (0 < refcnt_of (bufs s) b)) as [Hpos|]; [|discriminate].
    destruct (bpin b s) as [[] s1| | | |] eqn:Hrun; try discriminate.
    intros [= <-]. now apply (step_bpin NBUF b).
  - destruct (decide (0 < refcnt_of (bufs s) b)) as [Hpos|]; [|discriminate].
    destruct (bunpin b s) as [[] s1| | | |] eqn:Hrun; try discriminate.
    intros [= <-]. now apply (step_bunpin NBUF b).
  - intros [= <-]. apply step_tick.
Qed.

Lemma run_ops_rtc NBUF ops s s' :
  run_ops NBUF ops s = Some s' -> rtc (step NBUF) s s'.
Proof.
  revert s. induction ops as [|o ops IH]; simpl; intros s.
  - intros [= <-]. apply rtc_refl.
  - destruct (run_op NBUF o s) as [s1|] eqn:Hop; [|discriminate].
    intros Hrun. apply rtc_l with s1; [now apply (run_op_step NBUF o)|now apply IH].
Qed.

Lemma boot_binit NBUF : binit NBUF (zero_state NBUF) = Ret tt (boot NBUF).
Proof.
  unfold boot. destruct (binit_spec NBUF) as (s & cs & -> & _). reflexivity.
Qed.

(** A scenario whose calls all come back ends in a reachable state. *)
Lemma scenario_reachable NBUF ops :
  is_Some (run_ops NBUF ops (boot NBUF)) -> reachable NBUF (scenario NBUF ops).
Proof.
  intros [s Hs]. unfold scenario. rewrite Hs. exists (boot NBUF).
  split; [apply boot_binit|now apply (run_ops_rtc NBUF ops)].
Qed.

(** ** The scan from a state between calls *)

Lemma scan_from_wf NBUF s cs :
  wf NBUF s cs -> only_held s None ->
  exists prb pbk s',
    bget_scan NBUF (Z.to_nat NBUCKET) 0 None None s = Ret (prb, pbk) s' /\
    bufs s' = bufs s /\ heads s' = heads s /\
    match champion (bufs s) (concat cs) None with
    | None => prb = None /\ pbk = None
    | Some c => exists k la lb pb,
        cs !! k = Some (la ++ c :: lb) /\
        prb = Some (last_ptr k la) /\ pbk = Some k /\
        deref (last_ptr k la) s' = Some pb /\ next pb = Some c
    end.
Proof.
  intros Hwf Hlocks.
  pose proof (fun k l => wf_chain_length NBUF s cs k l Hwf) as Hlens.
  destruct Hwf as (Hnb & Hnh & Hcs & Hp).
  destruct (bget_scan_spec NBUF cs Hlens (Z.to_nat NBUCKET) 0 None None s)
    as (prb & pbk & s' & Hscan & Hb & Hh & _ & _ & _ & [_ Hinv]);
    [lia|assumption|assumption|split; [assumption|simpl; auto]|].
  exists prb, pbk, s'. split; [assumption|]. split; [assumption|]. split; [assumption|].
  rewrite take_ge in Hinv by (rewrite <- (Forall2_length _ _ _ Hcs); lia).
  rewrite Hb in Hinv. destruct (champion (bufs s) (concat cs) None) as [c|]; [|assumption].
  destruct Hinv as (k & la & lb & -> & _ & Hk & ->).
  assert (Hcs' : chains_of s' cs) by now apply (chains_of_ext s).
  destruct (Forall2_lookup_r _ _ _ _ _ Hcs' Hk) as (bk & Hbk & Hchain).
  destruct (pred_next _ _ _ _ _ _ Hbk Hchain) as (pb & cb & Hp' & Hnext & _).
  exists k, la, lb, pb. auto.
Qed.

Lemma alter_insert {A} (f : A -> A) i (l : list A) x :
  l !! i = Some x -> alter f i l = <[i := f x]> l.
Proof.
  intros H. rewrite list_insert_alter. apply list_alter_ext; [|reflexivity].
  intros y Hy. congruence.
Qed.

(** ** A slot in use is never recycled; the recycled slot is the oldest *)

Lemma Inv_only_held NBUF s cs : Inv_at NBUF s cs -> only_held s None.
Proof. intros (_ & Hq & _). now apply quiescent_only_held in Hq as [_ Hl]. Qed.

Lemma wf_elem_of NBUF s cs i :
  wf NBUF s cs -> (i < NBUF)%nat <-> i ∈ concat cs.
Proof.
  intros (_ & _ & _ & Hp). apply concat_seq_iff in Hp as [_ Hmem].
  symmetry. apply Hmem.
Qed.

Lemma strip_eq_fields b b' :
  strip b' = strip b ->
  dev b' = dev b /\ blockno b' = blockno b /\ valid b' = valid b /\
  refcnt b' = refcnt b /\ timestamp b' = timestamp b /\ lock b' = lock b.
Proof. destruct b, b'. simpl. intros [= -> -> -> -> -> ->]. auto 10. Qed.

(** A call of [bget] that comes back leaves every slot that was in use
    with its identity, validity and recency. *)
Lemma bget_ret_keeps NBUF me d bn s cs c s2 :
  Inv_at NBUF s cs -> bget NBUF me d bn s = Ret c s2 ->
  forall i b, bufs s !! i = Some b -> 0 < refcnt b ->
  exists b', bufs s2 !! i = Some b' /\
    dev b' = dev b /\ blockno b' = blockno b /\ valid b' = valid b.
Proof.
  intros Hinv Hrun i b Hi Hpos. pose proof Hinv as (Hwf & Hq & Hhome).
  pose proof Hwf as (Hnb & Hnh & Hcs & Hp).
  destruct (lookup_lt_is_Some_2 cs (Z.to_nat (hash d bn))) as [lh Hlh].
  { rewrite <- (Forall2_length _ _ _ Hcs), Hnh. apply hash_lt. }
  destruct (find_id (bufs s) d bn lh) as [b0|] eqn:Hfind.
  - destruct (bget_hit NBUF me d bn s cs lh b0 Hwf Hq Hlh Hfind)
      as (s1 & Hrun1 & He & Ht & Hb & Hht).
    destruct (find_id_Some _ _ _ _ _ Hfind) as (Hin & bb & Hbb & _).
    rewrite Hrun1, (finish_run me b0 s1 (incr_refcnt bb)) in Hrun
      by now rewrite Hb, list_lookup_alter_eq, Hbb.
    simpl in Hrun. destruct (lock bb); [discriminate|]. injection Hrun as <- <-.
    simpl. rewrite Hb, list_alter_alter_eq.
    destruct (decide (b0 = i)) as [->|Hne].
    + rewrite list_lookup_alter_eq, Hi. eexists. split; [reflexivity|]. auto.
    + rewrite list_lookup_alter_ne by assumption. now exists b.
  - pose proof (bget_miss NBUF me d bn s cs lh Hwf Hq Hlh Hfind) as Hmiss.
    pose proof (champion_spec (bufs s) (concat cs)) as Hchamp.
    destruct (champion (bufs s) (concat cs) None) as [c0|].
    + destruct Hmiss as (k & la & lb & s1 & Hk & Hrun1 & Hq1 & Ht & Hd & Hwf1 & _).
      destruct Hchamp as (Hfree & _).
      assert (Hic : c0 <> i).
      { intros ->. unfold refcnt_of in Hfree. rewrite Hi in Hfree. lia. }
      assert (Hi1 : data s1 !! i = Some (strip b)).
      { rewrite Hd, list_lookup_alter_ne by assumption. unfold data.
        now rewrite list_lookup_fmap, Hi. }
      unfold data in Hi1. rewrite list_lookup_fmap in Hi1.
      destruct (bufs s1 !! i) as [b1|] eqn:Hb1; [|discriminate].
      assert (Hs : strip b1 = strip b) by (simpl in Hi1; congruence).
      apply strip_eq_fields in Hs as (? & ? & ? & _).
      assert (Hc1 : is_Some (bufs s1 !! c0)).
      { apply lookup_lt_is_Some. destruct Hwf1 as (-> & _).
        apply (wf_elem_of NBUF s cs); [assumption|].
        apply elem_of_concat. exists k, (la ++ c0 :: lb). split; [assumption|].
        apply elem_of_app. right. left. }
      destruct Hc1 as [c1 Hc1].
      rewrite Hrun1, (finish_run me c0 s1 c1 Hc1) in Hrun.
      destruct (lock c1); [discriminate|]. injection Hrun as <- <-.
      simpl. rewrite list_lookup_alter_ne by assumption. now exists b1.
    + destruct Hmiss as (s' & Hrun1 & _). congruence.
Qed.

(** C2: the eviction scan never makes a slot whose ref_count is not zero
    its champion: when the scan ends with a champion
    ([prev_replace_buf->next]), that slot's ref_count is zero; and a call
    of bget that returns leaves the identity and the validity of every slot
    with ref_count > 0 as they were. *)
Theorem C2_scan_never_picks_referenced NBUF s :
  reachable NBUF s ->
  (exists prb pbk s',
     bget_scan NBUF (Z.to_nat NBUCKET) 0 None None s = Ret (prb, pbk) s' /\
     bufs s' = bufs s /\
     forall p pb c cb,
       prb = Some p -> deref p s' = Some pb -> next pb = Some c ->
       bufs s' !! c = Some cb -> refcnt cb = 0) /\
  (forall me d bn c s2 i b,
     bget NBUF me d bn s = Ret c s2 ->
     bufs s !! i = Some b -> 0 < refcnt b ->
     exists b', bufs s2 !! i = Some b' /\
       dev b' = dev b /\ blockno b' = blockno b /\ valid b' = valid b).
Proof.
  intros Hreach. destruct (Inv_reachable NBUF s Hreach) as [cs Hinv]. split.
  - destruct (scan_from_wf NBUF s cs) as (prb & pbk & s' & Hscan & Hb & Hh & Hres).
    { now destruct Hinv. }
    { now apply (Inv_only_held NBUF s cs). }
    exists prb, pbk, s'. split; [assumption|]. split; [assumption|].
    intros p pb c cb -> Hp Hnext Hc.
    pose proof (champion_spec (bufs s) (concat cs)) as Hchamp.
    destruct (champion (bufs s) (concat cs) None) as [c0|].
    + destruct Hres as (k & la & lb & pb0 & _ & [= ->] & _ & Hp0 & Hnext0).
      rewrite Hp in Hp0. injection Hp0 as <-. rewrite Hnext in Hnext0.
      injection Hnext0 as <-. destruct Hchamp as [Hfree _].
      unfold refcnt_of in Hfree. rewrite <- Hb, Hc in Hfree. exact Hfree.
    + destruct Hres as [? _]. discriminate.
  - intros me d bn c s2 i b Hrun Hb Hpos.
    now apply (bget_ret_keeps NBUF me d bn s cs c s2).
Qed.

(** C3: among the slots whose ref_count is zero the scan picks one with
    the smallest recency, and of several with that recency the one that
    comes first in scan order (buckets by index, each chain from its
    head): the champion is strictly older than every free slot scanned
    before it and at least as old as every free slot scanned after it.
    The scan ends without a champion only when no slot is free. *)
Theorem C3_scan_picks_oldest_first NBUF s :
  reachable NBUF s ->
  exists cs prb pbk s',
    wf NBUF s cs /\
    bget_scan NBUF (Z.to_nat NBUCKET) 0 None None s = Ret (prb, pbk) s' /\
    bufs s' = bufs s /\
    match prb with
    | None => forall i b, bufs s !! i = Some b -> refcnt b <> 0
    | Some p =>
        exists pb c la lb,
          deref p s' = Some pb /\ next pb = Some c /\
          concat cs = la ++ c :: lb /\
          refcnt_of (bufs s) c = 0 /\
          (forall i, i ∈ la -> refcnt_of (bufs s) i = 0 ->
             timestamp_of (bufs s) c < timestamp_of (bufs s) i) /\
          (forall i, i ∈ lb -> refcnt_of (bufs s) i = 0 ->
             timestamp_of (bufs s) c <= timestamp_of (bufs s) i)
    end.
Proof.
  intros Hreach. destruct (Inv_reachable NBUF s Hreach) as [cs Hinv].
  pose proof Hinv as (Hwf & _).
  destruct (scan_from_wf NBUF s cs Hwf (Inv_only_held NBUF s cs Hinv))
    as (prb & pbk & s' & Hscan & Hb & Hh & Hres).
  exists cs, prb, pbk, s'. split; [assumption|]. split; [assumption|].
  split; [assumption|].
  pose proof (champion_spec (bufs s) (concat cs)) as Hchamp.
  destruct (champion (bufs s) (concat cs) None) as [c|].
  - destruct Hres as (k & la0 & lb0 & pb & _ & -> & _ & Hp & Hnext).
    destruct Hchamp as (Hfree & la & lb & Hsplit & Hla & Hlb).
    exists pb, c, la, lb. auto 10.
  - destruct Hres as [-> _]. intros i b Hi.
    assert (Hin : i ∈ concat cs).
    { apply (wf_elem_of NBUF s cs i Hwf). destruct Hwf as (<- & _).
      now apply lookup_lt_Some in Hi. }
    specialize (Hchamp i Hin). unfold refcnt_of in Hchamp. now rewrite Hi in Hchamp.
Qed.

(** ** A true miss *)

(** The lookup of lines 94 to 101 runs off the chain of the bucket the
    identity hashes to: the block is not cached. *)
Definition lookup_misses (NBUF : nat) (d bn : Z) (s : state) : Prop :=
  (let* hd := load (PHead (Z.to_nat (hash d bn))) in
   bget_lookup NBUF d bn (next hd)) s = Ret None s.

Lemma lookup_misses_find NBUF d bn s cs lh :
  wf NBUF s cs -> cs !! Z.to_nat (hash d bn) = Some lh ->
  lookup_misses NBUF d bn s -> find_id (bufs s) d bn lh = None.
Proof.
  intros Hwf Hlh Hmiss. pose proof (wf_chain_length _ _ _ _ _ Hwf Hlh) as Hlen.
  destruct Hwf as (_ & _ & Hcs & _).
  apply chains_of_chain_at in Hcs as [_ Hcs].
  destruct (Hcs _ _ Hlh) as (hd & Hhd & Hchain).
  unfold lookup_misses in Hmiss.
  rewrite (bind_ret _ _ _ _ _ (load_ok _ _ _ Hhd)) in Hmiss.
  rewrite (bget_lookup_spec s d bn _ _ Hchain NBUF Hlen) in Hmiss. congruence.
Qed.

Lemma wf_home_chain NBUF s cs d bn :
  wf NBUF s cs -> exists lh, cs !! Z.to_nat (hash d bn) = Some lh.
Proof.
  intros (_ & Hnh & Hcs & _). apply lookup_lt_is_Some_2.
  rewrite <- (Forall2_length _ _ _ Hcs), Hnh. apply hash_lt.
Qed.

Lemma wf_unique_chain NBUF s cs i j li lj x :
  wf NBUF s cs -> cs !! i = Some li -> cs !! j = Some lj ->
  x ∈ li -> x ∈ lj -> i = j.
Proof.
  intros (_ & _ & _ & Hp). apply concat_seq_iff in Hp as [Hnd _].
  apply NoDup_concat in Hnd as [_ Huniq]. apply Huniq.
Qed.

(** C4: after a true miss the slot that bget recycles (a slot whose
    ref_count was zero) carries the identity asked for, is not valid, has
    ref_count 1, and is on the chain of the bucket the identity hashes to
    and on no other.  When it came from another bucket it has been taken
    off that chain and put at the head of the target chain; when it was
    already in the target bucket no link has changed.  bget then goes for
    the slot's blocking lock: it returns the slot once it has the lock. *)
Theorem C4_true_miss_rebinds NBUF me d bn s :
  reachable NBUF s ->
  lookup_misses NBUF d bn s ->
  (exists i b, bufs s !! i = Some b /\ refcnt b = 0) ->
  let h := Z.to_nat (hash d bn) in
  exists cs cs' k la lb lh c cb cb' s',
    wf NBUF s cs /\ cs !! h = Some lh /\ cs !! k = Some (la ++ c :: lb) /\
    bufs s !! c = Some cb /\ refcnt cb = 0 /\
    bget NBUF me d bn s =
      match lock cb with
      | None =>
          Ret c (mkstate (evict_lock s') (alter (set_lock (Some me)) c (bufs s'))
                   (hashtable s') (ticks s') (trace s' ++ [EAcquireSleep c]))
      | Some _ => Blocked s'
      end /\
    wf NBUF s' cs' /\ quiescent s' /\
    bufs s' !! c = Some cb' /\
    dev cb' = d /\ blockno cb' = bn /\ valid cb' = 0 /\ refcnt cb' = 1 /\
    (forall j l, cs' !! j = Some l -> c ∈ l <-> j = h) /\
    (k <> h -> cs' = <[h := c :: lh]> (<[k := la ++ lb]> cs)) /\
    (k = h ->
       cs' = cs /\ next <$> bufs s' = next <$> bufs s /\ heads s' = heads s).
Proof.
  intros Hreach Hmiss (i0 & b0 & Hi0 & Hfree0) h.
  destruct (Inv_reachable NBUF s Hreach) as [cs Hinv].
  pose proof Hinv as (Hwf & Hq & Hhome).
  destruct (wf_home_chain NBUF s cs d bn Hwf) as [lh Hlh].
  pose proof (lookup_misses_find NBUF d bn s cs lh Hwf Hlh Hmiss) as Hfind.
  pose proof (bget_miss NBUF me d bn s cs lh Hwf Hq Hlh Hfind) as Hrun.
  pose proof (champion_spec (bufs s) (concat cs)) as Hchamp.
  destruct (champion (bufs s) (concat cs) None) as [c|].
  2:{ exfalso. apply (Hchamp i0).
      - apply (wf_elem_of NBUF s cs i0 Hwf). destruct Hwf as (<- & _).
        now apply lookup_lt_Some in Hi0.
      - unfold refcnt_of. now rewrite Hi0. }
  destruct Hrun as (k & la & lb & s' & Hk & Hrun & Hq' & Ht & Hd & Hwf' & Hsame).
  destruct Hchamp as (Hfree & _). fold h in Hwf', Hsame, Hlh.
  set (cs' := if decide (k = h) then cs else <[h := c :: lh]> (<[k := la ++ lb]> cs)) in *.
  assert (Hc : is_Some (bufs s !! c)).
  { destruct Hwf as (_ & _ & Hcs & _).
    destruct (Forall2_lookup_r _ _ _ _ _ Hcs Hk) as (bk & _ & Hchain).
    apply (chain_lookup _ _ _ _ Hchain). apply elem_of_app. right. left. }
  destruct Hc as [cb Hc].
  assert (Hdc : data s' !! c = Some (rebind d bn (strip cb))).
  { rewrite Hd, list_lookup_alter_eq. unfold data. now rewrite list_lookup_fmap, Hc. }
  unfold data in Hdc. rewrite list_lookup_fmap in Hdc.
  destruct (bufs s' !! c) as [cb'|] eqn:Hc'; [|discriminate].
  assert (Hs : strip cb' = rebind d bn (strip cb)) by (simpl in Hdc; congruence).
  assert (Hin : exists l, cs' !! h = Some l /\ c ∈ l).
  { unfold cs'. destruct (decide (k = h)) as [Hkh|Hkh].
    - exists (la ++ c :: lb). split; [congruence|]. apply elem_of_app. right. left.
    - exists (c :: lh). split; [|left]. apply list_lookup_insert_eq.
      rewrite length_insert. now apply lookup_lt_Some in Hlh. }
  exists cs, cs', k, la, lb, lh, c, cb, cb', s'.
  split; [assumption|]. split; [assumption|]. split; [assumption|].
  split; [assumption|]. split; [unfold refcnt_of in Hfree; now rewrite Hc in Hfree|].
  split.
  { rewrite Hrun, (finish_run me c s' cb' Hc').
    replace (lock cb') with (lock cb); [reflexivity|].
    change (lock (rebind d bn (strip cb)) = lock (strip cb')). now rewrite Hs. }
  split; [assumption|]. split; [assumption|]. split; [exact Hc'|].
  split; [change (dev cb') with (dev (strip cb')); now rewrite Hs|].
  split; [change (blockno cb') with (blockno (strip cb')); now rewrite Hs|].
  split; [change (valid cb') with (valid (strip cb')); now rewrite Hs|].
  split; [change (refcnt cb') with (refcnt (strip cb')); now rewrite Hs|].
  split.
  { intros j l Hj. destruct Hin as (l0 & Hl0 & Hcl0). split.
    - intros Hcl. apply (wf_unique_chain NBUF s' cs' j h l l0 c); assumption.
    - intros ->. rewrite Hl0 in Hj. now injection Hj as <-. }
  unfold cs'. split.
  - intros Hkh. now destruct (decide (k = h)).
  - intros Hkh. destruct (decide (k = h)); [|contradiction]. split; [reflexivity|].
    now apply Hsame.
Qed.

(** C6: when the lookup misses and no slot of the pool has ref_count
    zero, bget calls [panic("bget: no buffers")]: it neither returns a
    slot nor tries again, and so does bread; memory is as it was. *)
Theorem C6_no_free_slot_panics NBUF me d bn s :
  reachable NBUF s ->
  lookup_misses NBUF d bn s ->
  Forall (fun b => refcnt b <> 0) (bufs s) ->
  exists s',
    bget NBUF me d bn s = Panic "bget: no buffers" s' /\
    bread NBUF me d bn s = Panic "bget: no buffers" s' /\
    bufs s' = bufs s /\ heads s' = heads s.
Proof.
  intros Hreach Hmiss Hbusy.
  destruct (Inv_reachable NBUF s Hreach) as [cs Hinv].
  pose proof Hinv as (Hwf & Hq & Hhome).
  destruct (wf_home_chain NBUF s cs d bn Hwf) as [lh Hlh].
  pose proof (lookup_misses_find NBUF d bn s cs lh Hwf Hlh Hmiss) as Hfind.
  pose proof (bget_miss NBUF me d bn s cs lh Hwf Hq Hlh Hfind) as Hrun.
  pose proof (champion_spec (bufs s) (concat cs)) as Hchamp.
  destruct (champion (bufs s) (concat cs) None) as [c|].
  - exfalso. destruct Hchamp as (Hfree & _). unfold refcnt_of in Hfree.
    destruct (bufs s !! c) as [cb|] eqn:Hc.
    + now apply (proj1 (Forall_lookup _ _) Hbusy c cb Hc).
    + destruct Hrun as (k & la & lb & _ & Hk & _).
      destruct Hwf as (_ & _ & Hcs & _).
      destruct (Forall2_lookup_r _ _ _ _ _ Hcs Hk) as (bk & _ & Hchain).
      destruct (chain_lookup _ _ _ c Hchain) as [x Hx]; [|congruence].
      apply elem_of_app. right. left.
  - destruct Hrun as (s' & Hrun & Hb & Hh). exists s'.
    split; [assumption|]. split; [|auto]. unfold bread, bind. now rewrite Hrun.
Qed.

(** C7: bread returns the slot bget returned, with valid set.  If bget's
    slot is not valid, bread calls the device for a read and then sets
    valid to 1, and does nothing else; if the slot is valid, bread does
    nothing at all: no device read, the state is bget's. *)
Theorem C7_bread_loads_unless_valid NBUF me d bn s b s1 bb :
  bget NBUF me d bn s = Ret b s1 ->
  bufs s1 !! b = Some bb ->
  exists s2 bb2,
    bread NBUF me d bn s = Ret b s2 /\
    bufs s2 !! b = Some bb2 /\ valid bb2 <> 0 /\
    (valid bb = 0 ->
       s2 = mkstate (evict_lock s1) (<[b := set_valid 1 bb]> (bufs s1))
              (hashtable s1) (ticks s1)
              (trace s1 ++ [EDiskRW b false; EStore (PBuf b) Fvalid])) /\
    (valid bb <> 0 -> s2 = s1).
Proof.
  intros Hget Hb. unfold bread. rewrite (bind_ret _ _ _ _ _ Hget).
  rewrite (bread_fill_run b s1 bb Hb). destruct (valid bb =? 0) eqn:Hv.
  - apply Z.eqb_eq in Hv. eexists _, (set_valid 1 bb). split; [reflexivity|].
    simpl. rewrite list_lookup_alter_eq, Hb. split; [reflexivity|].
    split; [discriminate|]. split; [|intros Hne; contradiction].
    intros _. now rewrite (alter_insert _ _ _ _ Hb).
  - apply Z.eqb_neq in Hv. exists s1, bb. split; [reflexivity|].
    split; [assumption|]. split; [assumption|]. split; [intros Hz; contradiction|].
    reflexivity.
Qed.

(** C8: brelse panics when the caller does not hold the slot's blocking
    lock.  Otherwise it first releases the blocking lock, then takes the
    lock of the bucket the slot's identity hashes to, decrements
    ref_count, stores ticks in the recency stamp exactly when the new
    ref_count is zero, and releases the bucket lock; nothing else
    changes. *)
Theorem C8_brelse_unlocks_then_decrements me b s bb :
  bufs s !! b = Some bb ->
  let h := Z.to_nat (hash (dev bb) (blockno bb)) in
  held (BucketLock h) s = Some false ->
  (lock bb <> Some me -> brelse me b s = Panic "brelse" s) /\
  (lock bb = Some me ->
     brelse me b s =
       Ret tt
         (mkstate (evict_lock s)
            (<[b := mkbuf (valid bb) (dev bb) (blockno bb) None
                      (wrap (refcnt bb - 1)) (next bb)
                      (if wrap (refcnt bb - 1) =? 0 then ticks s else timestamp bb)]>
               (bufs s))
            (hashtable s) (ticks s)
            (trace s ++
               EReleaseSleep b :: EAcquire (BucketLock h) :: EStore (PBuf b) Frefcnt ::
               (if wrap (refcnt bb - 1) =? 0 then [EStore (PBuf b) Ftimestamp] else []) ++
               [ERelease (BucketLock h)]))) /\
  (0 < refcnt bb < 2 ^ 32 -> wrap (refcnt bb - 1) = refcnt bb - 1).
Proof.
  intros Hb h Hfree. pose proof (brelse_run me b s bb Hb Hfree) as Hrun.
  fold h in Hrun. split; [|split].
  - intros Hl. now rewrite bool_decide_eq_false_2 in Hrun.
  - intros Hl. rewrite bool_decide_eq_true_2 in Hrun by assumption.
    rewrite Hrun. do 2 f_equal. rewrite (alter_insert _ _ _ _ Hb). f_equal.
    unfold brelse_buf. simpl. now destruct (wrap (refcnt bb - 1) =? 0).
  - intros Hr. apply wrap_small. unfold is_uint. lia.
Qed.

(** C9: bpin and bunpin take the lock of the bucket the slot's identity
    hashes to, store the incremented (bpin) or decremented (bunpin)
    ref_count, and release the bucket lock.  No other field of the slot
    changes, the recency stamp included, whatever the new ref_count is;
    no other slot changes; the blocking lock is neither read nor
    written. *)
Theorem C9_pin_unpin_touch_only_refcnt b s bb :
  bufs s !! b = Some bb ->
  let h := Z.to_nat (hash (dev bb) (blockno bb)) in
  held (BucketLock h) s = Some false ->
  bpin b s =
    Ret tt
      (mkstate (evict_lock s)
         (<[b := mkbuf (valid bb) (dev bb) (blockno bb) (lock bb)
                   (wrap (refcnt bb + 1)) (next bb) (timestamp bb)]> (bufs s))
         (hashtable s) (ticks s)
         (trace s ++ [EAcquire (BucketLock h); EStore (PBuf b) Frefcnt;
                      ERelease (BucketLock h)])) /\
  bunpin b s =
    Ret tt
      (mkstate (evict_lock s)
         (<[b := mkbuf (valid bb) (dev bb) (blockno bb) (lock bb)
                   (wrap (refcnt bb - 1)) (next bb) (timestamp bb)]> (bufs s))
         (hashtable s) (ticks s)
         (trace s ++ [EAcquire (BucketLock h); EStore (PBuf b) Frefcnt;
                      ERelease (BucketLock h)])).
Proof.
  intros Hb h Hfree. split.
  - rewrite (bpin_run b s bb Hb Hfree). now rewrite (alter_insert _ _ _ _ Hb).
  - rewrite (bunpin_run b s bb Hb Hfree). now rewrite (alter_insert _ _ _ _ Hb).
Qed.

(** ** Identities and chains in every state the cache goes through *)

Lemma home_same_identity bs cs i j bi bj :
  home bs cs -> bs !! i = Some bi -> bs !! j = Some bj ->
  dev bj = dev bi -> blockno bj = blockno bi ->
  bound bi -> bound bj -> i = j.
Proof.
  intros Hhome Hi Hj Hd Hb Hbi Hbj.
  destruct (Hhome i bi Hi Hbi) as (l & Hl & Hfi).
  destruct (Hhome j bj Hj Hbj) as (l' & Hl' & Hfj).
  rewrite Hd, Hb in Hl', Hfj. congruence.
Qed.

(** C10 (as amended): the bucket number [hash] computes is the 32-bit
    sum of device and block number, modulo 13.  A slot that bget or bread
    returns is, in the state at return, on the chain of the bucket its
    identity hashes to.  Every slot with ref_count > 0, as a slot handed out and
    not yet given back is, is on the chain of the bucket its identity
    hashes to, and this is the bucket whose lock bpin, bunpin and brelse
    take, and the only bucket lock they take. *)
Theorem C10_handles_live_in_hashed_bucket NBUF s :
  reachable NBUF s ->
  (forall d bn, Z.of_nat (Z.to_nat (hash d bn)) = ((d + bn) mod 2 ^ 32) mod 13) /\
  (forall me d bn b s',
     bget NBUF me d bn s = Ret b s' \/ bread NBUF me d bn s = Ret b s' ->
     exists cs' l,
       wf NBUF s' cs' /\ cs' !! Z.to_nat (hash d bn) = Some l /\ b ∈ l) /\
  (forall b bb, bufs s !! b = Some bb -> 0 < refcnt bb ->
     let k := Z.to_nat (hash (dev bb) (blockno bb)) in
     exists cs l,
       wf NBUF s cs /\ cs !! k = Some l /\ b ∈ l /\
       (exists s1, bpin b s = Ret tt s1 /\
          trace s1 = trace s ++ [EAcquire (BucketLock k); EStore (PBuf b) Frefcnt;
                                 ERelease (BucketLock k)]) /\
       (exists s1, bunpin b s = Ret tt s1 /\
          trace s1 = trace s ++ [EAcquire (BucketLock k); EStore (PBuf b) Frefcnt;
                                 ERelease (BucketLock k)]) /\
       (forall me, lock bb = Some me ->
          exists s1, brelse me b s = Ret tt s1 /\
            trace s1 = trace s ++
              EReleaseSleep b :: EAcquire (BucketLock k) :: EStore (PBuf b) Frefcnt ::
              (if wrap (refcnt bb - 1) =? 0 then [EStore (PBuf b) Ftimestamp] else []) ++
              [ERelease (BucketLock k)])).
Proof.
  intros Hreach. destruct (Inv_reachable NBUF s Hreach) as [cs Hinv].
  split; [|split].
  - intros d bn. pose proof (hash_range d bn). rewrite Z2Nat.id by lia. reflexivity.
  - intros me d bn b s' [Hrun|Hrun].
    + destruct (bget_Inv NBUF me d bn s cs Hinv)
        as [(s1 & cs1 & b0 & Hrun1 & Hinv1 & (bb & Hbb & _) & l & Hl & Hin)|(sp & Hp)];
        [|congruence].
      pose proof (Inv_finish NBUF me b0 s1 cs1 Hinv1 ltac:(now exists bb)) as Hfin.
      rewrite <- Hrun1, Hrun in Hfin. destruct Hfin as (-> & (Hwf & _) & _).
      now exists cs1, l.
    + pose proof (bread_Inv NBUF me d bn s cs Hinv) as H. rewrite Hrun in H.
      destruct H as (cs' & (Hwf & _) & _ & l & Hl & Hin). now exists cs', l.
  - intros b bb Hb Hpos k. pose proof Hinv as (Hwf & _ & Hhome).
    destruct (Hhome b bb Hb ltac:(now left)) as (l & Hl & Hfind).
    pose proof (Inv_held NBUF s cs b bb Hinv Hb) as Hfree. fold k in Hfree, Hl.
    exists cs, l. split; [assumption|]. split; [assumption|].
    split; [now apply find_id_Some in Hfind as [Hin _]|].
    split; [|split].
    + rewrite (bpin_run b s bb Hb Hfree). now eexists.
    + rewrite (bunpin_run b s bb Hb Hfree). now eexists.
    + intros me Hme. rewrite (brelse_run me b s bb Hb Hfree).
      rewrite bool_decide_eq_true_2 by assumption. now eexists.
Qed.

(** ** The claims as first stated, and where they fail *)

(** Follow [next] from [p] for at most [fuel] links. *)
Fixpoint walk (fuel : nat) (bs : list buf) (p : option nat) : option (list nat) :=
  match p with
  | None => Some []
  | Some i =>
      match fuel with
      | O => None
      | S fuel' =>
          match bs !! i with
          | Some b => cons i <$> walk fuel' bs (next b)
          | None => None
          end
      end
  end.

Lemma walk_chain fuel bs p l : walk fuel bs p = Some l -> chain bs p l.
Proof.
  revert p l. induction fuel as [|fuel IH]; intros [i|] l; simpl; try discriminate.
  - intros [= <-]. constructor.
  - destruct (bs !! i) as [b|] eqn:Hb; [|discriminate].
    destruct (walk fuel bs (next b)) as [l'|] eqn:Hw; [|discriminate].
    intros [= <-]. apply chain_cons with b; [assumption|]. now apply IH.
  - intros [= <-]. constructor.
Qed.

(** The chain of bucket [k], read off the state. *)
Definition chain_of (s : state) (k : nat) : option (list nat) :=
  match hashtable s !! k with
  | Some bk => walk (length (bufs s)) (bufs s) (next (head bk))
  | None => None
  end.

Lemma wf_chain_of NBUF s cs k l l' :
  wf NBUF s cs -> cs !! k = Some l -> chain_of s k = Some l' -> l = l'.
Proof.
  intros (_ & _ & Hcs & _) Hl Hw. unfold chain_of in Hw.
  destruct (Forall2_lookup_r _ _ _ _ _ Hcs Hl) as (bk & Hbk & Hchain).
  rewrite Hbk in Hw. apply walk_chain in Hw. apply (chain_det _ _ _ _ Hchain Hw).
Qed.

(** C1 as first stated: a slot with ref_count > 0 is the only slot of the
    pool with its identity. *)
Definition one_slot_per_live_identity (s : state) : Prop :=
  forall i j bi bj,
    bufs s !! i = Some bi -> bufs s !! j = Some bj ->
    0 < refcnt bi -> dev bj = dev bi -> blockno bj = blockno bi -> i = j.

(** C5 as first stated: every slot is on the chain of the bucket its
    identity hashes to. *)
Definition all_slots_at_home (NBUF : nat) (s : state) : Prop :=
  exists cs,
    wf NBUF s cs /\
    forall i b, bufs s !! i = Some b ->
      exists l, cs !! Z.to_nat (hash (dev b) (blockno b)) = Some l /\ i ∈ l.

(** C10 as first stated: the slot bread returns is on the chain of the
    bucket numbered [(d + bn) mod 13], the sum taken in the integers. *)
Definition returned_in_bucket_of_sum (NBUF : nat) (s : state) : Prop :=
  forall me d bn b s',
    is_uint d -> is_uint bn ->
    bread NBUF me d bn s = Ret b s' ->
    exists cs' l,
      wf NBUF s' cs' /\ cs' !! Z.to_nat ((d + bn) mod 13) = Some l /\ b ∈ l.

Lemma reachable_boot NBUF : reachable NBUF (boot NBUF).
Proof. exists (boot NBUF). split; [apply boot_binit|apply rtc_refl]. Qed.

(** After binit, one process reads block 0 of device 0: it gets slot 26,
    the head of chain 0, while slot 13 carries identity (0,0) too. *)
Lemma C1_counterexample :
  reachable 30 (scenario 30 [OpBread 7 0 0]) /\
  ~ one_slot_per_live_identity (scenario 30 [OpBread 7 0 0]).
Proof.
  split.
  - apply scenario_reachable. vm_compute. eexists. reflexivity.
  - intros H. set (s := scenario 30 [OpBread 7 0 0]) in *.
    assert (H26 : bufs s !! 26%nat = Some (mkbuf 1 0 0 (Some 7%nat) 1 (Some 13%nat) 0))
      by (vm_compute; reflexivity).
    assert (H13 : bufs s !! 13%nat = Some (mkbuf 0 0 0 None 0 (Some 0%nat) 0))
      by (vm_compute; reflexivity).
    clearbody s.
    assert (Hpos : 0 < refcnt (mkbuf 1 0 0 (Some 7%nat) 1 (Some 13%nat) 0))
      by (simpl; lia).
    pose proof (H 26%nat 13%nat _ _ H26 H13 Hpos eq_refl eq_refl) as Heq.
    discriminate Heq.
Qed.

(** Right after binit slot 1 carries identity (0,0), which hashes to
    bucket 0, and is on the chain of bucket 1. *)
Lemma C5_counterexample :
  reachable 30 (boot 30) /\ ~ all_slots_at_home 30 (boot 30).
Proof.
  split; [apply reachable_boot|]. intros (cs & Hwf & H).
  set (s := boot 30) in *.
  assert (H1 : bufs s !! 1%nat = Some buf0) by (vm_compute; reflexivity).
  assert (Hw : chain_of s 0 = Some [26; 13; 0]%nat) by (vm_compute; reflexivity).
  assert (Hh : Z.to_nat (hash 0 0) = 0%nat) by (vm_compute; reflexivity).
  clearbody s.
  destruct (H 1%nat buf0 H1) as (l & Hl & Hin).
  change (dev buf0) with 0 in Hl. change (blockno buf0) with 0 in Hl.
  rewrite Hh in Hl.
  rewrite (wf_chain_of 30 _ _ _ _ _ Hwf Hl Hw) in Hin.
  repeat (apply elem_of_cons in Hin as [Hin|Hin]; [discriminate|]).
  now apply elem_of_nil in Hin.
Qed.

(** Device 4294967295, block 1: the 32-bit sum is 0 and the slot goes to
    the chain of bucket 0, while 4294967296 mod 13 is 9. *)
Lemma C10_counterexample :
  reachable 30 (boot 30) /\ ~ returned_in_bucket_of_sum 30 (boot 30).
Proof.
  split; [apply reachable_boot|]. intros H.
  set (s := boot 30) in *.
  set (s' := state_of (bread 30 7 4294967295 1 s) s).
  assert (Hrun : bread 30 7 4294967295 1 s = Ret 26%nat s')
    by (vm_compute; reflexivity).
  assert (Hw : chain_of s' 9 = Some [22; 9]%nat) by (vm_compute; reflexivity).
  assert (Hh : Z.to_nat ((4294967295 + 1) mod 13) = 9%nat) by (vm_compute; reflexivity).
  clearbody s'. clearbody s.
  destruct (H 7%nat 4294967295 1 26%nat s') as (cs' & l & Hwf & Hl & Hin);
    [unfold is_uint; lia|unfold is_uint; lia|exact Hrun|].
  rewrite Hh in Hl.
  rewrite (wf_chain_of 30 _ _ _ _ _ Hwf Hl Hw) in Hin.
  repeat (apply elem_of_cons in Hin as [Hin|Hin]; [discriminate|]).
  now apply elem_of_nil in Hin.
Qed.

(** ** The theorems at work on a pool of thirty slots *)

(** Three processes read blocks 5, 6 and 7 of device 1; the first gives
    its slot back, the third pins its slot and then gives it back. *)
Definition demo_ops : list op :=
  [OpBread 7 1 5; OpTick; OpBread 8 1 6; OpTick; OpBrelse 7 26; OpTick;
   OpBread 9 1 7; OpBpin 0; OpTick; OpBrelse 9 0].

(** One process reads thirty blocks and keeps them all. *)
Definition full_ops : list op :=
  (fun i => OpBread 7 0 (Z.of_nat i)) <$> seq 1 30.

(** Slot 13 after [demo_ops]: block 6 of device 1, held by process 8. *)
Definition demo_slot13 : buf := mkbuf 1 1 6 (Some 8%nat) 1 (Some 20%nat) 0.

(** Slot 26 after the first read of [demo_ops]: block 5 of device 1, held
    by process 7. *)
Definition demo_slot26 : buf := mkbuf 1 1 5 (Some 7%nat) 1 (Some 19%nat) 0.

Ltac reach_scenario :=
  apply scenario_reachable; vm_compute; eexists; reflexivity.

Lemma C2_witness :
  reachable 30 (scenario 30 demo_ops) /\
  exists prb pbk s',
    bget_scan 30 (Z.to_nat NBUCKET) 0 None None (scenario 30 demo_ops)
      = Ret (prb, pbk) s' /\
    bufs s' = bufs (scenario 30 demo_ops).
Proof.
  set (s := scenario 30 demo_ops).
  assert (Hr : reachable 30 s) by reach_scenario.
  clearbody s. split; [exact Hr|].
  destruct (C2_scan_never_picks_referenced 30 s Hr)
    as [(prb & pbk & s' & Hscan & Hb & _) _].
  exists prb, pbk, s'. split; [exact Hscan|exact Hb].
Defined.

Lemma C3_witness :
  reachable 30 (scenario 30 demo_ops) /\
  exists cs prb pbk s',
    wf 30 (scenario 30 demo_ops) cs /\
    bget_scan 30 (Z.to_nat NBUCKET) 0 None None (scenario 30 demo_ops)
      = Ret (prb, pbk) s'.
Proof.
  set (s := scenario 30 demo_ops).
  assert (Hr : reachable 30 s) by reach_scenario.
  clearbody s. split; [exact Hr|].
  destruct (C3_scan_picks_oldest_first 30 s Hr)
    as (cs & prb & pbk & s' & Hwf & Hscan & _).
  exists cs, prb, pbk, s'. split; [exact Hwf|exact Hscan].
Defined.

Lemma C4_witness :
  reachable 30 (scenario 30 demo_ops) /\
  lookup_misses 30 1 8 (scenario 30 demo_ops) /\
  (exists i b, bufs (scenario 30 demo_ops) !! i = Some b /\ refcnt b = 0) /\
  exists c cb' s',
    bufs s' !! c = Some cb' /\
    dev cb' = 1 /\ blockno cb' = 8 /\ valid cb' = 0 /\ refcnt cb' = 1.
Proof.
  set (s := scenario 30 demo_ops).
  assert (Hr : reachable 30 s) by reach_scenario.
  assert (Hm : lookup_misses 30 1 8 s) by (vm_compute; reflexivity).
  assert (Hf : exists i b, bufs s !! i = Some b /\ refcnt b = 0).
  { exists 1%nat, buf0. split; [vm_compute; reflexivity|reflexivity]. }
  clearbody s. split; [exact Hr|]. split; [exact Hm|]. split; [exact Hf|].
  destruct (C4_true_miss_rebinds 30 4 1 8 s Hr Hm Hf)
    as (cs & cs' & k & la & lb & lh & c & cb & cb' & s' & _ & _ & _ & _ & _ & _ &
        _ & _ & Hc & Hd & Hb & Hv & Hrc & _).
  exists c, cb', s'. repeat (split; [assumption|]). assumption.
Defined.

Lemma C6_witness :
  reachable 30 (scenario 30 full_ops) /\
  lookup_misses 30 0 31 (scenario 30 full_ops) /\
  Forall (fun b => refcnt b <> 0) (bufs (scenario 30 full_ops)) /\
  exists s', bread 30 7 0 31 (scenario 30 full_ops) = Panic "bget: no buffers" s'.
Proof.
  set (s := scenario 30 full_ops).
  assert (Hr : reachable 30 s) by reach_scenario.
  assert (Hm : lookup_misses 30 0 31 s) by (vm_compute; reflexivity).
  assert (Hb : Forall (fun b => refcnt b <> 0) (bufs s)).
  { refine (bool_decide_unpack _ _). vm_compute. exact I. }
  clearbody s. split; [exact Hr|]. split; [exact Hm|]. split; [exact Hb|].
  destruct (C6_no_free_slot_panics 30 7 0 31 s Hr Hm Hb) as (s' & _ & Hrun & _).
  exists s'. exact Hrun.
Defined.

Lemma C7_witness :
  bget 30 7 1 5 (boot 30) = Ret 26%nat (state_of (bget 30 7 1 5 (boot 30)) (boot 30)) /\
  bufs (state_of (bget 30 7 1 5 (boot 30)) (boot 30)) !! 26%nat
    = Some (mkbuf 0 1 5 (Some 7%nat) 1 (Some 19%nat) 0) /\
  exists s2 bb2,
    bread 30 7 1 5 (boot 30) = Ret 26%nat s2 /\
    bufs s2 !! 26%nat = Some bb2 /\ valid bb2 <> 0.
Proof.
  set (s := boot 30). set (s1 := state_of (bget 30 7 1 5 s) s).
  assert (Hg : bget 30 7 1 5 s = Ret 26%nat s1) by (vm_compute; reflexivity).
  assert (Hb : bufs s1 !! 26%nat = Some (mkbuf 0 1 5 (Some 7%nat) 1 (Some 19%nat) 0))
    by (vm_compute; reflexivity).
  clearbody s1. clearbody s. split; [exact Hg|]. split; [exact Hb|].
  destruct (C7_bread_loads_unless_valid 30 7 1 5 s 26 s1 _ Hg Hb)
    as (s2 & bb2 & Hrun & Hb2 & Hv & _).
  exists s2, bb2. split; [exact Hrun|]. split; [exact Hb2|exact Hv].
Defined.

Lemma C8_witness :
  bufs (scenario 30 [OpBread 7 1 5; OpTick]) !! 26%nat = Some demo_slot26 /\
  held (BucketLock (Z.to_nat (hash (dev demo_slot26) (blockno demo_slot26))))
       (scenario 30 [OpBread 7 1 5; OpTick]) = Some false /\
  brelse 8 26 (scenario 30 [OpBread 7 1 5; OpTick])
    = Panic "brelse" (scenario 30 [OpBread 7 1 5; OpTick]) /\
  exists s', brelse 7 26 (scenario 30 [OpBread 7 1 5; OpTick]) = Ret tt s'.
Proof.
  set (s := scenario 30 [OpBread 7 1 5; OpTick]).
  assert (Hb : bufs s !! 26%nat = Some demo_slot26) by (vm_compute; reflexivity).
  assert (Hf : held (BucketLock (Z.to_nat (hash (dev demo_slot26) (blockno demo_slot26)))) s
               = Some false) by (vm_compute; reflexivity).
  clearbody s. split; [exact Hb|]. split; [exact Hf|].
  split.
  - destruct (C8_brelse_unlocks_then_decrements 8 26 s demo_slot26 Hb Hf) as [Hp _].
    apply Hp. discriminate.
  - destruct (C8_brelse_unlocks_then_decrements 7 26 s demo_slot26 Hb Hf)
      as (_ & Hret & _).
    eexists. apply Hret. reflexivity.
Defined.

Lemma C9_witness :
  bufs (scenario 30 [OpBread 7 1 5; OpTick]) !! 26%nat = Some demo_slot26 /\
  held (BucketLock (Z.to_nat (hash (dev demo_slot26) (blockno demo_slot26))))
       (scenario 30 [OpBread 7 1 5; OpTick]) = Some false /\
  exists s1 s2,
    bpin 26 (scenario 30 [OpBread 7 1 5; OpTick]) = Ret tt s1 /\
    bunpin 26 (scenario 30 [OpBread 7 1 5; OpTick]) = Ret tt s2 /\
    timestamp_of (bufs s1) 26 = 0 /\ timestamp_of (bufs s2) 26 = 0 /\
    refcnt_of (bufs s2) 26 = 0.
Proof.
  set (s := scenario 30 [OpBread 7 1 5; OpTick]).
  assert (Hb : bufs s !! 26%nat = Some demo_slot26) by (vm_compute; reflexivity).
  assert (Hf : held (BucketLock (Z.to_nat (hash (dev demo_slot26) (blockno demo_slot26)))) s
               = Some false) by (vm_compute; reflexivity).
  assert (Hlen : (26 < length (bufs s))%nat) by (vm_compute; lia).
  clearbody s. split; [exact Hb|]. split; [exact Hf|].
  destruct (C9_pin_unpin_touch_only_refcnt 26 s demo_slot26 Hb Hf) as [Hpin Hunpin].
  eexists _, _. split; [exact Hpin|]. split; [exact Hunpin|].
  unfold timestamp_of, refcnt_of. simpl bufs.
  rewrite !list_lookup_insert_eq by exact Hlen. auto.
Defined.

Lemma C10_witness :
  reachable 30 (scenario 30 demo_ops) /\
  bufs (scenario 30 demo_ops) !! 13%nat = Some demo_slot13 /\
  0 < refcnt demo_slot13 /\
  exists cs l,
    wf 30 (scenario 30 demo_ops) cs /\
    cs !! Z.to_nat (hash 1 6) = Some l /\ 13%nat ∈ l.
Proof.
  set (s := scenario 30 demo_ops).
  assert (Hr : reachable 30 s) by reach_scenario.
  assert (H13 : bufs s !! 13%nat = Some demo_slot13) by (vm_compute; reflexivity).
  assert (Hpos : 0 < refcnt demo_slot13) by reflexivity.
  clearbody s. split; [exact Hr|]. split; [exact H13|]. split; [exact Hpos|].
  destruct (C10_handles_live_in_hashed_bucket 30 s Hr) as (_ & _ & Hlive).
  destruct (Hlive 13%nat demo_slot13 H13 Hpos) as (cs & l & Hwf & Hl & Hin & _).
  exists cs, l. split; [exact Hwf|]. split; [exact Hl|exact Hin].
Defined.

(** * Further properties of the cache *)

(** ** The bucket number *)

(** X1: for 32-bit arguments [hash] is a valid bucket index; it is the
    sum modulo 13 when the sum fits in 32 bits, and the sum less 2^32
    modulo 13 when it does not. *)
Theorem X1_hash_bounds_and_wrap d bn :
  is_uint d -> is_uint bn ->
  0 <= hash d bn < NBUCKET /\
  (d + bn < 2 ^ 32 -> hash d bn = (d + bn) mod 13) /\
  (2 ^ 32 <= d + bn -> hash d bn = (d + bn - 2 ^ 32) mod 13).
Proof.
  unfold is_uint. intros Hd Hbn. split; [apply hash_range|]. unfold hash, wrap, NBUCKET.
  split; intros Hsum.
  - rewrite (Z.mod_small (d + bn)) by lia. reflexivity.
  - replace (d + bn) with ((d + bn - 2 ^ 32) + 1 * 2 ^ 32) at 1 by lia.
    rewrite Z_mod_plus_full, (Z.mod_small (d + bn - 2 ^ 32)) by lia. reflexivity.
Qed.

Lemma X1_witness :
  is_uint 4294967295 /\ is_uint 1 /\ hash 4294967295 1 = 0.
Proof.
  assert (Hd : is_uint 4294967295) by (unfold is_uint; lia).
  assert (Hb : is_uint 1) by (unfold is_uint; lia).
  split; [exact Hd|]. split; [exact Hb|].
  destruct (X1_hash_bounds_and_wrap 4294967295 1 Hd Hb) as (_ & _ & Hw).
  rewrite Hw by lia. reflexivity.
Defined.

(** ** [bwrite] *)

(** [bwrite] on a slot of the pool: the check of line 195, then the
    device. *)
Lemma bwrite_run me b s bb :
  bufs s !! b = Some bb ->
  bwrite me b s =
    if bool_decide (lock bb = Some me) then
      Ret tt (mkstate (evict_lock s) (bufs s) (hashtable s) (ticks s)
                (trace s ++ [EDiskRW b true]))
    else Panic "bwrite" s.
Proof.
  intros Hb. unfold bwrite, holdingsleep.
  rewrite (bind_ret _ _ s (bool_decide (lock bb = Some me)) s)
    by now rewrite (bind_ret _ _ _ _ _ (load_ok (PBuf b) s bb Hb)).
  destruct (bool_decide (lock bb = Some me)); [|reflexivity].
  unfold negb, virtio_disk_rw. now rewrite Hb.
Qed.

(** ** Calls never go wrong *)

(** X4: in every state the cache goes through, bread follows no null or
    wild pointer and leaves every loop: it returns, or waits for the
    blocking lock of a slot, or panics with "bget: no buffers".  When it
    returns or waits, no spinlock is held. *)
Theorem X4_bread_is_safe NBUF me d bn s :
  reachable NBUF s ->
  match bread NBUF me d bn s with
  | Ret b s' => quiescent s' /\ (b < NBUF)%nat
  | Blocked s' => quiescent s'
  | Panic msg _ => msg = "bget: no buffers"%string
  | Fault => False
  | Diverge => False
  end.
Proof.
  intros Hreach. destruct (Inv_reachable NBUF s Hreach) as [cs Hinv].
  pose proof (bread_Inv NBUF me d bn s cs Hinv) as H.
  destruct (bread NBUF me d bn s) as [b s'|msg s'|s'| |]; try assumption.
  - destruct H as (cs' & ((Hnb & _) & Hq & _) & (bb & Hbb & _) & _).
    split; [assumption|]. rewrite <- Hnb. now apply lookup_lt_Some in Hbb.
  - now destruct H as (cs' & _ & Hq & _).
Qed.

Lemma X4_witness :
  reachable 30 (scenario 30 demo_ops) /\
  exists b s', bread 30 4 1 8 (scenario 30 demo_ops) = Ret b s' /\ quiescent s'.
Proof.
  set (s := scenario 30 demo_ops).
  assert (Hr : reachable 30 s) by reach_scenario.
  assert (Hret : exists b s', bread 30 4 1 8 s = Ret b s')
    by (vm_compute; eexists _, _; reflexivity).
  clearbody s. split; [exact Hr|].
  destruct Hret as (b & s' & Hrun). exists b, s'. split; [exact Hrun|].
  pose proof (X4_bread_is_safe 30 4 1 8 s Hr) as H. rewrite Hrun in H.
  exact (proj1 H).
Defined.

(** X5: on a slot with ref_count > 0, bpin and bunpin always return, and
    brelse returns when the caller holds the slot's blocking lock and
    panics with "brelse" otherwise; none of them follows a wild pointer
    or waits for a spinlock. *)
Theorem X5_short_calls_are_safe NBUF me b s :
  reachable NBUF s ->
  0 < refcnt_of (bufs s) b ->
  (exists s', bpin b s = Ret tt s') /\
  (exists s', bunpin b s = Ret tt s') /\
  ((exists s', brelse me b s = Ret tt s') \/ brelse me b s = Panic "brelse" s).
Proof.
  intros Hreach Hpos. destruct (Inv_reachable NBUF s Hreach) as [cs Hinv].
  apply refcnt_of_pos in Hpos as (bb & Hb & _).
  pose proof (Inv_held NBUF s cs b bb Hinv Hb) as Hfree.
  split; [|split].
  - rewrite (bpin_run b s bb Hb Hfree). now eexists.
  - rewrite (bunpin_run b s bb Hb Hfree). now eexists.
  - rewrite (brelse_run me b s bb Hb Hfree).
    destruct (bool_decide (lock bb = Some me)); [left; now eexists|now right].
Qed.

Lemma X5_witness :
  reachable 30 (scenario 30 demo_ops) /\
  0 < refcnt_of (bufs (scenario 30 demo_ops)) 13 /\
  exists s', bpin 13 (scenario 30 demo_ops) = Ret tt s'.
Proof.
  set (s := scenario 30 demo_ops).
  assert (Hr : reachable 30 s) by reach_scenario.
  assert (Hp : 0 < refcnt_of (bufs s) 13) by (vm_compute; reflexivity).
  clearbody s. split; [exact Hr|]. split; [exact Hp|].
  exact (proj1 (X5_short_calls_are_safe 30 8 13 s Hr Hp)).
Defined.

(** X6: between calls no spinlock is held: every path of bread, bwrite,
    brelse, bpin and bunpin that returns or goes to sleep has released
    the eviction lock and every bucket lock it took. *)
Theorem X6_no_spinlock_between_calls NBUF s :
  reachable NBUF s ->
  evict_lock s = false /\
  forall k, (k < Z.to_nat NBUCKET)%nat -> held (BucketLock k) s = Some false.
Proof.
  intros Hreach. destruct (Inv_reachable NBUF s Hreach) as (cs & (_ & Hnh & _) & Hq & _).
  apply quiescent_only_held in Hq as [He Hl]. split; [assumption|].
  intros k Hk. rewrite (locks_are_held _ _ _ Hl) by lia. reflexivity.
Qed.

Lemma X6_witness :
  reachable 30 (scenario 30 demo_ops) /\ evict_lock (scenario 30 demo_ops) = false.
Proof.
  set (s := scenario 30 demo_ops).
  assert (Hr : reachable 30 s) by reach_scenario.
  clearbody s. split; [exact Hr|].
  exact (proj1 (X6_no_spinlock_between_calls 30 s Hr)).
Defined.

(** ** Pinning and unpinning *)

Lemma wrap_incr_decr r : is_uint r -> wrap (wrap (r + 1) - 1) = r.
Proof.
  unfold wrap, is_uint. intros Hr. rewrite Zminus_mod_idemp_l.
  replace (r + 1 - 1) with r by lia. now apply Z.mod_small.
Qed.

(** X11: bpin followed by bunpin on the same slot puts the pool back as
    it was, whatever the ref_count, the largest 32-bit value included;
    only the log has grown. *)
Theorem X11_pin_then_unpin_restores b s bb :
  bufs s !! b = Some bb ->
  is_uint (refcnt bb) ->
  held (BucketLock (Z.to_nat (hash (dev bb) (blockno bb)))) s = Some false ->
  exists s1 s2,
    bpin b s = Ret tt s1 /\ bunpin b s1 = Ret tt s2 /\
    bufs s2 = bufs s /\ hashtable s2 = hashtable s /\
    evict_lock s2 = evict_lock s /\ ticks s2 = ticks s.
Proof.
  intros Hb Hr Hfree. rewrite (bpin_run b s bb Hb Hfree).
  set (s1 := mkstate (evict_lock s) (alter incr_refcnt b (bufs s)) (hashtable s)
               (ticks s) _).
  assert (Hb1 : bufs s1 !! b = Some (incr_refcnt bb)).
  { unfold s1. simpl. now rewrite list_lookup_alter_eq, Hb. }
  assert (Hfree1 : held (BucketLock (Z.to_nat (hash (dev (incr_refcnt bb))
                                               (blockno (incr_refcnt bb))))) s1
                   = Some false) by exact Hfree.
  exists s1. eexists. split; [reflexivity|].
  rewrite (bunpin_run b s1 (incr_refcnt bb) Hb1 Hfree1).
  split; [reflexivity|]. simpl. split; [|auto].
  rewrite list_alter_alter_eq. apply list_eq. intros j.
  destruct (decide (b = j)) as [->|Hne].
  - rewrite list_lookup_alter_eq, Hb. simpl. f_equal.
    unfold decr_refcnt, incr_refcnt, set_refcnt. simpl.
    rewrite (wrap_incr_decr _ Hr). now destruct bb.
  - now rewrite list_lookup_alter_ne.
Qed.

Lemma X11_witness :
  bufs (scenario 30 [OpBread 7 1 5; OpTick]) !! 26%nat = Some demo_slot26 /\
  is_uint (refcnt demo_slot26) /\
  held (BucketLock (Z.to_nat (hash (dev demo_slot26) (blockno demo_slot26))))
       (scenario 30 [OpBread 7 1 5; OpTick]) = Some false /\
  exists s1 s2,
    bpin 26 (scenario 30 [OpBread 7 1 5; OpTick]) = Ret tt s1 /\
    bunpin 26 s1 = Ret tt s2 /\
    bufs s2 = bufs (scenario 30 [OpBread 7 1 5; OpTick]).
Proof.
  set (s := scenario 30 [OpBread 7 1 5; OpTick]).
  assert (Hb : bufs s !! 26%nat = Some demo_slot26) by (vm_compute; reflexivity).
  assert (Hr : is_uint (refcnt demo_slot26)) by (unfold is_uint; simpl; lia).
  assert (Hf : held (BucketLock (Z.to_nat (hash (dev demo_slot26) (blockno demo_slot26)))) s
               = Some false) by (vm_compute; reflexivity).
  clearbody s. split; [exact Hb|]. split; [exact Hr|]. split; [exact Hf|].
  destruct (X11_pin_then_unpin_restores 26 s demo_slot26 Hb Hr Hf)
    as (s1 & s2 & H1 & H2 & H3 & _).
  exists s1, s2. split; [exact H1|]. split; [exact H2|exact H3].
Defined.

(** ** A hit *)

(** The lookup of lines 94 to 101 stops at slot [b]: the block is
    cached there. *)
Definition lookup_finds (NBUF : nat) (d bn : Z) (s : state) (b : nat) : Prop :=
  (let* hd := load (PHead (Z.to_nat (hash d bn))) in
   bget_lookup NBUF d bn (next hd)) s = Ret (Some b) s.

Lemma lookup_finds_find NBUF d bn s cs lh b :
  wf NBUF s cs -> cs !! Z.to_nat (hash d bn) = Some lh ->
  lookup_finds NBUF d bn s b <-> find_id (bufs s) d bn lh = Some b.
Proof.
  intros Hwf Hlh. pose proof (wf_chain_length _ _ _ _ _ Hwf Hlh) as Hlen.
  destruct Hwf as (_ & _ & Hcs & _).
  apply chains_of_chain_at in Hcs as [_ Hcs].
  destruct (Hcs _ _ Hlh) as (hd & Hhd & Hchain).
  unfold lookup_finds.
  rewrite (bind_ret _ _ _ _ _ (load_ok _ _ _ Hhd)).
  rewrite (bget_lookup_spec s d bn _ _ Hchain NBUF Hlen). split; congruence.
Qed.

(** The state in which a hit goes for the blocking lock. *)
Lemma bget_hit_run NBUF me d bn s cs lh b :
  wf NBUF s cs -> quiescent s ->
  cs !! Z.to_nat (hash d bn) = Some lh ->
  find_id (bufs s) d bn lh = Some b ->
  bget NBUF me d bn s =
    (acquiresleep me b >> ret b)
      (mkstate (evict_lock s) (alter incr_refcnt b (bufs s)) (hashtable s) (ticks s)
         (trace s ++ [EAcquire (BucketLock (Z.to_nat (hash d bn)));
                      EStore (PBuf b) Frefcnt;
                      ERelease (BucketLock (Z.to_nat (hash d bn)))])).
Proof.
  intros Hwf Hq Hlh Hfind. pose proof (wf_chain_length _ _ _ _ _ Hwf Hlh) as Hlen.
  destruct Hwf as (Hnb & Hnh & Hcs & Hp).
  apply quiescent_only_held in Hq as [He Hlocks].
  pose proof (hash_lt d bn) as Hh. set (h := Z.to_nat (hash d bn)) in *.
  assert (Hfree : held (BucketLock h) s = Some false).
  { rewrite (locks_are_held _ _ _ Hlocks) by lia. reflexivity. }
  unfold bget. fold h.
  rewrite (bget_lookup_phase NBUF _ s cs h lh d bn Hcs Hlh Hlen Hfree), Hfind.
  set (s1 := emit (EAcquire (BucketLock h)) (set_held (BucketLock h) true s)).
  destruct (find_id_Some _ _ _ _ _ Hfind) as (_ & bb & Hbb & _).
  rewrite (bind_ret _ _ s1 tt
             (emit (EStore (PBuf b) Frefcnt) (poke (PBuf b) incr_refcnt s1)))
    by (apply store_ok; now exists bb).
  rewrite (bind_ret _ _ _ tt
             (emit (ERelease (BucketLock h))
                (set_held (BucketLock h) false
                   (emit (EStore (PBuf b) Frefcnt) (poke (PBuf b) incr_refcnt s1))))).
  2:{ apply release_ok. simpl. now apply held_after_acquire. }
  f_equal. apply state_eq; simpl; try reflexivity.
  - now apply held_free_roundtrip.
  - now rewrite <- !app_assoc.
Qed.

(** X8: when the block is cached, bget takes and releases the lock of
    the identity's bucket, adds one to the slot's ref_count, and goes for
    the slot's blocking lock; it never takes the eviction lock, moves no
    slot and changes no other slot.  It returns the slot once the blocking
    lock is free, and waits, with the reference already counted, while
    another process holds it. *)
Theorem X8_hit_only_counts_the_reference NBUF me d bn s b :
  reachable NBUF s ->
  lookup_finds NBUF d bn s b ->
  let h := Z.to_nat (hash d bn) in
  exists bb,
    bufs s !! b = Some bb /\ dev bb = d /\ blockno bb = bn /\
    bget NBUF me d bn s =
      match lock bb with
      | None =>
          Ret b (mkstate (evict_lock s)
                   (<[b := mkbuf (valid bb) d bn (Some me) (wrap (refcnt bb + 1))
                             (next bb) (timestamp bb)]> (bufs s))
                   (hashtable s) (ticks s)
                   (trace s ++ [EAcquire (BucketLock h); EStore (PBuf b) Frefcnt;
                                ERelease (BucketLock h); EAcquireSleep b]))
      | Some _ =>
          Blocked (mkstate (evict_lock s)
                     (<[b := mkbuf (valid bb) d bn (lock bb) (wrap (refcnt bb + 1))
                               (next bb) (timestamp bb)]> (bufs s))
                     (hashtable s) (ticks s)
                     (trace s ++ [EAcquire (BucketLock h); EStore (PBuf b) Frefcnt;
                                  ERelease (BucketLock h)]))
      end.
Proof.
  intros Hreach Hfinds h. destruct (Inv_reachable NBUF s Hreach) as [cs Hinv].
  pose proof Hinv as (Hwf & Hq & _).
  destruct (wf_home_chain NBUF s cs d bn Hwf) as [lh Hlh].
  apply (lookup_finds_find NBUF d bn s cs lh b Hwf Hlh) in Hfinds.
  destruct (find_id_Some _ _ _ _ _ Hfinds) as (_ & bb & Hb & Hd & Hbn).
  exists bb. split; [assumption|]. split; [assumption|]. split; [assumption|].
  rewrite (bget_hit_run NBUF me d bn s cs lh b Hwf Hq Hlh Hfinds).
  rewrite (finish_run me b _ (incr_refcnt bb))
    by (simpl; now rewrite list_lookup_alter_eq, Hb).
  fold h. subst d bn. simpl lock. destruct (lock bb) as [p|] eqn:Hl.
  - f_equal. apply state_eq; try reflexivity. simpl.
    rewrite (alter_insert _ _ _ _ Hb). f_equal. unfold incr_refcnt, set_refcnt.
    simpl. now rewrite Hl.
  - f_equal. apply state_eq; simpl; try reflexivity.
    + rewrite list_alter_alter_eq. now rewrite (alter_insert _ _ _ _ Hb).
    + now rewrite <- app_assoc.
Qed.

Lemma X8_witness :
  reachable 30 (scenario 30 demo_ops) /\
  lookup_finds 30 1 6 (scenario 30 demo_ops) 13 /\
  exists s', bget 30 4 1 6 (scenario 30 demo_ops) = Blocked s'.
Proof.
  set (s := scenario 30 demo_ops).
  assert (Hr : reachable 30 s) by reach_scenario.
  assert (Hf : lookup_finds 30 1 6 s 13) by (vm_compute; reflexivity).
  assert (H13 : bufs s !! 13%nat = Some demo_slot13) by (vm_compute; reflexivity).
  clearbody s. split; [exact Hr|]. split; [exact Hf|].
  destruct (X8_hit_only_counts_the_reference 30 4 1 6 s 13 Hr Hf)
    as (bb & Hb & _ & _ & Hrun).
  rewrite H13 in Hb. injection Hb as <-. eexists. exact Hrun.
Defined.

(** ** What a returned handle is *)

(** Up to the blocking lock, [bget] either panics or comes out, with the
    invariant kept, at the slot a lookup of the identity finds from then
    on. *)
Lemma bget_Inv_find NBUF me d bn s cs :
  Inv_at NBUF s cs ->
  (exists s1 cs1 b lh,
     bget NBUF me d bn s = (acquiresleep me b >> ret b) s1 /\
     Inv_at NBUF s1 cs1 /\
     cs1 !! Z.to_nat (hash d bn) = Some lh /\
     find_id (bufs s1) d bn lh = Some b /\
     ((cs !! Z.to_nat (hash d bn) = Some lh /\ find_id (bufs s) d bn lh = Some b) \/
      exists bb, bufs s1 !! b = Some bb /\ valid bb = 0 /\ refcnt bb = 1)) \/
  (exists s', bget NBUF me d bn s = Panic "bget: no buffers" s').
Proof.
  intros Hinv. pose proof Hinv as (Hwf & Hq & Hhome).
  pose proof Hwf as (Hnb & Hnh & Hcs & Hp).
  destruct (wf_home_chain NBUF s cs d bn Hwf) as [lh Hlh].
  destruct (find_id (bufs s) d bn lh) as [b|] eqn:Hfind.
  - destruct (bget_hit NBUF me d bn s cs lh b Hwf Hq Hlh Hfind)
      as (s1 & Hrun & He & Ht & Hb & Hht).
    destruct (find_id_Some _ _ _ _ _ Hfind) as (Hin & bb & Hbb & Hd & Hbn).
    left. exists s1, cs, b, lh. split; [assumption|]. split; [|split; [assumption|split]].
    + apply (Inv_touch NBUF s s1 cs b incr_refcnt); auto.
      * destruct Hq as [Hqe _]. congruence.
      * intros x Hx _. right. rewrite Hbb in Hx. injection Hx as <-.
        exists lh. subst d bn. auto.
    + rewrite Hb, <- Hfind. apply find_id_ext. intros j _.
      now apply has_id_alter_keep.
    + left. now split.
  - pose proof (bget_miss NBUF me d bn s cs lh Hwf Hq Hlh Hfind) as Hmiss.
    destruct (champion (bufs s) (concat cs) None) as [c|].
    + destruct Hmiss as (k & la & lb & s1 & Hk & Hrun & Hq1 & Ht & Hd & Hwf1 & Hsame).
      assert (Hc : is_Some (bufs s !! c)).
      { destruct (Forall2_lookup_r _ _ _ _ _ Hcs Hk) as (bk & _ & Hchain).
        apply (chain_lookup _ _ _ _ Hchain). apply elem_of_app. right. left. }
      destruct Hc as [cb Hc].
      assert (Hnd : NoDup (concat cs)) by now apply concat_seq_iff in Hp as [Hnd _].
      assert (Hhome1 : home (bufs s1)
                (if decide (k = Z.to_nat (hash d bn)) then cs
                 else <[Z.to_nat (hash d bn) := c :: lh]> (<[k := la ++ lb]> cs))).
      { apply home_data. rewrite Hd.
        apply (home_rebind (data s) cs d bn k la c lb lh (strip cb)); auto.
        - now apply home_data.
        - now rewrite find_id_data.
        - unfold data. now rewrite list_lookup_fmap, Hc. }
      assert (Hdc : data s1 !! c = Some (rebind d bn (strip cb))).
      { rewrite Hd, list_lookup_alter_eq. unfold data.
        now rewrite list_lookup_fmap, Hc. }
      unfold data in Hdc. rewrite list_lookup_fmap in Hdc.
      destruct (bufs s1 !! c) as [x|] eqn:Hx; [|discriminate].
      assert (Hs : strip x = rebind d bn (strip cb)) by (simpl in Hdc; congruence).
      assert (Hfx : dev x = d /\ blockno x = bn /\ valid x = 0 /\ refcnt x = 1).
      { change (dev (strip x) = d /\ blockno (strip x) = bn /\
                valid (strip x) = 0 /\ refcnt (strip x) = 1). rewrite Hs. auto. }
      destruct Hfx as (Hdx & Hbx & Hvx & Hrx).
      destruct (Hhome1 c x Hx) as (l & Hl & Hfl); [left; lia|].
      rewrite Hdx, Hbx in Hl, Hfl.
      left. eexists s1, _, c, l. split; [exact Hrun|].
      split; [split; [exact Hwf1|split; [exact Hq1|exact Hhome1]]|].
      split; [exact Hl|]. split; [exact Hfl|]. right. now exists x.
    + destruct Hmiss as (s' & Hrun & _). right. now exists s'.
Qed.

(** A handle that [bread] returns: the slot is the one a lookup of the
    identity finds, it is valid, and the calling process holds its
    blocking lock. *)
Lemma bread_ret_facts NBUF me d bn s cs b s' :
  Inv_at NBUF s cs -> bread NBUF me d bn s = Ret b s' ->
  exists cs' lh bb,
    Inv_at NBUF s' cs' /\ cs' !! Z.to_nat (hash d bn) = Some lh /\
    find_id (bufs s') d bn lh = Some b /\
    bufs s' !! b = Some bb /\ lock bb = Some me /\ valid bb <> 0 /\
    dev bb = d /\ blockno bb = bn.
Proof.
  intros Hinv Hrun. unfold bread in Hrun.
  destruct (bget_Inv_find NBUF me d bn s cs Hinv)
    as [(s1 & cs1 & c & lh & Hget & Hinv1 & Hlh & Hfind & _)|(s1 & Hget)].
  2:{ unfold bind in Hrun. rewrite Hget in Hrun. discriminate. }
  destruct (find_id_Some _ _ _ _ _ Hfind) as (_ & bb & Hbb & Hd & Hbn).
  unfold bind in Hrun at 1. rewrite Hget, (finish_run me c s1 bb Hbb) in Hrun.
  destruct (lock bb) eqn:Hl; [discriminate|].
  set (s2 := mkstate _ _ _ _ _) in Hrun.
  assert (Hb2 : bufs s2 !! c = Some (set_lock (Some me) bb)).
  { unfold s2. simpl. now rewrite list_lookup_alter_eq, Hbb. }
  assert (Hinv2 : Inv_at NBUF s2 cs1).
  { apply (Inv_touch NBUF s1 s2 cs1 c (set_lock (Some me))); auto. }
  assert (Hfind2 : find_id (bufs s2) d bn lh = Some c).
  { rewrite <- Hfind. apply find_id_ext. intros j _. now apply has_id_alter_keep. }
  rewrite (bread_fill_run c s2 _ Hb2) in Hrun. injection Hrun as <- <-.
  exists cs1, lh. change (valid (set_lock (Some me) bb)) with (valid bb).
  destruct (valid bb =? 0) eqn:Hv.
  - exists (set_valid 1 (set_lock (Some me) bb)).
    split; [apply (Inv_touch NBUF s2 _ cs1 c (set_valid 1)); auto|].
    split; [assumption|]. split.
    { rewrite <- Hfind2. apply find_id_ext. intros j _. now apply has_id_alter_keep. }
    split; [exact (eq_trans (list_lookup_alter_eq _ _ _) (f_equal (fmap (set_valid 1)) Hb2))|].
    split; [reflexivity|]. split; [discriminate|]. auto.
  - exists (set_lock (Some me) bb). split; [assumption|]. split; [assumption|].
    split; [assumption|]. split; [assumption|]. split; [reflexivity|].
    split; [now apply Z.eqb_neq|]. auto.
Qed.

(** X9: once bread has returned a block to a process, every further
    bread of the same block, by any process and by the holder itself,
    finds the same slot, counts its reference, and then waits for the
    slot's blocking lock: it does not return and it recycles nothing.  The
    blocking lock is not re-entrant. *)
Theorem X9_second_bread_waits NBUF me d bn s b s1 :
  reachable NBUF s ->
  bread NBUF me d bn s = Ret b s1 ->
  forall me2,
    bread NBUF me2 d bn s1 =
      Blocked (mkstate (evict_lock s1) (alter incr_refcnt b (bufs s1))
                 (hashtable s1) (ticks s1)
                 (trace s1 ++ [EAcquire (BucketLock (Z.to_nat (hash d bn)));
                               EStore (PBuf b) Frefcnt;
                               ERelease (BucketLock (Z.to_nat (hash d bn)))])).
Proof.
  intros Hreach Hrun me2. destruct (Inv_reachable NBUF s Hreach) as [cs Hinv].
  destruct (bread_ret_facts NBUF me d bn s cs b s1 Hinv Hrun)
    as (cs1 & lh & bb & (Hwf1 & Hq1 & _) & Hlh & Hfind & Hb & Hl & _).
  unfold bread, bind.
  rewrite (bget_hit_run NBUF me2 d bn s1 cs1 lh b Hwf1 Hq1 Hlh Hfind).
  rewrite (finish_run me2 b _ (incr_refcnt bb))
    by (simpl; now rewrite list_lookup_alter_eq, Hb).
  simpl lock. now rewrite Hl.
Qed.

Lemma X9_witness :
  reachable 30 (boot 30) /\
  exists s1 s2, bread 30 7 1 5 (boot 30) = Ret 26%nat s1 /\
    bread 30 7 1 5 s1 = Blocked s2.
Proof.
  set (s := boot 30).
  assert (Hr : reachable 30 s) by apply reachable_boot.
  assert (Hrun : exists s1, bread 30 7 1 5 s = Ret 26%nat s1)
    by (vm_compute; eexists; reflexivity).
  clearbody s. destruct Hrun as [s1 Hrun]. split; [exact Hr|].
  exists s1. eexists. split; [exact Hrun|].
  exact (X9_second_bread_waits 30 7 1 5 s 26 s1 Hr Hrun 7%nat).
Defined.

(** X10: a bread whose lookup misses and that returns has called the
    device: the last three events of the call are the blocking lock
    taken, one device read of the returned slot, and the store to valid.
    The slot comes back with the identity asked for, valid, locked by the
    caller, and with ref_count 1. *)
Theorem X10_miss_reads_the_device NBUF me d bn s b s2 :
  reachable NBUF s ->
  lookup_misses NBUF d bn s ->
  bread NBUF me d bn s = Ret b s2 ->
  (exists pre, trace s2 = pre ++ [EAcquireSleep b; EDiskRW b false; EStore (PBuf b) Fvalid]) /\
  exists bb, bufs s2 !! b = Some bb /\
    dev bb = d /\ blockno bb = bn /\ valid bb = 1 /\ refcnt bb = 1 /\
    lock bb = Some me.
Proof.
  intros Hreach Hmiss Hrun. destruct (Inv_reachable NBUF s Hreach) as [cs Hinv].
  pose proof Hinv as (Hwf & _).
  destruct (bget_Inv_find NBUF me d bn s cs Hinv)
    as [(s1 & cs1 & c & lh & Hget & Hinv1 & Hlh & Hfind & Hhow)|(s1 & Hget)].
  2:{ unfold bread, bind in Hrun. rewrite Hget in Hrun. discriminate. }
  destruct Hhow as [[Hlh0 Hhit]|(bb & Hbb & Hv & Hr)].
  { rewrite (lookup_misses_find NBUF d bn s cs lh Hwf Hlh0 Hmiss) in Hhit.
    discriminate. }
  destruct (find_id_Some _ _ _ _ _ Hfind) as (_ & bb' & Hbb' & Hd & Hbn).
  rewrite Hbb in Hbb'. injection Hbb' as <-.
  unfold bread in Hrun. unfold bind in Hrun at 1.
  rewrite Hget, (finish_run me c s1 bb Hbb) in Hrun.
  destruct (lock bb) eqn:Hl; [discriminate|].
  set (s1' := mkstate _ _ _ _ _) in Hrun.
  assert (Hb2 : bufs s1' !! c = Some (set_lock (Some me) bb)).
  { unfold s1'. simpl. now rewrite list_lookup_alter_eq, Hbb. }
  rewrite (bread_fill_run c s1' _ Hb2) in Hrun.
  change (valid (set_lock (Some me) bb)) with (valid bb) in Hrun. rewrite Hv in Hrun.
  simpl Z.eqb in Hrun. cbv iota in Hrun. injection Hrun as <- <-. split.
  - exists (trace s1). simpl. now rewrite <- app_assoc.
  - exists (set_valid 1 (set_lock (Some me) bb)).
    split; [simpl; now rewrite list_lookup_alter_eq, list_lookup_alter_eq, Hbb|].
    simpl. auto 10.
Qed.

Lemma X10_witness :
  reachable 30 (boot 30) /\ lookup_misses 30 1 5 (boot 30) /\
  exists s2 bb, bread 30 7 1 5 (boot 30) = Ret 26%nat s2 /\
    bufs s2 !! 26%nat = Some bb /\ valid bb = 1 /\ lock bb = Some 7%nat.
Proof.
  set (s := boot 30).
  assert (Hr : reachable 30 s) by apply reachable_boot.
  assert (Hm : lookup_misses 30 1 5 s) by (vm_compute; reflexivity).
  assert (Hrun : exists s2, bread 30 7 1 5 s = Ret 26%nat s2)
    by (vm_compute; eexists; reflexivity).
  clearbody s. destruct Hrun as [s2 Hrun].
  split; [exact Hr|]. split; [exact Hm|].
  destruct (X10_miss_reads_the_device 30 7 1 5 s 26 s2 Hr Hm Hrun)
    as (_ & bb & Hbb & _ & _ & Hv & _ & Hl).
  exists s2, bb. split; [exact Hrun|]. split; [exact Hbb|]. split; [exact Hv|exact Hl].
Defined.

(** ** A handle given back *)

(** X12: the handle bread returns can be given back by the process that
    got it and by no other.  brelse by the caller returns: the slot's
    blocking lock is free afterwards, its ref_count is one less, its
    identity and validity are kept, and no other slot changes.  brelse by
    any other process panics and changes nothing. *)
Theorem X12_bread_then_brelse NBUF me d bn s b s1 :
  reachable NBUF s ->
  bread NBUF me d bn s = Ret b s1 ->
  (exists s2 bb1 bb2,
     brelse me b s1 = Ret tt s2 /\
     bufs s1 !! b = Some bb1 /\ bufs s2 !! b = Some bb2 /\
     lock bb2 = None /\ refcnt bb2 = wrap (refcnt bb1 - 1) /\
     dev bb2 = d /\ blockno bb2 = bn /\ valid bb2 = valid bb1 /\ valid bb2 <> 0 /\
     next bb2 = next bb1 /\
     (forall j, j <> b -> bufs s2 !! j = bufs s1 !! j) /\
     hashtable s2 = hashtable s1 /\ evict_lock s2 = evict_lock s1) /\
  (forall other, other <> me -> brelse other b s1 = Panic "brelse" s1).
Proof.
  intros Hreach Hrun. destruct (Inv_reachable NBUF s Hreach) as [cs Hinv].
  destruct (bread_ret_facts NBUF me d bn s cs b s1 Hinv Hrun)
    as (cs1 & lh & bb & Hinv1 & Hlh & Hfind & Hb & Hl & Hv & Hd & Hbn).
  pose proof (Inv_held NBUF s1 cs1 b bb Hinv1 Hb) as Hfree.
  split.
  - rewrite (brelse_run me b s1 bb Hb Hfree), bool_decide_eq_true_2 by assumption.
    eexists _, bb, (brelse_buf (ticks s1) bb). split; [reflexivity|].
    split; [assumption|]. split; [simpl; now rewrite list_lookup_alter_eq, Hb|].
    unfold brelse_buf. simpl.
    destruct (wrap (refcnt bb - 1) =? 0); simpl;
      (split; [reflexivity|]); (split; [reflexivity|]); (split; [assumption|]);
      (split; [assumption|]); (split; [reflexivity|]); (split; [assumption|]);
      (split; [reflexivity|]); (split; [|split; reflexivity]);
      intros j Hj; now rewrite list_lookup_alter_ne by congruence.
  - intros other Hne.
    rewrite (brelse_run other b s1 bb Hb Hfree), bool_decide_eq_false_2; [reflexivity|].
    rewrite Hl. congruence.
Qed.

Lemma X12_witness :
  reachable 30 (boot 30) /\
  exists s1 s2, bread 30 7 1 5 (boot 30) = Ret 26%nat s1 /\
    brelse 7 26 s1 = Ret tt s2 /\ brelse 8 26 s1 = Panic "brelse" s1.
Proof.
  set (s := boot 30).
  assert (Hr : reachable 30 s) by apply reachable_boot.
  assert (Hrun : exists s1, bread 30 7 1 5 s = Ret 26%nat s1)
    by (vm_compute; eexists; reflexivity).
  clearbody s. destruct Hrun as [s1 Hrun]. split; [exact Hr|].
  destruct (X12_bread_then_brelse 30 7 1 5 s 26 s1 Hr Hrun)
    as ((s2 & _ & _ & Hrel & _) & Hother).
  exists s1, s2. split; [exact Hrun|]. split; [exact Hrel|].
  apply Hother. discriminate.
Defined.

(** ** The locks of the scan *)

(** X7: the scan of lines 126 to 147, started with no bucket lock held
    on the memory of a state between calls (the eviction lock may be held,
    as it is in bget), returns; it writes no slot and no sentinel and
    leaves the eviction lock as it was.  On return exactly one bucket lock
    is held, that of the bucket in [prev_bucket], and none when the scan
    found no slot with ref_count zero, which is the case exactly when no
    slot of the pool has ref_count zero. *)
Theorem X7_scan_keeps_one_bucket_lock NBUF s0 s :
  reachable NBUF s0 ->
  bufs s = bufs s0 -> hashtable s = hashtable s0 ->
  exists prb pbk s',
    bget_scan NBUF (Z.to_nat NBUCKET) 0 None None s = Ret (prb, pbk) s' /\
    bufs s' = bufs s /\ heads s' = heads s /\
    evict_lock s' = evict_lock s /\ ticks s' = ticks s /\
    (forall k, (k < Z.to_nat NBUCKET)%nat ->
       held (BucketLock k) s' = Some (bool_decide (pbk = Some k))) /\
    (forall k, pbk = Some k -> (k < Z.to_nat NBUCKET)%nat) /\
    (pbk = None <-> prb = None) /\
    (pbk = None <-> Forall (fun b => refcnt b <> 0) (bufs s)).
Proof.
  intros Hreach Hb Hht. destruct (Inv_reachable NBUF s0 Hreach) as [cs Hinv].
  pose proof Hinv as (Hwf0 & Hq0 & _).
  pose proof (Inv_only_held NBUF s0 cs Hinv) as Hl0.
  pose proof (fun k l => wf_chain_length NBUF s0 cs k l Hwf0) as Hlens.
  destruct Hwf0 as (Hnb & Hnh & Hcs & Hp).
  assert (Hcss : chains_of s cs).
  { apply (chains_of_ext s0); [assumption|assumption|]. unfold heads. now rewrite Hht. }
  assert (Hwf : wf NBUF s cs).
  { split; [now rewrite Hb|]. split; [now rewrite Hht|]. now split. }
  destruct (bget_scan_spec NBUF cs Hlens (Z.to_nat NBUCKET) 0 None None s)
    as (prb & pbk & s' & Hscan & Hb' & Hh' & He' & Ht' & Hht' & [Hlocks Hres]);
    [lia|now rewrite Hht|assumption| |].
  { split; [|simpl; auto]. unfold only_held, locks_are. rewrite Hht. exact Hl0. }
  exists prb, pbk, s'. split; [assumption|]. split; [assumption|]. split; [assumption|].
  split; [assumption|]. split; [assumption|]. split.
  { intros k Hk. apply (locks_are_held s' _ k Hlocks). now rewrite Hht'. }
  rewrite take_ge in Hres by (rewrite <- (Forall2_length _ _ _ Hcs); lia).
  pose proof (champion_spec (bufs s') (concat cs)) as Hchamp.
  destruct (champion (bufs s') (concat cs) None) as [c|].
  - destruct Hres as (k & la & lb & -> & Hk & Hkc & ->).
    destruct Hchamp as (Hfree & _). split; [intros k' [= <-]; assumption|].
    split; [split; discriminate|]. split; [discriminate|].
    intros Hall. exfalso. unfold refcnt_of in Hfree. rewrite Hb' in Hfree.
    destruct (bufs s !! c) as [cb|] eqn:Hc.
    + now apply (proj1 (Forall_lookup _ _) Hall c cb Hc).
    + destruct (Forall2_lookup_r _ _ _ _ _ Hcss Hkc) as (bk & _ & Hchain).
      destruct (chain_lookup _ _ _ c Hchain) as [x Hx]; [|congruence].
      apply elem_of_app. right. left.
  - destruct Hres as [-> ->]. split; [discriminate|]. split; [tauto|].
    split; [|reflexivity]. intros _. apply Forall_lookup. intros i b Hi Hz.
    apply (Hchamp i).
    + apply (wf_elem_of NBUF s cs i Hwf). destruct Hwf as (<- & _).
      now apply lookup_lt_Some in Hi.
    + unfold refcnt_of. now rewrite Hb', Hi.
Qed.

Lemma X7_witness :
  reachable 30 (scenario 30 demo_ops) /\
  exists prb s',
    bget_scan 30 (Z.to_nat NBUCKET) 0 None None (scenario 30 demo_ops)
      = Ret (prb, Some 1%nat) s' /\
    held (BucketLock 1) s' = Some true /\ held (BucketLock 0) s' = Some false.
Proof.
  set (s := scenario 30 demo_ops).
  assert (Hr : reachable 30 s) by reach_scenario.
  assert (Hk : exists prb s', bget_scan 30 (Z.to_nat NBUCKET) 0 None None s
                 = Ret (prb, Some 1%nat) s')
    by (vm_compute; eexists _, _; reflexivity).
  clearbody s. split; [exact Hr|]. destruct Hk as (prb0 & s0' & Hk).
  destruct (X7_scan_keeps_one_bucket_lock 30 s s Hr eq_refl eq_refl)
    as (prb & pbk & s' & Hscan & _ & _ & _ & _ & Hlocks & _).
  rewrite Hk in Hscan. injection Hscan as E1 E2 E3. subst prb pbk s'.
  exists prb0, s0'. split; [exact Hk|]. split.
  - exact (Hlocks 1%nat ltac:(vm_compute; lia)).
  - exact (Hlocks 0%nat ltac:(vm_compute; lia)).
Defined.

(** ** The locks at the panic *)

(** A miss up to the end of the scan: both lookups fail, and [bget]
    goes on to recycle with the eviction lock held, the lock of the
    champion's bucket held, and memory as it was. *)
Lemma bget_miss_scan NBUF me d bn s cs lh :
  wf NBUF s cs -> quiescent s ->
  cs !! Z.to_nat (hash d bn) = Some lh ->
  find_id (bufs s) d bn lh = None ->
  exists prb pbk s6,
    bget NBUF me d bn s = bget_recycle me d bn (Z.to_nat (hash d bn)) prb pbk s6 /\
    bufs s6 = bufs s /\ heads s6 = heads s /\ ticks s6 = ticks s /\
    evict_lock s6 = true /\
    length (hashtable s6) = Z.to_nat NBUCKET /\
    scan_inv s6 cs (Z.to_nat NBUCKET) prb pbk.
Proof.
  intros Hwf Hq Hlh Hfind. pose proof (wf_chain_length _ _ _ _ _ Hwf Hlh) as Hlen.
  pose proof (fun k l => wf_chain_length NBUF s cs k l Hwf) as Hlens.
  destruct Hwf as (Hnb & Hnh & Hcs & Hp).
  apply quiescent_only_held in Hq as [He Hlocks].
  pose proof (hash_lt d bn) as Hh. set (h := Z.to_nat (hash d bn)) in *.
  assert (Hfree : held (BucketLock h) s = Some false).
  { rewrite (locks_are_held _ _ _ Hlocks) by lia. reflexivity. }
  assert (Hrt : alter (set_bk_lock false) h (alter (set_bk_lock true) h (hashtable s))
                = hashtable s).
  { apply alter_lock_roundtrip. intros bk Hbk. now rewrite (Hlocks _ _ Hbk). }
  destruct (lookup_lt_is_Some_2 (hashtable s) h ltac:(lia)) as [bh Hbh].
  set (s1 := emit (EAcquire (BucketLock h)) (set_held (BucketLock h) true s)).
  set (s2 := emit (ERelease (BucketLock h)) (set_held (BucketLock h) false s1)).
  set (s3 := emit (EAcquire EvictLock) (set_held EvictLock true s2)).
  set (s4 := emit (EAcquire (BucketLock h)) (set_held (BucketLock h) true s3)).
  set (s5 := emit (ERelease (BucketLock h)) (set_held (BucketLock h) false s4)).
  assert (Hht5 : hashtable s5 = hashtable s).
  { simpl. now rewrite !Hrt. }
  assert (H2 : release (BucketLock h) s1 = Ret tt s2).
  { apply release_ok. unfold s1. simpl. now rewrite list_lookup_alter_eq, Hbh. }
  assert (H3 : acquire EvictLock s2 = Ret tt s3).
  { apply acquire_ok. simpl. now rewrite He. }
  assert (Hcs3 : chains_of s3 cs).
  { apply (chains_of_ext s); [assumption|reflexivity|].
    unfold heads. simpl hashtable. now rewrite Hrt. }
  assert (Hfree3 : held (BucketLock h) s3 = Some false).
  { simpl. rewrite Hrt. exact Hfree. }
  assert (H5 : release (BucketLock h) s4 = Ret tt s5).
  { apply release_ok. unfold s4. simpl. rewrite Hrt.
    now rewrite list_lookup_alter_eq, Hbh. }
  assert (Hcs5 : chains_of s5 cs).
  { apply (chains_of_ext s); [assumption|reflexivity|]. unfold heads. now rewrite Hht5. }
  assert (Hinv5 : scan_inv s5 cs 0 None None).
  { split; [|simpl; auto]. intros k bk. rewrite Hht5. apply Hlocks. }
  destruct (bget_scan_spec NBUF cs Hlens (Z.to_nat NBUCKET) 0 None None s5)
    as (prb & pbk & s6 & Hscan & Hb6 & Hh6 & He6 & Ht6 & Hht6 & Hinv6);
    [lia|now rewrite Hht5|assumption|assumption|].
  exists prb, pbk, s6. split.
  { unfold bget. fold h.
    rewrite (bget_lookup_phase NBUF _ s cs h lh d bn Hcs Hlh Hlen Hfree), Hfind. fold s1.
    rewrite (bind_ret _ _ _ _ _ H2), (bind_ret _ _ _ _ _ H3).
    rewrite (bget_lookup_phase NBUF _ s3 cs h lh d bn Hcs3 Hlh Hlen Hfree3).
    change (bufs s3) with (bufs s). rewrite Hfind. fold s4.
    rewrite (bind_ret _ _ _ _ _ H5), (bind_ret _ _ _ _ _ Hscan). reflexivity. }
  split; [exact Hb6|]. split; [rewrite Hh6; unfold heads; now rewrite Hht5|].
  split; [exact Ht6|]. split; [now rewrite He6|]. split; assumption.
Qed.

(** X13: when bget runs out of slots it panics with the eviction lock
    still held: line 150 is reached before any release of it.  Every
    bucket lock has been given back by then, and no slot, no sentinel and
    no counter has been written. *)
Theorem X13_panic_keeps_the_eviction_lock NBUF me d bn s :
  reachable NBUF s ->
  lookup_misses NBUF d bn s ->
  Forall (fun b => refcnt b <> 0) (bufs s) ->
  exists s',
    bget NBUF me d bn s = Panic "bget: no buffers" s' /\
    evict_lock s' = true /\
    (forall k, (k < Z.to_nat NBUCKET)%nat -> held (BucketLock k) s' = Some false) /\
    bufs s' = bufs s /\ heads s' = heads s /\ ticks s' = ticks s.
Proof.
  intros Hreach Hmiss Hbusy.
  destruct (Inv_reachable NBUF s Hreach) as [cs Hinv].
  pose proof Hinv as (Hwf & Hq & _).
  destruct (wf_home_chain NBUF s cs d bn Hwf) as [lh Hlh].
  pose proof (lookup_misses_find NBUF d bn s cs lh Hwf Hlh Hmiss) as Hfind.
  destruct (bget_miss_scan NBUF me d bn s cs lh Hwf Hq Hlh Hfind)
    as (prb & pbk & s6 & Hrun & Hb6 & Hh6 & Ht6 & He6 & Hht6 & [Hlocks Hres]).
  pose proof Hwf as (_ & Hnh & Hcs & _).
  rewrite take_ge in Hres by (rewrite <- (Forall2_length _ _ _ Hcs); lia).
  pose proof (champion_spec (bufs s6) (concat cs)) as Hchamp.
  destruct (champion (bufs s6) (concat cs) None) as [c|].
  - exfalso. destruct Hres as (k & la & lb & _ & _ & Hk & _).
    destruct Hchamp as (Hfree & _). unfold refcnt_of in Hfree. rewrite Hb6 in Hfree.
    destruct (bufs s !! c) as [cb|] eqn:Hc.
    + now apply (proj1 (Forall_lookup _ _) Hbusy c cb Hc).
    + destruct (Forall2_lookup_r _ _ _ _ _ Hcs Hk) as (bk & _ & Hchain).
      destruct (chain_lookup _ _ _ c Hchain) as [x Hx]; [|congruence].
      apply elem_of_app. right. left.
  - destruct Hres as [-> ->]. exists s6. split; [exact Hrun|].
    split; [assumption|]. split; [|auto].
    intros k Hk. apply (locks_are_held s6 _ k Hlocks). now rewrite Hht6.
Qed.

Lemma X13_witness :
  reachable 30 (scenario 30 full_ops) /\
  lookup_misses 30 0 31 (scenario 30 full_ops) /\
  exists s', bget 30 7 0 31 (scenario 30 full_ops) = Panic "bget: no buffers" s' /\
    evict_lock s' = true.
Proof.
  set (s := scenario 30 full_ops).
  assert (Hr : reachable 30 s) by reach_scenario.
  assert (Hm : lookup_misses 30 0 31 s) by (vm_compute; reflexivity).
  assert (Hb : Forall (fun b => refcnt b <> 0) (bufs s)).
  { refine (bool_decide_unpack _ _). vm_compute. exact I. }
  clearbody s. split; [exact Hr|]. split; [exact Hm|].
  destruct (X13_panic_keeps_the_eviction_lock 30 7 0 31 s Hr Hm Hb)
    as (s' & Hrun & He & _).
  exists s'. split; [exact Hrun|exact He].
Defined.

(** ** The layout [binit] builds *)

(** The chain [binit] has built for bucket [k] when it has linked the
    slots below [n]: the slots [i] with [i % NBUCKET = k], the last one
    linked first. *)
Definition binit_chain (n k : nat) : list nat :=
  rev (filter (fun i => (i mod Z.to_nat NBUCKET)%nat = k) (seq 0 n)).

Definition binit_chains (n : nat) : list (list nat) :=
  binit_chain n <$> seq 0 (Z.to_nat NBUCKET).

Lemma binit_chains_lookup n k :
  (k < Z.to_nat NBUCKET)%nat -> binit_chains n !! k = Some (binit_chain n k).
Proof.
  intros Hk. unfold binit_chains. rewrite list_lookup_fmap.
  now rewrite lookup_seq_lt.
Qed.

Lemma binit_chain_S i k :
  binit_chain (S i) k =
  if decide ((i mod Z.to_nat NBUCKET)%nat = k) then i :: binit_chain i k
  else binit_chain i k.
Proof.
  unfold binit_chain. rewrite seq_S, filter_app, Nat.add_0_l, filter_cons, filter_nil.
  destruct (decide ((i mod Z.to_nat NBUCKET)%nat = k)).
  - now rewrite rev_app_distr.
  - now rewrite app_nil_r.
Qed.

Lemma binit_chains_S i :
  binit_chains (S i) =
  <[(i mod Z.to_nat NBUCKET)%nat :=
      i :: binit_chain i (i mod Z.to_nat NBUCKET)]> (binit_chains i).
Proof.
  assert (Hlen : forall n, length (binit_chains n) = Z.to_nat NBUCKET).
  { intros n. unfold binit_chains. now rewrite length_fmap, length_seq. }
  apply list_eq. intros k.
  destruct (decide (k < Z.to_nat NBUCKET)%nat) as [Hk|Hk].
  - rewrite (binit_chains_lookup _ _ Hk), binit_chain_S.
    destruct (decide ((i mod Z.to_nat NBUCKET)%nat = k)) as [->|Hne].
    + now rewrite list_lookup_insert_eq by (now rewrite Hlen).
    + rewrite list_lookup_insert_ne by assumption. now rewrite binit_chains_lookup.
  - rewrite !lookup_ge_None_2; [reflexivity| |]; rewrite ?length_insert, Hlen; lia.
Qed.

Lemma binit_chains_below n i : i ∈ concat (binit_chains n) -> (i < n)%nat.
Proof.
  intros (k & l & Hk & Hi)%elem_of_concat.
  assert (Hk13 : (k < Z.to_nat NBUCKET)%nat).
  { apply lookup_lt_Some in Hk. unfold binit_chains in Hk.
    now rewrite length_fmap, length_seq in Hk. }
  rewrite (binit_chains_lookup _ _ Hk13) in Hk. injection Hk as <-.
  unfold binit_chain in Hi. apply list_elem_of_In in Hi. rewrite <- in_rev in Hi.
  apply list_elem_of_In, list_elem_of_filter in Hi as [_ Hi].
  apply elem_of_seq in Hi. lia.
Qed.

(** The loop of lines 63 to 69 links slot after slot at the head of its
    bucket's chain. *)
Lemma binit_bufs_layout NBUF n : forall i s,
  (n + i = NBUF)%nat ->
  length (bufs s) = NBUF -> length (hashtable s) = Z.to_nat NBUCKET ->
  chains_of s (binit_chains i) ->
  exists s', binit_bufs n i s = Ret tt s' /\ chains_of s' (binit_chains NBUF).
Proof.
  induction n as [|n IH]; intros i s Hni Hnb Hnh Hcs.
  - simpl in Hni. subst i. exists s. split; [reflexivity|assumption].
  - set (k := (i mod Z.to_nat NBUCKET)%nat).
    assert (Hk : (k < Z.to_nat NBUCKET)%nat) by (apply Nat.mod_upper_bound; discriminate).
    destruct (lookup_lt_is_Some_2 (bufs s) i ltac:(lia)) as [bi Hbi].
    destruct (lookup_lt_is_Some_2 (hashtable s) k ltac:(lia)) as [bk Hbk].
    pose proof (binit_chains_lookup i k Hk) as Hlk.
    set (s1 := poke (PBuf i) (set_lock None) s).
    set (s2 := emit (EStore (PBuf i) Fnext) (poke (PBuf i) (set_next (next (head bk))) s1)).
    set (s3 := emit (EStore (PHead k) Fnext) (poke (PHead k) (set_next (Some i)) s2)).
    assert (Hfresh : i ∉ concat (binit_chains i)).
    { intros Hin%binit_chains_below. lia. }
    assert (Hcs2 : chains_of s2 (binit_chains i)).
    { unfold s2, s1. apply chains_of_emit. apply chains_of_poke_detached; [|assumption].
      now apply chains_of_poke_same_next. }
    assert (Hhd2 : deref (PHead k) s2 = Some (head bk)).
    { simpl. now rewrite Hbk. }
    assert (Hb2 : bufs s2 !! i = Some (set_next (next (head bk)) (set_lock None bi))).
    { simpl. now rewrite !list_lookup_alter_eq, Hbi. }
    destruct (IH (S i) s3) as (s' & Hrun & Hrest).
    + lia.
    + simpl. now rewrite !length_alter.
    + simpl. now rewrite length_alter.
    + rewrite binit_chains_S. fold k. unfold s3. apply chains_of_emit.
      now apply chains_of_push with (set_next (next (head bk)) (set_lock None bi)) (head bk).
    + exists s'. split; [|exact Hrest].
      simpl binit_bufs. fold k.
      rewrite (bind_ret _ _ s tt s1) by (unfold initsleeplock; now rewrite Hbi).
      rewrite (bind_ret _ _ _ _ _ (load_ok (PHead k) s1 (head bk)
                 ltac:(simpl; now rewrite Hbk))).
      rewrite (bind_ret _ _ s1 tt s2) by (apply store_ok; simpl;
        rewrite list_lookup_alter_eq, Hbi; now eexists).
      rewrite (bind_ret _ _ s2 tt s3) by (apply store_ok; now exists (head bk)).
      exact Hrun.
Qed.

(** X2: binit always returns.  Afterwards no spinlock is held, the tick
    counter is zero, every slot is free and unbound (not valid, identity
    (0, 0), ref_count 0, blocking lock free, recency stamp 0), and the
    chain of bucket [k] is made of the slots [i] with [i % NBUCKET = k],
    in the order of decreasing [i]: each slot was linked at the head. *)
Theorem X2_binit_layout NBUF :
  exists s,
    binit NBUF (zero_state NBUF) = Ret tt s /\
    evict_lock s = false /\ ticks s = 0 /\
    length (bufs s) = NBUF /\
    (forall i b, bufs s !! i = Some b ->
       valid b = 0 /\ dev b = 0 /\ blockno b = 0 /\ refcnt b = 0 /\
       lock b = None /\ timestamp b = 0) /\
    (forall k, (k < Z.to_nat NBUCKET)%nat ->
       held (BucketLock k) s = Some false /\
       chain_at s k (binit_chain NBUF k)).
Proof.
  destruct (binit_spec NBUF) as (s & cs & Hrun & Hwf & Hq & Hd & Ht).
  destruct (binit_bufs_layout NBUF NBUF 0 (zero_state NBUF)) as (s' & Hrun' & Hcs').
  { lia. }
  { apply length_replicate. }
  { reflexivity. }
  { unfold chains_of. simpl. repeat constructor. }
  assert (Hrun2 : binit NBUF (zero_state NBUF) = Ret tt s').
  { unfold binit.
    rewrite (bind_ret (initlock EvictLock) _ (zero_state NBUF) tt (zero_state NBUF) eq_refl).
    rewrite (bind_ret (binit_locks (Z.to_nat NBUCKET) 0) _
               (zero_state NBUF) tt (zero_state NBUF) eq_refl).
    exact Hrun'. }
  assert (Hs : s' = s) by congruence.
  subst s'. exists s. split; [assumption|].
  pose proof Hwf as (Hnb & Hnh & _).
  apply quiescent_only_held in Hq as [He Hlocks].
  split; [assumption|]. split; [assumption|]. split; [assumption|]. split.
  - intros i b Hb.
    assert (Hsb : strip b = buf0).
    { assert (Hdi : data s !! i = Some (strip b))
        by (unfold data; now rewrite list_lookup_fmap, Hb).
      rewrite Hd in Hdi. now apply lookup_replicate in Hdi as [-> _]. }
    destruct b. simpl in Hsb. injection Hsb as -> -> -> -> ->. simpl. auto 10.
  - intros k Hk. split.
    + rewrite (locks_are_held _ _ _ Hlocks) by lia. reflexivity.
    + apply chains_of_chain_at in Hcs' as [_ Hat]. apply Hat.
      now apply binit_chains_lookup.
Qed.

(** ** A block given back stays cached *)

Lemma brelse_buf_fields t x :
  next (brelse_buf t x) = next x /\ dev (brelse_buf t x) = dev x /\
  blockno (brelse_buf t x) = blockno x /\ valid (brelse_buf t x) = valid x /\
  lock (brelse_buf t x) = None.
Proof.
  unfold brelse_buf. destruct (refcnt (decr_refcnt (set_lock None x)) =? 0); simpl; auto.
Qed.

(** X14: a block that was read and given back is still cached.  The
    next bread of the same block, by any process, returns the same slot
    through the hit path: it takes the bucket lock, counts the reference,
    takes the blocking lock, and calls neither the eviction path nor the
    device. *)
Theorem X14_released_block_stays_cached NBUF me me2 d bn s b s1 s2 :
  reachable NBUF s ->
  bread NBUF me d bn s = Ret b s1 ->
  brelse me b s1 = Ret tt s2 ->
  bread NBUF me2 d bn s2 =
    Ret b (mkstate (evict_lock s2)
             (alter (set_lock (Some me2)) b (alter incr_refcnt b (bufs s2)))
             (hashtable s2) (ticks s2)
             (trace s2 ++ [EAcquire (BucketLock (Z.to_nat (hash d bn)));
                           EStore (PBuf b) Frefcnt;
                           ERelease (BucketLock (Z.to_nat (hash d bn)));
                           EAcquireSleep b])).
Proof.
  intros Hreach Hrun Hrel. destruct (Inv_reachable NBUF s Hreach) as [cs Hinv].
  destruct (bread_ret_facts NBUF me d bn s cs b s1 Hinv Hrun)
    as (cs1 & lh & bb & Hinv1 & Hlh & Hfind & Hb & Hl & Hv & Hd & Hbn).
  pose proof (Inv_held NBUF s1 cs1 b bb Hinv1 Hb) as Hfree.
  rewrite (brelse_run me b s1 bb Hb Hfree), bool_decide_eq_true_2 in Hrel by assumption.
  injection Hrel as Hs2.
  assert (Hb2 : bufs s2 = alter (brelse_buf (ticks s1)) b (bufs s1)) by now subst s2.
  assert (Hinv2 : Inv_at NBUF s2 cs1).
  { apply (Inv_touch NBUF s1 s2 cs1 b (brelse_buf (ticks s1))).
    - assumption.
    - now subst s2.
    - now subst s2.
    - assumption.
    - intros x. apply brelse_buf_fields.
    - intros x. apply brelse_buf_fields.
    - intros x. apply brelse_buf_fields.
    - intros x Hx _. right. rewrite Hb in Hx. injection Hx as <-.
      exists lh. subst d bn. auto. }
  assert (Hfind2 : find_id (bufs s2) d bn lh = Some b).
  { rewrite Hb2, <- Hfind. apply find_id_ext. intros j _.
    apply has_id_alter_keep; intros x; apply brelse_buf_fields. }
  assert (Hbb2 : bufs s2 !! b = Some (brelse_buf (ticks s1) bb)).
  { now rewrite Hb2, list_lookup_alter_eq, Hb. }
  clear Hs2. destruct Hinv2 as (Hwf2 & Hq2 & _).
  unfold bread. unfold bind at 1.
  rewrite (bget_hit_run NBUF me2 d bn s2 cs1 lh b Hwf2 Hq2 Hlh Hfind2).
  rewrite (finish_run me2 b _ (incr_refcnt (brelse_buf (ticks s1) bb)))
    by (simpl; now rewrite list_lookup_alter_eq, Hbb2).
  destruct (brelse_buf_fields (ticks s1) bb) as (_ & _ & _ & Hv2 & Hl2).
  change (lock (incr_refcnt (brelse_buf (ticks s1) bb)))
    with (lock (brelse_buf (ticks s1) bb)). rewrite Hl2.
  rewrite (bread_fill_run b _ (set_lock (Some me2) (incr_refcnt (brelse_buf (ticks s1) bb))))
    by (simpl; now rewrite !list_lookup_alter_eq, Hbb2).
  change (valid (set_lock (Some me2) (incr_refcnt (brelse_buf (ticks s1) bb))))
    with (valid (brelse_buf (ticks s1) bb)).
  rewrite Hv2. apply Z.eqb_neq in Hv. rewrite Hv.
  f_equal. apply state_eq; simpl; try reflexivity. now rewrite <- app_assoc.
Qed.

Lemma X14_witness :
  reachable 30 (boot 30) /\
  bread 30 7 1 5 (boot 30) = Ret 26%nat (scenario 30 [OpBread 7 1 5]) /\
  brelse 7 26 (scenario 30 [OpBread 7 1 5])
    = Ret tt (scenario 30 [OpBread 7 1 5; OpBrelse 7 26]) /\
  exists s3, bread 30 8 1 5 (scenario 30 [OpBread 7 1 5; OpBrelse 7 26]) = Ret 26%nat s3.
Proof.
  set (s := boot 30).
  set (s1 := scenario 30 [OpBread 7 1 5]).
  set (s2 := scenario 30 [OpBread 7 1 5; OpBrelse 7 26]).
  assert (Hr : reachable 30 s) by apply reachable_boot.
  assert (Hrun : bread 30 7 1 5 s = Ret 26%nat s1) by (vm_compute; reflexivity).
  assert (Hrel : brelse 7 26 s1 = Ret tt s2) by (vm_compute; reflexivity).
  clearbody s s1 s2. split; [exact Hr|]. split; [exact Hrun|]. split; [exact Hrel|].
  eexists. exact (X14_released_block_stays_cached 30 7 8 1 5 s 26 s1 s2 Hr Hrun Hrel).
Defined.

(** ** A handle written back *)

(** X3: the handle bread returns can be written back by the process
    that got it and by no other.  bwrite by the caller returns after one
    device write of the slot; it takes no spinlock and changes no slot, no
    sentinel and no lock, so the handle stays the caller's.  bwrite by any
    other process panics with "bwrite" and changes nothing. *)
Theorem X3_bwrite_after_bread NBUF me d bn s b s1 :
  reachable NBUF s ->
  bread NBUF me d bn s = Ret b s1 ->
  bwrite me b s1 =
    Ret tt (mkstate (evict_lock s1) (bufs s1) (hashtable s1) (ticks s1)
              (trace s1 ++ [EDiskRW b true])) /\
  (forall other, other <> me -> bwrite other b s1 = Panic "bwrite" s1).
Proof.
  intros Hreach Hrun. destruct (Inv_reachable NBUF s Hreach) as [cs Hinv].
  destruct (bread_ret_facts NBUF me d bn s cs b s1 Hinv Hrun)
    as (cs1 & lh & bb & _ & _ & _ & Hb & Hl & _).
  split.
  - now rewrite (bwrite_run me b s1 bb Hb), bool_decide_eq_true_2.
  - intros other Hne. rewrite (bwrite_run other b s1 bb Hb), bool_decide_eq_false_2;
      [reflexivity|]. rewrite Hl. congruence.
Qed.

Lemma X3_witness :
  reachable 30 (boot 30) /\
  exists s1 s2, bread 30 7 1 5 (boot 30) = Ret 26%nat s1 /\
    bwrite 7 26 s1 = Ret tt s2 /\ bwrite 8 26 s1 = Panic "bwrite" s1.
Proof.
  set (s := boot 30).
  assert (Hr : reachable 30 s) by apply reachable_boot.
  assert (Hrun : exists s1, bread 30 7 1 5 s = Ret 26%nat s1)
    by (vm_compute; eexists; reflexivity).
  clearbody s. destruct Hrun as [s1 Hrun]. split; [exact Hr|].
  destruct (X3_bwrite_after_bread 30 7 1 5 s 26 s1 Hr Hrun) as [Hw Hother].
  exists s1. eexists. split; [exact Hrun|]. split; [exact Hw|].
  apply Hother. discriminate.
Defined.

(** * Concurrent calls

    Processes run the calls of the cache concurrently.  What one process
    does between two lock operations of its own is a critical section: it
    touches only what its locks protect.  In this part a call is cut into
    its critical sections, and the sections of different processes are
    interleaved in every possible way. *)

(** ** [bget] in sections *)

Lemma bind_bind {A B C} (m : M A) (k : A -> M B) (k' : B -> M C) s :
  bind (bind m k) k' s = bind m (fun a => bind (k a) k') s.
Proof. unfold bind. now destruct (m s). Qed.

Lemma bind_ext {A B} (m : M A) (k k' : A -> M B) s :
  (forall a s', k a s' = k' a s') -> bind m k s = bind m k' s.
Proof. intros H. unfold bind. now destruct (m s). Qed.

Lemma ret_bind {A B} (a : A) (k : A -> M B) s : bind (ret a) k s = k a s.
Proof. reflexivity. Qed.

(** Two computations written with different bracketing of [bind] are
    compared step by step. *)
Ltac by_steps :=
  repeat first
    [ reflexivity
    | rewrite bind_bind
    | rewrite ret_bind
    | apply bind_ext; intros ? ?
    | match goal with
      | |- context [match ?r with Some _ => _ | None => _ end] => destruct r
      | |- context [match ?r with (_, _) => _ end] => destruct r
      | |- context [if ?b then _ else _] => destruct b
      end ].

Section Sections.

Variable NBUF : nat.

(** Lines 93 to 102, and again lines 111 to 121 without the release of
    the eviction lock: the lookup under the lock of the bucket the identity
    hashes to, which counts the reference when it finds the block. *)
Definition bget_find (d bn : Z) : M (option nat) :=
  let index := Z.to_nat (hash d bn) in
  acquire (BucketLock index) >>
  let* hd := load (PHead index) in
  let* r := bget_lookup NBUF d bn (next hd) in
  match r with
  | Some b =>
      store (PBuf b) Frefcnt incr_refcnt >>
      release (BucketLock index) >>
      ret (Some b)
  | None =>
      release (BucketLock index) >>
      ret None
  end.

(** Line 152: [b = prev_replace_buf->next]. *)
Definition bget_champion (p : ptr) : M nat :=
  let* pb := load p in
  match next pb with
  | None => fault
  | Some b => ret b
  end.

(** Lines 152 to 157, when [prev_bucket != bucket]: the champion is taken
    off its chain and the lock of its bucket is released. *)
Definition bget_unlink (p : ptr) (prev_bucket : option nat) : M nat :=
  let* b := bget_champion p in
  let* bb := load (PBuf b) in
  store p Fnext (set_next (next bb)) >>
  release_bucket prev_bucket >>
  ret b.

(** Lines 159 to 161: the slot is put at the head of the target chain,
    under the lock of the target bucket. *)
Definition bget_splice (index b : nat) : M unit :=
  acquire (BucketLock index) >>
  let* hd := load (PHead index) in
  store (PBuf b) Fnext (set_next (next hd)) >>
  store (PHead index) Fnext (set_next (Some b)).

(** Lines 165 to 170: the slot gets the identity asked for, and the lock
    of the target bucket is released. *)
Definition bget_bind (d bn : Z) (index b : nat) : M unit :=
  store (PBuf b) Fdev (set_dev d) >>
  store (PBuf b) Fblockno (set_blockno bn) >>
  store (PBuf b) Frefcnt (set_refcnt 1) >>
  store (PBuf b) Fvalid (set_valid 0) >>
  release (BucketLock index).

(** [bget_recycle] is its sections one after the other. *)
Lemma bget_recycle_sections me d bn index p pbk s :
  bget_recycle me d bn index (Some p) pbk s =
  (let* b :=
     (if bool_decide (pbk <> Some index) then
        let* b := bget_unlink p pbk in
        bget_splice index b >> ret b
      else bget_champion p) in
   bget_bind d bn index b >>
   release EvictLock >>
   acquiresleep me b >>
   ret b) s.
Proof.
  unfold bget_recycle, bget_unlink, bget_champion, bget_splice, bget_bind.
  by_steps.
Qed.

(** [bget] is its sections one after the other: the lookup; on a miss
    the eviction lock, the lookup again, the scan and the recycling. *)
Lemma bget_sections me d bn s :
  bget NBUF me d bn s =
  (let* r := bget_find d bn in
   match r with
   | Some b => acquiresleep me b >> ret b
   | None =>
       acquire EvictLock >>
       let* r := bget_find d bn in
       match r with
       | Some b => release EvictLock >> acquiresleep me b >> ret b
       | None =>
           let* '(prev_replace_buf, prev_bucket) :=
             bget_scan NBUF (Z.to_nat NBUCKET) 0 None None in
           bget_recycle me d bn (Z.to_nat (hash d bn)) prev_replace_buf prev_bucket
       end
   end) s.
Proof. unfold bget, bget_find. by_steps. Qed.

(** The scan is its iterations one after the other. *)
Lemma bget_scan_sections n j prb pbk s :
  bget_scan NBUF (S n) j prb pbk s =
  (let* '(prb', pbk') := bget_scan NBUF 1 j prb pbk in
   bget_scan NBUF n (S j) prb' pbk') s.
Proof. simpl bget_scan. by_steps. Qed.

End Sections.

(** [brelse] has two sections: it gives up the blocking lock (lines
    205-208), then the reference, under the bucket lock (lines 210-216). *)
Definition brelse_unlock (me b : nat) : M unit :=
  let* h := holdingsleep me b in
  if negb h then panic "brelse"
  else releasesleep b.

Definition brelse_unref (b : nat) : M unit :=
  let* bb := load (PBuf b) in
  let index := Z.to_nat (hash (dev bb) (blockno bb)) in
  acquire (BucketLock index) >>
  store (PBuf b) Frefcnt decr_refcnt >>
  let* bb := load (PBuf b) in
  (if refcnt bb =? 0 then
     let* t := read_ticks in
     store (PBuf b) Ftimestamp (set_timestamp t)
   else ret tt) >>
  release (BucketLock index).

Lemma brelse_sections me b s :
  brelse me b s = (brelse_unlock me b >> brelse_unref b) s.
Proof. unfold brelse, brelse_unlock, brelse_unref. by_steps. Qed.

(** ** The pool while an eviction is under way *)

(** The slot an eviction has taken off its chain and not yet put on
    another, as a list. *)
Definition limbo_list (o : option nat) : list nat :=
  match o with
  | Some c => [c]
  | None => []
  end.

(** Every bound slot other than [limbo] is the first slot with its
    identity on the chain its identity hashes to. *)
Definition home_but (limbo : option nat) (bs : list buf) (cs : list (list nat)) : Prop :=
  forall i b, bs !! i = Some b -> bound b -> limbo <> Some i ->
    exists l, cs !! Z.to_nat (hash (dev b) (blockno b)) = Some l /\
      find_id bs (dev b) (blockno b) l = Some i.

(** [cache_inv NBUF s cs limbo]: the chains are [cs]; every slot is on
    exactly one chain, but for the slot [limbo], which is on none; every
    bound slot other than [limbo] is at home. *)
Definition cache_inv (NBUF : nat) (s : state) (cs : list (list nat))
    (limbo : option nat) : Prop :=
  length (bufs s) = NBUF /\
  length (hashtable s) = Z.to_nat NBUCKET /\
  chains_of s cs /\
  limbo_list limbo ++ concat cs ≡ₚ seq 0 NBUF /\
  home_but limbo (bufs s) cs.

Lemma home_but_None bs cs : home_but None bs cs <-> home bs cs.
Proof.
  unfold home_but, home. split; intros H i b Hb Hbound; [|intros _]; now apply (H i b).
Qed.

Lemma find_id_strip bs d bn l : find_id (strip <$> bs) d bn l = find_id bs d bn l.
Proof.
  apply find_id_ext. intros j _. unfold has_id. rewrite list_lookup_fmap.
  now destruct (bs !! j).
Qed.

(** Being at home does not depend on the links. *)
Lemma home_but_strip limbo bs cs :
  home_but limbo (strip <$> bs) cs <-> home_but limbo bs cs.
Proof.
  unfold home_but. split; intros H i b Hb Hbound Hl.
  - destruct (H i (strip b)) as (l & Hl' & Hf); [now rewrite list_lookup_fmap, Hb|
      exact Hbound|assumption|].
    exists l. split; [exact Hl'|]. simpl in Hf. now rewrite find_id_strip in Hf.
  - rewrite list_lookup_fmap in Hb. destruct (bs !! i) as [x|] eqn:Hx; [|discriminate].
    injection Hb as <-. destruct (H i x Hx Hbound Hl) as (l & Hl' & Hf).
    exists l. split; [exact Hl'|]. simpl. now rewrite find_id_strip.
Qed.

(** No slot on the chain the identity hashes to carries the identity. *)
Definition absent (bs : list buf) (cs : list (list nat)) (d bn : Z) : Prop :=
  forall lh, cs !! Z.to_nat (hash d bn) = Some lh -> find_id bs d bn lh = None.

Lemma cache_inv_None NBUF s cs :
  cache_inv NBUF s cs None <-> wf NBUF s cs /\ home (bufs s) cs.
Proof.
  unfold cache_inv, wf. rewrite home_but_None. simpl. tauto.
Qed.

Lemma length_concat_lookup (cs : list (list nat)) k l :
  cs !! k = Some l -> (length l <= length (concat cs))%nat.
Proof.
  revert k. induction cs as [|l0 cs IH]; intros [|k] Hk; simpl in *; try discriminate.
  - injection Hk as ->. rewrite length_app. lia.
  - rewrite length_app. specialize (IH k Hk). lia.
Qed.

Lemma cache_inv_chain_length NBUF s cs limbo k l :
  cache_inv NBUF s cs limbo -> cs !! k = Some l -> (length l <= NBUF)%nat.
Proof.
  intros (_ & _ & _ & Hp & _) Hk. apply Permutation_length in Hp.
  rewrite length_app, length_seq in Hp.
  pose proof (length_concat_lookup cs k l Hk). lia.
Qed.

Lemma cache_inv_NoDup NBUF s cs limbo :
  cache_inv NBUF s cs limbo ->
  NoDup (concat cs) /\ forall c, limbo = Some c -> c ∉ concat cs.
Proof.
  intros (_ & _ & _ & Hp & _).
  assert (Hnd : NoDup (limbo_list limbo ++ concat cs)).
  { rewrite Hp. apply NoDup_seq. }
  apply NoDup_app in Hnd as (_ & Hdis & Hnd). split; [exact Hnd|].
  intros c ->. apply Hdis. simpl. left.
Qed.

Lemma cache_inv_lookup NBUF s cs limbo k :
  cache_inv NBUF s cs limbo -> (k < Z.to_nat NBUCKET)%nat -> is_Some (cs !! k).
Proof.
  intros (_ & Hnh & Hcs & _) Hk. apply lookup_lt_is_Some_2.
  rewrite <- (Forall2_length _ _ _ Hcs). lia.
Qed.

Lemma cache_inv_limbo NBUF s cs c :
  cache_inv NBUF s cs (Some c) -> is_Some (bufs s !! c).
Proof.
  intros (Hnb & _ & _ & Hp & _). apply lookup_lt_is_Some_2. rewrite Hnb.
  assert (Hin : c ∈ seq 0 NBUF) by (rewrite <- Hp; simpl; left).
  apply elem_of_seq in Hin. lia.
Qed.

(** A slot on a chain is a slot of the pool, and not the one in limbo. *)
Lemma cache_inv_on_chain NBUF s cs limbo k l b :
  cache_inv NBUF s cs limbo -> cs !! k = Some l -> b ∈ l ->
  is_Some (bufs s !! b) /\ limbo <> Some b.
Proof.
  intros Hinv Hk Hb. split.
  - destruct Hinv as (_ & _ & Hcs & _).
    destruct (Forall2_lookup_r _ _ _ _ _ Hcs Hk) as (bk & _ & Hchain).
    now apply (chain_lookup _ _ _ _ Hchain).
  - intros ->. apply (cache_inv_NoDup _ _ _ _ Hinv) with b; [reflexivity|].
    apply elem_of_concat. now exists k, l.
Qed.

Lemma fmap_alter_same {B} (g : buf -> B) (f : buf -> buf) i (bs : list buf) :
  (forall b, g (f b) = g b) -> g <$> alter f i bs = g <$> bs.
Proof.
  intros H. rewrite (list_fmap_alter_comm g f id) by (intros; now rewrite H).
  now apply list_alter_id.
Qed.

Lemma find_id_alter bs f b d bn l :
  (forall x, dev (f x) = dev x) -> (forall x, blockno (f x) = blockno x) ->
  find_id (alter f b bs) d bn l = find_id bs d bn l.
Proof. intros Hd Hb. apply find_id_ext. intros j _. now apply has_id_alter_keep. Qed.

(** A store to one slot that keeps its link and its identity. *)
Lemma cache_inv_touch NBUF s s' cs limbo b f :
  cache_inv NBUF s cs limbo ->
  hashtable s' = hashtable s ->
  bufs s' = alter f b (bufs s) ->
  (forall x, next (f x) = next x) ->
  (forall x, dev (f x) = dev x) -> (forall x, blockno (f x) = blockno x) ->
  (forall x, bufs s !! b = Some x -> bound (f x) -> limbo <> Some b ->
     bound x \/
     exists l, cs !! Z.to_nat (hash (dev x) (blockno x)) = Some l /\
       find_id (bufs s) (dev x) (blockno x) l = Some b) ->
  cache_inv NBUF s' cs limbo.
Proof.
  intros (Hnb & Hnh & Hcs & Hp & Hhome) Hht Hb Hn Hd Hbn Hbound.
  split; [now rewrite Hb, length_alter|]. split; [now rewrite Hht|].
  split.
  { unfold chains_of in *. rewrite Hht, Hb.
    eapply Forall2_impl; [exact Hcs|]. intros bk l Hc.
    now apply chain_alter_same_next. }
  split; [assumption|].
  intros i y Hy Hby Hli. rewrite Hb in Hy |- *.
  setoid_rewrite (find_id_alter (bufs s) f b) ; [|assumption|assumption].
  destruct (decide (b = i)) as [->|Hne].
  - rewrite list_lookup_alter_eq in Hy. destruct (bufs s !! i) as [x|] eqn:Hx; [|discriminate].
    injection Hy as <-. rewrite Hd, Hbn.
    destruct (Hbound x eq_refl Hby Hli) as [Hbx|Hfound]; [|exact Hfound].
    now apply (Hhome i x).
  - rewrite list_lookup_alter_ne in Hy by assumption. now apply (Hhome i y).
Qed.

(** A change of locks, ticks or the log only. *)
Lemma cache_inv_same NBUF s s' cs limbo :
  cache_inv NBUF s cs limbo ->
  length (hashtable s') = length (hashtable s) ->
  heads s' = heads s -> bufs s' = bufs s ->
  cache_inv NBUF s' cs limbo.
Proof.
  intros (Hnb & Hnh & Hcs & Hp & Hhome) Hlen Hh Hb.
  split; [now rewrite Hb|]. split; [now rewrite Hlen|].
  split; [now apply (chains_of_ext s)|]. split; [assumption|].
  rewrite Hb. exact Hhome.
Qed.

Lemma absent_touch bs cs f b d bn :
  (forall x, dev (f x) = dev x) -> (forall x, blockno (f x) = blockno x) ->
  absent bs cs d bn -> absent (alter f b bs) cs d bn.
Proof.
  intros Hd Hb Ha lh Hlh. rewrite find_id_alter by assumption. now apply Ha.
Qed.

Lemma refcnt_of_alter_ne bs f b c :
  b <> c -> refcnt_of (alter f b bs) c = refcnt_of bs c.
Proof. intros Hne. unfold refcnt_of. now rewrite list_lookup_alter_ne. Qed.

Lemma refcnt_of_alter_keep bs f b c :
  (forall x, refcnt (f x) = refcnt x) -> refcnt_of (alter f b bs) c = refcnt_of bs c.
Proof.
  intros Hf. unfold refcnt_of. destruct (decide (b = c)) as [->|Hne].
  - rewrite list_lookup_alter_eq. destruct (bs !! c); simpl; [apply Hf|reflexivity].
  - now rewrite list_lookup_alter_ne.
Qed.

(** Taking a slot off its chain. *)
Lemma concat_unlink (cs : list (list nat)) k la c lb :
  cs !! k = Some (la ++ c :: lb) ->
  c :: concat (<[k := la ++ lb]> cs) ≡ₚ concat cs.
Proof.
  revert k. induction cs as [|l0 cs IH]; intros [|k] Hk; simpl in *; try discriminate.
  - injection Hk as ->. rewrite <- !app_assoc. simpl. apply Permutation_middle.
  - rewrite <- (IH k Hk). apply Permutation_middle.
Qed.

Lemma find_id_remove bs d bn la c lb i :
  find_id bs d bn (la ++ c :: lb) = Some i -> i <> c ->
  find_id bs d bn (la ++ lb) = Some i.
Proof.
  rewrite !find_id_app. simpl. destruct (find_id bs d bn la); [auto|].
  destruct (has_id bs d bn c); [congruence|auto].
Qed.

(** ** What each section does *)

Lemma acquire_held l s : held l s = Some true -> acquire l s = Blocked s.
Proof. intros H. unfold acquire. now rewrite H. Qed.

(** The lookup under a free bucket lock: the first slot of the chain
    with the identity gets one more reference. *)
Lemma bget_find_run NBUF d bn s cs lh :
  chains_of s cs -> cs !! Z.to_nat (hash d bn) = Some lh ->
  (length lh <= NBUF)%nat ->
  held (BucketLock (Z.to_nat (hash d bn))) s = Some false ->
  bget_find NBUF d bn s =
    match find_id (bufs s) d bn lh with
    | Some b =>
        Ret (Some b)
          (mkstate (evict_lock s) (alter incr_refcnt b (bufs s)) (hashtable s) (ticks s)
             (trace s ++ [EAcquire (BucketLock (Z.to_nat (hash d bn)));
                          EStore (PBuf b) Frefcnt;
                          ERelease (BucketLock (Z.to_nat (hash d bn)))]))
    | None =>
        Ret None
          (mkstate (evict_lock s) (bufs s) (hashtable s) (ticks s)
             (trace s ++ [EAcquire (BucketLock (Z.to_nat (hash d bn)));
                          ERelease (BucketLock (Z.to_nat (hash d bn)))]))
    end.
Proof.
  intros Hcs Hlh Hlen Hfree. unfold bget_find.
  set (h := Z.to_nat (hash d bn)) in *.
  rewrite (bget_lookup_phase NBUF _ s cs h lh d bn Hcs Hlh Hlen Hfree).
  set (s1 := emit (EAcquire (BucketLock h)) (set_held (BucketLock h) true s)).
  destruct (find_id (bufs s) d bn lh) as [b|] eqn:Hfind.
  - destruct (find_id_Some _ _ _ _ _ Hfind) as (_ & bb & Hbb & _).
    rewrite (bind_ret _ _ s1 tt
               (emit (EStore (PBuf b) Frefcnt) (poke (PBuf b) incr_refcnt s1)))
      by (apply store_ok; now exists bb).
    rewrite (bind_ret _ _ _ tt
               (emit (ERelease (BucketLock h))
                  (set_held (BucketLock h) false
                     (emit (EStore (PBuf b) Frefcnt) (poke (PBuf b) incr_refcnt s1))))).
    2:{ apply release_ok. simpl. now apply held_after_acquire. }
    unfold ret. f_equal. apply state_eq; simpl; try reflexivity.
    + now apply held_free_roundtrip.
    + now rewrite <- !app_assoc.
  - rewrite (bind_ret _ _ s1 tt
               (emit (ERelease (BucketLock h)) (set_held (BucketLock h) false s1))).
    2:{ apply release_ok. simpl. now apply held_after_acquire. }
    unfold ret. f_equal. apply state_eq; simpl; try reflexivity.
    + now apply held_free_roundtrip.
    + now rewrite <- !app_assoc.
Qed.

(** While the bucket lock is held by someone else the lookup waits. *)
Lemma bget_find_held NBUF d bn s :
  held (BucketLock (Z.to_nat (hash d bn))) s = Some true ->
  bget_find NBUF d bn s = Blocked s.
Proof. intros H. unfold bget_find, bind. now rewrite (acquire_held _ _ H). Qed.

Lemma bpin_held b s bb :
  bufs s !! b = Some bb ->
  held (BucketLock (Z.to_nat (hash (dev bb) (blockno bb)))) s = Some true ->
  bpin b s = Blocked s.
Proof.
  intros Hb H. unfold bpin.
  rewrite (bind_ret _ _ _ _ _ (load_ok (PBuf b) s bb Hb)).
  unfold bind. now rewrite (acquire_held _ _ H).
Qed.

Lemma bunpin_held b s bb :
  bufs s !! b = Some bb ->
  held (BucketLock (Z.to_nat (hash (dev bb) (blockno bb)))) s = Some true ->
  bunpin b s = Blocked s.
Proof.
  intros Hb H. unfold bunpin.
  rewrite (bind_ret _ _ _ _ _ (load_ok (PBuf b) s bb Hb)).
  unfold bind. now rewrite (acquire_held _ _ H).
Qed.

Lemma brelse_unlock_run me b s bb :
  bufs s !! b = Some bb ->
  brelse_unlock me b s =
    if bool_decide (lock bb = Some me) then
      Ret tt (emit (EReleaseSleep b) (with_bufs (alter (set_lock None) b (bufs s)) s))
    else Panic "brelse" s.
Proof.
  intros Hb. unfold brelse_unlock, holdingsleep.
  rewrite (bind_ret _ _ s (bool_decide (lock bb = Some me)) s)
    by now rewrite (bind_ret _ _ _ _ _ (load_ok (PBuf b) s bb Hb)).
  destruct (bool_decide (lock bb = Some me)); [|reflexivity]. unfold negb. cbv iota.
  unfold releasesleep. now rewrite Hb.
Qed.

(** What the second section of [brelse] leaves in the slot, [t] being the
    value of [ticks]. *)
Definition unref_buf (t : Z) (x : buf) : buf :=
  let x' := decr_refcnt x in
  if refcnt x' =? 0 then set_timestamp t x' else x'.

Lemma brelse_unref_run b s bb :
  bufs s !! b = Some bb ->
  let h := Z.to_nat (hash (dev bb) (blockno bb)) in
  held (BucketLock h) s = Some false ->
  brelse_unref b s =
    Ret tt
      (mkstate (evict_lock s) (alter (unref_buf (ticks s)) b (bufs s))
         (hashtable s) (ticks s)
         (trace s ++
            EAcquire (BucketLock h) :: EStore (PBuf b) Frefcnt ::
            (if wrap (refcnt bb - 1) =? 0 then [EStore (PBuf b) Ftimestamp] else []) ++
            [ERelease (BucketLock h)])).
Proof.
  intros Hb h Hfree. unfold brelse_unref.
  rewrite (bind_ret _ _ _ _ _ (load_ok (PBuf b) s bb Hb)). fold h.
  rewrite (bind_ret _ _ _ _ _ (acquire_ok _ _ Hfree)).
  set (s2 := emit (EAcquire (BucketLock h)) (set_held (BucketLock h) true s)).
  set (s3 := emit (EStore (PBuf b) Frefcnt) (poke (PBuf b) decr_refcnt s2)).
  assert (H3 : store (PBuf b) Frefcnt decr_refcnt s2 = Ret tt s3).
  { apply store_ok. now exists bb. }
  rewrite (bind_ret _ _ _ _ _ H3).
  assert (Hb3 : bufs s3 !! b = Some (decr_refcnt bb)).
  { unfold s3. rewrite bufs_emit, bufs_poke_buf, list_lookup_alter_eq.
    change (bufs s2) with (bufs s). now rewrite Hb. }
  rewrite (bind_ret _ _ _ _ _ (load_ok (PBuf b) s3 _ Hb3)).
  assert (Hheld3 : held (BucketLock h) s3 = Some true).
  { unfold s3, s2. rewrite held_emit, held_poke, held_emit.
    apply held_set_held_eq. rewrite Hfree. now eexists. }
  assert (Hbuf : alter (unref_buf (ticks s)) b (bufs s) =
                 alter (fun x => if wrap (refcnt bb - 1) =? 0
                                 then set_timestamp (ticks s) (decr_refcnt x)
                                 else decr_refcnt x) b (bufs s)).
  { apply list_alter_ext; [|reflexivity]. intros x Hx. rewrite Hb in Hx.
    injection Hx as <-. reflexivity. }
  change (refcnt (decr_refcnt bb)) with (wrap (refcnt bb - 1)).
  destruct (wrap (refcnt bb - 1) =? 0) eqn:Hz.
  - set (s4 := emit (EStore (PBuf b) Ftimestamp) (poke (PBuf b) (set_timestamp (ticks s)) s3)).
    rewrite (bind_ret _ _ s3 tt s4).
    2:{ rewrite (bind_ret read_ticks _ s3 (ticks s) s3 eq_refl). apply store_ok.
        rewrite (Hb3 : deref (PBuf b) s3 = _). now eexists. }
    rewrite release_ok by (unfold s4; now rewrite held_emit, held_poke).
    f_equal. apply state_eq; simpl; try reflexivity.
    + rewrite Hbuf, ?list_alter_alter_eq. reflexivity.
    + now apply held_free_roundtrip.
    + now rewrite <- !app_assoc.
  - rewrite (bind_ret (ret tt) _ s3 tt s3 eq_refl).
    rewrite release_ok by assumption.
    f_equal. apply state_eq; simpl; try reflexivity.
    + rewrite Hbuf, ?list_alter_alter_eq. reflexivity.
    + now apply held_free_roundtrip.
    + now rewrite <- !app_assoc.
Qed.

Lemma brelse_unref_held b s bb :
  bufs s !! b = Some bb ->
  held (BucketLock (Z.to_nat (hash (dev bb) (blockno bb)))) s = Some true ->
  brelse_unref b s = Blocked s.
Proof.
  intros Hb H. unfold brelse_unref.
  rewrite (bind_ret _ _ _ _ _ (load_ok (PBuf b) s bb Hb)).
  unfold bind. now rewrite (acquire_held _ _ H).
Qed.

(** ** One bucket of the scan, while other processes run *)

(** What the scan holds when it is about to visit bucket [j], given that
    other processes may have run since it began: [prev_replace_buf] is
    the predecessor, on the chain of [prev_bucket], of a slot [acc] that
    has reference count zero; or both are null. *)
Definition champ_is (s : state) (cs : list (list nat)) (j : nat)
    (prb : option ptr) (pbk : option nat) (acc : option nat) : Prop :=
  match acc with
  | None => prb = None /\ pbk = None
  | Some c => exists k la lb,
      pbk = Some k /\ (k < j)%nat /\ cs !! k = Some (la ++ c :: lb) /\
      prb = Some (last_ptr k la) /\ refcnt_of (bufs s) c = 0
  end.

Definition champ_inv (s : state) (cs : list (list nat)) (j : nat)
    (prb : option ptr) (pbk : option nat) : Prop :=
  exists acc, champ_is s cs j prb pbk acc.

Lemma champion_from bs l : forall acc c,
  champion bs l acc = Some c -> acc = Some c \/ (c ∈ l /\ refcnt_of bs c = 0).
Proof.
  induction l as [|n l IH]; intros acc c H.
  - now left.
  - rewrite champion_cons in H. destruct (IH _ _ H) as [Hp|[Hin Hz]].
    + unfold pick in Hp. destruct (refcnt_of bs n =? 0) eqn:Hn; simpl in Hp.
      * destruct (match acc with
                  | Some c0 => timestamp_of bs n <? timestamp_of bs c0
                  | None => true
                  end); [|now left].
        injection Hp as <-. right. split; [left|]. now apply Z.eqb_eq.
      * now left.
    + right. split; [now right|assumption].
Qed.

Lemma champ_is_ok s cs j prb pbk acc :
  chains_of s cs -> champ_is s cs j prb pbk acc -> champ_ok s prb acc.
Proof.
  intros Hcs H. destruct acc as [c|].
  - destruct H as (k & la & lb & -> & _ & Hk & -> & _).
    destruct (Forall2_lookup_r _ _ _ _ _ Hcs Hk) as (bk & Hbk & Hchain).
    destruct (pred_next _ _ _ _ _ _ Hbk Hchain) as (pb & cb & Hp & Hn & Hc & _).
    simpl. split; [now exists pb|now exists cb].
  - destruct H as [-> ->]. exact I.
Qed.

Lemma bget_scan_one NBUF cs j prb pbk s :
  (forall k l, cs !! k = Some l -> (length l <= NBUF)%nat) ->
  (j < Z.to_nat NBUCKET)%nat ->
  length (hashtable s) = Z.to_nat NBUCKET ->
  chains_of s cs -> only_held s pbk -> champ_inv s cs j prb pbk ->
  exists prb' pbk' s',
    bget_scan NBUF 1 j prb pbk s = Ret (prb', pbk') s' /\
    bufs s' = bufs s /\ heads s' = heads s /\
    evict_lock s' = evict_lock s /\ ticks s' = ticks s /\
    length (hashtable s') = Z.to_nat NBUCKET /\
    only_held s' pbk' /\ champ_inv s' cs (S j) prb' pbk'.
Proof.
  intros Hlen Hj13 Hht Hcs Hlocks [acc Hinv].
  pose proof (champ_is_ok _ _ _ _ _ _ Hcs Hinv) as Hok.
  assert (Hj : (j < length (hashtable s))%nat) by lia.
  assert (Hpbk : bool_decide (pbk = Some j) = false).
  { apply bool_decide_eq_false. intros ->. destruct acc.
    - destruct Hinv as (k & la & lb & [= <-] & Hlt & _). lia.
    - now destruct Hinv. }
  assert (Hacq : held (BucketLock j) s = Some false).
  { rewrite (locks_are_held _ _ _ Hlocks Hj). now rewrite Hpbk. }
  set (s1 := emit (EAcquire (BucketLock j)) (set_held (BucketLock j) true s)).
  assert (Hb1 : bufs s1 = bufs s) by reflexivity.
  assert (Hh1 : heads s1 = heads s) by apply heads_set_held.
  assert (Hcs1 : chains_of s1 cs) by now apply (chains_of_ext s).
  assert (Hht1 : length (hashtable s1) = Z.to_nat NBUCKET).
  { unfold s1. simpl. now rewrite length_alter. }
  assert (Hlocks1 : locks_are s1
            (fun x => if decide (x = j) then true else bool_decide (pbk = Some x))).
  { apply locks_are_emit. eapply locks_are_set; [exact Hlocks| |].
    - intros x Hx. cbv beta. destruct (decide (x = j)); [contradiction|reflexivity].
    - cbv beta. destruct (decide (j = j)); [reflexivity|contradiction]. }
  destruct (lookup_lt_is_Some_2 (hashtable s1) j ltac:(lia)) as [bk Hbk].
  destruct (chains_of_lookup _ _ _ _ Hcs1 Hbk) as (l & Hl & Hchain).
  assert (Hok1 : champ_ok s1 prb acc).
  { unfold champ_ok in *. destruct prb as [p|], acc as [c|]; try exact Hok.
    unfold s1. rewrite deref_emit, deref_set_held. exact Hok. }
  destruct (bget_scan_chain_spec s1 j bk l Hbk Hchain l [] NBUF false prb acc
              eq_refl (Hlen _ _ Hl) Hok1)
    as (found' & prb' & Hrun & Hok' & Hres).
  rewrite last_ptr_nil in Hrun.
  simpl bget_scan.
  rewrite (bind_ret _ _ _ _ _ (acquire_ok _ _ Hacq)). fold s1.
  rewrite (bind_ret _ _ _ _ _ Hrun).
  destruct Hres as [(-> & -> & Hsame)|(-> & la & c & lb & Hla & -> & Hnew)];
    unfold negb; cbv iota.
  - (* nothing better in this bucket: release(&cur_bucket->lock) *)
    assert (Hrel : held (BucketLock j) s1 = Some true).
    { rewrite (locks_are_held _ _ _ Hlocks1) by lia.
      destruct (decide (j = j)); [reflexivity|contradiction]. }
    rewrite (bind_ret _ _ _ _ _ (release_ok _ _ Hrel)).
    set (s2 := emit (ERelease (BucketLock j)) (set_held (BucketLock j) false s1)).
    exists prb, pbk, s2. split; [reflexivity|].
    split; [reflexivity|].
    split; [unfold s2; now rewrite heads_emit, heads_set_held|].
    split; [reflexivity|]. split; [reflexivity|].
    split; [unfold s2; simpl; now rewrite length_alter|].
    split.
    + apply locks_are_emit. eapply locks_are_set; [exact Hlocks1| |].
      * intros x Hx. cbv beta. destruct (decide (x = j)); [contradiction|reflexivity].
      * exact Hpbk.
    + exists acc. destruct acc as [c|]; [|exact Hinv].
      destruct Hinv as (k & la & lb & ? & ? & ? & ? & ?).
      exists k, la, lb. split; [assumption|]. split; [lia|]. auto.
  - (* a better slot in this bucket: release the lock held before *)
    assert (Hfree : refcnt_of (bufs s) c = 0).
    { rewrite Hb1 in Hnew. destruct (champion_from _ _ _ _ Hnew) as [->|[_ Hz]];
        [|exact Hz].
      now destruct Hinv as (k & la' & lb' & _ & _ & _ & _ & Hz). }
    set (m := match pbk with Some pb => release (BucketLock pb) | None => ret tt end).
    assert (Hm : exists s2, m s1 = Ret tt s2 /\ bufs s2 = bufs s /\ heads s2 = heads s /\
                 evict_lock s2 = evict_lock s /\ ticks s2 = ticks s /\
                 length (hashtable s2) = Z.to_nat NBUCKET /\
                 only_held s2 (Some j)).
    { unfold m. destruct pbk as [pb|].
      - assert (Hpb : (pb < j)%nat).
        { destruct acc; [|now destruct Hinv].
          destruct Hinv as (k & ? & ? & [= <-] & ? & _). assumption. }
        assert (Hrel : held (BucketLock pb) s1 = Some true).
        { rewrite (locks_are_held _ _ _ Hlocks1) by lia.
          destruct (decide (pb = j)); [reflexivity|].
          now rewrite bool_decide_eq_true_2. }
        rewrite (release_ok _ _ Hrel). eexists. split; [reflexivity|].
        rewrite heads_emit, heads_set_held. simpl. rewrite length_alter.
        repeat split; try assumption.
        apply locks_are_emit. eapply locks_are_set; [exact Hlocks1| |].
        + intros x Hx. cbv beta. destruct (decide (x = j)) as [->|Hxj].
          * now rewrite bool_decide_eq_true_2.
          * rewrite !bool_decide_eq_false_2 by congruence. reflexivity.
        + apply bool_decide_eq_false_2. intros [= ->]. lia.
      - exists s1. repeat split; try assumption.
        intros x bx Hx. rewrite (Hlocks1 _ _ Hx).
        destruct (decide (x = j)) as [->|Hxj].
        + now rewrite bool_decide_eq_true_2.
        + rewrite !bool_decide_eq_false_2 by congruence. reflexivity. }
    destruct Hm as (s2 & Hm & Hb2 & Hh2 & He2 & Ht2 & Hht2 & Hlocks2).
    rewrite (bind_ret _ _ _ _ _ Hm).
    exists (Some (last_ptr j la)), (Some j), s2. split; [reflexivity|].
    repeat (split; [assumption|]).
    exists (Some c), j, la, lb. split; [reflexivity|]. split; [lia|].
    split; [congruence|]. split; [reflexivity|]. now rewrite Hb2.
Qed.

(** ** Recycling in sections *)

Lemma chains_of_touch s s' cs b f :
  chains_of s cs -> heads s' = heads s -> bufs s' = alter f b (bufs s) ->
  (forall x, next (f x) = next x) -> chains_of s' cs.
Proof.
  intros Hcs Hh Hb Hn.
  apply (chains_of_ext (poke (PBuf b) f s)); [|exact Hb|exact Hh].
  now apply chains_of_poke_same_next.
Qed.

(** Taking the slot [c] off its chain leaves every other bound slot at
    home. *)
Lemma home_unlink bs cs k la c lb :
  home_but None bs cs -> cs !! k = Some (la ++ c :: lb) ->
  home_but (Some c) bs (<[k := la ++ lb]> cs).
Proof.
  intros Hhome Hk i b Hb Hbound Hic.
  destruct (Hhome i b Hb Hbound ltac:(discriminate)) as (l & Hl & Hf).
  destruct (decide (Z.to_nat (hash (dev b) (blockno b)) = k)) as [Hh|Hh].
  - rewrite Hh in Hl |- *. rewrite Hk in Hl. injection Hl as <-.
    exists (la ++ lb). split.
    + apply list_lookup_insert_eq. now apply lookup_lt_Some in Hk.
    + apply (find_id_remove _ _ _ _ c); [assumption|congruence].
  - exists l. split; [|assumption]. now rewrite list_lookup_insert_ne by congruence.
Qed.

(** Once [c] is off its chain, no slot left on a chain carries its
    identity, unless that identity is (0,0). *)
Lemma absent_unlinked bs cs k la c lb cb :
  home_but None bs cs -> NoDup (concat cs) ->
  cs !! k = Some (la ++ c :: lb) -> bs !! c = Some cb ->
  dev cb <> 0 \/ blockno cb <> 0 ->
  absent bs (<[k := la ++ lb]> cs) (dev cb) (blockno cb).
Proof.
  intros Hhome Hnd Hk Hc Hid lh Hlh.
  pose proof Hnd as Hnd'. apply NoDup_concat in Hnd' as [Hnd1 Huniq].
  destruct (Hhome c cb Hc ltac:(now right) ltac:(discriminate)) as (l0 & Hl0 & Hf0).
  assert (Hhc : Z.to_nat (hash (dev cb) (blockno cb)) = k).
  { apply (Huniq _ _ l0 (la ++ c :: lb) c Hl0 Hk).
    - now apply find_id_Some in Hf0 as [Hin _].
    - apply elem_of_app. right. left. }
  rewrite Hhc in Hl0, Hlh. rewrite Hk in Hl0. injection Hl0 as <-.
  rewrite list_lookup_insert_eq in Hlh by (now apply lookup_lt_Some in Hk).
  injection Hlh as <-.
  destruct (find_id bs (dev cb) (blockno cb) (la ++ lb)) as [x|] eqn:Hx; [|reflexivity].
  exfalso. destruct (find_id_Some _ _ _ _ _ Hx) as (Hin & xb & Hxb & Hdx & Hbx).
  assert (Hxc : x <> c).
  { intros ->. pose proof (Hnd1 _ _ Hk) as Hndk.
    apply NoDup_app in Hndk as (_ & Hdis & Hndc). apply NoDup_cons in Hndc as [Hclb _].
    apply elem_of_app in Hin as [Hin|Hin]; [|contradiction]. apply (Hdis c Hin). left. }
  destruct (Hhome x xb Hxb) as (l & Hl & Hf); [right; now rewrite Hdx, Hbx|discriminate|].
  rewrite Hdx, Hbx, Hhc, Hk in Hl. injection Hl as <-.
  rewrite Hdx, Hbx in Hf. congruence.
Qed.

(** Putting the slot [c], which is on no chain, at the head of the chain
    its new identity hashes to, where no slot carries that identity. *)
Lemma home_splice bs cs c d bn lh cb :
  home_but (Some c) bs cs -> c ∉ concat cs ->
  cs !! Z.to_nat (hash d bn) = Some lh ->
  find_id bs d bn lh = None -> bs !! c = Some cb ->
  home_but None (alter (rebind d bn) c bs) (<[Z.to_nat (hash d bn) := c :: lh]> cs).
Proof.
  intros Hhome Hc Hlh Hmiss Hcb i y Hy Hby _.
  set (h := Z.to_nat (hash d bn)) in *. set (bs' := alter (rebind d bn) c bs) in *.
  assert (Hhlen : (h < length cs)%nat) by now apply lookup_lt_Some in Hlh.
  assert (Hkeep : forall d' bn' l, c ∉ l -> find_id bs' d' bn' l = find_id bs d' bn' l).
  { intros d' bn' l Hcl. apply find_id_ext. intros j Hj. unfold has_id, bs'.
    rewrite list_lookup_alter_ne; [reflexivity|]. intros ->. contradiction. }
  assert (Hon : forall k l, cs !! k = Some l -> c ∉ l).
  { intros k l Hk Hin. apply Hc, elem_of_concat. now exists k, l. }
  destruct (decide (i = c)) as [->|Hic].
  - unfold bs' in Hy. rewrite list_lookup_alter_eq, Hcb in Hy. injection Hy as <-.
    simpl. fold h. exists (c :: lh). split; [now apply list_lookup_insert_eq|].
    simpl. unfold has_id. fold bs'. unfold bs'. rewrite list_lookup_alter_eq, Hcb. simpl.
    now rewrite !Z.eqb_refl.
  - unfold bs' in Hy. rewrite list_lookup_alter_ne in Hy by congruence.
    destruct (Hhome i y Hy Hby ltac:(congruence)) as (l & Hl & Hf).
    destruct (decide (Z.to_nat (hash (dev y) (blockno y)) = h)) as [Hh|Hh].
    + rewrite Hh in Hl |- *. rewrite Hlh in Hl. injection Hl as <-.
      exists (c :: lh). split; [now apply list_lookup_insert_eq|].
      simpl. replace (has_id bs' (dev y) (blockno y) c) with false.
      * rewrite Hkeep by now apply (Hon h). exact Hf.
      * symmetry. unfold has_id, bs'. rewrite list_lookup_alter_eq, Hcb. simpl.
        destruct (d =? dev y) eqn:E1; [|reflexivity].
        destruct (bn =? blockno y) eqn:E2; [|reflexivity].
        apply Z.eqb_eq in E1, E2. subst d bn. congruence.
    + exists l. split; [now rewrite list_lookup_insert_ne by congruence|].
      rewrite Hkeep by now apply (Hon _ _ Hl). exact Hf.
Qed.

Lemma bget_champion_run s cs k la c lb :
  chains_of s cs -> cs !! k = Some (la ++ c :: lb) ->
  bget_champion (last_ptr k la) s = Ret c s.
Proof.
  intros Hcs Hk. destruct (Forall2_lookup_r _ _ _ _ _ Hcs Hk) as (bk & Hbk & Hchain).
  destruct (pred_next _ _ _ _ _ _ Hbk Hchain) as (pb & cb & Hp & Hnext & _).
  unfold bget_champion. rewrite (bind_ret _ _ _ _ _ (load_ok _ _ _ Hp)), Hnext.
  reflexivity.
Qed.

(** Lines 165 to 170 on a slot of the pool, with the lock of the target
    bucket held. *)
Lemma bget_bind_run d bn h c s :
  is_Some (bufs s !! c) -> held (BucketLock h) s = Some true ->
  bget_bind d bn h c s =
    Ret tt (mkstate (evict_lock s) (alter (rebind d bn) c (bufs s))
              (alter (set_bk_lock false) h (hashtable s)) (ticks s)
              (trace s ++ [EStore (PBuf c) Fdev; EStore (PBuf c) Fblockno;
                           EStore (PBuf c) Frefcnt; EStore (PBuf c) Fvalid;
                           ERelease (BucketLock h)])).
Proof.
  intros Hc Hheld. unfold bget_bind.
  set (s1 := emit (EStore (PBuf c) Fdev) (poke (PBuf c) (set_dev d) s)).
  set (s2 := emit (EStore (PBuf c) Fblockno) (poke (PBuf c) (set_blockno bn) s1)).
  set (s3 := emit (EStore (PBuf c) Frefcnt) (poke (PBuf c) (set_refcnt 1) s2)).
  set (s4 := emit (EStore (PBuf c) Fvalid) (poke (PBuf c) (set_valid 0) s3)).
  assert (H1 : store (PBuf c) Fdev (set_dev d) s = Ret tt s1).
  { apply store_ok. exact Hc. }
  assert (H2 : store (PBuf c) Fblockno (set_blockno bn) s1 = Ret tt s2).
  { apply store_ok. simpl. rewrite list_lookup_alter_eq. now apply fmap_is_Some. }
  assert (H3 : store (PBuf c) Frefcnt (set_refcnt 1) s2 = Ret tt s3).
  { apply store_ok. simpl. rewrite !list_lookup_alter_eq. now rewrite !fmap_is_Some. }
  assert (H4 : store (PBuf c) Fvalid (set_valid 0) s3 = Ret tt s4).
  { apply store_ok. simpl. rewrite !list_lookup_alter_eq. now rewrite !fmap_is_Some. }
  rewrite (bind_ret _ _ _ _ _ H1), (bind_ret _ _ _ _ _ H2), (bind_ret _ _ _ _ _ H3),
    (bind_ret _ _ _ _ _ H4).
  rewrite release_ok by exact Hheld.
  f_equal. apply state_eq; simpl; try reflexivity.
  - rewrite !list_alter_alter_eq. reflexivity.
  - now rewrite <- !app_assoc.
Qed.

Lemma only_held_release s k :
  only_held s (Some k) ->
  locks_are (with_hashtable (alter (set_bk_lock false) k (hashtable s)) s)
            (fun x => bool_decide (@None nat = Some x)).
Proof.
  intros Hl. change (locks_are (set_held (BucketLock k) false s)
                       (fun x => bool_decide (@None nat = Some x))).
  eapply locks_are_set; [exact Hl| |reflexivity].
  intros j Hj. cbv beta. rewrite !bool_decide_eq_false_2 by congruence. reflexivity.
Qed.

Lemma heads_alter_lock v k (ht : list bucket) :
  head <$> alter (set_bk_lock v) k ht = head <$> ht.
Proof.
  apply list_eq. intros j. rewrite !list_lookup_fmap.
  destruct (decide (k = j)) as [->|Hne].
  - rewrite list_lookup_alter_eq. now destruct (ht !! j).
  - now rewrite list_lookup_alter_ne.
Qed.

(** The champion is recycled where it is: lines 152 and 165 to 170 when
    [prev_bucket == bucket]. *)
Lemma bget_in_place_spec NBUF d bn s cs la c lb :
  cache_inv NBUF s cs None -> only_held s (Some (Z.to_nat (hash d bn))) ->
  cs !! Z.to_nat (hash d bn) = Some (la ++ c :: lb) -> absent (bufs s) cs d bn ->
  exists s',
    (let* b := bget_champion (last_ptr (Z.to_nat (hash d bn)) la) in
     bget_bind d bn (Z.to_nat (hash d bn)) b >> ret b) s = Ret c s' /\
    cache_inv NBUF s' cs None /\ only_held s' None /\
    evict_lock s' = evict_lock s /\ ticks s' = ticks s /\
    bufs s' = alter (rebind d bn) c (bufs s) /\ heads s' = heads s.
Proof.
  set (h := Z.to_nat (hash d bn)). intros Hinv Hlocks Hk Habs.
  pose proof Hinv as (Hnb & Hnh & Hcs & Hp & Hhome).
  destruct (cache_inv_on_chain NBUF s cs None h _ c Hinv Hk) as [[cb Hc] _].
  { apply elem_of_app. right. left. }
  assert (Hheld : held (BucketLock h) s = Some true).
  { rewrite (locks_are_held _ _ _ Hlocks) by (rewrite Hnh; apply hash_lt).
    now rewrite bool_decide_eq_true_2. }
  rewrite (bind_ret _ _ _ _ _ (bget_champion_run s cs h la c lb Hcs Hk)).
  rewrite (bind_ret _ _ _ _ _ (bget_bind_run d bn h c s ltac:(now exists cb) Hheld)).
  eexists. split; [reflexivity|].
  split; [|split; [now apply only_held_release|simpl; split; [reflexivity|split;
    [reflexivity|split; [reflexivity|apply heads_alter_lock]]]]].
  split; [simpl; now rewrite length_alter|]. split; [simpl; now rewrite length_alter|].
  split.
  { eapply (chains_of_touch s); [exact Hcs|apply heads_alter_lock|reflexivity|reflexivity]. }
  split; [exact Hp|].
  simpl bufs. apply home_but_None.
  pose proof (home_rebind (bufs s) cs d bn h la c lb (la ++ c :: lb) cb) as Hr.
  cbv zeta in Hr. fold h in Hr. destruct (decide (h = h)); [|contradiction].
  apply Hr; try assumption.
  - now apply home_but_None.
  - now apply (cache_inv_NoDup NBUF s cs None).
  - now apply Habs.
Qed.

(** The champion is taken off the chain of bucket [k]: lines 152 to 157
    when [prev_bucket != bucket]. *)
Lemma bget_unlink_spec NBUF s cs k la c lb :
  cache_inv NBUF s cs None -> only_held s (Some k) ->
  cs !! k = Some (la ++ c :: lb) ->
  exists s',
    bget_unlink (last_ptr k la) (Some k) s = Ret c s' /\
    cache_inv NBUF s' (<[k := la ++ lb]> cs) (Some c) /\
    only_held s' None /\ evict_lock s' = evict_lock s /\ ticks s' = ticks s /\
    data s' = data s /\
    (forall cb, bufs s !! c = Some cb -> dev cb <> 0 \/ blockno cb <> 0 ->
       absent (bufs s') (<[k := la ++ lb]> cs) (dev cb) (blockno cb)).
Proof.
  intros Hinv Hlocks Hk. pose proof Hinv as (Hnb & Hnh & Hcs & Hp & Hhome).
  pose proof (proj1 (cache_inv_NoDup NBUF s cs None Hinv)) as Hnd.
  destruct (Forall2_lookup_r _ _ _ _ _ Hcs Hk) as (bk & Hbk & Hchain).
  destruct (pred_next _ _ _ _ _ _ Hbk Hchain) as (pb & cb & Hpb & Hnext & Hc & _).
  assert (Hkl : (k < length (hashtable s))%nat) by now apply lookup_lt_Some in Hbk.
  set (p := last_ptr k la) in *.
  set (s1 := emit (EStore p Fnext) (poke p (set_next (next cb)) s)).
  set (s2 := emit (ERelease (BucketLock k)) (set_held (BucketLock k) false s1)).
  assert (H1 : store p Fnext (set_next (next cb)) s = Ret tt s1).
  { apply store_ok. now exists pb. }
  assert (Hl1 : only_held s1 (Some k)).
  { apply locks_are_emit, locks_are_poke. exact Hlocks. }
  assert (H2 : release_bucket (Some k) s1 = Ret tt s2).
  { apply release_ok. rewrite (locks_are_held _ _ _ Hl1).
    - now rewrite bool_decide_eq_true_2.
    - unfold s1. now rewrite hashtable_emit, length_hashtable_poke. }
  assert (Hd2 : data s2 = data s).
  { unfold s2, s1. now rewrite data_emit, data_set_held, data_emit, data_poke_next. }
  exists s2. split.
  { unfold bget_unlink.
    rewrite (bind_ret _ _ _ _ _ (bget_champion_run s cs k la c lb Hcs Hk)).
    rewrite (bind_ret _ _ _ _ _ (load_ok (PBuf c) s cb Hc)).
    rewrite (bind_ret _ _ _ _ _ H1), (bind_ret _ _ _ _ _ H2). reflexivity. }
  split.
  { split.
    { unfold s2, s1. now rewrite bufs_emit, bufs_set_held, bufs_emit, length_bufs_poke. }
    split.
    { unfold s2, s1. now rewrite hashtable_emit, length_hashtable_set_held,
        hashtable_emit, length_hashtable_poke. }
    split.
    { unfold s2, s1. apply chains_of_emit, chains_of_set_held, chains_of_emit.
      now apply chains_of_unlink with c. }
    split.
    { simpl. rewrite (concat_unlink cs k la c lb Hk). exact Hp. }
    apply home_but_strip. change (strip <$> bufs s2) with (data s2). rewrite Hd2.
    apply home_but_strip. now apply home_unlink. }
  split.
  { apply locks_are_emit. eapply locks_are_set; [exact Hl1| |reflexivity].
    intros j Hj. cbv beta. rewrite !bool_decide_eq_false_2 by congruence. reflexivity. }
  split; [unfold s2, s1; simpl; now rewrite evict_lock_poke|].
  split; [unfold s2, s1; now rewrite ticks_emit, ticks_set_held, ticks_emit, ticks_poke|].
  split; [exact Hd2|].
  intros cb' Hcb' Hid lh Hlh. rewrite Hc in Hcb'. injection Hcb' as <-.
  rewrite <- find_id_data, Hd2, find_id_data.
  now apply (absent_unlinked (bufs s) cs k la c lb cb).
Qed.

(** The slot [c], off every chain, is put at the head of the chain its
    new identity hashes to and gets that identity: lines 159 to 170. *)
Lemma bget_splice_spec NBUF d bn s cs c lh :
  cache_inv NBUF s cs (Some c) -> only_held s None ->
  cs !! Z.to_nat (hash d bn) = Some lh -> absent (bufs s) cs d bn ->
  exists s',
    (bget_splice (Z.to_nat (hash d bn)) c >>
     bget_bind d bn (Z.to_nat (hash d bn)) c) s = Ret tt s' /\
    cache_inv NBUF s' (<[Z.to_nat (hash d bn) := c :: lh]> cs) None /\
    only_held s' None /\ evict_lock s' = evict_lock s /\ ticks s' = ticks s /\
    data s' = alter (rebind d bn) c (data s).
Proof.
  set (h := Z.to_nat (hash d bn)). intros Hinv Hlocks Hlh Habs.
  pose proof Hinv as (Hnb & Hnh & Hcs & Hp & Hhome).
  destruct (cache_inv_NoDup NBUF s cs _ Hinv) as [Hnd Hlimbo].
  pose proof (Hlimbo c eq_refl) as Hcout.
  destruct (cache_inv_limbo NBUF s cs c Hinv) as [cb Hc].
  assert (Hh : (h < length (hashtable s))%nat) by (rewrite Hnh; apply hash_lt).
  destruct (lookup_lt_is_Some_2 (hashtable s) h Hh) as [bh Hbh].
  assert (Hfree : held (BucketLock h) s = Some false).
  { now rewrite (locks_are_held _ _ _ Hlocks Hh). }
  set (s3 := emit (EAcquire (BucketLock h)) (set_held (BucketLock h) true s)).
  set (s4 := emit (EStore (PBuf c) Fnext) (poke (PBuf c) (set_next (next (head bh))) s3)).
  set (s5 := emit (EStore (PHead h) Fnext) (poke (PHead h) (set_next (Some c)) s4)).
  assert (Hl3 : only_held s3 (Some h)).
  { apply locks_are_emit. eapply locks_are_set; [exact Hlocks| |].
    - intros j Hj. cbv beta. rewrite !bool_decide_eq_false_2 by congruence. reflexivity.
    - cbv beta. now rewrite bool_decide_eq_true_2. }
  assert (Hhd3 : deref (PHead h) s3 = Some (head bh)).
  { unfold s3. rewrite deref_emit, deref_set_held. simpl. now rewrite Hbh. }
  assert (Hc3 : bufs s3 !! c = Some cb) by exact Hc.
  assert (H4 : store (PBuf c) Fnext (set_next (next (head bh))) s3 = Ret tt s4).
  { apply store_ok. now exists cb. }
  assert (H5 : store (PHead h) Fnext (set_next (Some c)) s4 = Ret tt s5).
  { apply store_ok. unfold s4. rewrite deref_emit, deref_poke_ne by discriminate.
    now exists (head bh). }
  assert (Hcs3 : chains_of s3 cs).
  { unfold s3. now apply chains_of_emit, chains_of_set_held. }
  assert (Hcs5 : chains_of s5 (<[h := c :: lh]> cs)).
  { unfold s5. apply chains_of_emit.
    apply chains_of_push with (set_next (next (head bh)) cb) (head bh).
    - unfold s4. apply chains_of_emit. now apply chains_of_poke_detached.
    - exact Hlh.
    - unfold s4. now rewrite deref_emit, deref_poke_ne by discriminate.
    - unfold s4. now rewrite bufs_emit, bufs_poke_buf, list_lookup_alter_eq, Hc3.
    - reflexivity. }
  assert (Hc5 : bufs s5 !! c = Some (set_next (next (head bh)) cb)).
  { unfold s5, s4.
    now rewrite bufs_emit, bufs_poke_head, bufs_emit, bufs_poke_buf, list_lookup_alter_eq, Hc3. }
  assert (Hl5 : only_held s5 (Some h)).
  { unfold s5, s4. apply locks_are_emit, locks_are_poke, locks_are_emit, locks_are_poke.
    exact Hl3. }
  assert (Hlen5 : length (hashtable s5) = length (hashtable s)).
  { unfold s5, s4, s3. now rewrite hashtable_emit, length_hashtable_poke, hashtable_emit,
      length_hashtable_poke, hashtable_emit, length_hashtable_set_held. }
  assert (Hheld5 : held (BucketLock h) s5 = Some true).
  { rewrite (locks_are_held _ _ _ Hl5) by lia. now rewrite bool_decide_eq_true_2. }
  assert (Hd5 : data s5 = data s).
  { unfold s5. rewrite data_emit, data_poke_next. unfold s4.
    rewrite data_emit, data_poke_next. unfold s3. now rewrite data_emit, data_set_held. }
  eexists. split.
  { unfold bget_splice. rewrite bind_bind.
    rewrite (bind_ret _ _ _ _ _ (acquire_ok _ _ Hfree)). fold s3.
    rewrite bind_bind. rewrite (bind_ret _ _ _ _ _ (load_ok _ _ _ Hhd3)).
    rewrite bind_bind. rewrite (bind_ret _ _ _ _ _ H4).
    rewrite (bind_ret _ _ _ _ _ H5).
    apply (bget_bind_run d bn h c s5); [rewrite Hc5; now eexists|exact Hheld5]. }
  split.
  { split.
    { simpl bufs. rewrite !length_alter. exact Hnb. }
    split; [etransitivity; [apply length_alter|]; now rewrite Hlen5|].
    split.
    { eapply (chains_of_touch s5); [exact Hcs5|apply heads_alter_lock|reflexivity|reflexivity]. }
    split.
    { simpl limbo_list. rewrite app_nil_l, (concat_insert_cons _ _ _ _ Hlh). exact Hp. }
    simpl bufs.
    apply (home_splice (bufs s5) cs c d bn lh (set_next (next (head bh)) cb)).
    - apply home_but_strip. change (strip <$> bufs s5) with (data s5). rewrite Hd5.
      now apply home_but_strip.
    - exact Hcout.
    - exact Hlh.
    - rewrite <- find_id_data, Hd5, find_id_data. now apply Habs.
    - exact Hc5. }
  split; [now apply only_held_release|].
  split; [unfold s5, s4, s3; simpl; reflexivity|].
  split; [unfold s5, s4, s3; simpl; reflexivity|].
  transitivity (alter (rebind d bn) c (data s5)); [|now rewrite Hd5].
  unfold data. apply (list_fmap_alter_comm strip (rebind d bn) (rebind d bn)).
  reflexivity.
Qed.

(** ** Processes on a shared cache *)

(** Where the process that holds the eviction lock is in [bget], between
    two of its sections.  [Checking]: it has the eviction lock and is about
    to look the block up again (line 111); [Rehit b]: the second lookup
    found slot [b] (line 116); [Scanning j prb pbk]: it is about to scan
    bucket [j], with [prev_replace_buf = prb] and [prev_bucket = pbk] (line
    129; line 149 when [j = NBUCKET]); [Moving b]: it has taken the
    champion [b] off its chain and released that bucket (line 159);
    [Rebound b]: the slot [b] carries the new identity, on the chain it
    hashes to (line 171). *)
Inductive stage :=
| Checking (d bn : Z)
| Rehit (b : nat)
| Scanning (d bn : Z) (j : nat) (prb : option ptr) (pbk : option nat)
| Moving (d bn : Z) (b : nat)
| Rebound (b : nat).

(** The memory of the cache, the process inside the eviction path of
    [bget] if there is one, and the processes whose first lookup has
    missed and that have not taken the eviction lock yet (line 105), each
    with the block it is after. *)
Record sys := mksys {
  mem : state;
  evictor : option (nat * stage);
  missed : list (nat * Z * Z)
}.

(** One critical section of one process.  A process is between two
    sections whenever it is about to take a lock; a section that finds its
    lock held does not start.  [bread] is the sections of [bget], the
    taking of the blocking lock, and the filling of the slot under that
    lock; [brelse] is its two sections; [bwrite], [bpin] and [bunpin] are
    one section each.  Callers of [bpin], [bunpin] and of the second
    section of [brelse] hold a reference to the slot they pass, so the
    bucket number these compute from the slot's identity just before they
    take the bucket lock is computed in the same section.  Any process may
    be the caller, of any block and any slot.  A process that panics stops
    for good: it has no further section. *)
Inductive istep (NBUF : nat) : sys -> sys -> Prop :=
| i_find_hit (me : nat) d bn b y s' :
    is_uint d -> is_uint bn ->
    bget_find NBUF d bn (mem y) = Ret (Some b) s' ->
    istep NBUF y (mksys s' (evictor y) (missed y))
| i_find_miss (me : nat) d bn y s' :
    is_uint d -> is_uint bn ->
    bget_find NBUF d bn (mem y) = Ret None s' ->
    istep NBUF y (mksys s' (evictor y) ((me, d, bn) :: missed y))
| i_evict_lock me d bn m1 m2 y s' :
    missed y = m1 ++ (me, d, bn) :: m2 ->
    acquire EvictLock (mem y) = Ret tt s' ->
    istep NBUF y (mksys s' (Some (me, Checking d bn)) (m1 ++ m2))
| i_recheck_hit me d bn b y s' :
    evictor y = Some (me, Checking d bn) ->
    bget_find NBUF d bn (mem y) = Ret (Some b) s' ->
    istep NBUF y (mksys s' (Some (me, Rehit b)) (missed y))
| i_recheck_miss me d bn y s' :
    evictor y = Some (me, Checking d bn) ->
    bget_find NBUF d bn (mem y) = Ret None s' ->
    istep NBUF y (mksys s' (Some (me, Scanning d bn 0 None None)) (missed y))
| i_scan me d bn j prb pbk prb' pbk' y s' :
    evictor y = Some (me, Scanning d bn j prb pbk) ->
    (j < Z.to_nat NBUCKET)%nat ->
    bget_scan NBUF 1 j prb pbk (mem y) = Ret (prb', pbk') s' ->
    istep NBUF y (mksys s' (Some (me, Scanning d bn (S j) prb' pbk')) (missed y))
| i_in_place me d bn p b y s' :
    evictor y = Some (me, Scanning d bn (Z.to_nat NBUCKET) (Some p)
                            (Some (Z.to_nat (hash d bn)))) ->
    (let* b := bget_champion p in
     bget_bind d bn (Z.to_nat (hash d bn)) b >> ret b) (mem y) = Ret b s' ->
    istep NBUF y (mksys s' (Some (me, Rebound b)) (missed y))
| i_unlink me d bn p pbk b y s' :
    evictor y = Some (me, Scanning d bn (Z.to_nat NBUCKET) (Some p) pbk) ->
    pbk <> Some (Z.to_nat (hash d bn)) ->
    bget_unlink p pbk (mem y) = Ret b s' ->
    istep NBUF y (mksys s' (Some (me, Moving d bn b)) (missed y))
| i_splice me d bn b y s' :
    evictor y = Some (me, Moving d bn b) ->
    (bget_splice (Z.to_nat (hash d bn)) b >>
     bget_bind d bn (Z.to_nat (hash d bn)) b) (mem y) = Ret tt s' ->
    istep NBUF y (mksys s' (Some (me, Rebound b)) (missed y))
| i_evict_unlock me st b y s' :
    evictor y = Some (me, st) -> st = Rehit b \/ st = Rebound b ->
    release EvictLock (mem y) = Ret tt s' ->
    istep NBUF y (mksys s' None (missed y))
| i_sleep me b y s' :
    acquiresleep me b (mem y) = Ret tt s' ->
    istep NBUF y (mksys s' (evictor y) (missed y))
| i_fill me b y s' :
    holdingsleep me b (mem y) = Ret true (mem y) ->
    bread_fill b (mem y) = Ret b s' ->
    istep NBUF y (mksys s' (evictor y) (missed y))
| i_bwrite me b y s' :
    bwrite me b (mem y) = Ret tt s' ->
    istep NBUF y (mksys s' (evictor y) (missed y))
| i_brelse_unlock me b y s' :
    brelse_unlock me b (mem y) = Ret tt s' ->
    istep NBUF y (mksys s' (evictor y) (missed y))
| i_brelse_unref b y s' :
    0 < refcnt_of (bufs (mem y)) b ->
    brelse_unref b (mem y) = Ret tt s' ->
    istep NBUF y (mksys s' (evictor y) (missed y))
| i_bpin b y s' :
    0 < refcnt_of (bufs (mem y)) b ->
    bpin b (mem y) = Ret tt s' ->
    istep NBUF y (mksys s' (evictor y) (missed y))
| i_bunpin b y s' :
    0 < refcnt_of (bufs (mem y)) b ->
    bunpin b (mem y) = Ret tt s' ->
    istep NBUF y (mksys s' (evictor y) (missed y))
| i_tick y :
    istep NBUF y (mksys (with_ticks (wrap (ticks (mem y) + 1)) (mem y))
                    (evictor y) (missed y)).

(** The observation points: every state of every interleaving of the
    critical sections of the processes, after [binit]. *)
Definition ireachable (NBUF : nat) (y : sys) : Prop :=
  exists s0, binit NBUF (zero_state NBUF) = Ret tt s0 /\
    rtc (istep NBUF) (mksys s0 None []) y.

(** The slot an eviction has off every chain: the slot it is moving. *)
Definition relocating (y : sys) : option nat :=
  match evictor y with
  | Some (_, Moving _ _ c) => Some c
  | _ => None
  end.

(** The bucket lock the process in the eviction path holds between two
    of its sections. *)
Definition stage_held (e : option (nat * stage)) : option nat :=
  match e with
  | Some (_, Scanning _ _ _ _ pbk) => pbk
  | _ => None
  end.

Definition stage_evict (e : option (nat * stage)) : bool :=
  match e with
  | Some _ => true
  | None => false
  end.

Definition stage_inv (s : state) (cs : list (list nat)) (e : option (nat * stage)) : Prop :=
  match e with
  | Some (_, Scanning d bn j prb pbk) =>
      (j <= Z.to_nat NBUCKET)%nat /\ absent (bufs s) cs d bn /\ champ_inv s cs j prb pbk
  | Some (_, Moving d bn c) =>
      absent (bufs s) cs d bn /\ refcnt_of (bufs s) c = 0 /\
      (forall cb, bufs s !! c = Some cb -> dev cb <> 0 \/ blockno cb <> 0 ->
         absent (bufs s) cs (dev cb) (blockno cb))
  | _ => True
  end.

(** What holds at every observation point. *)
Definition IInv_at (NBUF : nat) (y : sys) (cs : list (list nat)) : Prop :=
  cache_inv NBUF (mem y) cs (relocating y) /\
  evict_lock (mem y) = stage_evict (evictor y) /\
  only_held (mem y) (stage_held (evictor y)) /\
  stage_inv (mem y) cs (evictor y).

Definition IInv (NBUF : nat) (y : sys) : Prop := exists cs, IInv_at NBUF y cs.

(** The links and the identities: what relocation changes. *)
Definition layout (s : state) : list (option nat) * list (option nat * (Z * Z)) :=
  (next <$> heads s, (fun b => (next b, (dev b, blockno b))) <$> bufs s).

Lemma layout_touch s s' b f :
  hashtable s' = hashtable s -> bufs s' = alter f b (bufs s) ->
  (forall x, next (f x) = next x) ->
  (forall x, dev (f x) = dev x) -> (forall x, blockno (f x) = blockno x) ->
  layout s' = layout s.
Proof.
  intros Hht Hb Hn Hd Hbn. unfold layout, heads. rewrite Hht, Hb. f_equal.
  apply fmap_alter_same. intros x. now rewrite Hn, Hd, Hbn.
Qed.

Lemma layout_same s s' :
  heads s' = heads s -> bufs s' = bufs s -> layout s' = layout s.
Proof. intros Hh Hb. unfold layout. now rewrite Hh, Hb. Qed.

Lemma only_held_ext s s' o :
  hashtable s' = hashtable s -> only_held s o -> only_held s' o.
Proof. intros Hht H. unfold only_held, locks_are in *. now rewrite Hht. Qed.

Lemma bound_keep f x :
  refcnt (f x) = refcnt x -> dev (f x) = dev x -> blockno (f x) = blockno x ->
  bound (f x) -> bound x.
Proof. unfold bound. intros -> -> ->. auto. Qed.

(** A store by some process to one slot that keeps its link and its
    identity, with the locks as they were.  A store that changes the
    reference count is to a slot on a chain whose lock is free. *)
Lemma IInv_env NBUF y cs s' b f m' :
  IInv_at NBUF y cs ->
  evict_lock s' = evict_lock (mem y) -> hashtable s' = hashtable (mem y) ->
  bufs s' = alter f b (bufs (mem y)) ->
  (forall x, next (f x) = next x) ->
  (forall x, dev (f x) = dev x) -> (forall x, blockno (f x) = blockno x) ->
  ((forall x, refcnt (f x) = refcnt x) \/
   (exists k l, cs !! k = Some l /\ b ∈ l /\
      held (BucketLock k) (mem y) = Some false /\
      forall x, bufs (mem y) !! b = Some x ->
        bound x \/
        exists l', cs !! Z.to_nat (hash (dev x) (blockno x)) = Some l' /\
          find_id (bufs (mem y)) (dev x) (blockno x) l' = Some b)) ->
  IInv_at NBUF (mksys s' (evictor y) m') cs.
Proof.
  intros (Hinv & He & Hlocks & Hst) He' Hht Hb Hn Hd Hbn Hcase.
  assert (Href : forall c,
            (relocating y = Some c \/
             exists k la lb, stage_held (evictor y) = Some k /\
               cs !! k = Some (la ++ c :: lb)) ->
            refcnt_of (bufs s') c = refcnt_of (bufs (mem y)) c).
  { intros c Hc. rewrite Hb. destruct Hcase as [Hkeep|(k & l & Hk & Hin & Hfree & _)].
    - now apply refcnt_of_alter_keep.
    - apply refcnt_of_alter_ne. intros ->.
      destruct Hc as [Hc|(k' & la & lb & Hheld & Hk')].
      + destruct (cache_inv_on_chain NBUF _ cs _ k l c Hinv Hk Hin) as [_ Hne].
        congruence.
      + assert (k = k').
        { destruct (cache_inv_NoDup NBUF _ cs _ Hinv) as [Hnd _].
          apply NoDup_concat in Hnd as [_ Huniq].
          apply (Huniq k k' l _ c Hk Hk' Hin). apply elem_of_app. right. left. }
        subst k'. rewrite Hheld in Hlocks.
        assert (Hlt : (k < length (hashtable (mem y)))%nat).
        { destruct Hinv as (_ & Hnh & Hcs & _). rewrite (Forall2_length _ _ _ Hcs).
          now apply lookup_lt_Some in Hk. }
        rewrite (locks_are_held _ _ _ Hlocks Hlt), bool_decide_eq_true_2 in Hfree
          by reflexivity.
        discriminate. }
  split; [|split; [|split]].
  - apply (cache_inv_touch NBUF (mem y) s' cs _ b f Hinv); try assumption.
    intros x Hx Hbf Hl. destruct Hcase as [Hkeep|(k & l & Hk & Hin & Hfree & Hhome)].
    + left. apply (bound_keep f); auto.
    + now apply Hhome.
  - exact (eq_trans He' He).
  - now apply (only_held_ext (mem y)).
  - unfold stage_inv in *. simpl evictor. simpl mem.
    destruct (evictor y) as [[me [d bn|b0|d bn j prb pbk|d bn c|b0]]|] eqn:Hev;
      try exact I.
    + destruct Hst as (Hj & Habs & acc & Hacc). split; [assumption|].
      split; [rewrite Hb; now apply absent_touch|].
      exists acc. unfold champ_is in *. destruct acc as [c|]; [|exact Hacc].
      destruct Hacc as (k & la & lb & Hpbk & Hkj & Hk & Hprb & Hz).
      exists k, la, lb. repeat (split; [assumption|]).
      rewrite Href; [assumption|]. right. exists k, la, lb. simpl. auto.
    + destruct Hst as (Habs & Hz & Hid).
      split; [rewrite Hb; now apply absent_touch|].
      split; [rewrite Href; [assumption|]; left; unfold relocating; now rewrite Hev|].
      intros cb' Hcb' Hnz. rewrite Hb in Hcb' |- *.
      assert (Hcb : exists cb, bufs (mem y) !! c = Some cb /\
                      dev cb' = dev cb /\ blockno cb' = blockno cb).
      { destruct (decide (b = c)) as [->|Hne].
        - rewrite list_lookup_alter_eq in Hcb'.
          destruct (bufs (mem y) !! c) as [cb|]; [|discriminate]. injection Hcb' as <-.
          exists cb. auto.
        - rewrite list_lookup_alter_ne in Hcb' by assumption. now exists cb'. }
      destruct Hcb as (cb & Hcb & Hd' & Hb'). rewrite Hd', Hb' in Hnz |- *.
      apply absent_touch; auto.
Qed.

(** A section that writes no slot and leaves the locks as they were. *)
Lemma IInv_idle NBUF y cs s' m' :
  IInv_at NBUF y cs ->
  evict_lock s' = evict_lock (mem y) -> hashtable s' = hashtable (mem y) ->
  bufs s' = bufs (mem y) ->
  IInv_at NBUF (mksys s' (evictor y) m') cs.
Proof.
  intros Hinv He Hht Hb.
  apply (IInv_env NBUF y cs s' 0%nat (fun x => x) m' Hinv He Hht); auto.
  now rewrite list_alter_id.
Qed.

(** ** Every section keeps the invariant *)

Lemma IInv_held NBUF y cs k :
  IInv_at NBUF y cs -> (k < Z.to_nat NBUCKET)%nat ->
  held (BucketLock k) (mem y) = Some (bool_decide (stage_held (evictor y) = Some k)).
Proof.
  intros ((_ & Hnh & _) & _ & Hlocks & _) Hk.
  apply (locks_are_held _ _ _ Hlocks). now rewrite Hnh.
Qed.

(** The lookup, by whatever process and at whatever point. *)
Lemma find_step NBUF y cs d bn r s' :
  IInv_at NBUF y cs -> bget_find NBUF d bn (mem y) = Ret r s' ->
  exists lh,
    cs !! Z.to_nat (hash d bn) = Some lh /\
    held (BucketLock (Z.to_nat (hash d bn))) (mem y) = Some false /\
    r = find_id (bufs (mem y)) d bn lh /\
    evict_lock s' = evict_lock (mem y) /\ hashtable s' = hashtable (mem y) /\
    ticks s' = ticks (mem y) /\
    bufs s' = match r with
              | Some b => alter incr_refcnt b (bufs (mem y))
              | None => bufs (mem y)
              end.
Proof.
  intros Hinv Hrun. pose proof Hinv as (Hc & _).
  destruct (cache_inv_lookup NBUF _ cs _ (Z.to_nat (hash d bn)) Hc (hash_lt d bn))
    as [lh Hlh].
  pose proof (IInv_held NBUF y cs _ Hinv (hash_lt d bn)) as Hheld.
  destruct (bool_decide (stage_held (evictor y) = Some (Z.to_nat (hash d bn)))).
  { rewrite (bget_find_held NBUF d bn _ Hheld) in Hrun. discriminate. }
  destruct Hc as (_ & _ & Hcs & _).
  rewrite (bget_find_run NBUF d bn (mem y) cs lh Hcs Hlh
             (cache_inv_chain_length NBUF _ cs _ _ _ (proj1 Hinv) Hlh) Hheld) in Hrun.
  exists lh. split; [assumption|]. split; [assumption|].
  destruct (find_id (bufs (mem y)) d bn lh) as [b|]; injection Hrun as <- <-; auto 10.
Qed.

(** A process with a reference to slot [b]: the slot is at home, on a
    chain of [cs]. *)
Lemma ref_step NBUF y cs b :
  IInv_at NBUF y cs -> 0 < refcnt_of (bufs (mem y)) b ->
  exists bb l,
    bufs (mem y) !! b = Some bb /\ bound bb /\
    cs !! Z.to_nat (hash (dev bb) (blockno bb)) = Some l /\ b ∈ l /\
    find_id (bufs (mem y)) (dev bb) (blockno bb) l = Some b /\
    held (BucketLock (Z.to_nat (hash (dev bb) (blockno bb)))) (mem y)
      = Some (bool_decide (stage_held (evictor y)
                             = Some (Z.to_nat (hash (dev bb) (blockno bb))))).
Proof.
  intros Hinv Hpos. pose proof Hinv as ((_ & _ & _ & _ & Hhome) & _ & _ & Hst).
  pose proof Hpos as Hpos'. apply refcnt_of_pos in Hpos' as (bb & Hb & Hr).
  assert (Hne : relocating y <> Some b).
  { unfold relocating. intros Hrel. unfold stage_inv in Hst.
    destruct (evictor y) as [[me [| | |d bn c|]]|]; try discriminate.
    injection Hrel as ->. destruct Hst as (_ & Hz & _). lia. }
  destruct (Hhome b bb Hb ltac:(now left) Hne) as (l & Hl & Hf).
  exists bb, l. split; [assumption|]. split; [now left|]. split; [assumption|].
  split; [now apply find_id_Some in Hf as [Hin _]|]. split; [assumption|].
  apply (IInv_held NBUF y cs _ Hinv). apply hash_lt.
Qed.

Lemma unref_buf_keeps t x :
  next (unref_buf t x) = next x /\ dev (unref_buf t x) = dev x /\
  blockno (unref_buf t x) = blockno x.
Proof.
  unfold unref_buf. destruct (refcnt (decr_refcnt x) =? 0); simpl; auto.
Qed.

Lemma istep_spec NBUF y y' :
  IInv NBUF y -> istep NBUF y y' ->
  IInv NBUF y' /\
  (layout (mem y') = layout (mem y) \/
   (evict_lock (mem y) = true /\ evict_lock (mem y') = true)).
Proof.
  intros [cs Hinv] Hstep.
  destruct Hstep as
    [me d bn b y s' _ _ Hrun|me d bn y s' _ _ Hrun
    |me d bn m1 m2 y s' Hm Hrun
    |me d bn b y s' Hev Hrun|me d bn y s' Hev Hrun
    |me d bn j prb pbk prb' pbk' y s' Hev Hj Hrun
    |me d bn p b y s' Hev Hrun|me d bn p pbk b y s' Hev Hne Hrun
    |me d bn b y s' Hev Hrun|me st b y s' Hev Hst Hrun
    |me b y s' Hrun|me b y s' Hhold Hrun|me b y s' Hrun
    |me b y s' Hrun|b y s' Hpos Hrun|b y s' Hpos Hrun|b y s' Hpos Hrun|y].
  - (* the first lookup finds the block *)
    destruct (find_step NBUF y cs d bn _ s' Hinv Hrun)
      as (lh & Hlh & Hfree & Hr & He & Hht & _ & Hb).
    symmetry in Hr. destruct (find_id_Some _ _ _ _ _ Hr) as (Hin & bb & Hbb & Hd & Hbn).
    split; [exists cs|left; now apply (layout_touch _ _ b incr_refcnt)].
    apply (IInv_env NBUF y cs s' b incr_refcnt); auto.
    right. exists (Z.to_nat (hash d bn)), lh. repeat (split; [assumption|]).
    intros x Hx. right. rewrite Hbb in Hx. injection Hx as <-.
    exists lh. subst d bn. auto.
  - (* the first lookup misses *)
    destruct (find_step NBUF y cs d bn _ s' Hinv Hrun)
      as (lh & Hlh & Hfree & Hr & He & Hht & _ & Hb).
    split; [exists cs; now apply IInv_idle|left; apply layout_same; [|assumption]].
    unfold heads. simpl. now rewrite Hht.
  - (* acquire(&bcache.lock) *)
    assert (Hfree : evict_lock (mem y) = false).
    { unfold acquire in Hrun. simpl in Hrun.
      destruct (evict_lock (mem y)); [discriminate|reflexivity]. }
    rewrite (acquire_ok EvictLock (mem y)) in Hrun by (simpl; now rewrite Hfree).
    injection Hrun as <-.
    destruct Hinv as (Hc & He & Hlocks & Hst). rewrite Hfree in He.
    destruct (evictor y) as [e|] eqn:Hev; [discriminate|].
    split; [exists cs|left; reflexivity].
    split; [|split; [reflexivity|split; [exact Hlocks|exact I]]].
    unfold relocating in *. rewrite Hev in Hc. simpl.
    now apply (cache_inv_same NBUF (mem y)).
  - (* the second lookup finds the block *)
    destruct (find_step NBUF y cs d bn _ s' Hinv Hrun)
      as (lh & Hlh & Hfree & Hr & He & Hht & _ & Hb).
    symmetry in Hr. destruct (find_id_Some _ _ _ _ _ Hr) as (Hin & bb & Hbb & Hd & Hbn).
    split; [exists cs|left; now apply (layout_touch _ _ b incr_refcnt)].
    assert (H : IInv_at NBUF (mksys s' (evictor y) (missed y)) cs).
    { apply (IInv_env NBUF y cs s' b incr_refcnt); auto.
      right. exists (Z.to_nat (hash d bn)), lh. repeat (split; [assumption|]).
      intros x Hx. right. rewrite Hbb in Hx. injection Hx as <-.
      exists lh. subst d bn. auto. }
    unfold IInv_at, relocating in *. simpl in *. rewrite Hev in H. simpl in H.
    destruct H as (H1 & H2 & H3 & _). auto.
  - (* the second lookup misses: the scan begins *)
    destruct (find_step NBUF y cs d bn _ s' Hinv Hrun)
      as (lh & Hlh & Hfree & Hr & He & Hht & _ & Hb).
    split; [exists cs|left; apply layout_same; [|assumption]; unfold heads; simpl; now rewrite Hht].
    assert (H : IInv_at NBUF (mksys s' (evictor y) (missed y)) cs)
      by now apply IInv_idle.
    unfold IInv_at, relocating in *. simpl in *. rewrite Hev in H. simpl in H.
    destruct H as (H1 & H2 & H3 & _). repeat (split; [assumption|]).
    split; [lia|]. split; [|now exists None].
    intros lh' Hlh'. rewrite Hb. congruence.
  - (* one bucket of the scan *)
    destruct Hinv as (Hc & He & Hlocks & Hst). unfold relocating in Hc.
    rewrite Hev in Hc, He, Hlocks, Hst. simpl in Hc, He, Hlocks, Hst.
    destruct Hst as (_ & Habs & Hchamp). pose proof Hc as (Hnb & Hnh & Hcs & _).
    destruct (bget_scan_one NBUF cs j prb pbk (mem y)
                (fun k l => cache_inv_chain_length NBUF _ cs _ k l Hc)
                Hj Hnh Hcs Hlocks Hchamp)
      as (prb0 & pbk0 & s0 & Hrun0 & Hb & Hh & He0 & _ & Hlen & Hlocks0 & Hchamp0).
    rewrite Hrun in Hrun0. injection Hrun0 as <- <- <-.
    split; [exists cs|left; now apply layout_same].
    split; [|split; [simpl; congruence|split; [exact Hlocks0|]]].
    + unfold relocating. simpl. apply (cache_inv_same NBUF (mem y)); auto. congruence.
    + simpl. split; [lia|]. split; [now rewrite Hb|assumption].
  - (* the champion is recycled where it is *)
    destruct Hinv as (Hc & He & Hlocks & Hst). unfold relocating in Hc.
    rewrite Hev in Hc, He, Hlocks, Hst. simpl in Hc, He, Hlocks, Hst.
    destruct Hst as (_ & Habs & [[c|] Hacc]); [|now destruct Hacc].
    destruct Hacc as (k & la & lb & [= <-] & _ & Hk & [= ->] & Hz).
    destruct (bget_in_place_spec NBUF d bn (mem y) cs la c lb Hc Hlocks Hk Habs)
      as (s0 & Hrun0 & Hc0 & Hl0 & He0 & _).
    rewrite Hrun in Hrun0. injection Hrun0 as <- <-.
    split; [exists cs|right; split; [assumption|simpl; congruence]].
    split; [exact Hc0|]. split; [simpl; congruence|]. split; [exact Hl0|exact I].
  - (* the champion is taken off its chain *)
    destruct Hinv as (Hc & He & Hlocks & Hst). unfold relocating in Hc.
    rewrite Hev in Hc, He, Hlocks, Hst. simpl in Hc, He, Hlocks, Hst.
    destruct Hst as (_ & Habs & [[c|] Hacc]); [|destruct Hacc; discriminate].
    destruct Hacc as (k & la & lb & -> & _ & Hk & [= ->] & Hz).
    assert (Hkh : k <> Z.to_nat (hash d bn)) by congruence.
    destruct (bget_unlink_spec NBUF (mem y) cs k la c lb Hc Hlocks Hk)
      as (s0 & Hrun0 & Hc0 & Hl0 & He0 & _ & Hd0 & Hid0).
    rewrite Hrun in Hrun0. injection Hrun0 as <- <-.
    split; [exists (<[k := la ++ lb]> cs)|right; split; [assumption|simpl; congruence]].
    split; [exact Hc0|]. split; [simpl; congruence|]. split; [exact Hl0|].
    simpl. split; [|split].
    + intros lh Hlh. rewrite list_lookup_insert_ne in Hlh by assumption.
      rewrite <- find_id_data, Hd0, find_id_data. now apply Habs.
    + unfold refcnt_of in *. unfold data in Hd0.
      assert (Hl : (strip <$> bufs s') !! b = (strip <$> bufs (mem y)) !! b)
        by now rewrite Hd0.
      rewrite !list_lookup_fmap in Hl.
      destruct (bufs s' !! b) as [x|], (bufs (mem y) !! b) as [x0|];
        try discriminate; [|reflexivity].
      apply (inj Some) in Hl. now apply strip_eq_fields in Hl as (_ & _ & _ & -> & _).
    + intros cb' Hcb' Hnz. unfold data in Hd0.
      assert (Hl : (strip <$> bufs s') !! b = (strip <$> bufs (mem y)) !! b)
        by now rewrite Hd0.
      rewrite !list_lookup_fmap, Hcb' in Hl.
      destruct (bufs (mem y) !! b) as [cb|] eqn:Hcb; [|discriminate].
      apply (inj Some) in Hl. apply strip_eq_fields in Hl as (Hdv & Hbv & _).
      rewrite Hdv, Hbv in Hnz |- *. now apply Hid0.
  - (* the slot is put on the target chain and rebound *)
    destruct Hinv as (Hc & He & Hlocks & Hst). unfold relocating in Hc.
    rewrite Hev in Hc, He, Hlocks, Hst. simpl in Hc, He, Hlocks, Hst.
    destruct Hst as (Habs & Hz & _).
    destruct (cache_inv_lookup NBUF _ cs _ (Z.to_nat (hash d bn)) Hc (hash_lt d bn))
      as [lh Hlh].
    destruct (bget_splice_spec NBUF d bn (mem y) cs b lh Hc Hlocks Hlh Habs)
      as (s0 & Hrun0 & Hc0 & Hl0 & He0 & _).
    rewrite Hrun in Hrun0. injection Hrun0 as <-.
    split; [eexists|right; split; [assumption|simpl; congruence]].
    split; [exact Hc0|]. split; [simpl; congruence|]. split; [exact Hl0|exact I].
  - (* release(&bcache.lock) *)
    destruct Hinv as (Hc & He & Hlocks & _). unfold relocating in Hc.
    rewrite Hev in Hc, He, Hlocks. simpl in He.
    rewrite (release_ok EvictLock (mem y)) in Hrun by (simpl; now rewrite He).
    injection Hrun as <-.
    split; [exists cs|left; reflexivity].
    split; [|split; [reflexivity|split; [|exact I]]].
    + unfold relocating. simpl.
      apply (cache_inv_same NBUF (mem y)); try reflexivity.
      destruct Hst as [->| ->]; exact Hc.
    + simpl. destruct Hst as [->| ->]; exact Hlocks.
  - (* acquiresleep *)
    unfold acquiresleep in Hrun. destruct (bufs (mem y) !! b) as [bb|] eqn:Hb; [|discriminate].
    destruct (lock bb); [discriminate|]. injection Hrun as <-.
    split; [exists cs|left; now apply (layout_touch _ _ b (set_lock (Some me)))].
    apply (IInv_env NBUF y cs _ b (set_lock (Some me))); auto.
  - (* bread fills the slot *)
    assert (Hb : is_Some (bufs (mem y) !! b)).
    { unfold holdingsleep, bind, load in Hhold. simpl in Hhold.
      destruct (bufs (mem y) !! b); [now eexists|discriminate]. }
    destruct Hb as [bb Hb]. rewrite (bread_fill_run b (mem y) bb Hb) in Hrun.
    injection Hrun as <-. destruct (valid bb =? 0).
    + split; [exists cs|left; now apply (layout_touch _ _ b (set_valid 1))].
      apply (IInv_env NBUF y cs _ b (set_valid 1)); auto.
    + split; [exists cs; now apply IInv_idle|left; reflexivity].
  - (* bwrite *)
    assert (Hb : is_Some (bufs (mem y) !! b)).
    { unfold bwrite, holdingsleep, bind, load in Hrun. simpl in Hrun.
      destruct (bufs (mem y) !! b); [now eexists|discriminate]. }
    destruct Hb as [bb Hb]. rewrite (bwrite_run me b (mem y) bb Hb) in Hrun.
    destruct (bool_decide (lock bb = Some me)); [|discriminate]. injection Hrun as <-.
    split; [exists cs; now apply IInv_idle|left; reflexivity].
  - (* brelse gives up the blocking lock *)
    assert (Hb : is_Some (bufs (mem y) !! b)).
    { unfold brelse_unlock, holdingsleep, bind, load in Hrun. simpl in Hrun.
      destruct (bufs (mem y) !! b); [now eexists|discriminate]. }
    destruct Hb as [bb Hb]. rewrite (brelse_unlock_run me b (mem y) bb Hb) in Hrun.
    destruct (bool_decide (lock bb = Some me)); [|discriminate]. injection Hrun as <-.
    split; [exists cs|left; now apply (layout_touch _ _ b (set_lock None))].
    apply (IInv_env NBUF y cs _ b (set_lock None)); auto.
  - (* brelse gives up the reference *)
    destruct (ref_step NBUF y cs b Hinv Hpos)
      as (bb & l & Hb & Hbound & Hl & Hin & Hf & Hheld).
    destruct (bool_decide (stage_held (evictor y)
                = Some (Z.to_nat (hash (dev bb) (blockno bb))))).
    { rewrite (brelse_unref_held b (mem y) bb Hb Hheld) in Hrun. discriminate. }
    rewrite (brelse_unref_run b (mem y) bb Hb Hheld) in Hrun. injection Hrun as <-.
    split; [exists cs|left; apply (layout_touch _ _ b (unref_buf (ticks (mem y))));
      try reflexivity; intros x; apply unref_buf_keeps].
    apply (IInv_env NBUF y cs _ b (unref_buf (ticks (mem y)))); try assumption;
      try reflexivity; try (intros x; apply unref_buf_keeps).
    right. exists (Z.to_nat (hash (dev bb) (blockno bb))), l.
    repeat (split; [assumption|]). intros x Hx. left. congruence.
  - (* bpin *)
    destruct (ref_step NBUF y cs b Hinv Hpos)
      as (bb & l & Hb & Hbound & Hl & Hin & Hf & Hheld).
    destruct (bool_decide (stage_held (evictor y)
                = Some (Z.to_nat (hash (dev bb) (blockno bb))))).
    { rewrite (bpin_held b (mem y) bb Hb Hheld) in Hrun. discriminate. }
    rewrite (bpin_run b (mem y) bb Hb Hheld) in Hrun. injection Hrun as <-.
    split; [exists cs|left; now apply (layout_touch _ _ b incr_refcnt)].
    apply (IInv_env NBUF y cs _ b incr_refcnt); try assumption; try reflexivity.
    right. exists (Z.to_nat (hash (dev bb) (blockno bb))), l.
    repeat (split; [assumption|]). intros x Hx. left. congruence.
  - (* bunpin *)
    destruct (ref_step NBUF y cs b Hinv Hpos)
      as (bb & l & Hb & Hbound & Hl & Hin & Hf & Hheld).
    destruct (bool_decide (stage_held (evictor y)
                = Some (Z.to_nat (hash (dev bb) (blockno bb))))).
    { rewrite (bunpin_held b (mem y) bb Hb Hheld) in Hrun. discriminate. }
    rewrite (bunpin_run b (mem y) bb Hb Hheld) in Hrun. injection Hrun as <-.
    split; [exists cs|left; now apply (layout_touch _ _ b decr_refcnt)].
    apply (IInv_env NBUF y cs _ b decr_refcnt); try assumption; try reflexivity.
    right. exists (Z.to_nat (hash (dev bb) (blockno bb))), l.
    repeat (split; [assumption|]). intros x Hx. left. congruence.
  - (* a clock tick *)
    split; [exists cs; now apply IInv_idle|left; reflexivity].
Qed.

Lemma IInv_binit NBUF s0 :
  binit NBUF (zero_state NBUF) = Ret tt s0 -> IInv NBUF (mksys s0 None []).
Proof.
  intros Hrun. destruct (Inv_binit NBUF s0 Hrun) as (cs & Hwf & Hq & Hhome).
  apply quiescent_only_held in Hq as [He Hl]. exists cs.
  split; [now apply cache_inv_None|]. split; [exact He|]. split; [exact Hl|exact I].
Qed.

Lemma IInv_ireachable NBUF y : ireachable NBUF y -> IInv NBUF y.
Proof.
  intros (s0 & Hinit & Hsteps). revert y Hsteps. apply rtc_ind_r.
  - now apply IInv_binit.
  - intros y1 y2 _ Hstep IH. now apply (istep_spec NBUF y1 y2 IH Hstep).
Qed.

(** ** Interleavings that can be run *)

(** Take one occurrence of [x] out of [l]. *)
Fixpoint pick_out (x : nat * Z * Z) (l : list (nat * Z * Z))
    : option (list (nat * Z * Z)) :=
  match l with
  | [] => None
  | a :: l' => if decide (a = x) then Some l' else cons a <$> pick_out x l'
  end.

Lemma pick_out_Some x l l' :
  pick_out x l = Some l' -> exists m1 m2, l = m1 ++ x :: m2 /\ l' = m1 ++ m2.
Proof.
  revert l'. induction l as [|a l IH]; intros l' H; simpl in H; [discriminate|].
  destruct (decide (a = x)) as [->|Hne].
  - injection H as <-. now exists [], l.
  - destruct (pick_out x l) as [l0|]; [|discriminate]. injection H as <-.
    destruct (IH l0 eq_refl) as (m1 & m2 & -> & ->). now exists (a :: m1), m2.
Qed.

(** The sections a process can run next. *)
Inductive iop :=
| IFind (me : nat) (d bn : Z)
| IEvictLock (me : nat) (d bn : Z)
| IRecheck
| IScan
| IRecycle
| ISplice
| IEvictUnlock
| ISleep (me b : nat)
| IFill (me b : nat)
| IBwrite (me b : nat)
| IBrelseUnlock (me b : nat)
| IBrelseUnref (b : nat)
| IBpin (b : nat)
| IBunpin (b : nat)
| ITick.

Definition with_mem (s : state) (y : sys) : sys := mksys s (evictor y) (missed y).

(** Run one section; [None] when it cannot run in [y]. *)
Definition irun_op (NBUF : nat) (o : iop) (y : sys) : option sys :=
  match o with
  | IFind me d bn =>
      if decide (is_uint d /\ is_uint bn) then
        match bget_find NBUF d bn (mem y) with
        | Ret (Some _) s' => Some (with_mem s' y)
        | Ret None s' => Some (mksys s' (evictor y) ((me, d, bn) :: missed y))
        | _ => None
        end
      else None
  | IEvictLock me d bn =>
      match pick_out (me, d, bn) (missed y), acquire EvictLock (mem y) with
      | Some m, Ret _ s' => Some (mksys s' (Some (me, Checking d bn)) m)
      | _, _ => None
      end
  | IRecheck =>
      match evictor y with
      | Some (me, Checking d bn) =>
          match bget_find NBUF d bn (mem y) with
          | Ret (Some b) s' => Some (mksys s' (Some (me, Rehit b)) (missed y))
          | Ret None s' => Some (mksys s' (Some (me, Scanning d bn 0 None None)) (missed y))
          | _ => None
          end
      | _ => None
      end
  | IScan =>
      match evictor y with
      | Some (me, Scanning d bn j prb pbk) =>
          if decide (j < Z.to_nat NBUCKET)%nat then
            match bget_scan NBUF 1 j prb pbk (mem y) with
            | Ret (prb', pbk') s' =>
                Some (mksys s' (Some (me, Scanning d bn (S j) prb' pbk')) (missed y))
            | _ => None
            end
          else None
      | _ => None
      end
  | IRecycle =>
      match evictor y with
      | Some (me, Scanning d bn j (Some p) pbk) =>
          if decide (j = Z.to_nat NBUCKET) then
            if decide (pbk = Some (Z.to_nat (hash d bn))) then
              match (let* b := bget_champion p in
                     bget_bind d bn (Z.to_nat (hash d bn)) b >> ret b) (mem y) with
              | Ret b s' => Some (mksys s' (Some (me, Rebound b)) (missed y))
              | _ => None
              end
            else
              match bget_unlink p pbk (mem y) with
              | Ret b s' => Some (mksys s' (Some (me, Moving d bn b)) (missed y))
              | _ => None
              end
          else None
      | _ => None
      end
  | ISplice =>
      match evictor y with
      | Some (me, Moving d bn b) =>
          match (bget_splice (Z.to_nat (hash d bn)) b >>
                 bget_bind d bn (Z.to_nat (hash d bn)) b) (mem y) with
          | Ret _ s' => Some (mksys s' (Some (me, Rebound b)) (missed y))
          | _ => None
          end
      | _ => None
      end
  | IEvictUnlock =>
      match evictor y with
      | Some (_, Rehit _) | Some (_, Rebound _) =>
          match release EvictLock (mem y) with
          | Ret _ s' => Some (mksys s' None (missed y))
          | _ => None
          end
      | _ => None
      end
  | ISleep me b =>
      match acquiresleep me b (mem y) with
      | Ret _ s' => Some (with_mem s' y)
      | _ => None
      end
  | IFill me b =>
      match holdingsleep me b (mem y), bread_fill b (mem y) with
      | Ret true _, Ret _ s' => Some (with_mem s' y)
      | _, _ => None
      end
  | IBwrite me b =>
      match bwrite me b (mem y) with
      | Ret _ s' => Some (with_mem s' y)
      | _ => None
      end
  | IBrelseUnlock me b =>
      match brelse_unlock me b (mem y) with
      | Ret _ s' => Some (with_mem s' y)
      | _ => None
      end
  | IBrelseUnref b =>
      if decide (0 < refcnt_of (bufs (mem y)) b) then
        match brelse_unref b (mem y) with
        | Ret _ s' => Some (with_mem s' y)
        | _ => None
        end
      else None
  | IBpin b =>
      if decide (0 < refcnt_of (bufs (mem y)) b) then
        match bpin b (mem y) with
        | Ret _ s' => Some (with_mem s' y)
        | _ => None
        end
      else None
  | IBunpin b =>
      if decide (0 < refcnt_of (bufs (mem y)) b) then
        match bunpin b (mem y) with
        | Ret _ s' => Some (with_mem s' y)
        | _ => None
        end
      else None
  | ITick => Some (with_mem (with_ticks (wrap (ticks (mem y) + 1)) (mem y)) y)
  end.

Fixpoint irun_ops (NBUF : nat) (ops : list iop) (y : sys) : option sys :=
  match ops with
  | [] => Some y
  | o :: ops' =>
      match irun_op NBUF o y with
      | Some y' => irun_ops NBUF ops' y'
      | None => None
      end
  end.

(** The cache after [binit] and the sections [ops]. *)
Definition iscenario (NBUF : nat) (ops : list iop) : sys :=
  match irun_ops NBUF ops (mksys (boot NBUF) None []) with
  | Some y => y
  | None => mksys (boot NBUF) None []
  end.

Lemma holdingsleep_state me b s r s' : holdingsleep me b s = Ret r s' -> s' = s.
Proof.
  unfold holdingsleep, bind, load, ret. destruct (deref (PBuf b) s); [|discriminate].
  now intros [= _ <-].
Qed.

Lemma irun_op_istep NBUF o y y' : irun_op NBUF o y = Some y' -> istep NBUF y y'.
Proof.
  destruct o as [me d bn|me d bn| | | | | |me b|me b|me b|me b|b|b|b|];
    unfold irun_op, with_mem.
  - destruct (decide (is_uint d /\ is_uint bn)) as [[Hd Hb]|]; [|discriminate].
    destruct (bget_find NBUF d bn (mem y)) as [[b|] s'| | | |] eqn:E; try discriminate;
      intros [= <-].
    + now apply (i_find_hit NBUF me d bn b).
    + now apply (i_find_miss NBUF me d bn).
  - destruct (pick_out (me, d, bn) (missed y)) as [m|] eqn:Hm; [|discriminate].
    destruct (acquire EvictLock (mem y)) as [[] s'| | | |] eqn:E; try discriminate.
    intros [= <-]. destruct (pick_out_Some _ _ _ Hm) as (m1 & m2 & H1 & ->).
    now apply (i_evict_lock NBUF me d bn m1 m2).
  - destruct (evictor y) as [[me [d bn| | | |]]|] eqn:Hev; try discriminate.
    destruct (bget_find NBUF d bn (mem y)) as [[b|] s'| | | |] eqn:E; try discriminate;
      intros [= <-].
    + now apply (i_recheck_hit NBUF me d bn b).
    + now apply (i_recheck_miss NBUF me d bn).
  - destruct (evictor y) as [[me [| |d bn j prb pbk| |]]|] eqn:Hev; try discriminate.
    destruct (decide (j < Z.to_nat NBUCKET)%nat) as [Hj|]; [|discriminate].
    destruct (bget_scan NBUF 1 j prb pbk (mem y)) as [[prb' pbk'] s'| | | |] eqn:E;
      try discriminate.
    intros [= <-]. now apply (i_scan NBUF me d bn j prb pbk prb' pbk').
  - destruct (evictor y) as [[me [| |d bn j [p|] pbk| |]]|] eqn:Hev; try discriminate.
    destruct (decide (j = Z.to_nat NBUCKET)) as [->|]; [|discriminate].
    destruct (decide (pbk = Some (Z.to_nat (hash d bn)))) as [->|Hne].
    + destruct ((let* b := bget_champion p in
                 bget_bind d bn (Z.to_nat (hash d bn)) b >> ret b) (mem y))
        as [b s'| | | |] eqn:E; try discriminate.
      intros [= <-]. now apply (i_in_place NBUF me d bn p b).
    + destruct (bget_unlink p pbk (mem y)) as [b s'| | | |] eqn:E; try discriminate.
      intros [= <-]. now apply (i_unlink NBUF me d bn p pbk b).
  - destruct (evictor y) as [[me [| | |d bn b|]]|] eqn:Hev; try discriminate.
    destruct ((bget_splice (Z.to_nat (hash d bn)) b >>
               bget_bind d bn (Z.to_nat (hash d bn)) b) (mem y))
      as [[] s'| | | |] eqn:E; try discriminate.
    intros [= <-]. now apply (i_splice NBUF me d bn b).
  - destruct (evictor y) as [[me [|b| | |b]]|] eqn:Hev; try discriminate;
      (destruct (release EvictLock (mem y)) as [[] s'| | | |] eqn:E; try discriminate;
       intros [= <-]).
    + apply (i_evict_unlock NBUF me (Rehit b) b); auto.
    + apply (i_evict_unlock NBUF me (Rebound b) b); auto.
  - destruct (acquiresleep me b (mem y)) as [[] s'| | | |] eqn:E; try discriminate.
    intros [= <-]. now apply (i_sleep NBUF me b).
  - destruct (holdingsleep me b (mem y)) as [[|] s1| | | |] eqn:E1; try discriminate.
    destruct (bread_fill b (mem y)) as [b' s'| | | |] eqn:E2; try discriminate.
    intros [= <-]. pose proof (holdingsleep_state _ _ _ _ _ E1) as ->.
    assert (b' = b) as ->.
    { unfold bread_fill, bind, ret in E2.
      destruct (load (PBuf b) (mem y)) as [bb s2| | | |]; try discriminate.
      destruct (valid bb =? 0).
      - destruct (virtio_disk_rw b false s2); try discriminate.
        destruct (store _ _ _ _); try discriminate. now injection E2.
      - now injection E2. }
    now apply (i_fill NBUF me b).
  - destruct (bwrite me b (mem y)) as [[] s'| | | |] eqn:E; try discriminate.
    intros [= <-]. now apply (i_bwrite NBUF me b).
  - destruct (brelse_unlock me b (mem y)) as [[] s'| | | |] eqn:E; try discriminate.
    intros [= <-]. now apply (i_brelse_unlock NBUF me b).
  - destruct (decide (0 < refcnt_of (bufs (mem y)) b)); [|discriminate].
    destruct (brelse_unref b (mem y)) as [[] s'| | | |] eqn:E; try discriminate.
    intros [= <-]. now apply (i_brelse_unref NBUF b).
  - destruct (decide (0 < refcnt_of (bufs (mem y)) b)); [|discriminate].
    destruct (bpin b (mem y)) as [[] s'| | | |] eqn:E; try discriminate.
    intros [= <-]. now apply (i_bpin NBUF b).
  - destruct (decide (0 < refcnt_of (bufs (mem y)) b)); [|discriminate].
    destruct (bunpin b (mem y)) as [[] s'| | | |] eqn:E; try discriminate.
    intros [= <-]. now apply (i_bunpin NBUF b).
  - intros [= <-]. apply i_tick.
Qed.

Lemma irun_ops_rtc NBUF ops : forall y y',
  irun_ops NBUF ops y = Some y' -> rtc (istep NBUF) y y'.
Proof.
  induction ops as [|o ops IH]; intros y y' H; cbn [irun_ops] in H.
  - injection H as <-. apply rtc_refl.
  - destruct (irun_op NBUF o y) as [y1|] eqn:E; [|discriminate].
    apply rtc_l with y1; [now apply (irun_op_istep NBUF o)|now apply IH].
Qed.

(** An interleaving all of whose sections run ends at an observation
    point. *)
Lemma iscenario_reachable NBUF ops :
  is_Some (irun_ops NBUF ops (mksys (boot NBUF) None [])) ->
  ireachable NBUF (iscenario NBUF ops).
Proof.
  intros [y Hy]. unfold iscenario. rewrite Hy. exists (boot NBUF).
  split; [apply boot_binit|now apply (irun_ops_rtc NBUF ops)].
Qed.

Ltac reach_iscenario :=
  apply iscenario_reachable; vm_compute; eexists; reflexivity.

(** ** The log *)

(** The stores that relocate or rebind a slot: to a link or to an
    identity field. *)
Definition relinks (e : event) : bool :=
  match e with
  | EStore _ Fnext | EStore _ Fdev | EStore _ Fblockno => true
  | _ => false
  end.

Definition evict_event (e : event) : bool :=
  match e with
  | EAcquire EvictLock | ERelease EvictLock => true
  | _ => false
  end.

(** Read a stretch of the log that starts with the eviction lock held
    ([h]) or free: [None] when a link or an identity is stored while the
    eviction lock is free, else whether the lock is held at the end. *)
Fixpoint under_evict_lock (h : bool) (evs : list event) : option bool :=
  match evs with
  | [] => Some h
  | EAcquire EvictLock :: evs' => under_evict_lock true evs'
  | ERelease EvictLock :: evs' => under_evict_lock false evs'
  | e :: evs' => if relinks e && negb h then None else under_evict_lock h evs'
  end.

Lemma under_evict_lock_app h evs1 evs2 :
  under_evict_lock h (evs1 ++ evs2) =
  match under_evict_lock h evs1 with
  | Some h' => under_evict_lock h' evs2
  | None => None
  end.
Proof.
  revert h. induction evs1 as [|e evs1 IH]; intros h; [reflexivity|].
  destruct e as [[|k]|[|k]| | |p f|]; simpl; try apply IH.
  destruct f, h; simpl; try reflexivity; apply IH.
Qed.

(** Events of a section that neither takes nor gives up the eviction
    lock, and of one that stores no link and no identity either. *)
Definition quiet (e : event) : Prop := evict_event e = false.
Definition calm (e : event) : Prop := evict_event e = false /\ relinks e = false.

Lemma under_calm h evs : Forall calm evs -> under_evict_lock h evs = Some h.
Proof.
  induction 1 as [|e evs [He Hr] _ IH]; [reflexivity|].
  destruct e as [[|k]|[|k]| | |p f|]; simpl in *; try discriminate; try exact IH.
  destruct f; simpl in *; try discriminate; exact IH.
Qed.

Lemma under_quiet evs : Forall quiet evs -> under_evict_lock true evs = Some true.
Proof.
  induction 1 as [|e evs He _ IH]; [reflexivity|]. unfold quiet in He.
  destruct e as [[|k]|[|k]| | |p f|]; simpl in *; try discriminate; try exact IH.
  destruct f; simpl; exact IH.
Qed.

(** [logs P m]: all that [m] adds to the log satisfies [P]. *)
Definition logs {A} (P : event -> Prop) (m : M A) : Prop :=
  forall s r s', m s = Ret r s' ->
    exists evs, trace s' = trace s ++ evs /\ Forall P evs.

Lemma logs_ret {A} P (a : A) : logs P (ret a).
Proof. intros s r s' [= _ <-]. exists []. now rewrite app_nil_r. Qed.

Lemma logs_bind {A B} P (m : M A) (k : A -> M B) :
  logs P m -> (forall a, logs P (k a)) -> logs P (bind m k).
Proof.
  intros Hm Hk s r s' Hrun. unfold bind in Hrun.
  destruct (m s) as [a s1| | | |] eqn:E; try discriminate.
  destruct (Hm _ _ _ E) as (evs1 & Ht1 & H1).
  destruct (Hk a _ _ _ Hrun) as (evs2 & Ht2 & H2).
  exists (evs1 ++ evs2). split; [now rewrite Ht2, Ht1, app_assoc|].
  now apply Forall_app.
Qed.

Lemma logs_none {A} P (m : M A) :
  (forall s r s', m s = Ret r s' -> s' = s) -> logs P m.
Proof.
  intros H s r s' Hrun. apply H in Hrun as ->. exists []. now rewrite app_nil_r.
Qed.

Lemma logs_one {A} P (m : M A) e :
  P e -> (forall s r s', m s = Ret r s' -> trace s' = trace s ++ [e]) -> logs P m.
Proof.
  intros He H s r s' Hrun. exists [e]. split; [now apply (H s r)|].
  now apply Forall_singleton.
Qed.

Lemma logs_load P p : logs P (load p).
Proof.
  apply logs_none. intros s r s'. unfold load. destruct (deref p s); [|discriminate].
  now intros [= _ <-].
Qed.

Lemma logs_store P p f upd : P (EStore p f) -> logs P (store p f upd).
Proof.
  intros He. apply (logs_one P _ (EStore p f) He). intros s r s'. unfold store.
  destruct (deref p s); [|discriminate]. intros [= _ <-]. destruct p; reflexivity.
Qed.

Lemma logs_acquire P l : P (EAcquire l) -> logs P (acquire l).
Proof.
  intros He. apply (logs_one P _ (EAcquire l) He). intros s r s'. unfold acquire.
  destruct (held l s) as [[|]|]; try discriminate. intros [= _ <-].
  destruct l; reflexivity.
Qed.

Lemma logs_release P l : P (ERelease l) -> logs P (release l).
Proof.
  intros He. apply (logs_one P _ (ERelease l) He). intros s r s'. unfold release.
  destruct (held l s) as [[|]|]; try discriminate. intros [= _ <-].
  destruct l; reflexivity.
Qed.

Lemma logs_acquiresleep P me b : P (EAcquireSleep b) -> logs P (acquiresleep me b).
Proof.
  intros He. apply (logs_one P _ (EAcquireSleep b) He). intros s r s'.
  unfold acquiresleep. destruct (bufs s !! b) as [bb|]; [|discriminate].
  destruct (lock bb); [discriminate|]. now intros [= _ <-].
Qed.

Lemma logs_releasesleep P b : P (EReleaseSleep b) -> logs P (releasesleep b).
Proof.
  intros He. apply (logs_one P _ (EReleaseSleep b) He). intros s r s'.
  unfold releasesleep. destruct (bufs s !! b) as [bb|]; [|discriminate].
  now intros [= _ <-].
Qed.

Lemma logs_virtio_disk_rw P b w : P (EDiskRW b w) -> logs P (virtio_disk_rw b w).
Proof.
  intros He. apply (logs_one P _ (EDiskRW b w) He). intros s r s'.
  unfold virtio_disk_rw. destruct (bufs s !! b) as [bb|]; [|discriminate].
  now intros [= _ <-].
Qed.

Lemma logs_stop {A} P (m : M A) : (forall s r s', m s <> Ret r s') -> logs P m.
Proof. intros H s r s' Hrun. now apply H in Hrun. Qed.

Lemma calm_quiet e : calm e -> quiet e.
Proof. now intros [H _]. Qed.

Lemma logs_weaken {A} (P Q : event -> Prop) (m : M A) :
  (forall e, P e -> Q e) -> logs P m -> logs Q m.
Proof.
  intros HPQ Hm s r s' Hrun. destruct (Hm _ _ _ Hrun) as (evs & Ht & H).
  exists evs. split; [assumption|]. eapply Forall_impl; [exact H|exact HPQ].
Qed.

(** One step of a proof that a body logs only what it may. *)
Ltac logs_step :=
  first
    [ apply logs_ret
    | apply logs_load
    | apply logs_store; repeat split; reflexivity
    | apply logs_acquire; repeat split; reflexivity
    | apply logs_release; repeat split; reflexivity
    | apply logs_acquiresleep; repeat split; reflexivity
    | apply logs_releasesleep; repeat split; reflexivity
    | apply logs_virtio_disk_rw; repeat split; reflexivity
    | apply logs_stop; discriminate
    | apply logs_none; now intros ? ? ? [= _ <-]
    | apply logs_bind; [|intros ?]
    | match goal with
      | |- logs _ (match ?x with Some _ => _ | None => _ end) => destruct x
      | |- logs _ (match ?x with (_, _) => _ end) => destruct x
      | |- logs _ (if ?b then _ else _) => destruct b
      | |- logs _ (match ?n with O => _ | S _ => _ end) => destruct n
      end ].

Lemma logs_bget_lookup P fuel d bn : forall b, logs P (bget_lookup fuel d bn b).
Proof.
  induction fuel as [|fuel IH]; intros [i|]; simpl; repeat logs_step. apply IH.
Qed.

Lemma logs_bget_find NBUF d bn : logs calm (bget_find NBUF d bn).
Proof.
  unfold bget_find. repeat logs_step. apply logs_bget_lookup.
Qed.

Lemma logs_bget_scan_chain P fuel : forall b found prb,
  logs P (bget_scan_chain fuel b found prb).
Proof.
  induction fuel as [|fuel IH]; intros b found prb; simpl.
  - repeat logs_step.
  - apply logs_bind; [apply logs_load|]. intros bb. destruct (next bb); [|apply logs_ret].
    apply logs_bind; [apply logs_load|]. intros nb.
    apply logs_bind.
    + unfold bget_better, load_buf. repeat logs_step.
    + intros [|]; apply IH.
Qed.

Lemma logs_bget_scan NBUF : forall n j prb pbk, logs quiet (bget_scan NBUF n j prb pbk).
Proof.
  induction n as [|n IH]; intros j prb pbk; simpl; [apply logs_ret|].
  apply logs_bind; [now apply logs_acquire|]. intros _.
  apply logs_bind; [apply logs_bget_scan_chain|]. intros [found prb'].
  destruct (negb found).
  - apply logs_bind; [now apply logs_release|]. intros _. apply IH.
  - apply logs_bind; [|intros _; apply IH].
    destruct pbk; [now apply logs_release|apply logs_ret].
Qed.

Lemma logs_bget_bind d bn index b : logs quiet (bget_bind d bn index b).
Proof. unfold bget_bind. repeat logs_step. Qed.

Lemma logs_bget_champion P p : logs P (bget_champion p).
Proof. unfold bget_champion, fault. repeat logs_step. Qed.

Lemma logs_bget_unlink p pbk : logs quiet (bget_unlink p pbk).
Proof.
  unfold bget_unlink. apply logs_bind; [apply logs_bget_champion|]. intros b.
  unfold release_bucket, fault. repeat logs_step.
Qed.

Lemma logs_bget_splice index b : logs quiet (bget_splice index b).
Proof. unfold bget_splice. repeat logs_step. Qed.

Lemma logs_bread_fill b : logs calm (bread_fill b).
Proof. unfold bread_fill. repeat logs_step. Qed.

Lemma logs_bwrite me b : logs calm (bwrite me b).
Proof. unfold bwrite, holdingsleep, panic. repeat logs_step. Qed.

Lemma logs_brelse_unlock me b : logs calm (brelse_unlock me b).
Proof. unfold brelse_unlock, holdingsleep, panic. repeat logs_step. Qed.

Lemma logs_brelse_unref b : logs calm (brelse_unref b).
Proof. unfold brelse_unref, read_ticks. repeat logs_step. Qed.

Lemma logs_bpin b : logs calm (bpin b).
Proof. unfold bpin. repeat logs_step. Qed.

Lemma logs_bunpin b : logs calm (bunpin b).
Proof. unfold bunpin. repeat logs_step. Qed.

(** What a section adds to the log, read from the state of the eviction
    lock when the section begins, stores no link and no identity while
    the lock is free, and ends with the lock as the section leaves it. *)
Lemma istep_log NBUF y y' :
  IInv NBUF y -> istep NBUF y y' ->
  exists evs, trace (mem y') = trace (mem y) ++ evs /\
    under_evict_lock (evict_lock (mem y)) evs = Some (evict_lock (mem y')).
Proof.
  intros Hinv Hstep.
  destruct (proj1 (istep_spec NBUF y y' Hinv Hstep)) as (cs' & _ & He' & _).
  destruct Hinv as (cs & _ & He & _).
  assert (Hcalm : forall (A : Type) (m : M A) r s',
            logs calm m -> m (mem y) = Ret r s' ->
            stage_evict (evictor y) = evict_lock s' ->
            exists evs, trace s' = trace (mem y) ++ evs /\
              under_evict_lock (evict_lock (mem y)) evs = Some (evict_lock s')).
  { intros A m r s' Hm Hrun Hsame. destruct (Hm _ _ _ Hrun) as (evs & Ht & Hall).
    exists evs. split; [exact Ht|]. rewrite (under_calm _ _ Hall). f_equal. congruence. }
  assert (Hquiet : forall (A : Type) (m : M A) r s',
            logs quiet m -> m (mem y) = Ret r s' ->
            evict_lock (mem y) = true -> evict_lock s' = true ->
            exists evs, trace s' = trace (mem y) ++ evs /\
              under_evict_lock (evict_lock (mem y)) evs = Some (evict_lock s')).
  { intros A m r s' Hm Hrun H1 H2. destruct (Hm _ _ _ Hrun) as (evs & Ht & Hall).
    exists evs. split; [exact Ht|]. rewrite H1, H2. now apply under_quiet. }
  clear cs cs'.
  destruct Hstep as
    [me d bn b y s' _ _ Hrun|me d bn y s' _ _ Hrun
    |me d bn m1 m2 y s' Hm Hrun
    |me d bn b y s' Hev Hrun|me d bn y s' Hev Hrun
    |me d bn j prb pbk prb' pbk' y s' Hev Hj Hrun
    |me d bn p b y s' Hev Hrun|me d bn p pbk b y s' Hev Hne Hrun
    |me d bn b y s' Hev Hrun|me st b y s' Hev Hst Hrun
    |me b y s' Hrun|me b y s' Hhold Hrun|me b y s' Hrun
    |me b y s' Hrun|b y s' Hpos Hrun|b y s' Hpos Hrun|b y s' Hpos Hrun|y];
    simpl in He' |- *.
  - now apply (Hcalm _ _ _ _ (logs_bget_find NBUF d bn) Hrun).
  - now apply (Hcalm _ _ _ _ (logs_bget_find NBUF d bn) Hrun).
  - unfold acquire in Hrun. simpl in Hrun.
    destruct (evict_lock (mem y)); [discriminate|]. injection Hrun as <-.
    exists [EAcquire EvictLock]. split; reflexivity.
  - rewrite Hev in He, Hcalm. now apply (Hcalm _ _ _ _ (logs_bget_find NBUF d bn) Hrun).
  - rewrite Hev in He, Hcalm. now apply (Hcalm _ _ _ _ (logs_bget_find NBUF d bn) Hrun).
  - rewrite Hev in He.
    now apply (Hquiet _ _ _ _ (logs_bget_scan NBUF 1 j prb pbk) Hrun).
  - rewrite Hev in He. refine (Hquiet _ _ _ _ _ Hrun He He').
    apply logs_bind; [apply logs_bget_champion|]. intros c.
    apply logs_bind; [apply logs_bget_bind|]. intros _. apply logs_ret.
  - rewrite Hev in He. now apply (Hquiet _ _ _ _ (logs_bget_unlink p pbk) Hrun).
  - rewrite Hev in He. refine (Hquiet _ _ _ _ _ Hrun He He').
    apply logs_bind; [apply logs_bget_splice|]. intros _. apply logs_bget_bind.
  - unfold release in Hrun. simpl in Hrun.
    destruct (evict_lock (mem y)); [|discriminate]. injection Hrun as <-.
    exists [ERelease EvictLock]. split; reflexivity.
  - refine (Hcalm _ _ _ _ _ Hrun ltac:(congruence)).
    apply logs_acquiresleep. now split.
  - now apply (Hcalm _ _ _ _ (logs_bread_fill b) Hrun).
  - now apply (Hcalm _ _ _ _ (logs_bwrite me b) Hrun).
  - now apply (Hcalm _ _ _ _ (logs_brelse_unlock me b) Hrun).
  - now apply (Hcalm _ _ _ _ (logs_brelse_unref b) Hrun).
  - now apply (Hcalm _ _ _ _ (logs_bpin b) Hrun).
  - now apply (Hcalm _ _ _ _ (logs_bunpin b) Hrun).
  - exists []. split; [now rewrite app_nil_r|]. reflexivity.
Qed.

(** In the log of the cache since [binit], every store of a link or of
    an identity comes after an [acquire] of the eviction lock and before
    the [release] that follows it. *)
Lemma log_ireachable NBUF y :
  ireachable NBUF y ->
  exists s0 evs,
    binit NBUF (zero_state NBUF) = Ret tt s0 /\
    trace (mem y) = trace s0 ++ evs /\
    under_evict_lock false evs = Some (evict_lock (mem y)).
Proof.
  intros (s0 & Hinit & Hsteps). exists s0.
  assert (H : exists evs, trace (mem y) = trace s0 ++ evs /\
                under_evict_lock false evs = Some (evict_lock (mem y))).
  { revert y Hsteps. apply rtc_ind_r.
    - exists []. split; [now rewrite app_nil_r|]. simpl.
      destruct (IInv_binit NBUF s0 Hinit) as (cs & _ & He & _). simpl in He.
      now rewrite He.
    - intros y1 y2 Hpath Hstep (evs & Ht & Hu).
      assert (Hinv : IInv NBUF y1) by (apply IInv_ireachable; now exists s0).
      destruct (istep_log NBUF y1 y2 Hinv Hstep) as (evs' & Ht' & Hu').
      exists (evs ++ evs'). split; [now rewrite Ht', Ht, app_assoc|].
      now rewrite under_evict_lock_app, Hu. }
  destruct H as (evs & Ht & Hu). now exists evs.
Qed.

(** ** Calls run one after the other are among the interleavings *)

Lemma chains_of_det s cs cs' : chains_of s cs -> chains_of s cs' -> cs = cs'.
Proof.
  unfold chains_of. intros H. revert cs'.
  induction H as [|bk l ht cs Hc _ IH]; intros cs' H'; inversion H' as [|? l' ? cs0 Hc' H0];
    subst; [reflexivity|].
  f_equal; [now apply (chain_det _ _ _ _ Hc Hc')|now apply IH].
Qed.

(** The scan from bucket [j] on, section by section. *)
Lemma scan_path NBUF me d bn m : forall n j prb pbk s,
  (n + j = Z.to_nat NBUCKET)%nat ->
  IInv NBUF (mksys s (Some (me, Scanning d bn j prb pbk)) m) ->
  exists prb' pbk' s',
    bget_scan NBUF n j prb pbk s = Ret (prb', pbk') s' /\
    rtc (istep NBUF) (mksys s (Some (me, Scanning d bn j prb pbk)) m)
        (mksys s' (Some (me, Scanning d bn (Z.to_nat NBUCKET) prb' pbk')) m).
Proof.
  induction n as [|n IH]; intros j prb pbk s Hnj Hinv.
  - simpl in Hnj. subst j. exists prb, pbk, s. split; [reflexivity|apply rtc_refl].
  - pose proof Hinv as (cs & Hc & _ & Hlocks & _ & _ & Hchamp).
    simpl in Hc, Hlocks, Hchamp. pose proof Hc as (_ & Hnh & Hcs & _).
    destruct (bget_scan_one NBUF cs j prb pbk s
                (fun k l => cache_inv_chain_length NBUF _ cs _ k l Hc)
                ltac:(lia) Hnh Hcs Hlocks Hchamp)
      as (prb1 & pbk1 & s1 & Hrun1 & _).
    assert (Hstep : istep NBUF (mksys s (Some (me, Scanning d bn j prb pbk)) m)
                      (mksys s1 (Some (me, Scanning d bn (S j) prb1 pbk1)) m)).
    { apply (i_scan NBUF me d bn j prb pbk prb1 pbk1
               (mksys s (Some (me, Scanning d bn j prb pbk)) m) s1);
        [reflexivity|lia|exact Hrun1]. }
    destruct (IH (S j) prb1 pbk1 s1 ltac:(lia)
                (proj1 (istep_spec NBUF _ _ Hinv Hstep)))
      as (prb' & pbk' & s' & Hrun' & Hpath).
    exists prb', pbk', s'. split.
    + rewrite bget_scan_sections, (bind_ret _ _ _ _ _ Hrun1). exact Hrun'.
    + now apply rtc_l with (mksys s1 (Some (me, Scanning d bn (S j) prb1 pbk1)) m).
Qed.

(** [bget], run alone from a state in which no process is in the
    eviction path, up to the blocking lock: an interleaving in which only
    the caller moves. *)
Lemma bget_path NBUF me d bn s m :
  is_uint d -> is_uint bn -> IInv NBUF (mksys s None m) ->
  (exists b s1,
     bget NBUF me d bn s = (acquiresleep me b >> ret b) s1 /\
     rtc (istep NBUF) (mksys s None m) (mksys s1 None m)) \/
  (exists s', bget NBUF me d bn s = Panic "bget: no buffers" s').
Proof.
  intros Hd Hbn Hinv0. set (h := Z.to_nat (hash d bn)).
  set (y0 := mksys s None m) in *.
  (* the first lookup *)
  assert (Hfind0 : exists r s1, bget_find NBUF d bn s = Ret r s1).
  { destruct Hinv0 as (cs & Hinv). pose proof Hinv as (Hc & _).
    destruct (cache_inv_lookup NBUF _ cs _ h Hc (hash_lt d bn)) as [lh Hlh].
    pose proof (IInv_held NBUF y0 cs h Hinv (hash_lt d bn)) as Hheld.
    destruct Hc as (_ & _ & Hcs & _).
    rewrite (bget_find_run NBUF d bn s cs lh Hcs Hlh
               (cache_inv_chain_length NBUF _ cs _ _ _ (proj1 Hinv) Hlh) Hheld).
    destruct (find_id (bufs s) d bn lh); eauto. }
  destruct Hfind0 as ([b|] & s1 & Hfind0).
  { left. exists b, s1. split.
    - now rewrite bget_sections, (bind_ret _ _ _ _ _ Hfind0).
    - apply rtc_once. now apply (i_find_hit NBUF me d bn b y0 s1). }
  set (y1 := mksys s1 None ((me, d, bn) :: m)).
  assert (Hstep1 : istep NBUF y0 y1) by now apply (i_find_miss NBUF me d bn y0 s1).
  pose proof (proj1 (istep_spec NBUF _ _ Hinv0 Hstep1)) as Hinv1.
  (* acquire(&bcache.lock) *)
  assert (Hacq : exists s2, acquire EvictLock s1 = Ret tt s2 /\
                              bufs s2 = bufs s1 /\ hashtable s2 = hashtable s1).
  { destruct Hinv1 as (cs & _ & He & _). simpl in He.
    rewrite (acquire_ok EvictLock s1) by (simpl; now rewrite He). eauto. }
  destruct Hacq as (s2 & Hacq & Hb2 & Hht2).
  set (y2 := mksys s2 (Some (me, Checking d bn)) m).
  assert (Hstep2 : istep NBUF y1 y2).
  { now apply (i_evict_lock NBUF me d bn [] m y1 s2). }
  pose proof (proj1 (istep_spec NBUF _ _ Hinv1 Hstep2)) as Hinv2.
  (* the second lookup: nothing has changed, it misses again *)
  assert (Hfind2 : exists s3, bget_find NBUF d bn s2 = Ret None s3).
  { destruct Hinv0 as (cs & Hinv). pose proof Hinv as (Hc & _ & Hl0 & _).
    destruct (find_step NBUF y0 cs d bn _ s1 Hinv Hfind0)
      as (lh & Hlh & Hfree & Hr & _ & Hht1 & _ & Hb1).
    assert (Hcs2 : chains_of s2 cs).
    { destruct Hc as (_ & _ & Hcs & _).
      apply (chains_of_ext s); [assumption|now rewrite Hb2|].
      unfold heads. now rewrite Hht2, Hht1. }
    rewrite (bget_find_run NBUF d bn s2 cs lh Hcs2 Hlh
               (cache_inv_chain_length NBUF _ cs _ _ _ Hc Hlh)).
    2:{ unfold held in Hfree |- *. now rewrite Hht2, Hht1. }
    rewrite Hb2, Hb1, <- Hr. eauto. }
  destruct Hfind2 as (s3 & Hfind2).
  set (y3 := mksys s3 (Some (me, Scanning d bn 0 None None)) m).
  assert (Hstep3 : istep NBUF y2 y3) by now apply (i_recheck_miss NBUF me d bn y2 s3).
  pose proof (proj1 (istep_spec NBUF _ _ Hinv2 Hstep3)) as Hinv3.
  (* the scan *)
  destruct (scan_path NBUF me d bn m (Z.to_nat NBUCKET) 0 None None s3 ltac:(lia) Hinv3)
    as (prb & pbk & s4 & Hscan & Hpath4).
  set (y4 := mksys s4 (Some (me, Scanning d bn (Z.to_nat NBUCKET) prb pbk)) m) in *.
  assert (Hpath : rtc (istep NBUF) y0 y4).
  { apply rtc_l with y1; [assumption|]. apply rtc_l with y2; [assumption|].
    now apply rtc_l with y3. }
  assert (Hinv4 : IInv NBUF y4).
  { clear -Hinv3 Hpath4. revert Hpath4. generalize y4. apply rtc_ind_r; [assumption|].
    intros ya yb _ Hstep IH. now apply (istep_spec NBUF ya yb IH Hstep). }
  assert (Hrun : bget NBUF me d bn s = bget_recycle me d bn h prb pbk s4).
  { rewrite bget_sections, (bind_ret _ _ _ _ _ Hfind0), (bind_ret _ _ _ _ _ Hacq),
      (bind_ret _ _ _ _ _ Hfind2), (bind_ret _ _ _ _ _ Hscan). reflexivity. }
  pose proof Hinv4 as (cs4 & Hc4 & He4 & Hl4 & _ & Habs4 & [[c|] Hacc]);
    simpl in Hc4, He4, Hl4, Habs4.
  2:{ destruct Hacc as [-> ->]. right. exists s4. exact Hrun. }
  destruct Hacc as (k & la & lb & -> & _ & Hk & -> & Hz).
  (* the slot [c] gets the identity, in place or after a move *)
  assert (Hbound : exists s6,
            (let* b := (if bool_decide (Some k <> Some h) then
                          let* b := bget_unlink (last_ptr k la) (Some k) in
                          bget_splice h b >> ret b
                        else bget_champion (last_ptr k la)) in
             bget_bind d bn h b >> ret b) s4 = Ret c s6 /\
            rtc (istep NBUF) y4 (mksys s6 (Some (me, Rebound c)) m)).
  { destruct (decide (k = h)) as [->|Hkh].
    - rewrite bool_decide_eq_false_2 by (intros H; now apply H).
      destruct (bget_in_place_spec NBUF d bn s4 cs4 la c lb Hc4 Hl4 Hk Habs4)
        as (s6 & Hrun6 & _).
      exists s6. split; [exact Hrun6|]. apply rtc_once.
      now apply (i_in_place NBUF me d bn (last_ptr h la) c y4 s6).
    - rewrite bool_decide_eq_true_2 by (intros [= E]; now apply Hkh).
      destruct (bget_unlink_spec NBUF s4 cs4 k la c lb Hc4 Hl4 Hk)
        as (s5 & Hrun5 & _).
      set (y5 := mksys s5 (Some (me, Moving d bn c)) m).
      assert (Hstep5 : istep NBUF y4 y5).
      { apply (i_unlink NBUF me d bn (last_ptr k la) (Some k) c y4 s5);
          [reflexivity|intros [= E]; now apply Hkh|exact Hrun5]. }
      destruct (proj1 (istep_spec NBUF _ _ Hinv4 Hstep5))
        as (cs5 & Hc5 & _ & Hl5 & Habs5 & _). simpl in Hc5, Hl5, Habs5.
      destruct (cache_inv_lookup NBUF _ cs5 _ h Hc5 (hash_lt d bn)) as [lh Hlh].
      destruct (bget_splice_spec NBUF d bn s5 cs5 c lh Hc5 Hl5 Hlh Habs5)
        as (s6 & Hrun6 & _).
      exists s6. split.
      + rewrite bind_bind, (bind_ret _ _ _ _ _ Hrun5).
        fold h in Hrun6. unfold bind, ret in Hrun6 |- *.
        destruct (bget_splice h c s5) as [[] s5'| | | |]; try discriminate.
        now rewrite Hrun6.
      + apply rtc_l with y5; [assumption|]. apply rtc_once.
        now apply (i_splice NBUF me d bn c y5 s6). }
  destruct Hbound as (s6 & Hrun6 & Hpath6).
  set (y6 := mksys s6 (Some (me, Rebound c)) m) in *.
  assert (Hinv6 : IInv NBUF y6).
  { clear -Hinv4 Hpath6. revert Hpath6. generalize y6. apply rtc_ind_r; [assumption|].
    intros ya yb _ Hstep IH. now apply (istep_spec NBUF ya yb IH Hstep). }
  assert (Hrel : exists s7, release EvictLock s6 = Ret tt s7).
  { destruct Hinv6 as (cs6 & _ & He6 & _). simpl in He6.
    rewrite (release_ok EvictLock s6) by (simpl; now rewrite He6). eauto. }
  destruct Hrel as (s7 & Hrel).
  left. exists c, s7. split.
  - rewrite Hrun, bget_recycle_sections. fold h.
    unfold bind at 1. unfold bind at 1 in Hrun6.
    destruct ((if bool_decide (Some k <> Some h)
               then let* b := bget_unlink (last_ptr k la) (Some k)
                    in bget_splice h b >> ret b
               else bget_champion (last_ptr k la)) s4) as [b0 s5| | | |];
      try discriminate.
    unfold bind at 1 in Hrun6. unfold bind at 1.
    destruct (bget_bind d bn h b0 s5) as [[] s6'| | | |]; try discriminate.
    unfold ret in Hrun6. injection Hrun6 as -> ->.
    now rewrite (bind_ret _ _ _ _ _ Hrel).
  - transitivity y4; [assumption|].
    transitivity y6; [assumption|]. apply rtc_once.
    apply (i_evict_unlock NBUF me (Rebound c) c y6 s7); auto.
Qed.

Lemma acquiresleep_holding me b s s' :
  acquiresleep me b s = Ret tt s' -> holdingsleep me b s' = Ret true s'.
Proof.
  unfold acquiresleep. destruct (bufs s !! b) as [bb|] eqn:Hb; [|discriminate].
  destruct (lock bb); [discriminate|]. intros [= <-].
  unfold holdingsleep, bind, load, ret. simpl. rewrite list_lookup_alter_eq, Hb. simpl.
  now rewrite bool_decide_eq_true_2.
Qed.

Lemma wakeup_path NBUF me b s s' b' m :
  (acquiresleep me b >> bread_fill b) s = Ret b' s' ->
  rtc (istep NBUF) (mksys s None m) (mksys s' None m).
Proof.
  unfold bind at 1. destruct (acquiresleep me b s) as [[] s1| | | |] eqn:E; try discriminate.
  intros Hfill.
  assert (b' = b) as ->.
  { unfold bread_fill, bind, ret in Hfill.
    destruct (load (PBuf b) s1) as [bb s2| | | |]; try discriminate.
    destruct (valid bb =? 0).
    - destruct (virtio_disk_rw b false s2); try discriminate.
      destruct (store _ _ _ _); try discriminate. now injection Hfill.
    - now injection Hfill. }
  apply rtc_l with (mksys s1 None m).
  - now apply (i_sleep NBUF me b (mksys s None m) s1).
  - apply rtc_once. apply (i_fill NBUF me b (mksys s1 None m) s'); [|exact Hfill].
    now apply (acquiresleep_holding me b s).
Qed.

(** One call run from beginning to end is a sequence of sections. *)
Lemma step_path NBUF s s' m :
  IInv NBUF (mksys s None m) -> step NBUF s s' ->
  rtc (istep NBUF) (mksys s None m) (mksys s' None m).
Proof.
  intros Hinv Hstep. destruct Hstep as
    [me d bn b s s' Hd Hbn Hrun|me d bn s s' Hd Hbn Hrun|me b s s' Hrun|me b s s' Hrun
    |me b s s' Hpos Hrun|b s s' Hpos Hrun|b s s' Hpos Hrun|s].
  - destruct (bget_path NBUF me d bn s m Hd Hbn Hinv)
      as [(b0 & s1 & Hget & Hpath)|(sp & Hget)].
    + unfold bread in Hrun. unfold bind at 1 in Hrun. rewrite Hget in Hrun.
      transitivity (mksys s1 None m); [assumption|].
      apply (wakeup_path NBUF me b0 s1 s' b).
      unfold bind at 1. unfold bind at 1 in Hrun.
      destruct (acquiresleep me b0 s1) as [[] s2| | | |]; try discriminate. exact Hrun.
    + unfold bread, bind in Hrun. rewrite Hget in Hrun. discriminate.
  - destruct (bget_path NBUF me d bn s m Hd Hbn Hinv)
      as [(b0 & s1 & Hget & Hpath)|(sp & Hget)].
    + unfold bread in Hrun. unfold bind at 1 in Hrun. rewrite Hget in Hrun.
      unfold bind at 1 in Hrun. unfold acquiresleep in Hrun.
      destruct (bufs s1 !! b0) as [bb|] eqn:Hb0; [|discriminate].
      destruct (lock bb).
      * injection Hrun as <-. exact Hpath.
      * exfalso. unfold ret in Hrun.
        set (s2 := emit _ _) in Hrun.
        assert (Hb2 : bufs s2 !! b0 = Some (set_lock (Some me) bb)).
        { unfold s2. simpl. now rewrite list_lookup_alter_eq, Hb0. }
        rewrite (bread_fill_run b0 s2 _ Hb2) in Hrun. discriminate.
    + unfold bread, bind in Hrun. rewrite Hget in Hrun. discriminate.
  - now apply (wakeup_path NBUF me b s s' b).
  - apply rtc_once. now apply (i_bwrite NBUF me b (mksys s None m) s').
  - rewrite brelse_sections in Hrun. unfold bind at 1 in Hrun.
    destruct (brelse_unlock me b s) as [[] s1| | | |] eqn:E; try discriminate.
    assert (Hpos1 : 0 < refcnt_of (bufs s1) b).
    { unfold refcnt_of in Hpos |- *.
      destruct (bufs s !! b) as [bb|] eqn:Hb; [|simpl in Hpos; lia].
      rewrite (brelse_unlock_run me b s bb Hb) in E.
      destruct (bool_decide (lock bb = Some me)); [|discriminate]. injection E as <-.
      simpl. rewrite list_lookup_alter_eq, Hb. exact Hpos. }
    apply rtc_l with (mksys s1 None m).
    + now apply (i_brelse_unlock NBUF me b (mksys s None m) s1).
    + apply rtc_once. now apply (i_brelse_unref NBUF b (mksys s1 None m) s').
  - apply rtc_once. now apply (i_bpin NBUF b (mksys s None m) s').
  - apply rtc_once. now apply (i_bunpin NBUF b (mksys s None m) s').
  - apply rtc_once. apply (i_tick NBUF (mksys s None m)).
Qed.

(** Every state the cache goes through when the calls run one after the
    other is an observation point. *)
Lemma reachable_ireachable NBUF s :
  reachable NBUF s -> ireachable NBUF (mksys s None []).
Proof.
  intros (s0 & Hinit & Hsteps). revert s Hsteps. apply rtc_ind_r.
  - exists s0. split; [assumption|apply rtc_refl].
  - intros s1 s2 _ Hstep IH. destruct IH as (s0' & Hinit' & Hpath).
    exists s0'. split; [assumption|].
    transitivity (mksys s1 None []); [assumption|].
    apply step_path; [|assumption].
    apply IInv_ireachable. now exists s0'.
Qed.

(** ** Identities and chains at every observation point *)

(** Two processes miss on block 5 of device 1; the second one recycles a
    slot for it, up to the point where the slot is off its old chain and
    not yet on the new one. *)
Definition race_ops : list iop :=
  [IFind 7 1 5; IFind 8 1 5; IEvictLock 8 1 5; IRecheck] ++
  replicate 13 IScan ++ [IRecycle].

(** The second process finishes and reads the block; then the first
    takes the eviction lock and looks the block up again. *)
Definition recheck_ops : list iop :=
  race_ops ++ [ISplice; IEvictUnlock; ISleep 8 26; IFill 8 26; IEvictLock 7 1 5].

(** Slot 26 when the first process has found it at the second lookup:
    block 5 of device 1, read by process 8, with two references. *)
Definition race_slot26 : buf := mkbuf 1 1 5 (Some 8%nat) 2 (Some 19%nat) 0.

(** A miss of process [me] on block [bn] of device [d], up to the point
    where the slot to recycle is off its chain. *)
Definition miss_ops (me : nat) (d bn : Z) : list iop :=
  [IFind me d bn; IEvictLock me d bn; IRecheck] ++ replicate 13 IScan ++ [IRecycle].

(** On a pool of two slots: process 7 reads block 7 of device 1 into slot
    0, process 8 reads block 7 of device 2 into slot 1, process 7 gives
    slot 0 back, and process 9 misses on block 5 of device 2 and takes
    slot 0 off its chain. *)
Definition rebind_ops : list iop :=
  miss_ops 7 1 7 ++ [ISplice; IEvictUnlock; ISleep 7 0; IFill 7 0] ++
  miss_ops 8 2 7 ++ [ISplice; IEvictUnlock; ISleep 8 1; IFill 8 1] ++
  [IBrelseUnlock 7 0; IBrelseUnref 0] ++ miss_ops 9 2 5.

(** Why an observation point is a boundary of critical sections.  The
    section that rebinds a slot stores the device before the block number
    (lines 165 and 166): between the two stores slot 0, on its way from
    block 7 of device 1 to block 5 of device 2, carries the identity of
    slot 1, block 7 of device 2, which process 8 holds.  Both stores are
    in one section, under the eviction lock and the lock of the bucket the
    slot is on. *)
Lemma identity_inside_rebinding :
  ireachable 2 (iscenario 2 rebind_ops) /\
  evictor (iscenario 2 rebind_ops) = Some (9%nat, Moving 2 5 0) /\
  exists s',
    (bget_splice (Z.to_nat (hash 2 5)) 0 >> store (PBuf 0) Fdev (set_dev 2))
      (mem (iscenario 2 rebind_ops)) = Ret tt s' /\
    bufs s' = [mkbuf 1 2 7 None 0 None 0; mkbuf 1 2 7 (Some 8%nat) 1 None 0] /\
    evict_lock s' = true /\
    held (BucketLock (Z.to_nat (hash 2 5))) s' = Some true.
Proof.
  split; [reach_iscenario|]. split; [vm_compute; reflexivity|].
  vm_compute. eexists. repeat split; reflexivity.
Qed.

(** C1 (as amended): at every observation point, that is, whenever
    every process is between two of its critical sections, an eviction
    under way included, at most one slot carries a given identity other
    than (0,0), the identity every slot has after binit; and of the slots
    that carry one and the same identity, (0,0) included, at most one has
    ref_count > 0. *)
Theorem C1_one_slot_per_identity NBUF y i j bi bj :
  ireachable NBUF y ->
  bufs (mem y) !! i = Some bi -> bufs (mem y) !! j = Some bj ->
  dev bj = dev bi -> blockno bj = blockno bi ->
  (0 < refcnt bi /\ 0 < refcnt bj) \/ dev bi <> 0 \/ blockno bi <> 0 ->
  i = j.
Proof.
  intros Hreach Hi Hj Hd Hb Hcase.
  destruct (IInv_ireachable NBUF y Hreach) as (cs & (_ & _ & _ & _ & Hhome) & _ & _ & Hst).
  assert (Hbi : bound bi) by (destruct Hcase as [[Hr _]|Hid]; [now left|now right]).
  assert (Hbj : bound bj).
  { destruct Hcase as [[_ Hr]|Hid]; [now left|right]. now rewrite Hd, Hb. }
  (* the slot an eviction is moving has no reference, and no slot on a
     chain carries its identity, unless that identity is (0,0) *)
  assert (Hmov : forall c x, relocating y = Some c -> bufs (mem y) !! c = Some x ->
            refcnt x = 0 /\
            (dev x <> 0 \/ blockno x <> 0 -> absent (bufs (mem y)) cs (dev x) (blockno x))).
  { intros c x Hrel Hx. unfold relocating in Hrel. unfold stage_inv in Hst.
    destruct (evictor y) as [[me [| | |d bn c'|]]|]; try discriminate.
    injection Hrel as ->. destruct Hst as (_ & Hz & Hid).
    unfold refcnt_of in Hz. rewrite Hx in Hz. split; [exact Hz|]. now apply Hid. }
  destruct (decide (relocating y = Some i)) as [Hri|Hri].
  { destruct (decide (i = j)) as [|Hne]; [assumption|exfalso].
    destruct (Hmov i bi Hri Hi) as [Hz Habs].
    destruct Hcase as [[Hr _]|Hid]; [lia|].
    destruct (Hhome j bj Hj Hbj ltac:(congruence)) as (l & Hl & Hf).
    rewrite Hd, Hb in Hl, Hf. rewrite (Habs Hid l Hl) in Hf. discriminate. }
  destruct (decide (relocating y = Some j)) as [Hrj|Hrj].
  { exfalso. destruct (Hmov j bj Hrj Hj) as [Hz Habs].
    assert (Hid : dev bj <> 0 \/ blockno bj <> 0).
    { destruct Hcase as [[_ Hr]|Hid]; [lia|]. now rewrite Hd, Hb. }
    destruct (Hhome i bi Hi Hbi Hri) as (l & Hl & Hf).
    rewrite <- Hd, <- Hb in Hl, Hf. rewrite (Habs Hid l Hl) in Hf. discriminate. }
  destruct (Hhome i bi Hi Hbi Hri) as (l & Hl & Hfi).
  destruct (Hhome j bj Hj Hbj Hrj) as (l' & Hl' & Hfj).
  rewrite Hd, Hb in Hl', Hfj. congruence.
Qed.

Lemma C1_witness :
  ireachable 30 (iscenario 30 (recheck_ops ++ [IRecheck])) /\
  evictor (iscenario 30 (recheck_ops ++ [IRecheck])) = Some (7%nat, Rehit 26) /\
  bufs (mem (iscenario 30 (recheck_ops ++ [IRecheck]))) !! 26%nat = Some race_slot26 /\
  dev race_slot26 <> 0 /\
  26%nat = 26%nat.
Proof.
  set (y := iscenario 30 (recheck_ops ++ [IRecheck])).
  assert (Hr : ireachable 30 y) by reach_iscenario.
  assert (He : evictor y = Some (7%nat, Rehit 26)) by (vm_compute; reflexivity).
  assert (H26 : bufs (mem y) !! 26%nat = Some race_slot26) by (vm_compute; reflexivity).
  clearbody y.
  assert (Hd : dev race_slot26 <> 0) by discriminate.
  split; [exact Hr|]. split; [exact He|]. split; [exact H26|]. split; [exact Hd|].
  exact (C1_one_slot_per_identity 30 y 26 26 race_slot26 race_slot26 Hr H26 H26
           eq_refl eq_refl (or_intror (or_introl Hd))).
Defined.

(** C5 (as amended): at every observation point the slots are on the
    chains [cs], each on exactly one, but for at most one slot [limbo]
    that is on none; every slot on a chain with ref_count > 0 or with an
    identity other than (0,0) is on the chain of the bucket its identity
    hashes to.  A slot is on no chain only while the eviction lock is
    held, and it has ref_count 0: it is the slot an eviction is moving.
    So when the eviction lock is free every slot is on exactly one chain.
    Relocation runs entirely under the eviction lock: links and identities
    change only in sections that run with the eviction lock held from
    before they begin until after they end, and in the log of the cache
    since binit every store of a link or of an identity comes between an
    acquire of the eviction lock and the release that follows it. *)
Theorem C5_bound_slots_at_home NBUF y :
  ireachable NBUF y ->
  exists cs limbo,
    chains_of (mem y) cs /\
    limbo_list limbo ++ concat cs ≡ₚ seq 0 NBUF /\
    (forall i b, bufs (mem y) !! i = Some b ->
       0 < refcnt b \/ dev b <> 0 \/ blockno b <> 0 ->
       limbo <> Some i ->
       exists l, cs !! Z.to_nat (hash (dev b) (blockno b)) = Some l /\ i ∈ l) /\
    (forall c, limbo = Some c ->
       evict_lock (mem y) = true /\ refcnt_of (bufs (mem y)) c = 0) /\
    (evict_lock (mem y) = false -> wf NBUF (mem y) cs) /\
    (forall y', istep NBUF y y' ->
       layout (mem y') = layout (mem y) \/
       (evict_lock (mem y) = true /\ evict_lock (mem y') = true)) /\
    (exists s0 evs,
       binit NBUF (zero_state NBUF) = Ret tt s0 /\
       trace (mem y) = trace s0 ++ evs /\
       under_evict_lock false evs = Some (evict_lock (mem y))).
Proof.
  intros Hreach. pose proof (IInv_ireachable NBUF y Hreach) as Hinv.
  pose proof Hinv as (cs & (Hnb & Hnh & Hcs & Hp & Hhome) & He & _ & Hst).
  assert (Hlimbo : forall c, relocating y = Some c ->
            evict_lock (mem y) = true /\ refcnt_of (bufs (mem y)) c = 0).
  { intros c Hrel. unfold relocating in Hrel. unfold stage_inv in Hst.
    destruct (evictor y) as [[me [| | |d bn c'|]]|]; try discriminate.
    injection Hrel as ->. split; [exact He|]. now destruct Hst as (_ & Hz & _). }
  exists cs, (relocating y). split; [assumption|]. split; [assumption|].
  split; [|split; [exact Hlimbo|split; [|split]]].
  - intros i b Hi Hbound Hne. destruct (Hhome i b Hi Hbound Hne) as (l & Hl & Hf).
    exists l. split; [assumption|]. now apply find_id_Some in Hf as [Hin _].
  - intros Hfree. destruct (relocating y) as [c|] eqn:Hrel.
    + destruct (Hlimbo c eq_refl) as [Hheld _]. congruence.
    + repeat split; assumption.
  - intros y' Hstep. now apply (istep_spec NBUF y y' Hinv Hstep).
  - now apply log_ireachable.
Qed.

(** The theorem at work while process 8 is moving slot 26 from chain 0
    to chain 6: the slot is off chain 0 and not yet on chain 6. *)
Lemma C5_witness :
  ireachable 30 (iscenario 30 race_ops) /\
  evictor (iscenario 30 race_ops) = Some (8%nat, Moving 1 5 26) /\
  chain_of (mem (iscenario 30 race_ops)) 0 = Some [13; 0]%nat /\
  chain_of (mem (iscenario 30 race_ops)) 6 = Some [19; 6]%nat /\
  exists cs limbo,
    chains_of (mem (iscenario 30 race_ops)) cs /\
    limbo_list limbo ++ concat cs ≡ₚ seq 0 30 /\
    (forall c, limbo = Some c -> evict_lock (mem (iscenario 30 race_ops)) = true).
Proof.
  set (y := iscenario 30 race_ops).
  assert (Hr : ireachable 30 y) by reach_iscenario.
  assert (He : evictor y = Some (8%nat, Moving 1 5 26)) by (vm_compute; reflexivity).
  assert (H0 : chain_of (mem y) 0 = Some [13; 0]%nat) by (vm_compute; reflexivity).
  assert (H6 : chain_of (mem y) 6 = Some [19; 6]%nat) by (vm_compute; reflexivity).
  clearbody y. split; [exact Hr|]. split; [exact He|]. split; [exact H0|].
  split; [exact H6|].
  destruct (C5_bound_slots_at_home 30 y Hr) as (cs & limbo & Hcs & Hp & _ & Hl & _).
  exists cs, limbo. split; [exact Hcs|]. split; [exact Hp|].
  intros c Hc. exact (proj1 (Hl c Hc)).
Defined.

(** ** The second lookup *)

(** X15: the second lookup of bget, made with the eviction lock held,
    always returns.  It finds slot [b] exactly when [b] carries the block:
    a slot that another process has bound to the block since the first
    lookup missed.  Then the slot gets one more reference and bget goes on
    to the release of the eviction lock, without a scan.  It finds nothing
    only when no slot with ref_count > 0 and no slot with an identity
    other than (0,0) carries the block; then bget goes on to scan the
    buckets from bucket 0. *)
Theorem X15_second_lookup NBUF y me d bn :
  ireachable NBUF y -> evictor y = Some (me, Checking d bn) ->
  exists r s',
    bget_find NBUF d bn (mem y) = Ret r s' /\
    evict_lock s' = true /\
    match r with
    | Some b =>
        (exists bb, bufs (mem y) !! b = Some bb /\ dev bb = d /\ blockno bb = bn) /\
        bufs s' = alter incr_refcnt b (bufs (mem y)) /\
        ireachable NBUF (mksys s' (Some (me, Rehit b)) (missed y))
    | None =>
        (forall i bi, bufs (mem y) !! i = Some bi -> dev bi = d -> blockno bi = bn ->
           ~ (0 < refcnt bi \/ dev bi <> 0 \/ blockno bi <> 0)) /\
        bufs s' = bufs (mem y) /\
        ireachable NBUF (mksys s' (Some (me, Scanning d bn 0 None None)) (missed y))
    end.
Proof.
  intros Hreach Hev. destruct (IInv_ireachable NBUF y Hreach) as (cs & Hinv).
  pose proof Hinv as (Hc & He & _). rewrite Hev in He. simpl in He.
  destruct (cache_inv_lookup NBUF _ cs _ (Z.to_nat (hash d bn)) Hc (hash_lt d bn))
    as [lh Hlh].
  pose proof (IInv_held NBUF y cs _ Hinv (hash_lt d bn)) as Hheld.
  rewrite Hev in Hheld. simpl in Hheld.
  pose proof Hc as (_ & _ & Hcs & _ & Hhome).
  pose proof (bget_find_run NBUF d bn (mem y) cs lh Hcs Hlh
                (cache_inv_chain_length NBUF _ cs _ _ _ Hc Hlh) Hheld) as Hrun.
  destruct Hreach as (s0 & Hinit & Hpath).
  destruct (find_id (bufs (mem y)) d bn lh) as [b|] eqn:Hfind.
  - eexists (Some b), _. split; [exact Hrun|]. split; [exact He|].
    split; [now apply (find_id_Some _ _ _ _ _ Hfind)|]. split; [reflexivity|].
    exists s0. split; [assumption|]. eapply rtc_r; [exact Hpath|].
    now apply (i_recheck_hit NBUF me d bn b y).
  - eexists None, _. split; [exact Hrun|]. split; [exact He|]. split; [|split].
    + intros i bi Hi Hd Hbn Hbound.
      assert (Hrel : relocating y <> Some i) by (unfold relocating; now rewrite Hev).
      destruct (Hhome i bi Hi Hbound Hrel) as (l & Hl & Hf).
      rewrite Hd, Hbn in Hl, Hf. congruence.
    + reflexivity.
    + exists s0. split; [assumption|]. eapply rtc_r; [exact Hpath|].
      now apply (i_recheck_miss NBUF me d bn y).
Qed.

Lemma X15_witness :
  ireachable 30 (iscenario 30 recheck_ops) /\
  evictor (iscenario 30 recheck_ops) = Some (7%nat, Checking 1 5) /\
  exists r s', bget_find 30 1 5 (mem (iscenario 30 recheck_ops)) = Ret r s' /\
    evict_lock s' = true.
Proof.
  set (y := iscenario 30 recheck_ops).
  assert (Hr : ireachable 30 y) by reach_iscenario.
  assert (He : evictor y = Some (7%nat, Checking 1 5)) by (vm_compute; reflexivity).
  clearbody y. split; [exact Hr|]. split; [exact He|].
  destruct (X15_second_lookup 30 y 7 1 5 Hr He) as (r & s' & Hrun & Hl & _).
  exists r, s'. split; [exact Hrun|exact Hl].
Defined.

(** X16: why bget looks the block up a second time.  Processes 7 and 8
    both miss on block 5 of device 1; process 8 takes the eviction lock
    first, binds slot 26 to the block, reads it and leaves; then process 7
    takes the eviction lock.  Its second lookup finds slot 26, which its
    first lookup had not found.  Were the scan and the rebinding run from
    that state instead, as they are after a second miss, they would bind
    slot 13 to the same block: two slots, each with a reference, for one
    block. *)
Theorem X16_second_lookup_is_needed :
  ireachable 30 (iscenario 30 recheck_ops) /\
  evictor (iscenario 30 recheck_ops) = Some (7%nat, Checking 1 5) /\
  (exists s', bget_find 30 1 5 (mem (iscenario 30 recheck_ops)) = Ret (Some 26%nat) s') /\
  exists s',
    (let* '(prb, pbk) := bget_scan 30 (Z.to_nat NBUCKET) 0 None None in
     bget_recycle 7 1 5 (Z.to_nat (hash 1 5)) prb pbk) (mem (iscenario 30 recheck_ops))
      = Ret 13%nat s' /\
    bufs s' !! 13%nat = Some (mkbuf 0 1 5 (Some 7%nat) 1 (Some 26%nat) 0) /\
    bufs s' !! 26%nat = Some (mkbuf 1 1 5 (Some 8%nat) 1 (Some 19%nat) 0).
Proof.
  split; [reach_iscenario|]. split; [vm_compute; reflexivity|].
  split; vm_compute; eexists; repeat split; reflexivity.
Qed.
